(* ===== verification/_CoqProject ===== *)
-Q . S2P
Prelude.v
RustStr.v
Fs.v
Health.v
NetAddr.v
Conn.v
Outbound.v
Fetch.v
Socks5.v
Socks4.v
HttpProxy.v
Mixed.v
Dns.v
Doh.v
Huffman.v
Varint.v
Qpack.v
H2.v
Dataplane.v
Tunnel.v
Netstack.v
NetLife.v
Endpoint.v
Config.v
Rfc4648.v
Handshake.v
Registration.v
Masque.v
MasqueLink.v
MasqueOutlet.v
H2Dev.v
NetOutlet.v
Timing.v
Outlets.v
Psiphon.v
Supervisor.v
Service.v
TestKit.v
TestsWire.v
TestsControl.v
TestsNet.v
TestsAssoc.v
