(* ===== verification/Prelude.v ===== *)
(** * warp-socks: a verification development

    warp-socks is a proxy server: it accepts SOCKS5, SOCKS4(a) and HTTP clients and
    carries their traffic through a Cloudflare WARP tunnel (MASQUE over HTTP/3,
    WireGuard, or MASQUE over HTTP/2 through a Psiphon hop).  A supervisor
    registers the device, chooses and verifies a tunnel, publishes it to the
    listener, watches it and rebuilds it when it fails.

    ** Parts, and the files that model them

    The sources are translated into executable definitions; state is
    passed explicitly, errors are values of [res], [option] or [poll], bytes are
    integers in [0, 256), maps are stdpp's [gmap].  A loop is a [Fixpoint] on its
    input where there is one, else it has fuel that is proved to be enough.

    - [Prelude]: results, polls, machine integers, byte strings, tactics, hints.
      [RustStr]: the parts of [str] and UTF-8 the sources use.
      [NetAddr]: the standard library's addresses, parsed and printed.
      [Conn]: a client connection as its script of input and its output.
    - Front end: [Socks5] ([socks5.rs]: handshake, CONNECT, UDP header codec; module
      [Assoc]: UDP ASSOCIATE as a state machine with its semaphores), [Socks4]
      ([socks4.rs]), [HttpProxy] ([http_proxy.rs]; module [Drivers]: who owns the task
      of an upstream connection), [Mixed] ([mixed.rs]: listeners with their socket
      calls, admission, dispatch, behaviour while no outlet is published).
    - Outlets: [Outbound] (the traits of [outbound/mod.rs] as a record with the law
      the front end relies on; [relay.rs], with the buffer and the reads and writes of
      each [tokio::io::copy]; reading a response of [outbound/https.rs];
      the dialling race of [outbound/ip.rs]), [Fetch] (the whole of [https::get] and
      both probes of [health/probe.rs]), [NetOutlet] (stack set-up and dialling of the
      WireGuard and MASQUE-H2 outlets: [outbound/ip.rs], [outbound/wireguard.rs],
      [outbound/masque/h2_outbound.rs], [Net::new_inner]), [Outlets] (how those two
      are established, and [bin/handshake_probe.rs]), [Timing] (the nested timeouts of
      the dials and of the probe, with the time every await takes).
    - Name resolution: [Dns] ([dns.rs]), [Doh] ([outbound/masque/doh.rs]).
    - MASQUE over HTTP/3 ([outbound/masque/mod.rs] and the files beside it): [Huffman],
      [Varint], [Qpack] (HPACK Huffman, QPACK and H3 frames), [Masque] (the CONNECT
      exchange and DATA framing), [MasqueLink] (module [Edge]: the pinned TLS
      configuration of [tls.rs] and the dialling race; [Reconnect]: concurrent callers
      of [Masque::open]; [Framed]: the stream with its pump task), [MasqueOutlet] (DoH
      over tunnel streams and [connect_tcp]).  MASQUE over HTTP/2 ([h2.rs]): [H2]
      (capsules, edge search), [H2Dev] (stream set-up and the packet device).
    - WireGuard: [Tunnel] and [Handshake] ([tunnel.rs]), [Netstack] ([netstack.rs]:
      modules [Ports], [Reactor], [Streams]), [NetLife] (the life of a [Net]: its task,
      socket table and calls in progress as a state machine that steps at the table
      lock; [spawn_reporter]), [Dataplane] ([dataplane.rs]).
    - Psiphon: [Psiphon] ([outbound/psiphon/]): the signed server list, host keys, the
      byte stream over an SSH channel ([Bridge]), and opening channels ([Opening]).
    - Control: [Fs] ([fsutil.rs] on a file map with injected faults), [Health]
      ([health/]), [Endpoint] ([endpoint/]), [Config] ([config.rs], [appconfig.rs],
      and the configuration part of [registration/teams.rs]), [Registration]
      ([registration/], and the commands of [bin/warp-socks.rs]), [Supervisor]
      (the recovery loop of [supervisor.rs]), [Service] (the running process: connection
      tasks beside the recovery loop, [Supervisor::run] and [main], and what dropping
      the proxy ends).  [Rfc4648]: standard base64 as a function, with the laws that
      [Config] and [Registration] assume of the crate.
    - The repository's own unit tests, run on the model: [TestKit] (a test as a
      computation that fails at its first false assertion), [TestsWire] (codecs and
      addresses), [TestsControl] (configuration, registration, health, supervision),
      [TestsNet] (tunnel, stack, outlets, relays), [TestsAssoc] (UDP ASSOCIATE and
      the client listeners).  Every test but one is a definition under its Rust
      name, and evaluates to success.

    Components meet at interfaces.  The front end is proved against any [Outbound]
    with [LawfulOutbound]; [NetOutlet], [MasqueOutlet] and [Mixed] give instances.  The
    reactor is proved against any [AsyncDevice]; the WireGuard tunnel and the
    CONNECT-IP device are instances.  Third-party code is a class, with the
    documented behaviour a theorem needs as a class of laws, and every such class
    has a concrete instance in a witness:
    boringtun ([Tunn], [TunnLaws]), quinn's integers ([Varint]), smoltcp's sockets
    and packets, base64, serde_json ([StateCodec], [AccountCodec], [RegCodec]),
    P-256 and X.509 ([P256], [X509]), rustls and quinn's dialling ([Rustls], [world_ok]),
    zlib, SHA-256 and RSA ([PackageCodec]), smoltcp's sockets in [NetLife] ([Smol], [SmolLaws]).

    ** What the theorems show

    - Isolation and bounds of the front end: a UDP association forwards only its
      client's datagrams and answers only that client, under every interleaving
      of its workers, with every permit accounted for; requests are understood
      exactly or refused with the protocol's reply; at most 64 connections are
      served, and only LAN clients by LAN-only listeners; hop-by-hop headers never
      leave.
    - Faithful transport: the relay, the H3 frames and the pumped stream over them,
      the CONNECT-IP capsules and device, the reactor, the outer WireGuard queue and
      the Psiphon bridge deliver a prefix of what they were given, in order, with
      exactly counted drops, within their buffers, and report ends and errors
      truthfully.
    - Exact codecs: Huffman decoding inverts the code table, header blocks, DNS
      responses and HTTP responses are read as specified for every chunking; the
      WireGuard file, the endpoint history and MASQUE credentials read back what
      was written.
    - Resolution and dialling: answers come only from the queried server or the
      cache; a dialled address is one of the target's; either address family alone
      is enough; no bare name reaches the MASQUE edge, and every tunnel stream whose
      CONNECT was not answered with 200 is released.
    - One MASQUE link: callers that find the connection closed share one
      reconnection, whatever the interleaving and wherever they are cancelled, and
      every connection belongs to an edge with the registered key.
    - The network stack over its life: the socket table holds exactly the sockets
      someone owns, every call finds its socket and ports stay unique, whatever is
      opened, cancelled, dropped or stopped in between; after the stop every call that
      tests the flag returns at its next poll, and [stranded_until_polled] describes the
      one race after which the stack leaves it to the caller's task to poll again.
    - Time: the stages of a MASQUE dial fit its budget, unless another caller's
      reconnection has to be waited for; the two-family dial
      reaches an address by a stated time and refines the untimed race; the
      default probe covers both; the health check's window does not overflow.
    - Fetching: a body comes only from the verified host within the size limit, and
      the two probes give the same verdict.
    - Termination and progress: polls of the tunnel return; the handshake ends by its
      deadline, and succeeds when the response arrives in time; Teams registration
      ends within its retries, with the waits it owes; a relay ends within its grace
      period after the client's end.
    - Supervision: the recovery loop refines an abstract service that is either down
      or up with an outlet that passed a WARP probe; back-off stays within its
      bounds; a WireGuard outlet that is chosen is recorded on disk; Psiphon
      servers come only from a list signed with the built-in key, and with a country
      selected the loop publishes only outlets over such a server.  However clients
      interleave with the loop they are handed only to verified outlets, and the
      process ends only for a signal or a local failure; it panics only where a
      call it depends on does, panics of calls being propagated as the code unwinds.

    ** Bounds and fuel

    [decap_loop] and [pump_loop] have two more units of fuel than packets wait inside
    boringtun ([decapsulate_flushes]); bursts are bounded by the constants of the
    code; scripts of network outcomes (probe bodies, HTTP replies, completions) are
    lists, and a theorem that needs enough of them says so.  Clocks are integers
    given with each event.

    ** Not modelled

    The inside of the QUIC, TLS, SSH and H2 handshakes, hyper's and reqwest's
    connection loops and the endpoint's UDP socket are third-party code without state
    of this program, given by their outcomes.  Log lines and the logger's format,
    [log_candidate_plan], module lists and re-exports are left out; flushes that only
    pass through to the stream below and the accessors of records have no definition
    of their own.  Waker registration is modelled for the stack's sockets
    ([Streams], [NetLife]) only.  The unit test
    [dropping_uncommitted_proxy_aborts_listener_task] observes a bare tokio task
    handle and is not replayed; [proxy_dropped] states what it checks.  smoltcp's own TCP is a class; retransmission is not
    described. *)
From stdpp Require Export base tactics option list list_numbers numbers strings gmap.
From Stdlib Require Export ZArith Lia.

#[export] Set Default Goal Selector "1".
Open Scope Z_scope.

(** ** Outcomes of fallible Rust code

    A Rust function of type [Result<A, E>] can return [Ok], return [Err], or
    panic (an index out of range, an overflowing addition).  [res E A] keeps the
    three apart, so that "never panics" is a statement about the definition. *)
Inductive res (E A : Type) : Type :=
| Ok (a : A)
| Err (e : E)
| Panic.
Arguments Ok {E A} a.
Arguments Err {E A} e.
Arguments Panic {E A}.

#[export] Instance res_ret E : MRet (res E) := fun _ a => Ok a.
#[export] Instance res_bind E : MBind (res E) := fun _ _ k m =>
  match m with Ok a => k a | Err e => Err e | Panic => Panic end.

Definition is_ok {E A} (r : res E A) : bool :=
  match r with Ok _ => true | _ => false end.

Definition no_panic {E A} (r : res E A) : Prop := r <> Panic.

(** [Result::ok] of a computation that does not panic. *)
Definition res_ok {E A} (r : res E A) : option A :=
  match r with Ok a => Some a | _ => None end.

Definition map_err {E F A} (f : E -> F) (r : res E A) : res F A :=
  match r with Ok a => Ok a | Err e => Err (f e) | Panic => Panic end.

Definition ok_or {E A} (o : option A) (e : E) : res E A :=
  match o with Some a => Ok a | None => Err e end.

(** [if c { bail!(e) }] *)
Definition bail_if {E} (c : bool) (e : E) : res E unit :=
  if c then Err e else Ok tt.

(** [std::task::Poll] *)
Inductive poll (A : Type) := Ready (a : A) | Pending.
Arguments Ready {A} a.
Arguments Pending {A}.

(** ** Machine integers: a w-bit unsigned integer is a [Z] in [0, 2^w). *)
Definition U8_MAX : Z := 255.
Definition U16_MAX : Z := 65535.
Definition U32_MAX : Z := 4294967295.
Definition U64_MAX : Z := 18446744073709551615.

Definition u16 (z : Z) : Prop := 0 <= z <= U16_MAX.
Definition u32 (z : Z) : Prop := 0 <= z <= U32_MAX.
Definition u64 (z : Z) : Prop := 0 <= z <= U64_MAX.

Definition wrap64 (z : Z) : Z := z mod 18446744073709551616.
Definition u32_saturating_add (a b : Z) : Z := Z.min U32_MAX (a + b).
Definition u64_saturating_add (a b : Z) : Z := Z.min U64_MAX (a + b).
Definition saturating_sub (a b : Z) : Z := Z.max 0 (a - b).

(** [rng.gen_range(lo..=hi)] on a raw draw. *)
Definition gen_range (lo hi r : Z) : Z := lo + r mod (hi - lo + 1).

(** ** Byte strings *)
Abbreviation bytes := (list Z).

Definition is_byte (z : Z) : Prop := 0 <= z < 256.
Abbreviation bytes_ok := (Forall is_byte).

Definition zlen {A} (l : list A) : Z := Z.of_nat (length l).

(** [buf[i]]: panics out of range. *)
Definition idx {E} (buf : bytes) (i : Z) : res E Z :=
  if (0 <=? i) && (i <? zlen buf)
  then match buf !! Z.to_nat i with Some b => Ok b | None => Panic end
  else Panic.

(** [&buf[a..b]]: panics unless [a <= b <= len]. *)
Definition slice {E} (buf : bytes) (a b : Z) : res E bytes :=
  if (0 <=? a) && (a <=? b) && (b <=? zlen buf)
  then Ok (take (Z.to_nat (b - a)) (drop (Z.to_nat a) buf))
  else Panic.

(** [uN::from_be_bytes] and [uN::to_be_bytes]. *)
Definition be_val (bs : bytes) : Z := fold_left (fun acc b => acc * 256 + b) bs 0.

Fixpoint to_be (n : nat) (v : Z) : bytes :=
  match n with
  | O => []
  | S n' => to_be n' (v / 256) ++ [v mod 256]
  end.

(** The bytes of an ASCII literal. *)
Fixpoint str_bytes (s : string) : bytes :=
  match s with
  | EmptyString => []
  | String a s' => Z.of_N (Ascii.N_of_ascii a) :: str_bytes s'
  end.

Arguments str_bytes s%_string : simpl never.

(** ** [std::io::ErrorKind], the kinds the sources produce or test. *)
Inductive ErrorKind :=
| ConnectionRefused | ConnectionReset | ConnectionAborted | NotConnected
| AddrInUse | AddrNotAvailable | BrokenPipe | WouldBlock | InvalidInput
| InvalidData | TimedOut | UnexpectedEof | Unsupported | PermissionDenied | WriteZero | Other.

#[export] Instance ErrorKind_eq_dec : EqDecision ErrorKind.
Proof. solve_decision. Defined.

Lemma gen_range_in lo hi r : lo <= hi -> lo <= gen_range lo hi r <= hi.
Proof. intros H. unfold gen_range. pose proof (Z.mod_pos_bound r (hi - lo + 1)). lia. Qed.

(** ** Automation *)
Create HintDb ws discriminated.
Create Rewrite HintDb wslen.

#[export] Hint Unfold is_byte u16 u32 u64 : ws.

(** [res_inv H] takes apart an equation on a computation of the result monad. *)
Ltac res_step H :=
  match type of H with
  | Ok _ = Ok _ => injection H as H
  | context [match ?x with _ => _ end] => destruct x eqn:?; try discriminate H
  end.

Ltac zbool :=
  repeat match goal with
  | H : (_ && _)%bool = true |- _ => apply andb_true_iff in H; destruct H
  | H : (_ && _)%bool = false |- _ => apply andb_false_iff in H
  | H : (_ || _)%bool = true |- _ => apply orb_true_iff in H
  | H : (_ || _)%bool = false |- _ => apply orb_false_iff in H; destruct H
  | H : negb _ = true |- _ => apply negb_true_iff in H
  | H : negb _ = false |- _ => apply negb_false_iff in H
  | H : (_ <=? _) = true |- _ => apply Z.leb_le in H
  | H : (_ <=? _) = false |- _ => apply Z.leb_gt in H
  | H : (_ <? _) = true |- _ => apply Z.ltb_lt in H
  | H : (_ <? _) = false |- _ => apply Z.ltb_ge in H
  | H : (_ =? _) = true |- _ => apply Z.eqb_eq in H
  | H : (_ =? _) = false |- _ => apply Z.eqb_neq in H
  end.

(** Take a boolean guard apart, decided propositions included. *)
Ltac guards :=
  zbool;
  repeat match goal with
  | H : bool_decide _ = true |- _ => apply bool_decide_eq_true in H
  | H : bool_decide _ = false |- _ => apply bool_decide_eq_false in H
  end.

(** Decide the boolean comparison in the goal by arithmetic. *)
Ltac zcase :=
  match goal with
  | |- context [Z.ltb ?a ?b] => destruct (Z.ltb_spec a b)
  | |- context [Z.leb ?a ?b] => destruct (Z.leb_spec a b)
  | |- context [Z.eqb ?a ?b] => destruct (Z.eqb_spec a b)
  end.

Ltac ztrue :=
  match goal with
  | |- context [Z.ltb ?a ?b] => rewrite (proj2 (Z.ltb_lt a b)) by lia
  | |- context [Z.leb ?a ?b] => rewrite (proj2 (Z.leb_le a b)) by lia
  | |- context [Z.eqb ?a ?b] => rewrite (proj2 (Z.eqb_eq a b)) by lia
  end.

Ltac zfalse :=
  match goal with
  | |- context [Z.ltb ?a ?b] => rewrite (proj2 (Z.ltb_ge a b)) by lia
  | |- context [Z.leb ?a ?b] => rewrite (proj2 (Z.leb_gt a b)) by lia
  | |- context [Z.eqb ?a ?b] => rewrite (proj2 (Z.eqb_neq a b)) by lia
  end.

(** Evaluate every comparison arithmetic decides, then close the goal. *)
Ltac zdone := repeat first [ztrue | zfalse]; cbn [andb orb negb]; try done; try (f_equal; lia); try lia.

(** ** Lists and lengths *)
Lemma zlen_nonneg {A} (l : list A) : 0 <= zlen l.
Proof. unfold zlen. lia. Qed.

Lemma zlen_app {A} (l k : list A) : zlen (l ++ k) = zlen l + zlen k.
Proof. unfold zlen. rewrite length_app. lia. Qed.

Lemma zlen_cons {A} (x : A) l : zlen (x :: l) = 1 + zlen l.
Proof. unfold zlen. simpl. lia. Qed.

Lemma zlen_nil {A} : zlen (@nil A) = 0.
Proof. done. Qed.

Lemma zlen_take {A} n (l : list A) : 0 <= n <= zlen l -> zlen (take (Z.to_nat n) l) = n.
Proof. unfold zlen. intros. rewrite length_take. lia. Qed.

Lemma zlen_drop {A} n (l : list A) : 0 <= n <= zlen l -> zlen (drop (Z.to_nat n) l) = zlen l - n.
Proof. unfold zlen. intros. rewrite length_drop. lia. Qed.

Lemma take_zlen_take {A} n (l : list A) : take (Z.to_nat (zlen (take n l))) l = take n l.
Proof.
  unfold zlen. rewrite Nat2Z.id, length_take. destruct (Nat.le_ge_cases n (length l)); [by rewrite Nat.min_l|by rewrite Nat.min_r, !take_ge by lia].
Qed.

#[export] Hint Rewrite @zlen_app @zlen_cons @zlen_nil : wslen.

(** Lengths in the goal and the context, then linear arithmetic. *)
Ltac zpos l :=
  lazymatch goal with
  | _ : 0 <= zlen l |- _ => fail
  | _ => pose proof (zlen_nonneg l)
  end.
Ltac zl :=
  autorewrite with wslen in *;
  repeat match goal with
  | |- context [zlen ?l] => zpos l
  | _ : context [zlen ?l] |- _ => zpos l
  end;
  lia.

Lemma rev_replicate {A} n (x : A) : rev (replicate n x) = replicate n x.
Proof. induction n as [|n IH]; simpl; [done|]. by rewrite IH, <-replicate_cons_app. Qed.

Lemma idx_ok {E} buf i : 0 <= i < zlen buf -> exists v, idx (E:=E) buf i = Ok v /\ buf !! Z.to_nat i = Some v.
Proof.
  intros [H0 H1]. unfold idx. do 2 ztrue. simpl.
  destruct (lookup_lt_is_Some_2 buf (Z.to_nat i)) as [v Hv].
  - unfold zlen in H1. lia.
  - rewrite Hv. eauto.
Qed.

Lemma idx_app_r {E} pre suf i :
  0 <= i -> idx (E:=E) (pre ++ suf) (zlen pre + i) = idx suf i.
Proof.
  intros Hi. unfold idx. rewrite zlen_app.
  pose proof (zlen_nonneg pre).
  rewrite lookup_app_r by (unfold zlen; lia).
  replace (Z.to_nat (zlen pre + i) - length pre)%nat with (Z.to_nat i) by (unfold zlen; lia).
  destruct (Z.ltb_spec i (zlen suf)).
  - repeat ztrue. done.
  - rewrite (proj2 (Z.ltb_ge _ _)) by lia. rewrite !andb_false_r. done.
Qed.

Lemma idx_hd {E} x l : idx (E:=E) (x :: l) 0 = Ok x.
Proof. unfold idx. rewrite zlen_cons. pose proof (zlen_nonneg l). do 2 ztrue. done. Qed.

Lemma idx_tl {E} x l n : 0 < n -> idx (E:=E) (x :: l) n = idx l (n - 1).
Proof.
  intros Hn. replace n with (zlen [x] + (n - 1)) at 1 by (change (zlen [x]) with 1; lia).
  exact (idx_app_r [x] l (n - 1) ltac:(lia)).
Qed.

(** [idx] of a list that starts with a known prefix. *)
Lemma idx_at {E} pre x suf n : n = zlen pre -> idx (E:=E) (pre ++ x :: suf) n = Ok x.
Proof.
  intros ->. replace (zlen pre) with (zlen pre + 0) by lia.
  rewrite idx_app_r by lia. apply idx_hd.
Qed.

Lemma idx_mid {E} pre mid suf k x n :
  mid !! k = Some x -> n = zlen pre + Z.of_nat k -> idx (E:=E) (pre ++ mid ++ suf) n = Ok x.
Proof.
  intros Hk ->. pose proof (lookup_lt_Some _ _ _ Hk). rewrite idx_app_r by lia. unfold idx.
  rewrite zlen_app. pose proof (zlen_nonneg suf). assert (Z.of_nat k < zlen mid) by (unfold zlen; lia).
  do 2 ztrue. rewrite Nat2Z.id, lookup_app_l, Hk by done. done.
Qed.

Lemma idx_byte {E} buf i v : bytes_ok buf -> idx (E:=E) buf i = Ok v -> is_byte v.
Proof.
  unfold idx. intros Hb H. destruct (_ && _); [|done].
  destruct (buf !! Z.to_nat i) eqn:Hl; [|done]. injection H as <-.
  eapply Forall_lookup_1; eauto.
Qed.

Lemma idx_inv {E} buf i v : idx (E:=E) buf i = Ok v -> 0 <= i < zlen buf /\ buf !! Z.to_nat i = Some v.
Proof.
  unfold idx. destruct (_ && _) eqn:Hb; [|done]. zbool.
  destruct (buf !! Z.to_nat i) eqn:Hl; [|done]. intros [= ->]. auto.
Qed.

Lemma slice_ok {E} buf a c : 0 <= a <= c -> c <= zlen buf ->
  slice (E:=E) buf a c = Ok (take (Z.to_nat (c - a)) (drop (Z.to_nat a) buf)).
Proof. intros [H0 H1] H2. unfold slice. do 3 ztrue. done. Qed.

Lemma slice_at {E} pre mid suf a c :
  a = zlen pre -> c = zlen pre + zlen mid -> slice (E:=E) (pre ++ mid ++ suf) a c = Ok mid.
Proof.
  intros -> ->. pose proof (zlen_nonneg pre). pose proof (zlen_nonneg mid).
  rewrite slice_ok; [|lia|rewrite !zlen_app; pose proof (zlen_nonneg suf); lia].
  f_equal. replace (Z.to_nat (zlen pre)) with (length pre) by (unfold zlen; lia).
  rewrite drop_app_length.
  replace (Z.to_nat (zlen pre + zlen mid - zlen pre)) with (length mid) by (unfold zlen; lia).
  apply take_app_length.
Qed.

Lemma slice_inv {E} buf a c r : slice (E:=E) buf a c = Ok r ->
  0 <= a <= c /\ c <= zlen buf /\ r = take (Z.to_nat (c - a)) (drop (Z.to_nat a) buf).
Proof. unfold slice. destruct (_ && _) eqn:H; [|done]. zbool. intros [= <-]. auto. Qed.

Lemma slice_zlen {E} buf a c r : slice (E:=E) buf a c = Ok r -> zlen r = c - a.
Proof.
  intros (H1 & H2 & ->)%slice_inv.
  rewrite zlen_take; [done|]. rewrite zlen_drop; lia.
Qed.

Lemma slice_bytes {E} buf a c r : bytes_ok buf -> slice (E:=E) buf a c = Ok r -> bytes_ok r.
Proof. intros Hb (_ & _ & ->)%slice_inv. apply Forall_take, Forall_drop, Hb. Qed.

(** ** Sums over lists *)
Definition zsum {A} (f : A -> Z) (l : list A) : Z := fold_right (fun x acc => f x + acc) 0 l.

Lemma zsum_app {A} (f : A -> Z) l k : zsum f (l ++ k) = zsum f l + zsum f k.
Proof. induction l as [|x l IH]; simpl; [done|]. rewrite IH. lia. Qed.

Lemma zsum_insert {A} (f : A -> Z) l i x y :
  l !! i = Some x -> zsum f (<[i:=y]> l) = zsum f l - f x + f y.
Proof.
  revert i. induction l as [|a l IH]; intros [|i] H; simpl in *; simplify_eq; [lia|].
  rewrite (IH i H). lia.
Qed.

Lemma zsum_nonneg {A} (f : A -> Z) l : (forall x, 0 <= f x) -> 0 <= zsum f l.
Proof. intros H. induction l as [|x l IH]; simpl; [lia|]. specialize (H x). lia. Qed.

(** ** Big-endian integers *)
Lemma be_val_snoc bs x : be_val (bs ++ [x]) = be_val bs * 256 + x.
Proof. unfold be_val. rewrite fold_left_app. done. Qed.

Lemma to_be_length n v : length (to_be n v) = n.
Proof. revert v. induction n; intros; simpl; [done|]. rewrite length_app, IHn. simpl. lia. Qed.

Lemma to_be_zlen n v : zlen (to_be n v) = Z.of_nat n.
Proof. unfold zlen. by rewrite to_be_length. Qed.
#[export] Hint Rewrite to_be_zlen : wslen.

Lemma to_be_bytes n v : bytes_ok (to_be n v).
Proof.
  revert v. induction n; intros; simpl; [constructor|].
  apply Forall_app; split; [auto|]. constructor; [|constructor].
  unfold is_byte. apply Z.mod_pos_bound. lia.
Qed.
#[export] Hint Resolve to_be_bytes : ws.

Lemma be_val_to_be n v : 0 <= v < 256 ^ Z.of_nat n -> be_val (to_be n v) = v.
Proof.
  revert v. induction n as [|n IH]; intros v Hv.
  - change (256 ^ Z.of_nat 0) with 1 in Hv. unfold be_val. simpl. lia.
  - simpl. rewrite be_val_snoc, IH.
    + pose proof (Z.div_mod v 256). lia.
    + rewrite Nat2Z.inj_succ, Z.pow_succ_r in Hv by lia. split.
      * apply Z.div_pos; lia.
      * apply Z.div_lt_upper_bound; lia.
Qed.

Lemma be_val_bound bs : bytes_ok bs -> 0 <= be_val bs < 256 ^ zlen bs.
Proof.
  induction bs as [|x bs IH] using rev_ind; intros H.
  - unfold zlen, be_val. simpl. lia.
  - apply Forall_app in H as [H Hx]. inversion_clear Hx as [|? ? Hb _].
    specialize (IH H). rewrite be_val_snoc, zlen_app.
    change (zlen [x]) with 1. rewrite Z.pow_add_r, Z.pow_1_r by (pose proof (zlen_nonneg bs); lia).
    unfold is_byte in Hb. nia.
Qed.

Lemma to_be_be_val bs : bytes_ok bs -> to_be (length bs) (be_val bs) = bs.
Proof.
  induction bs as [|x bs IH] using rev_ind; intros H; [done|].
  apply Forall_app in H as [H Hx]. inversion_clear Hx as [|? ? Hb _].
  rewrite length_app, Nat.add_comm. simpl. rewrite be_val_snoc.
  unfold is_byte in Hb.
  rewrite Z.div_add_l, Z.div_small, Z.add_0_r, IH by (auto; lia).
  f_equal. f_equal. rewrite Z.add_comm, Z.mod_add, Z.mod_small by lia. done.
Qed.

(** ** The result monad *)
Lemma bind_ok {E A B} (m : res E A) (k : A -> res E B) c :
  m ≫= k = Ok c <-> exists a, m = Ok a /\ k a = Ok c.
Proof. destruct m; simpl; naive_solver. Qed.

Lemma bind_no_panic {E A B} (m : res E A) (k : A -> res E B) :
  no_panic m -> (forall a, m = Ok a -> no_panic (k a)) -> no_panic (m ≫= k).
Proof. unfold no_panic. destruct m; simpl; naive_solver. Qed.

Lemma map_err_no_panic {E F A} (f : E -> F) (m : res E A) : no_panic m -> no_panic (map_err f m).
Proof. unfold no_panic. destruct m; naive_solver. Qed.

Lemma idx_no_panic {E} buf i : 0 <= i < zlen buf -> no_panic (idx (E:=E) buf i).
Proof. intros (v & -> & _)%(idx_ok (E:=E)). done. Qed.

Lemma slice_no_panic {E} buf a c : 0 <= a <= c -> c <= zlen buf -> no_panic (slice (E:=E) buf a c).
Proof. intros. rewrite slice_ok by done. done. Qed.

Lemma ok_no_panic {E A} (a : A) : no_panic (Ok (E:=E) a).
Proof. done. Qed.
Lemma err_no_panic {E A} (e : E) : no_panic (Err (A:=A) e).
Proof. done. Qed.
#[export] Hint Resolve ok_no_panic err_no_panic idx_no_panic slice_no_panic map_err_no_panic : ws.

(** [np]: peel guards, bindings and in-range accesses off a [no_panic] goal. *)
Ltac np :=
  repeat first
    [ progress cbn beta zeta
    | match goal with
      | |- no_panic (if ?c then _ else _) => destruct c eqn:?
      | |- no_panic (idx _ _ ≫= _) => apply bind_no_panic; [apply idx_no_panic; zbool; lia|intros ? ?]
      | |- no_panic (slice _ _ _ ≫= _) => apply bind_no_panic; [apply slice_no_panic; zbool; lia|intros ? ?]
      | |- no_panic (ok_or ?o _ ≫= _) => destruct o eqn:?; cbn [ok_or]; [|done]
      | |- no_panic (bail_if ?c _ ≫= _) => destruct c eqn:?; cbn [bail_if]; [done|]
      | |- no_panic (Ok ?x ≫= ?k) => change (no_panic (k x))
      | |- no_panic (Ok _) => done
      | |- no_panic (Err _) => done
      end ].

(** [inv_ok H]: take an equation [m = Ok _] on a chain of bindings and guards apart. *)
Ltac inv_ok H :=
  repeat first
    [ progress cbn beta zeta in H
    | match type of H with
      | (if ?c then _ else _) = Ok _ => destruct c eqn:?; try discriminate H
      | (_ ≫= _) = Ok _ => let a := fresh "v" in let E := fresh "E" in apply bind_ok in H as (a & E & H)
      | Err _ = Ok _ => discriminate H
      | Ok _ = Ok _ => injection H as H; subst
      end ].

(** Evaluate indexings with constant indices on explicit prefixes. *)
Ltac idxs :=
  repeat first
    [ rewrite idx_hd; cbn [mbind res_bind]
    | match goal with
      | |- context [idx (?x :: ?l) ?n] =>
          let m := eval vm_compute in (n - 1) in
          rewrite (idx_tl x l n) by lia; change (n - 1) with m
      end ].
