(* ===== verification/RustStr.v ===== *)
(** * The part of Rust's [str] and integer parsing the sources rely on

    A Rust string is its UTF-8 bytes.  Every function here is a byte-level
    rendering of a standard-library method: on valid UTF-8 a test for an ASCII
    separator, or for the encoding of a white-space character, can be made on the
    bytes because UTF-8 is self-synchronising. *)
From S2P Require Import Prelude.

(** ** UTF-8 ([core::str::validations]) *)
Definition is_cont (c : Z) : bool := (128 <=? c) && (c <=? 191).

(** The second byte allowed after a three-byte lead. *)
Definition second3 (a c : Z) : bool :=
  if a =? 224 then (160 <=? c) && (c <=? 191)
  else if a =? 237 then (128 <=? c) && (c <=? 159)
  else is_cont c.

(** The second byte allowed after a four-byte lead. *)
Definition second4 (a c : Z) : bool :=
  if a =? 240 then (144 <=? c) && (c <=? 191)
  else if a =? 244 then (128 <=? c) && (c <=? 143)
  else is_cont c.

Fixpoint utf8_valid (s : bytes) : bool :=
  match s with
  | [] => true
  | a :: s1 =>
      if a <? 128 then utf8_valid s1
      else if (194 <=? a) && (a <=? 223) then
        match s1 with c1 :: s2 => is_cont c1 && utf8_valid s2 | [] => false end
      else if (224 <=? a) && (a <=? 239) then
        match s1 with
        | c1 :: c2 :: s3 => second3 a c1 && is_cont c2 && utf8_valid s3
        | _ => false
        end
      else if (240 <=? a) && (a <=? 244) then
        match s1 with
        | c1 :: c2 :: c3 :: s4 => second4 a c1 && is_cont c2 && is_cont c3 && utf8_valid s4
        | _ => false
        end
      else false
  end.

(** [String::from_utf8]. *)
Definition from_utf8 (s : bytes) : option bytes := if utf8_valid s then Some s else None.

(** U+FFFD *)
Definition replacement : bytes := [239; 191; 189].

(** [String::from_utf8_lossy]: each maximal invalid prefix becomes U+FFFD. *)
Fixpoint from_utf8_lossy (s : bytes) : bytes :=
  match s with
  | [] => []
  | a :: s1 =>
      if a <? 128 then a :: from_utf8_lossy s1
      else if (194 <=? a) && (a <=? 223) then
        match s1 with
        | c1 :: s2 => if is_cont c1 then a :: c1 :: from_utf8_lossy s2
                      else replacement ++ from_utf8_lossy s1
        | [] => replacement
        end
      else if (224 <=? a) && (a <=? 239) then
        match s1 with
        | c1 :: s2 =>
            if second3 a c1 then
              match s2 with
              | c2 :: s3 => if is_cont c2 then a :: c1 :: c2 :: from_utf8_lossy s3
                            else replacement ++ from_utf8_lossy s2
              | [] => replacement
              end
            else replacement ++ from_utf8_lossy s1
        | [] => replacement
        end
      else if (240 <=? a) && (a <=? 244) then
        match s1 with
        | c1 :: s2 =>
            if second4 a c1 then
              match s2 with
              | c2 :: s3 =>
                  if is_cont c2 then
                    match s3 with
                    | c3 :: s4 => if is_cont c3 then a :: c1 :: c2 :: c3 :: from_utf8_lossy s4
                                  else replacement ++ from_utf8_lossy s3
                    | [] => replacement
                    end
                  else replacement ++ from_utf8_lossy s2
              | [] => replacement
              end
            else replacement ++ from_utf8_lossy s1
        | [] => replacement
        end
      else replacement ++ from_utf8_lossy s1
  end.

(** ** White space ([char::is_whitespace], by the encodings of its members) *)
Definition ws_ascii (c : Z) : bool := ((9 <=? c) && (c <=? 13)) || (c =? 32).

Definition ws_e2 (c2 c3 : Z) : bool :=
  ((c2 =? 128) && (((128 <=? c3) && (c3 <=? 138)) || (c3 =? 168) || (c3 =? 169) || (c3 =? 175)))
  || ((c2 =? 129) && (c3 =? 159)).

Definition ws3 (c1 c2 c3 : Z) : bool :=
  ((c1 =? 225) && (c2 =? 154) && (c3 =? 128))
  || ((c1 =? 226) && ws_e2 c2 c3)
  || ((c1 =? 227) && (c2 =? 128) && (c3 =? 128)).

Definition ws2 (c1 c2 : Z) : bool := (c1 =? 194) && ((c2 =? 133) || (c2 =? 160)).

(** [trim_start] *)
Fixpoint trim_start (s : bytes) : bytes :=
  match s with
  | c1 :: s1 =>
      if ws_ascii c1 then trim_start s1
      else match s1 with
           | c2 :: s2 =>
               if ws2 c1 c2 then trim_start s2
               else match s2 with
                    | c3 :: s3 => if ws3 c1 c2 c3 then trim_start s3 else s
                    | [] => s
                    end
           | [] => s
           end
  | [] => []
  end.

(** [trim_end], on the reversed string. *)
Fixpoint trim_rev (s : bytes) : bytes :=
  match s with
  | c1 :: s1 =>
      if ws_ascii c1 then trim_rev s1
      else match s1 with
           | c2 :: s2 =>
               if ws2 c2 c1 then trim_rev s2
               else match s2 with
                    | c3 :: s3 => if ws3 c3 c2 c1 then trim_rev s3 else s
                    | [] => s
                    end
           | [] => s
           end
  | [] => []
  end.

Definition trim_end (s : bytes) : bytes := rev (trim_rev (rev s)).
Definition trim (s : bytes) : bytes := trim_end (trim_start s).

(** ** ASCII case *)
Definition ascii_lower (c : Z) : Z := if (65 <=? c) && (c <=? 90) then c + 32 else c.
Definition ascii_upper (c : Z) : Z := if (97 <=? c) && (c <=? 122) then c - 32 else c.
Definition to_ascii_lowercase (s : bytes) : bytes := map ascii_lower s.
Definition to_ascii_uppercase (s : bytes) : bytes := map ascii_upper s.

Definition bytes_eqb (s t : bytes) : bool := bool_decide (s = t).
Definition eq_ignore_ascii_case (s t : bytes) : bool :=
  bytes_eqb (to_ascii_lowercase s) (to_ascii_lowercase t).

(** ** Splitting on an ASCII separator *)
Fixpoint split_on (c : Z) (s : bytes) : list bytes :=
  match s with
  | [] => [[]]
  | a :: s' =>
      if a =? c then [] :: split_on c s'
      else match split_on c s' with
           | p :: ps => (a :: p) :: ps
           | [] => [[a]]
           end
  end.

Fixpoint split_once (c : Z) (s : bytes) : option (bytes * bytes) :=
  match s with
  | [] => None
  | a :: s' =>
      if a =? c then Some ([], s')
      else match split_once c s' with
           | Some (l, r) => Some (a :: l, r)
           | None => None
           end
  end.

(** Split at the last occurrence ([rfind] and the two slices around it). *)
Definition rsplit_once (c : Z) (s : bytes) : option (bytes * bytes) :=
  match split_once c (rev s) with
  | Some (r, l) => Some (rev l, rev r)
  | None => None
  end.

Definition contains_byte (c : Z) (s : bytes) : bool := existsb (Z.eqb c) s.

Fixpoint strip_prefix (p s : bytes) : option bytes :=
  match p, s with
  | [], _ => Some s
  | a :: p', c :: s' => if a =? c then strip_prefix p' s' else None
  | _ :: _, [] => None
  end.

Definition starts_with (p s : bytes) : bool :=
  match strip_prefix p s with Some _ => true | None => false end.

Fixpoint contains_str (p s : bytes) : bool :=
  starts_with p s || match s with [] => false | _ :: s' => contains_str p s' end.

(** [trim_end_matches(c)] and [trim_start_matches(c)] for an ASCII character. *)
Fixpoint drop_leading (c : Z) (s : bytes) : bytes :=
  match s with
  | a :: s' => if a =? c then drop_leading c s' else s
  | [] => []
  end.
Definition trim_end_matches (c : Z) (s : bytes) : bytes := rev (drop_leading c (rev s)).
Definition trim_start_matches (c : Z) (s : bytes) : bytes := drop_leading c s.

(** [str::lines]: the text between line feeds, a carriage return before a line
    feed dropped, no final empty line. *)
Definition strip_cr (l : bytes) : bytes :=
  match rev l with 13 :: r => rev r | _ => l end.

Fixpoint lines_go (s : bytes) (cur : bytes) : list bytes :=
  match s with
  | [] => match cur with [] => [] | _ => [rev cur] end
  | 10 :: s' => strip_cr (rev cur) :: lines_go s' []
  | a :: s' => lines_go s' (a :: cur)
  end.
Definition lines (s : bytes) : list bytes := lines_go s [].

(** [split_whitespace] *)
Fixpoint words_go (s : bytes) (cur : bytes) : list bytes :=
  let flush rest := match cur with [] => rest | _ => rev cur :: rest end in
  match s with
  | [] => flush []
  | c1 :: s1 =>
      if ws_ascii c1 then flush (words_go s1 [])
      else match s1 with
           | c2 :: s2 =>
               if ws2 c1 c2 then flush (words_go s2 [])
               else match s2 with
                    | c3 :: s3 => if ws3 c1 c2 c3 then flush (words_go s3 [])
                                  else words_go s1 (c1 :: cur)
                    | [] => words_go s1 (c1 :: cur)
                    end
           | [] => words_go s1 (c1 :: cur)
           end
  end.
Definition split_whitespace (s : bytes) : list bytes := words_go s [].

Fixpoint join (sep : bytes) (l : list bytes) : bytes :=
  match l with
  | [] => []
  | [x] => x
  | x :: l' => x ++ sep ++ join sep l'
  end.

(** ** Integers *)
Definition is_digit (c : Z) : bool := (48 <=? c) && (c <=? 57).

(** [<uN as FromStr>::from_str]: an optional [+], then decimal digits, within [max]. *)
Fixpoint digits_val (max acc : Z) (s : bytes) : option Z :=
  match s with
  | [] => Some acc
  | c :: s' =>
      if is_digit c then
        let v := acc * 10 + (c - 48) in
        if v <=? max then digits_val max v s' else None
      else None
  end.

Definition parse_uint (max : Z) (s : bytes) : option Z :=
  match s with
  | [] => None
  | [43] => None
  | 43 :: r => digits_val max 0 r
  | r => digits_val max 0 r
  end.

(** Decimal formatting; 40 digits cover every value the sources print. *)
Fixpoint dec_go (fuel : nat) (z : Z) (acc : bytes) : bytes :=
  match fuel with
  | O => acc
  | S f => if z <? 10 then (48 + z) :: acc else dec_go f (z / 10) ((48 + z mod 10) :: acc)
  end.
Definition fmt_dec (z : Z) : bytes := dec_go 40 z [].

(** ** Facts *)

(** Printable ASCII: neither white space nor the lead byte of a longer character. *)
Definition graphic (c : Z) : bool := (33 <=? c) && (c <=? 126).

Lemma utf8_valid_ascii s : Forall (fun c => 0 <= c < 128) s -> utf8_valid s = true.
Proof. induction 1; simpl; [done|]. by ztrue. Qed.

Lemma from_utf8_lossy_valid s : utf8_valid s = true -> from_utf8_lossy s = s.
Proof.
  assert (H : forall n s, (length s <= n)%nat -> utf8_valid s = true -> from_utf8_lossy s = s).
  { clear s. induction n as [|n IH]; intros [|a s1] Hn; simpl in *; try done; [lia|].
    destruct (a <? 128). { intros. f_equal. apply IH; [lia|done]. }
    destruct (_ && _).
    { destruct s1 as [|c1 s2]; [done|]. intros [-> H]%andb_true_iff.
      do 2 f_equal. apply IH; [simpl in *; lia|done]. }
    destruct (_ && _).
    { destruct s1 as [|c1 [|c2 s3]]; try done. intros [[-> ->]%andb_true_iff H]%andb_true_iff.
      do 3 f_equal. apply IH; [simpl in *; lia|done]. }
    destruct (_ && _); [|done].
    destruct s1 as [|c1 [|c2 [|c3 s4]]]; try done.
    intros [[[-> ->]%andb_true_iff ->]%andb_true_iff H]%andb_true_iff.
    do 4 f_equal. apply IH; [simpl in *; lia|done]. }
  intros. eapply H; eauto.
Qed.

(** *** Decimal numbers *)
Lemma digits_val_app max acc s t :
  digits_val max acc (s ++ t) = v ← digits_val max acc s; digits_val max v t.
Proof.
  revert acc. induction s as [|c s IH]; intros acc; simpl; [done|].
  destruct (is_digit c); [|done]. destruct (_ <=? max); [apply IH|done].
Qed.

Lemma dec_go_app f z acc : dec_go f z acc = dec_go f z [] ++ acc.
Proof.
  revert z acc. induction f as [|f IH]; intros z acc; simpl; [done|].
  destruct (z <? 10); [done|]. rewrite (IH _ ((_ + _) :: acc)), (IH _ [_]), <-app_assoc. done.
Qed.

Lemma dec_go_val f z max :
  0 <= z <= max -> z < 10 ^ Z.of_nat f -> digits_val max 0 (dec_go f z []) = Some z.
Proof.
  revert z. induction f as [|f IH]; intros z Hz Hf.
  { change (10 ^ Z.of_nat 0) with 1 in Hf. simpl. f_equal. lia. }
  simpl. destruct (Z.ltb_spec z 10) as [Hlt|Hge].
  - simpl. unfold is_digit. repeat ztrue. simpl.
    zdone.
  - rewrite dec_go_app, digits_val_app.
    assert (Hd : 0 <= z / 10 <= max) by (split; [apply Z.div_pos; lia|]; apply Z.div_le_upper_bound; lia).
    rewrite IH; [simpl|done|].
    + pose proof (Z.mod_pos_bound z 10 ltac:(lia)). unfold is_digit. repeat ztrue. simpl.
      replace (z / 10 * 10 + (48 + z mod 10 - 48)) with z by (pose proof (Z.div_mod z 10); lia).
      zdone.
    + rewrite Nat2Z.inj_succ, Z.pow_succ_r in Hf by lia. apply Z.div_lt_upper_bound; lia.
Qed.

Lemma dec_go_digits f z : 0 <= z -> Forall (fun c => is_digit c = true) (dec_go f z []).
Proof.
  revert z. induction f as [|f IH]; intros z Hz; simpl; [constructor|].
  destruct (Z.ltb_spec z 10).
  - constructor; [|constructor]. unfold is_digit. zdone.
  - rewrite dec_go_app. apply Forall_app; split; [apply IH, Z.div_pos; lia|].
    constructor; [|constructor]. pose proof (Z.mod_pos_bound z 10). unfold is_digit. zdone.
Qed.

Lemma fmt_dec_digits z : 0 <= z -> Forall (fun c => is_digit c = true) (fmt_dec z).
Proof. apply dec_go_digits. Qed.

Lemma dec_go_nonnil f z : dec_go (S f) z [] <> [].
Proof. simpl. destruct (z <? 10); [done|]. rewrite dec_go_app. by destruct (dec_go f _ _). Qed.

Lemma fmt_dec_nonnil z : fmt_dec z <> [].
Proof. apply dec_go_nonnil. Qed.

Lemma parse_uint_digits max s :
  Forall (fun c => is_digit c = true) s -> s <> [] -> parse_uint max s = digits_val max 0 s.
Proof.
  intros H Hn. destruct s as [|c s]; [done|]. inversion H as [|? ? Hc _]; subst.
  unfold is_digit in Hc. zbool. unfold parse_uint.
  assert (Hne : c <> 43) by lia.
  destruct c as [|p|p]; try done. do 6 (destruct p; try done).
Qed.

(** Printing an integer and parsing it back within the width is the identity. *)
Lemma parse_uint_fmt max z : 0 <= z <= max -> z < 10 ^ 40 -> parse_uint max (fmt_dec z) = Some z.
Proof.
  intros Hz Hs. rewrite parse_uint_digits by auto using fmt_dec_digits, fmt_dec_nonnil with lia.
  apply dec_go_val; [done|]. simpl. lia.
Qed.

Lemma digits_val_bound max acc s v : 0 <= acc <= max -> digits_val max acc s = Some v -> 0 <= v <= max.
Proof.
  revert acc. induction s as [|c s IH]; intros acc Ha; simpl; [naive_solver|].
  destruct (is_digit c) eqn:Hc; [|done]. unfold is_digit in Hc. zbool.
  destruct (Z.leb_spec (acc * 10 + (c - 48)) max); [|done]. apply IH. lia.
Qed.

Lemma parse_uint_bound max s v : 0 <= max -> parse_uint max s = Some v -> 0 <= v <= max.
Proof.
  intros Hm. unfold parse_uint.
  assert (G : forall r, digits_val max 0 r = Some v -> 0 <= v <= max)
    by (intros r; apply digits_val_bound; lia).
  intros H. repeat case_match; try discriminate H; eauto.
Qed.

(** *** Trimming *)
Lemma graphic_ws_ascii c : graphic c = true -> ws_ascii c = false.
Proof. unfold graphic, ws_ascii. intros. zbool. destruct (Z.leb_spec c 13); zdone. Qed.

Lemma trim_start_graphic c s : graphic c = true -> trim_start (c :: s) = c :: s.
Proof.
  intros Hg. simpl. rewrite graphic_ws_ascii by done. unfold graphic in Hg. zbool.
  destruct s as [|c2 s2]; [done|]. unfold ws2. zfalse. simpl.
  destruct s2 as [|c3 s3]; [done|]. unfold ws3. do 3 zfalse. done.
Qed.

Lemma trim_rev_graphic c s : graphic c = true -> trim_rev (c :: s) = c :: s.
Proof.
  intros Hg. simpl. rewrite graphic_ws_ascii by done. unfold graphic in Hg. zbool.
  destruct s as [|c2 s2]; [done|]. unfold ws2. do 2 zfalse. rewrite andb_false_r.
  destruct s2 as [|c3 s3]; [done|]. unfold ws3, ws_e2.
  repeat zfalse. rewrite ?andb_false_r. simpl. rewrite ?andb_false_r. done.
Qed.

(** Splitting on a separator loses nothing and leaves no separator inside a part. *)
Lemma split_on_nonnil c s : split_on c s <> [].
Proof. destruct s as [|a s]; simpl; [done|]. destruct (a =? c); [done|]. by destruct (split_on c s). Qed.

Lemma join_split_on c s : join [c] (split_on c s) = s.
Proof.
  induction s as [|a s IH]; [done|]. cbn [split_on]. pose proof (split_on_nonnil c s).
  destruct (Z.eqb_spec a c) as [->|].
  - destruct (split_on c s) as [|p ps]; [done|]. cbn [join app] in *. by rewrite IH.
  - destruct (split_on c s) as [|p ps]; [done|]. destruct ps as [|q ps]; cbn [join app] in *; by rewrite IH.
Qed.

Lemma split_on_no_sep c s : Forall (fun p => c ∉ p) (split_on c s).
Proof.
  induction s as [|a s IH]; cbn [split_on]; [by repeat constructor; set_solver|].
  destruct (Z.eqb_spec a c); [constructor; [set_solver|done]|].
  destruct (split_on c s) as [|p ps]; [constructor; [set_solver|constructor]|].
  apply Forall_cons in IH as [Hp Hps]. constructor; [set_solver|done].
Qed.

Lemma join_cons sep x y l : join sep (x :: y :: l) = x ++ sep ++ join sep (y :: l).
Proof. done. Qed.

Lemma split_on_app c l r : c ∉ l -> split_on c (l ++ c :: r) = l :: split_on c r.
Proof.
  induction l as [|x l IH]; intros Hl; cbn [app split_on]; [by rewrite Z.eqb_refl|].
  apply not_elem_of_cons in Hl as [Hx Hl]. rewrite (proj2 (Z.eqb_neq _ _)) by done. by rewrite IH.
Qed.

Lemma split_on_none c l : c ∉ l -> split_on c l = [l].
Proof.
  induction l as [|x l IH]; intros Hl; cbn [split_on]; [done|].
  apply not_elem_of_cons in Hl as [Hx Hl]. rewrite (proj2 (Z.eqb_neq _ _)) by done. by rewrite IH.
Qed.

(** Text without the separator, joined and split again. *)
Lemma split_on_join c l : l <> [] -> Forall (fun x => c ∉ x) l -> split_on c (join [c] l) = l.
Proof.
  intros Hl Hf. induction Hf as [|x l Hx Hf IH]; [done|]. destruct l as [|y l]; [by apply split_on_none|].
  rewrite join_cons. cbn [app]. by rewrite split_on_app, IH.
Qed.

(** *** Trimming visible text *)
Definition blanks (s : bytes) : Prop := Forall (fun c => c = 32 \/ c = 9) s.
Definition visible_text (s : bytes) : Prop := Forall (fun c => 32 <= c <= 126 \/ c = 9) s.

Lemma trim_start_blanks l s : blanks l -> trim_start (l ++ s) = trim_start s.
Proof. induction 1 as [|c l Hc _ IH]; [done|]. cbn [app trim_start]. by destruct Hc as [-> | ->]. Qed.
Lemma trim_rev_blanks l s : blanks l -> trim_rev (l ++ s) = trim_rev s.
Proof. induction 1 as [|c l Hc _ IH]; [done|]. cbn [app trim_rev]. by destruct Hc as [-> | ->]. Qed.
Lemma visible_case c : 32 <= c <= 126 \/ c = 9 -> (c = 32 \/ c = 9) \/ graphic c = true.
Proof. intros Hc. unfold graphic. destruct (decide (c = 32)), (decide (c = 9)); auto. right. apply andb_true_iff. lia. Qed.

Lemma trim_start_parts s : visible_text s -> exists l, s = l ++ trim_start s /\ blanks l.
Proof.
  induction 1 as [|c s Hc _ (l & Hs & Hl)]; [exists []; by split; [|constructor]|]. destruct (visible_case c Hc) as [Hb|Hg].
  - exists (c :: l). cbn [app]. change (c :: s) with ([c] ++ s). rewrite trim_start_blanks by (by constructor).
    split; [cbn [app]; by f_equal|by constructor].
  - exists []. rewrite trim_start_graphic by done. by split; [|constructor].
Qed.
Lemma trim_rev_parts s : visible_text s -> exists l, s = l ++ trim_rev s /\ blanks l.
Proof.
  induction 1 as [|c s Hc _ (l & Hs & Hl)]; [exists []; by split; [|constructor]|]. destruct (visible_case c Hc) as [Hb|Hg].
  - exists (c :: l). cbn [app]. change (c :: s) with ([c] ++ s). rewrite trim_rev_blanks by (by constructor).
    split; [cbn [app]; by f_equal|by constructor].
  - exists []. rewrite trim_rev_graphic by done. by split; [|constructor].
Qed.
Lemma trim_parts s : visible_text s -> exists l r, s = l ++ trim s ++ r /\ blanks l /\ blanks r.
Proof.
  intros Hs. destruct (trim_start_parts s Hs) as (l & Hl & Hb). assert (Hv : visible_text (trim_start s)) by (rewrite Hl in Hs; by apply Forall_app in Hs as [_ ?]).
  assert (Hr : visible_text (rev (trim_start s))) by (by apply Forall_rev).
  destruct (trim_rev_parts _ Hr) as (r & He & Hbr). exists l, (rev r). split_and!; [|done|by apply Forall_rev].
  unfold trim, trim_end. rewrite <-rev_app_distr, <-He, rev_involutive. done.
Qed.
Lemma trim_word l w r : blanks l -> blanks r -> w <> [] -> Forall (fun c => 33 <= c <= 126) w -> trim (l ++ w ++ r) = w.
Proof.
  intros Hl Hr Hn Hw. unfold trim. rewrite trim_start_blanks by done.
  assert (Hg : forall x y, 33 <= x <= 126 -> trim_start (x :: y) = x :: y /\ trim_rev (x :: y) = x :: y).
  { intros x y Hx. assert (graphic x = true) by (unfold graphic; apply andb_true_iff; lia). split; [by apply trim_start_graphic|by apply trim_rev_graphic]. }
  destruct w as [|x w]; [done|]. cbn [app]. rewrite (proj1 (Hg x (w ++ r) (Forall_inv Hw))). unfold trim_end.
  rewrite app_comm_cons, rev_app_distr, trim_rev_blanks by (by apply Forall_rev).
  apply Forall_rev in Hw. destruct (rev (x :: w)) as [|y z] eqn:He; [by apply (f_equal length) in He; rewrite length_rev in He|].
  rewrite (proj2 (Hg y z (Forall_inv Hw))), <-He. apply rev_involutive.
Qed.

Lemma split_on_bytes c s : bytes_ok s -> Forall bytes_ok (split_on c s).
Proof.
  induction 1 as [|a s Ha Hs IH]; cbn [split_on]; [by repeat constructor|].
  destruct (a =? c); [by constructor|].
  destruct (split_on c s) as [|p ps]; [constructor; [by constructor|constructor]|].
  apply Forall_cons in IH as [Hp Hps]. constructor; [by constructor|done].
Qed.

Lemma drop_leading_suffix c s : exists p, s = p ++ drop_leading c s.
Proof.
  induction s as [|a s [p IH]]; cbn [drop_leading]; [by exists []|].
  destruct (a =? c); [|by exists []]. exists (a :: p). cbn [app]. by f_equal.
Qed.

Lemma trim_end_matches_prefix c s : exists p, s = trim_end_matches c s ++ p.
Proof.
  unfold trim_end_matches. destruct (drop_leading_suffix c (rev s)) as [p Hp]. exists (rev p).
  rewrite <-rev_app_distr, <-Hp. by rewrite rev_involutive.
Qed.
