(* ===== verification/Fs.v ===== *)
(** * The private-file writer ([src/src/fsutil.rs])

    A file system is a finite map from paths to contents.  Every system call of
    [write_private] may fail; [fs_faults] says which ones do on a given run. *)
From S2P Require Import Prelude RustStr.

Abbreviation fs := (gmap bytes bytes).

Record fs_faults := mk_faults {
  open_fails : bool;      (** creating the temporary file fails (other than "exists") *)
  write_stops : option Z; (** [write_all] fails after this many bytes *)
  rename_fails : bool;
  remove_fails : bool
}.
Definition no_faults : fs_faults := mk_faults false None false false.

Inductive fs_error := OpenError | WriteError | RenameError.

(** [{:032x}] of a 128-bit number. *)
Definition hex_digit (n : Z) : Z := if n <? 10 then 48 + n else 87 + n.
Fixpoint hex_fixed (width : nat) (v : Z) : bytes :=
  match width with
  | O => []
  | S w => hex_fixed w (v / 16) ++ [hex_digit (v mod 16)]
  end.

(** [Path::parent], the empty parent replaced by [.]. *)
Definition parent_dir (path : bytes) : bytes :=
  match rsplit_once 47 path with
  | Some ([], _) => str_bytes "/"
  | Some (dir, _) => dir
  | None => str_bytes "."
  end.

(** [Path::join] with a relative name. *)
Definition path_join (dir name : bytes) : bytes :=
  match rev dir with
  | [] => name
  | 47 :: _ => dir ++ name
  | _ => dir ++ 47 :: name
  end.

Definition temporary_path (path : bytes) (rnd : Z) : bytes :=
  path_join (parent_dir path) (str_bytes ".warp-socks-" ++ hex_fixed 32 rnd ++ str_bytes ".tmp").

(** [options.write(true).create_new(true).open(&temporary)] *)
Definition create_new (f : fs_faults) (tmp : bytes) (s : fs) : res fs_error fs :=
  if open_fails f then Err OpenError
  else match s !! tmp with
       | Some _ => Err OpenError
       | None => Ok (<[tmp := []]> s)
       end.

Definition write_all_file (f : fs_faults) (tmp contents : bytes) (s : fs) : option fs_error * fs :=
  match write_stops f with
  | Some n => (Some WriteError, <[tmp := take (Z.to_nat n) contents]> s)
  | None => (None, <[tmp := contents]> s)
  end.

Definition rename_file (f : fs_faults) (tmp path : bytes) (s : fs) : option fs_error * fs :=
  if rename_fails f then (Some RenameError, s)
  else match s !! tmp with
       | Some c => (None, <[path := c]> (delete tmp s))
       | None => (Some RenameError, s)
       end.

Definition write_private (f : fs_faults) (rnd : Z) (path contents : bytes) (s : fs) : res fs_error unit * fs :=
  let tmp := temporary_path path rnd in
  match create_new f tmp s with
  | Err e => (Err e, s)
  | Panic => (Panic, s)
  | Ok s1 =>
      let '(e2, s2) := match write_all_file f tmp contents s1 with
                       | (None, s2) => rename_file f tmp path s2
                       | r => r
                       end in
      match e2 with
      | None => (Ok tt, s2)
      | Some e => (Err e, if remove_fails f then s2 else delete tmp s2)
      end
  end.

(** ** Facts *)
Lemma hex_fixed_length w v : length (hex_fixed w v) = w.
Proof. revert v. induction w; intros; simpl; [done|]. rewrite length_app, IHw. simpl. lia. Qed.

Lemma write_private_ok f rnd path contents s s' :
  write_private f rnd path contents s = (Ok tt, s') ->
  s !! temporary_path path rnd = None /\ s' = <[path := contents]> s.
Proof.
  unfold write_private, create_new, write_all_file, rename_file.
  destruct (open_fails f); [done|].
  destruct (s !! temporary_path path rnd) eqn:Hn; [done|].
  destruct (write_stops f); [destruct (remove_fails f); done|].
  destruct (rename_fails f); [destruct (remove_fails f); done|].
  rewrite lookup_insert_eq. intros [= <-]. split; [done|].
  rewrite insert_insert_eq, delete_insert_id by done. done.
Qed.

(** The whole contract of the writer: a success replaces the target and changes
    nothing else; a failure leaves every file as it was, but for the temporary
    name, which is gone again whenever removing it works. *)
Lemma write_private_spec f rnd path contents s :
  match write_private f rnd path contents s with
  | (Ok _, s') => s' = <[path := contents]> s
  | (Err _, s') => (forall p, p <> temporary_path path rnd -> s' !! p = s !! p)
                   /\ (remove_fails f = false -> s' = s)
  | (Panic, _) => False
  end.
Proof.
  destruct (write_private f rnd path contents s) as [[[]|e|] s'] eqn:H.
  - by eapply write_private_ok in H as [_ ->].
  - unfold write_private, create_new, write_all_file, rename_file in H.
    destruct (open_fails f); [by simplify_eq|].
    destruct (s !! temporary_path path rnd) eqn:Hn; [by simplify_eq|].
    destruct (write_stops f), (rename_fails f), (remove_fails f);
      rewrite ?lookup_insert_eq in H; simplify_eq;
      rewrite ?insert_insert_eq, ?delete_insert_id by done; split; try done;
      intros p Hp; by rewrite lookup_insert_ne.
  - unfold write_private, create_new in H.
    destruct (open_fails f); [done|]. destruct (s !! _); [done|].
    by repeat case_match.
Qed.

(** No existing file but the target is ever touched. *)
(** Without faults and with a fresh temporary name the write succeeds. *)
Lemma write_private_works rnd path contents s : s !! temporary_path path rnd = None ->
  write_private no_faults rnd path contents s = (Ok tt, <[path := contents]> s).
Proof.
  intros Hn. destruct (write_private no_faults rnd path contents s) as [r s'] eqn:Hw. pose proof Hw as Hr. unfold write_private, create_new in Hr.
  cbn [open_fails no_faults] in Hr. rewrite Hn in Hr. unfold write_all_file, rename_file in Hr. cbn [write_stops rename_fails no_faults] in Hr.
  rewrite lookup_insert_eq in Hr. injection Hr as <- _. by apply write_private_ok in Hw as [_ ->].
Qed.

Lemma write_private_keeps f rnd path contents s p d : s !! p = Some d -> p <> path ->
  (write_private f rnd path contents s).2 !! p = Some d.
Proof.
  intros Hp Hn. pose proof (write_private_spec f rnd path contents s) as H.
  destruct (decide (p = temporary_path path rnd)) as [->|Ht].
  - unfold write_private, create_new. destruct (open_fails f); [done|]. by rewrite Hp.
  - destruct (write_private f rnd path contents s) as [[[]|e|] s']; cbn [snd].
    + subst s'. by rewrite lookup_insert_ne.
    + destruct H as [H _]. by rewrite H.
    + done.
Qed.
