(* ===== verification/Health.v ===== *)
(** * Health: failure threshold, heartbeat file, trace probe

    [src/src/health/recovery.rs], [src/src/health/heartbeat.rs],
    [src/src/health/probe.rs] and the heartbeat window of
    [src/src/bin/warp-socks.rs]. *)
From S2P Require Import Prelude RustStr Fs.

(** ** Failure threshold ([recovery.rs]) *)
Module Recovery.
Inductive RecoveryAction := Continue | RequestExit.

#[export] Instance RecoveryAction_eq_dec : EqDecision RecoveryAction.
Proof. solve_decision. Defined.

Record ThresholdRecovery := mk_recovery {
  threshold : Z;
  consecutive_failures : Z
}.

Definition new (t : Z) : ThresholdRecovery := mk_recovery (Z.max t 1) 0.

Definition on_success (r : ThresholdRecovery) : ThresholdRecovery := mk_recovery (threshold r) 0.

Definition on_failure (r : ThresholdRecovery) : RecoveryAction * ThresholdRecovery :=
  let n := u32_saturating_add (consecutive_failures r) 1 in
  let r' := mk_recovery (threshold r) n in
  (if threshold r <=? n then RequestExit else Continue, r').

(** One probe outcome ([true] is a success), as [Supervisor::watch_outbound]
    feeds it. *)
Definition observe (r : ThresholdRecovery) (ok : bool) : RecoveryAction * ThresholdRecovery :=
  if ok then (Continue, on_success r) else on_failure r.

Definition observe_all (r : ThresholdRecovery) (os : list bool) : ThresholdRecovery :=
  fold_left (fun r o => snd (observe r o)) os r.

(** The length of the run of failures an outcome sequence ends with. *)
Fixpoint leading_failures (os : list bool) : nat :=
  match os with false :: os' => S (leading_failures os') | _ => O end.
Definition trailing_failures (os : list bool) : nat := leading_failures (rev os).

Lemma observe_all_threshold r os : threshold (observe_all r os) = threshold r.
Proof.
  revert r. induction os as [|o os IH]; intros r; simpl; [done|].
  unfold observe_all in *. simpl. rewrite IH. by destruct o.
Qed.

Lemma leading_failures_length os : (leading_failures os <= length os)%nat.
Proof. induction os as [|[] os IH]; simpl; lia. Qed.

Lemma observe_all_count t os :
  Z.of_nat (length os) <= U32_MAX ->
  consecutive_failures (observe_all (new t) os) = Z.of_nat (trailing_failures os).
Proof.
  unfold trailing_failures. induction os as [|o os IH] using rev_ind; intros Hl; [done|].
  rewrite length_app in Hl. simpl in Hl.
  unfold observe_all in *. rewrite fold_left_app, rev_app_distr. simpl.
  destruct o; simpl; [done|]. rewrite IH by lia.
  pose proof (leading_failures_length (rev os)) as Hle. rewrite length_rev in Hle.
  unfold u32_saturating_add, U32_MAX in *. lia.
Qed.

(** A failure after the outcomes [os] asks for the outlet to be rebuilt exactly
    when it completes a run of [threshold] consecutive failures. *)
Lemma on_failure_exit_iff t os :
  Z.of_nat (length os) < U32_MAX ->
  fst (observe (observe_all (new t) os) false) = RequestExit
  <-> Z.max t 1 <= Z.of_nat (trailing_failures (os ++ [false])).
Proof.
  intros Hl. simpl. rewrite observe_all_threshold, observe_all_count by lia.
  unfold trailing_failures. rewrite rev_app_distr. simpl.
  pose proof (leading_failures_length (rev os)) as Hle. rewrite length_rev in Hle.
  unfold u32_saturating_add, U32_MAX in *.
  destruct (Z.leb_spec (Z.max t 1) (Z.min 4294967295 (Z.of_nat (leading_failures (rev os)) + 1)));
    (split; [intros|intros]); try done; try lia.
Qed.

Lemma leading_failures_replicate n os : (n <= leading_failures os)%nat <-> exists r, os = replicate n false ++ r.
Proof.
  revert os. induction n as [|n IH]; intros os; simpl; [split; [eauto|lia]|].
  destruct os as [|[] os]; simpl.
  - split; [lia|intros [r Hr]; done].
  - split; [lia|intros [r Hr]; done].
  - rewrite <-Nat.succ_le_mono, IH. split; intros [r Hr]; exists r; [by rewrite Hr|by injection Hr].
Qed.

Lemma trailing_failures_replicate n os : (n <= trailing_failures os)%nat <-> exists pre, os = pre ++ replicate n false.
Proof.
  unfold trailing_failures. rewrite leading_failures_replicate. split; intros [r Hr].
  - exists (rev r). apply (f_equal (@rev bool)) in Hr. rewrite rev_involutive, rev_app_distr in Hr.
    rewrite Hr. f_equal. apply rev_replicate.
  - exists (rev r). rewrite Hr, rev_app_distr. f_equal. apply rev_replicate.
Qed.

(** A failed probe makes the supervisor rebuild the outlet exactly when it is
    the last of [max(threshold, 1)] consecutive failed probes, whatever was
    observed before (one success anywhere in the window resets the count). *)
Theorem threshold_exit t os :
  Z.of_nat (length os) < U32_MAX ->
  fst (observe (observe_all (new t) os) false) = RequestExit
  <-> exists pre, os ++ [false] = pre ++ replicate (Z.to_nat (Z.max t 1)) false.
Proof.
  intros Hl. rewrite on_failure_exit_iff by done. rewrite <-trailing_failures_replicate. lia.
Qed.

Lemma threshold_exit_witness :
  Z.of_nat (length [false; true; false; false]) < U32_MAX
  /\ (fst (observe (observe_all (new 3) [false; true; false; false]) false) = RequestExit
      <-> exists pre, [false; true; false; false] ++ [false] = pre ++ replicate (Z.to_nat (Z.max 3 1)) false).
Proof. split; [unfold U32_MAX; simpl; lia|]. apply threshold_exit. unfold U32_MAX. simpl. lia. Defined.
End Recovery.

(** ** Heartbeat file ([heartbeat.rs]) *)
Module Heartbeat.
Definition HEARTBEAT_PATH : bytes := str_bytes "/tmp/warp-socks-health".

Inductive unhealthy := NoHeartbeat | Malformed | Expired (age : Z).

Definition invalidate (f : fs_faults) (rnd : Z) (s : fs) : res fs_error unit * fs :=
  write_private f rnd HEARTBEAT_PATH (str_bytes "0" ++ [10]) s.

(** A failed write is only logged. *)
Definition record_success (f : fs_faults) (rnd now : Z) (s : fs) : fs :=
  snd (write_private f rnd HEARTBEAT_PATH (fmt_dec now ++ [10]) s).

Definition evaluate (content : bytes) (now max_age : Z) : res unhealthy unit :=
  ts ← ok_or (parse_uint U64_MAX (trim content)) Malformed;
  let age := saturating_sub now ts in
  if max_age <? age then Err (Expired age) else Ok tt.

(** [read_to_string] also fails on contents that are not UTF-8. *)
Definition check (max_age now : Z) (s : fs) : res unhealthy unit :=
  content ← ok_or (s !! HEARTBEAT_PATH ≫= from_utf8) NoHeartbeat;
  evaluate content now max_age.

(** [heartbeat_max_age] of [src/src/bin/warp-socks.rs], in seconds: arithmetic on
    [Duration] panics when the seconds overflow. *)
Definition duration {E} (secs : Z) : res E Z := if secs <=? U64_MAX then Ok secs else Panic.
Definition heartbeat_max_age {E} (interval probe_timeout failure_threshold : Z) : res E Z :=
  let rounds := u32_saturating_add failure_threshold 1 in
  sum ← duration (interval + probe_timeout);
  window ← duration (sum * rounds);
  duration (window + 10).

Lemma trim_line z : 0 <= z -> trim (fmt_dec z ++ [10]) = fmt_dec z.
Proof.
  intros Hz. pose proof (fmt_dec_digits z Hz) as Hd.
  assert (Hg : Forall (fun c => graphic c = true) (fmt_dec z)).
  { eapply Forall_impl; [exact Hd|]. unfold is_digit, graphic. intros c Hc. simpl in Hc. zbool. zdone. }
  destruct (fmt_dec z) as [|c s] eqn:He; [by destruct (fmt_dec_nonnil z)|].
  unfold trim. inversion Hg; subst. change ((c :: s) ++ [10]) with (c :: s ++ [10]).
  rewrite trim_start_graphic by done.
  unfold trim_end. change (c :: s ++ [10]) with ((c :: s) ++ [10]). rewrite rev_app_distr.
  cbn [rev app trim_rev]. change (ws_ascii 10) with true. cbv iota.
  destruct (rev s ++ [c]) as [|d r] eqn:Hr; [by destruct (rev s)|].
  rewrite trim_rev_graphic.
  - rewrite <-Hr, rev_app_distr, rev_involutive. done.
  - assert (Hin : In d (rev (c :: s))) by (simpl; rewrite Hr; left; done).
    apply in_rev in Hin. rewrite Forall_forall in Hg. apply Hg. by apply list_elem_of_In.
Qed.

Lemma utf8_stamp z : 0 <= z -> from_utf8 (fmt_dec z ++ [10]) = Some (fmt_dec z ++ [10]).
Proof.
  intros Hz. unfold from_utf8. rewrite utf8_valid_ascii; [done|].
  apply Forall_app; split; [|constructor; [lia|constructor]].
  eapply Forall_impl; [by apply fmt_dec_digits|]. unfold is_digit. intros c Hc. simpl in Hc. zbool. lia.
Qed.

Lemma record_success_file rnd now s :
  s !! temporary_path HEARTBEAT_PATH rnd = None ->
  record_success no_faults rnd now s = <[HEARTBEAT_PATH := fmt_dec now ++ [10]]> s.
Proof.
  intros Hn. unfold record_success.
  destruct (write_private no_faults rnd HEARTBEAT_PATH (fmt_dec now ++ [10]) s) as [r s'] eqn:Hw.
  unfold write_private, create_new in Hw. simpl in Hw. rewrite Hn in Hw.
  unfold rename_file in Hw. simpl in Hw. rewrite lookup_insert_eq in Hw. injection Hw as <- <-.
  simpl. rewrite insert_insert_eq, delete_insert_id by done. done.
Qed.

Lemma check_stamp t now max_age s :
  u64 t -> s !! HEARTBEAT_PATH = Some (fmt_dec t ++ [10]) ->
  check max_age now s = if max_age <? saturating_sub now t then Err (Expired (saturating_sub now t)) else Ok tt.
Proof.
  intros Ht Hs. unfold check. rewrite Hs. simpl. unfold u64, U64_MAX in Ht.
  rewrite utf8_stamp by lia. simpl. unfold evaluate. rewrite trim_line by lia.
  rewrite parse_uint_fmt by (unfold U64_MAX; lia). done.
Qed.

(** The health check passes exactly while the last recorded success is at most
    [max_age] seconds old, and after [invalidate] it fails at any time later than
    [max_age] seconds after the epoch, until a success is recorded again. *)
Theorem heartbeat_window rnd rnd' t now max_age s :
  u64 t -> t <= now -> 0 <= max_age < now ->
  s !! temporary_path HEARTBEAT_PATH rnd = None ->
  s !! temporary_path HEARTBEAT_PATH rnd' = None ->
  (check max_age now (record_success no_faults rnd t s) = Ok tt <-> now - t <= max_age)
  /\ check max_age now (snd (invalidate no_faults rnd' s)) = Err (Expired now).
Proof.
  intros Ht Hle Hm Hn Hn'. split.
  - rewrite record_success_file by done.
    rewrite (check_stamp t) by (done || apply lookup_insert_eq).
    unfold saturating_sub. destruct (Z.ltb_spec max_age (Z.max 0 (now - t))); split; intros; try done; lia.
  - change (snd (invalidate no_faults rnd' s)) with (record_success no_faults rnd' 0 s).
    rewrite record_success_file by done.
    rewrite (check_stamp 0) by (done || apply lookup_insert_eq || (unfold u64, U64_MAX; lia)).
    unfold saturating_sub. rewrite Z.sub_0_r, Z.max_r by lia. by ztrue.
Qed.

Lemma heartbeat_window_witness :
  (check 30 1010 (record_success no_faults 7 1000 ∅) = Ok tt <-> 1010 - 1000 <= 30)
  /\ check 30 1010 (snd (invalidate no_faults 8 ∅)) = Err (Expired 1010).
Proof. apply heartbeat_window; unfold u64, U64_MAX; try lia; done. Defined.
End Heartbeat.

(** ** Trace probe ([probe.rs]) *)
Module Probe.
Record ProbeOutcome := mk_outcome { ip : option bytes; loc : option bytes }.

Inductive ProbeError := Request (msg : bytes) | MissingWarpMarker (msg : bytes).

Definition extract_trace_field (body field : bytes) : option bytes :=
  let prefix := field ++ str_bytes "=" in
  head (omap (strip_prefix prefix) (lines body)).

(** The first bytes of at most [n] characters: continuation bytes do not count. *)
Fixpoint take_chars (n : nat) (s : bytes) : bytes :=
  match s with
  | [] => []
  | c :: s' => if is_cont c then c :: take_chars n s'
               else match n with O => [] | S n' => c :: take_chars n' s' end
  end.

Definition summarize (body : bytes) : bytes :=
  take_chars 180 (join (str_bytes " ") (split_whitespace body)).

Definition parse_trace (body : bytes) : res ProbeError ProbeOutcome :=
  let has_warp_marker :=
    existsb (fun line => bytes_eqb line (str_bytes "warp=on") || bytes_eqb line (str_bytes "warp=plus"))
            (lines body) in
  if negb has_warp_marker then Err (MissingWarpMarker (summarize body))
  else Ok (mk_outcome (extract_trace_field body (str_bytes "ip")) (extract_trace_field body (str_bytes "loc"))).

(** [probe_outbound], given what the HTTPS request over the outlet returned. *)
Definition probe_outbound (fetched : res bytes bytes) : res ProbeError ProbeOutcome :=
  raw ← map_err Request fetched;
  body ← ok_or (from_utf8 raw) (Request (str_bytes "utf-8"));
  parse_trace body.

Lemma strip_prefix_spec p s r : strip_prefix p s = Some r <-> s = p ++ r.
Proof.
  revert s. induction p as [|a p IH]; intros [|c s]; simpl; try naive_solver.
  destruct (Z.eqb_spec a c) as [->|Hne]; [|naive_solver]. rewrite IH. naive_solver.
Qed.

Lemma parse_trace_ok_iff body :
  is_ok (parse_trace body) = true
  <-> str_bytes "warp=on" ∈ lines body \/ str_bytes "warp=plus" ∈ lines body.
Proof.
  unfold parse_trace.
  destruct (existsb _ _) eqn:He; simpl; split; try done.
  - intros _. apply existsb_exists in He as (l & Hin & Hl). apply list_elem_of_In in Hin.
    unfold bytes_eqb in Hl. apply orb_true_iff in Hl as [Hl|Hl]; apply bool_decide_eq_true in Hl as ->; auto.
  - intros H. exfalso. apply not_true_iff_false in He. apply He, existsb_exists.
    destruct H as [H|H]; apply list_elem_of_In in H; eexists; (split; [exact H|]);
      unfold bytes_eqb; apply orb_true_iff; [left|right]; by apply bool_decide_eq_true.
Qed.

Lemma first_stripped_spec p ls v :
  head (omap (strip_prefix p) ls) = Some v <->
  exists pre post, ls = pre ++ (p ++ v) :: post /\ Forall (fun l => strip_prefix p l = None) pre.
Proof.
  induction ls as [|l ls IH]; simpl.
  - split; [done|intros (pre & post & H & _); by destruct pre].
  - destruct (strip_prefix p l) as [r|] eqn:Hs; simpl.
    + split.
      * intros [= ->]. exists [], ls. split; [|constructor]. by apply strip_prefix_spec in Hs as ->.
      * intros ([|q pre] & post & H & Hf); simplify_eq/=.
        -- apply strip_prefix_spec in Hs. by apply app_inv_head in Hs as ->.
        -- inversion Hf; congruence.
    + rewrite IH. split; intros (pre & post & H & Hf).
      * exists (l :: pre), post. rewrite H. split; [done|by constructor].
      * destruct pre as [|q pre]; simplify_eq/=; [|inversion Hf; subst; eauto].
        by rewrite (proj2 (strip_prefix_spec p _ v) eq_refl) in Hs.
Qed.

(** An outlet is accepted exactly when its trace has a line that is [warp=on]
    or [warp=plus]; the address it reports is then the first line that starts with
    [ip=], and without the marker no outcome is produced. *)
Theorem parse_trace_spec body :
  (is_ok (parse_trace body) = true
     <-> str_bytes "warp=on" ∈ lines body \/ str_bytes "warp=plus" ∈ lines body)
  /\ (forall o, parse_trace body = Ok o -> forall v, ip o = Some v <->
       exists pre post, lines body = pre ++ ((str_bytes "ip" ++ str_bytes "=") ++ v) :: post
         /\ Forall (fun l => strip_prefix (str_bytes "ip" ++ str_bytes "=") l = None) pre).
Proof.
  split; [apply parse_trace_ok_iff|]. intros o Ho v. rewrite <-first_stripped_spec.
  unfold parse_trace in Ho. destruct (negb _); [done|]. by injection Ho as <-.
Qed.

Lemma parse_trace_spec_witness :
  parse_trace (str_bytes "ip=1.2.3.4" ++ [10] ++ str_bytes "warp=on" ++ [10])
    = Ok (mk_outcome (Some (str_bytes "1.2.3.4")) None)
  /\ exists pre post,
      lines (str_bytes "ip=1.2.3.4" ++ [10] ++ str_bytes "warp=on" ++ [10])
      = pre ++ ((str_bytes "ip" ++ str_bytes "=") ++ str_bytes "1.2.3.4") :: post
      /\ Forall (fun l => strip_prefix (str_bytes "ip" ++ str_bytes "=") l = None) pre.
Proof.
  split; [by vm_compute|].
  eapply (proj2 (parse_trace_spec _)); [vm_compute; reflexivity|reflexivity].
Defined.
End Probe.
