(* ===== verification/NetAddr.v ===== *)
(** * IP and socket addresses ([std::net])

    Addresses as the octets Rust stores, the parser of [core::net::parser] and the
    [Display] implementations, which the sources use to read targets, endpoints
    and listen addresses and to print authorities and configuration files. *)
From S2P Require Import Prelude RustStr.

Inductive IpAddr :=
| V4 (octets : bytes)
| V6 (octets : bytes).

(** A V6 socket address also carries the scope id its text form may have. *)
Inductive SocketAddr :=
| SockV4 (octets : bytes) (port : Z)
| SockV6 (octets : bytes) (port scope_id : Z).

#[export] Instance IpAddr_eq_dec : EqDecision IpAddr.
Proof. solve_decision. Defined.
#[export] Instance SocketAddr_eq_dec : EqDecision SocketAddr.
Proof. solve_decision. Defined.

#[export] Instance IpAddr_countable : Countable IpAddr.
Proof.
  apply (inj_countable'
    (fun a => match a with V4 o => inl o | V6 o => inr o end)
    (fun c => match c with inl o => V4 o | inr o => V6 o end)). by intros [].
Defined.

#[export] Instance SocketAddr_countable : Countable SocketAddr.
Proof.
  apply (inj_countable'
    (fun a => match a with SockV4 o p => inl (o, p) | SockV6 o p s => inr (o, p, s) end)
    (fun c => match c with inl (o, p) => SockV4 o p | inr (o, p, s) => SockV6 o p s end)). by intros [].
Defined.

Definition sa_ip (a : SocketAddr) : IpAddr :=
  match a with SockV4 o _ => V4 o | SockV6 o _ _ => V6 o end.
Definition sa_port (a : SocketAddr) : Z :=
  match a with SockV4 _ p => p | SockV6 _ p _ => p end.
Definition socket_addr_new (ip : IpAddr) (port : Z) : SocketAddr :=
  match ip with V4 o => SockV4 o port | V6 o => SockV6 o port 0 end.
Definition is_ipv4 (a : SocketAddr) : bool :=
  match a with SockV4 _ _ => true | SockV6 _ _ _ => false end.

Definition ip_wf (a : IpAddr) : Prop :=
  match a with
  | V4 o => length o = 4%nat /\ bytes_ok o
  | V6 o => length o = 16%nat /\ bytes_ok o
  end.
Definition sa_wf (a : SocketAddr) : Prop :=
  ip_wf (sa_ip a) /\ u16 (sa_port a)
  /\ match a with SockV4 _ _ => True | SockV6 _ _ s => u32 s end.

(** ** Segments of an IPv6 address *)
Fixpoint to_segments (o : bytes) : list Z :=
  match o with
  | h :: l :: r => (h * 256 + l) :: to_segments r
  | _ => []
  end.
Fixpoint of_segments (s : list Z) : bytes :=
  match s with
  | x :: r => x / 256 :: x mod 256 :: of_segments r
  | [] => []
  end.

(** ** Parser ([core::net::parser::Parser]): an atomic step consumes a prefix. *)
Definition digit_of (radix c : Z) : option Z :=
  let d := if (48 <=? c) && (c <=? 57) then c - 48
           else if (97 <=? c) && (c <=? 122) then c - 87
           else if (65 <=? c) && (c <=? 90) then c - 55
           else 255 in
  if d <? radix then Some d else None.

(** The digits at the head of the input: their value, their number, the rest. *)
Fixpoint read_digits (radix : Z) (s : bytes) (acc : Z) (count : Z) : Z * Z * bytes :=
  match s with
  | c :: s' =>
      match digit_of radix c with
      | Some d => read_digits radix s' (acc * radix + d) (count + 1)
      | None => (acc, count, s)
      end
  | [] => (acc, count, s)
  end.

Definition read_number (radix : Z) (max_digits : option Z) (allow_zero_prefix : bool) (max : Z)
    (s : bytes) : option (Z * bytes) :=
  let '(v, n, r) := read_digits radix s 0 0 in
  let leading_zero := match s with 48 :: _ => true | _ => false end in
  if n =? 0 then None
  else if match max_digits with Some m => m <? n | None => false end then None
  else if negb allow_zero_prefix && leading_zero && (1 <? n) then None
  else if v <=? max then Some (v, r) else None.

Definition read_char (c : Z) (s : bytes) : option bytes :=
  match s with a :: r => if a =? c then Some r else None | [] => None end.

Definition read_separator {A} (sep : Z) (index : nat) (inner : bytes -> option (A * bytes))
    (s : bytes) : option (A * bytes) :=
  match index with
  | O => inner s
  | S _ => r ← read_char sep s; inner r
  end.

Fixpoint read_octets (n : nat) (index : nat) (s : bytes) : option (bytes * bytes) :=
  match n with
  | O => Some ([], s)
  | S n' =>
      '(v, r) ← read_separator 46 index (read_number 10 (Some 3) false 255) s;
      '(vs, r') ← read_octets n' (S index) r;
      Some (v :: vs, r')
  end.
Definition read_ipv4_addr (s : bytes) : option (bytes * bytes) := read_octets 4 0 s.

(** [read_groups]: [limit - i] groups are left to read; the flag says that the
    last two came from an embedded IPv4 address. *)
Fixpoint read_groups (left : nat) (i : nat) (s : bytes) : list Z * bool * bytes :=
  match left with
  | O => ([], false, s)
  | S left' =>
      match (if (1 <? Z.of_nat left) then read_separator 58 i read_ipv4_addr s else None) with
      | Some (o, r) => (to_segments o, true, r)
      | None =>
          match read_separator 58 i (read_number 16 (Some 4) true 65535) s with
          | Some (g, r) => let '(gs, v4, r') := read_groups left' (S i) r in (g :: gs, v4, r')
          | None => ([], false, s)
          end
      end
  end.

Definition read_ipv6_addr (s : bytes) : option (bytes * bytes) :=
  let '(head, head_ipv4, r) := read_groups 8 0 s in
  if (length head =? 8)%nat then Some (of_segments head, r)
  else if head_ipv4 then None
  else
    r ← read_char 58 r;
    r ← read_char 58 r;
    let '(tail, _, r) := read_groups (8 - (length head + 1)) 0 r in
    Some (of_segments (head ++ replicate (8 - length head - length tail) 0 ++ tail), r).

Definition read_ip_addr (s : bytes) : option (IpAddr * bytes) :=
  match read_ipv4_addr s with
  | Some (o, r) => Some (V4 o, r)
  | None => '(o, r) ← read_ipv6_addr s; Some (V6 o, r)
  end.

Definition read_port (s : bytes) : option (Z * bytes) :=
  r ← read_char 58 s; read_number 10 None true 65535 r.

Definition read_socket_addr_v4 (s : bytes) : option (SocketAddr * bytes) :=
  '(o, r) ← read_ipv4_addr s;
  '(p, r) ← read_port r;
  Some (SockV4 o p, r).

Definition read_scope_id (s : bytes) : option (Z * bytes) :=
  r ← read_char 37 s; read_number 10 None true U32_MAX r.

Definition read_socket_addr_v6 (s : bytes) : option (SocketAddr * bytes) :=
  r ← read_char 91 s;
  '(o, r) ← read_ipv6_addr r;
  let '(scope, r) := match read_scope_id r with Some (z, r') => (z, r') | None => (0, r) end in
  r ← read_char 93 r;
  '(p, r) ← read_port r;
  Some (SockV6 o p scope, r).

Definition read_socket_addr (s : bytes) : option (SocketAddr * bytes) :=
  match read_socket_addr_v4 s with
  | Some x => Some x
  | None => read_socket_addr_v6 s
  end.

(** The whole input must be consumed. *)
Definition parse_with {A} (p : bytes -> option (A * bytes)) (s : bytes) : option A :=
  match p s with Some (a, []) => Some a | _ => None end.

Definition parse_ip (s : bytes) : option IpAddr := parse_with read_ip_addr s.
Definition parse_ipv4 (s : bytes) : option bytes :=
  if (15 <? zlen s) then None else parse_with read_ipv4_addr s.
Definition parse_ipv6 (s : bytes) : option bytes := parse_with read_ipv6_addr s.
Definition parse_socket_addr (s : bytes) : option SocketAddr := parse_with read_socket_addr s.

(** ** Display *)
Definition fmt_ipv4 (o : bytes) : bytes := join (str_bytes ".") (map fmt_dec o).

Definition hex_char (d : Z) : Z := if d <? 10 then 48 + d else 87 + d.

(** [{:x}] of a 16-bit segment. *)
Fixpoint hex_go (fuel : nat) (z : Z) (acc : bytes) : bytes :=
  match fuel with
  | O => acc
  | S f => if z <? 16 then hex_char z :: acc else hex_go f (z / 16) (hex_char (z mod 16) :: acc)
  end.
Definition fmt_hex16 (z : Z) : bytes := hex_go 4 z [].

Definition fmt_subslice (segs : list Z) : bytes := join (str_bytes ":") (map fmt_hex16 segs).

(** The first longest run of zero segments: (start, length). *)
Fixpoint longest_zeroes (segs : list Z) (i : nat) (longest current : nat * nat) : nat * nat :=
  match segs with
  | [] => longest
  | s :: r =>
      if s =? 0 then
        let cur := match current with (st, O) => (i, 1%nat) | (st, n) => (st, S n) end in
        let lon := if (snd longest <? snd cur)%nat then cur else longest in
        longest_zeroes r (S i) lon cur
      else longest_zeroes r (S i) longest (0%nat, 0%nat)
  end.

Definition fmt_ipv6 (o : bytes) : bytes :=
  let segs := to_segments o in
  match segs with
  | [0; 0; 0; 0; 0; 65535; _; _] => str_bytes "::ffff:" ++ fmt_ipv4 (drop 12 o)
  | _ =>
      let '(start, len) := longest_zeroes segs 0 (0%nat, 0%nat) (0%nat, 0%nat) in
      if (1 <? len)%nat
      then fmt_subslice (take start segs) ++ str_bytes "::" ++ fmt_subslice (drop (start + len) segs)
      else fmt_subslice segs
  end.

Definition fmt_ip (a : IpAddr) : bytes :=
  match a with V4 o => fmt_ipv4 o | V6 o => fmt_ipv6 o end.

Definition fmt_socket_addr (a : SocketAddr) : bytes :=
  match a with
  | SockV4 o p => fmt_ipv4 o ++ str_bytes ":" ++ fmt_dec p
  | SockV6 o p s =>
      str_bytes "[" ++ fmt_ipv6 o
      ++ (if s =? 0 then [] else str_bytes "%" ++ fmt_dec s) ++ str_bytes "]:" ++ fmt_dec p
  end.

Example parse_examples :
  parse_ip (str_bytes "192.0.2.10") = Some (V4 [192; 0; 2; 10])
  /\ parse_ip (str_bytes "01.2.3.4") = None
  /\ parse_ip (str_bytes "2001:db8::1") = Some (V6 [32; 1; 13; 184; 0; 0; 0; 0; 0; 0; 0; 0; 0; 0; 0; 1])
  /\ parse_ip (str_bytes "::ffff:1.2.3.4") = Some (V6 [0; 0; 0; 0; 0; 0; 0; 0; 0; 0; 255; 255; 1; 2; 3; 4])
  /\ parse_ip (str_bytes "1:2:3:4:5:6:7::") = Some (V6 [0; 1; 0; 2; 0; 3; 0; 4; 0; 5; 0; 6; 0; 7; 0; 0])
  /\ parse_ip (str_bytes "::1::") = None
  /\ parse_socket_addr (str_bytes "[2001:db8::10]:1080")
     = Some (SockV6 [32; 1; 13; 184; 0; 0; 0; 0; 0; 0; 0; 0; 0; 0; 0; 16] 1080 0)
  /\ parse_socket_addr (str_bytes "192.0.2.10") = None
  /\ fmt_ip (V6 [32; 1; 13; 184; 0; 0; 0; 0; 0; 0; 0; 0; 0; 0; 0; 1]) = str_bytes "2001:db8::1"
  /\ fmt_ip (V6 (replicate 16 0)) = str_bytes "::"
  /\ fmt_socket_addr (SockV4 [127; 0; 0; 1] 80) = str_bytes "127.0.0.1:80".
Proof. vm_compute. done. Qed.

(** ** Printing an address and parsing it back *)

(** The input after a number: it does not continue it. *)
Definition no_digit (radix : Z) (r : bytes) : Prop :=
  match r with c :: _ => digit_of radix c = None | [] => True end.

Lemma read_digits_stop radix s acc n v m r :
  read_digits radix s acc n = (v, m, []) -> no_digit radix r ->
  read_digits radix (s ++ r) acc n = (v, m, r).
Proof.
  revert acc n. induction s as [|c s IH]; simpl; intros acc n.
  - intros [= -> ->] Hr. destruct r as [|d r]; [done|]. simpl in *. by rewrite Hr.
  - destruct (digit_of radix c); [apply IH|done].
Qed.

Lemma read_digits_snoc radix s c d acc n v m :
  read_digits radix s acc n = (v, m, []) -> digit_of radix c = Some d ->
  read_digits radix (s ++ [c]) acc n = (v * radix + d, m + 1, []).
Proof.
  revert acc n. induction s as [|e s IH]; simpl; intros acc n.
  - intros [= -> ->] ->. done.
  - destruct (digit_of radix e); [apply IH|done].
Qed.

Lemma digit_of_dec z : 0 <= z < 10 -> digit_of 10 (48 + z) = Some z.
Proof. intros. unfold digit_of. repeat ztrue. simpl. replace (48 + z - 48) with z by lia. by ztrue. Qed.

Lemma read_digits_dec f z :
  0 <= z < 10 ^ Z.of_nat (S f) ->
  read_digits 10 (dec_go (S f) z []) 0 0 = (z, zlen (dec_go (S f) z []), []).
Proof.
  revert z. induction f as [|f IH]; intros z Hz.
  - change (10 ^ Z.of_nat 1) with 10 in Hz. simpl. ztrue. simpl. by rewrite digit_of_dec by lia.
  - change (dec_go (S (S f)) z []) with
      (if z <? 10 then [48 + z] else dec_go (S f) (z / 10) [48 + z mod 10]).
    destruct (Z.ltb_spec z 10) as [Hlt|Hge].
    + simpl. by rewrite digit_of_dec by lia.
    + rewrite dec_go_app.
      rewrite (read_digits_snoc 10 _ _ (z mod 10) _ _ (z / 10) (zlen (dec_go (S f) (z / 10) []))).
      * rewrite zlen_app. change (zlen [48 + z mod 10]) with 1.
        do 2 f_equal. pose proof (Z.div_mod z 10). lia.
      * apply IH. rewrite Nat2Z.inj_succ, Z.pow_succ_r in Hz by lia.
        split; [apply Z.div_pos; lia|apply Z.div_lt_upper_bound; lia].
      * apply digit_of_dec. apply Z.mod_pos_bound. lia.
Qed.

Lemma dec_go_len f z (k : nat) :
  0 <= z < 10 ^ Z.of_nat (S k) -> (length (dec_go f z []) <= S k)%nat.
Proof.
  revert z k. induction f as [|f IH]; intros z k Hz; simpl; [lia|].
  destruct (Z.ltb_spec z 10); simpl; [lia|].
  rewrite dec_go_app, length_app. simpl.
  destruct k as [|k]. { change (10 ^ Z.of_nat 1) with 10 in Hz. lia. }
  enough (length (dec_go f (z / 10) []) <= S k)%nat by lia.
  apply IH. rewrite Nat2Z.inj_succ, Z.pow_succ_r in Hz by lia.
  split; [apply Z.div_pos; lia|apply Z.div_lt_upper_bound; lia].
Qed.

Lemma dec_go_head f z : 1 <= z < 10 ^ Z.of_nat f -> head (dec_go f z []) <> Some 48.
Proof.
  revert z. induction f as [|f IH]; intros z Hz; simpl; [done|].
  destruct (Z.ltb_spec z 10); simpl; [intros [= ?]; lia|].
  rewrite dec_go_app. rewrite Nat2Z.inj_succ, Z.pow_succ_r in Hz by lia.
  assert (Hd : 1 <= z / 10 < 10 ^ Z.of_nat f)
    by (split; [apply Z.div_le_lower_bound; lia|apply Z.div_lt_upper_bound; lia]).
  specialize (IH _ Hd). destruct f; [change (10 ^ Z.of_nat 0) with 1 in Hd; lia|].
  by destruct (dec_go (S f) (z / 10) []) eqn:He; [destruct (dec_go_nonnil f (z / 10))|].
Qed.

Lemma fmt_dec_read z r : 0 <= z < 10 ^ 40 -> no_digit 10 r ->
  read_digits 10 (fmt_dec z ++ r) 0 0 = (z, zlen (fmt_dec z), r).
Proof. intros. apply read_digits_stop; [|done]. by apply (read_digits_dec 39). Qed.

Lemma read_number_dec md azp max z r :
  0 <= z <= max -> z < 10 ^ 40 -> no_digit 10 r ->
  match md with Some m => 1 <= m /\ z < 10 ^ m | None => True end ->
  read_number 10 md azp max (fmt_dec z ++ r) = Some (z, r).
Proof.
  intros Hz Hs Hr Hmd. unfold read_number. rewrite fmt_dec_read by (done || lia).
  assert (Hn : 0 < zlen (fmt_dec z)).
  { pose proof (fmt_dec_nonnil z). destruct (fmt_dec z) as [|c l]; [done|]. zl. }
  zfalse.
  assert (Hmax : (match md with Some m => m <? zlen (fmt_dec z) | None => false end) = false).
  { destruct md as [m|]; [|done]. destruct Hmd as [Hm Hlt]. apply Z.ltb_ge.
    unfold zlen, fmt_dec. pose proof (dec_go_len 40 z (Z.to_nat (m - 1))) as Hl.
    rewrite Nat2Z.inj_succ, Z2Nat.id in Hl by lia. replace (Z.succ (m - 1)) with m in Hl by lia. lia. }
  rewrite Hmax.
  assert (Hz0 : (negb azp && match fmt_dec z ++ r with 48 :: _ => true | _ => false end
                 && (1 <? zlen (fmt_dec z)))%bool = false).
  { destruct (Z.ltb_spec 1 (zlen (fmt_dec z))) as [Hl|]; [|by rewrite andb_false_r].
    rewrite andb_true_r. apply andb_false_iff. right.
    assert (1 <= z) by (destruct (decide (z = 0)) as [->|]; [by vm_compute in Hl|lia]).
    pose proof (dec_go_head 40 z) as Hh. fold (fmt_dec z) in Hh.
    destruct (fmt_dec z) as [|c s]; [done|]. simpl in Hh |- *.
    assert (c <> 48) by (intros ->; apply Hh; [simpl; lia|done]).
    repeat case_match; try done; lia. }
  rewrite Hz0. by ztrue.
Qed.

Lemma no_digit_char radix c r : digit_of radix c = None -> no_digit radix (c :: r).
Proof. done. Qed.

(** *** IPv4 *)
Lemma read_ipv4_fmt o r : ip_wf (V4 o) -> no_digit 10 r ->
  read_ipv4_addr (fmt_ipv4 o ++ r) = Some (o, r).
Proof.
  intros [Hl Hb] Hr. destruct o as [|a [|c [|d [|e [|]]]]]; try done.
  repeat match goal with H : Forall _ (_ :: _) |- _ => inversion_clear H end.
  unfold is_byte in *. unfold fmt_ipv4. cbn [map join]. rewrite <-!app_assoc.
  change (str_bytes ".") with [46]. cbn [app].
  assert (R : forall z t, 0 <= z < 256 -> no_digit 10 t ->
    read_number 10 (Some 3) false 255 (fmt_dec z ++ t) = Some (z, t)).
  { intros. apply read_number_dec; try done; try lia. }
  unfold read_ipv4_addr. cbn [read_octets read_separator].
  rewrite R by done. simpl. rewrite R by done. simpl. rewrite R by done. simpl. by rewrite R.
Qed.

Lemma parse_fmt_ipv4 o : ip_wf (V4 o) -> parse_ip (fmt_ipv4 o) = Some (V4 o).
Proof.
  intros H. unfold parse_ip, parse_with, read_ip_addr.
  rewrite <-(app_nil_r (fmt_ipv4 o)), read_ipv4_fmt; done.
Qed.

(** *** IPv6 *)

(** What may follow a list of groups: the end, a bracket, a scope or "::". *)
Definition stop (r : bytes) : Prop :=
  match r with
  | [] => True
  | c :: r' => c = 93 \/ c = 37 \/ (c = 58 /\ head r' = Some 58)
  end.

Lemma stop_no_digit radix r : radix = 10 \/ radix = 16 -> stop r -> no_digit radix r.
Proof. destruct r as [|c r]; [done|]. intros [-> | ->] [->|[->|[-> _]]]; done. Qed.

(** Every 16-bit group prints as one to four hexadecimal digits that read back. *)
Definition hex16_ok (z : Z) : bool :=
  let s := fmt_hex16 z in
  bool_decide (read_digits 16 s 0 0 = (z, zlen s, [])) && (1 <=? zlen s) && (zlen s <=? 4)
  && forallb (fun c => bool_decide (digit_of 16 c <> None)) s.

Lemma hex16_ok_all :
  forallb (fun h => forallb (fun l => hex16_ok (256 * h + l)) (seqZ 0 256)) (seqZ 0 256) = true.
Proof. vm_compute. reflexivity. Qed.

Lemma hex16_ok_at z : u16 z -> hex16_ok z = true.
Proof.
  unfold u16, U16_MAX. intros Hz. pose proof hex16_ok_all as H. rewrite forallb_forall in H.
  pose proof (Z.div_mod z 256 ltac:(lia)) as Hd. pose proof (Z.mod_pos_bound z 256 ltac:(lia)).
  assert (0 <= z / 256 < 256) by (split; [apply Z.div_pos; lia|apply Z.div_lt_upper_bound; lia]).
  specialize (H (z / 256)). rewrite forallb_forall in H.
  rewrite Hd. apply H; apply list_elem_of_In, elem_of_seqZ; lia.
Qed.

Lemma read_group_fmt z r : u16 z -> no_digit 16 r ->
  read_number 16 (Some 4) true 65535 (fmt_hex16 z ++ r) = Some (z, r).
Proof.
  intros Hz Hr. pose proof (hex16_ok_at z Hz) as H. unfold hex16_ok in H. zbool.
  apply bool_decide_eq_true in H. unfold read_number.
  erewrite read_digits_stop by eauto. simpl. do 2 zfalse. unfold u16, U16_MAX in Hz. by ztrue.
Qed.

Lemma read_digits_rest radix s acc n v m r :
  read_digits radix s acc n = (v, m, r) -> exists ds, s = ds ++ r /\ Forall (fun c => digit_of radix c <> None) ds.
Proof.
  revert acc n. induction s as [|c s IH]; simpl; intros acc n.
  - intros [= <- <- <-]. by exists [].
  - destruct (digit_of radix c) as [d|] eqn:Hd.
    + intros (ds & -> & Hf)%IH. exists (c :: ds). split; [done|]. constructor; [by rewrite Hd|done].
    + intros [= <- <- <-]. by exists [].
Qed.

Lemma read_number_rest radix md az max s v r :
  read_number radix md az max s = Some (v, r) -> r = snd (read_digits radix s 0 0).
Proof.
  unfold read_number. destruct (read_digits radix s 0 0) as [[v' n'] r'].
  intros H. repeat (case_match; try done); by simplify_eq.
Qed.

(** An IPv4 address is not read where the leading digits do not end at a dot. *)
Lemma read_ipv4_no_dot s : head (snd (read_digits 10 s 0 0)) <> Some 46 -> read_ipv4_addr s = None.
Proof.
  intros H. unfold read_ipv4_addr. cbn [read_octets read_separator].
  destruct (read_number 10 (Some 3) false 255 s) as [[v r]|] eqn:Hr; [|done].
  apply read_number_rest in Hr as ->. simpl.
  destruct (snd (read_digits 10 s 0 0)) as [|c r]; [done|]. simpl in *.
  destruct (Z.eqb_spec c 46); [by subst|done].
Qed.

Lemma hex_then_no_dot s r :
  Forall (fun c => digit_of 16 c <> None) s -> head r <> Some 46 -> no_digit 10 r ->
  head (snd (read_digits 10 (s ++ r) 0 0)) <> Some 46.
Proof.
  intros Hs Hr Hn. generalize 0 at 1 as acc. generalize 0 as n.
  induction Hs as [|c s Hc Hs IH]; intros n acc; simpl.
  - destruct r as [|d r]; [done|]. simpl in *. by rewrite Hn.
  - destruct (digit_of 10 c) as [d|]; [apply IH|]. simpl. intros [= ->]. by apply Hc.
Qed.

Lemma hex16_digits z : u16 z -> Forall (fun c => digit_of 16 c <> None) (fmt_hex16 z).
Proof.
  intros Hz. pose proof (hex16_ok_at z Hz) as H. unfold hex16_ok in H. zbool.
  apply Forall_forall. intros c Hc%list_elem_of_In.
  match goal with Hf : forallb _ _ = true |- _ => rewrite forallb_forall in Hf; specialize (Hf _ Hc) end.
  by apply bool_decide_eq_true in H0.
Qed.

Lemma read_ipv4_group z r : u16 z -> head r <> Some 46 -> no_digit 10 r -> read_ipv4_addr (fmt_hex16 z ++ r) = None.
Proof. intros. apply read_ipv4_no_dot, hex_then_no_dot; auto using hex16_digits. Qed.

Lemma read_ipv4_nondigit r : no_digit 10 r -> head r <> Some 46 -> read_ipv4_addr r = None.
Proof.
  intros. apply read_ipv4_no_dot. destruct r as [|c r]; [done|]. simpl in *. by rewrite H.
Qed.

Lemma read_number_nondigit radix md z max r : no_digit radix r -> read_number radix md z max r = None.
Proof. unfold read_number. destruct r as [|c r]; [done|]. simpl. by intros ->. Qed.

(** The groups after the first, each with its separator. *)
Definition pre_groups (segs : list Z) : bytes := concat (map (fun s => 58 :: fmt_hex16 s) segs).

Lemma fmt_subslice_cons s segs : fmt_subslice (s :: segs) = fmt_hex16 s ++ pre_groups segs.
Proof.
  revert s. induction segs as [|t segs IH]; intros s.
  - unfold fmt_subslice. simpl. by rewrite app_nil_r.
  - change (fmt_subslice (s :: t :: segs)) with (fmt_hex16 s ++ str_bytes ":" ++ fmt_subslice (t :: segs)).
    by rewrite IH.
Qed.

Lemma no_digit_pre radix segs r : radix = 10 \/ radix = 16 -> stop r -> no_digit radix (pre_groups segs ++ r).
Proof. intros Hr Hs. destruct segs as [|s segs]; simpl; [by apply stop_no_digit|]. by destruct Hr as [-> | ->]. Qed.

Lemma head_pre segs r : stop r -> head (pre_groups segs ++ r) <> Some 46.
Proof.
  intros Hs. destruct segs as [|s segs]; [|done]. simpl.
  destruct r as [|c r]; [done|]. simpl in *. intros [= ->]. naive_solver lia.
Qed.

(** After the first group nothing but the given groups is read. *)
Lemma read_groups_pre segs left i r :
  Forall u16 segs -> (length segs <= left)%nat -> stop r ->
  read_groups left (S i) (pre_groups segs ++ r) = (segs, false, r).
Proof.
  revert left i. induction segs as [|s segs IH]; intros left i Hu Hl Hs.
  - cbn [pre_groups map concat app]. destruct left as [|left]; [done|]. cbn [read_groups read_separator].
    assert (Hsep : forall A (f : bytes -> option (A * bytes)),
      (forall t, f (58 :: t) = None) -> (r' ← read_char 58 r; f r') = None).
    { intros A f Hf. destruct r as [|c r]; [done|]. simpl. destruct (Z.eqb_spec c 58) as [->|]; [|done].
      simpl in *. destruct Hs as [?|[?|[_ Hh]]]; try lia. destruct r as [|d r]; [done|].
      simpl in Hh. injection Hh as ->. apply Hf. }
    rewrite !Hsep; [by destruct (1 <? _)|intros t; by apply read_number_nondigit|intros t; by apply read_ipv4_nondigit].
  - inversion Hu; subst. destruct left as [|left]; simpl in Hl; [lia|].
    change (pre_groups (s :: segs)) with (58 :: fmt_hex16 s ++ pre_groups segs).
    cbn [app read_groups read_separator read_char]. rewrite <-app_assoc. simpl.
    rewrite read_ipv4_group by (auto using head_pre, no_digit_pre).
    rewrite read_group_fmt by (auto using no_digit_pre). simpl.
    rewrite IH by (auto; lia). by destruct (1 <? _).
Qed.

Lemma read_groups_fmt segs left r :
  Forall u16 segs -> (length segs <= left)%nat -> stop r ->
  read_groups left 0 (fmt_subslice segs ++ r) = (segs, false, r).
Proof.
  intros Hu Hl Hs. destruct segs as [|s segs].
  - cbn. destruct left as [|left]; [done|]. cbn [read_groups read_separator].
    pose proof (stop_no_digit 10 r (or_introl eq_refl) Hs). pose proof (stop_no_digit 16 r (or_intror eq_refl) Hs).
    rewrite read_number_nondigit by done.
    rewrite read_ipv4_nondigit; [by destruct (1 <? _)|done|]. apply (head_pre [] r Hs).
  - inversion Hu; subst. destruct left as [|left]; simpl in Hl; [lia|].
    rewrite fmt_subslice_cons, <-app_assoc. cbn [read_groups read_separator].
    rewrite read_ipv4_group by (auto using head_pre, no_digit_pre).
    rewrite read_group_fmt by (auto using no_digit_pre).
    rewrite read_groups_pre by (auto; lia). by destruct (1 <? _).
Qed.

Definition zero_run (full : list Z) (run : nat * nat) : Prop :=
  forall k, (fst run <= k < fst run + snd run)%nat -> full !! k = Some 0.

Lemma longest_zeroes_run segs prefix longest current :
  zero_run (prefix ++ segs) longest ->
  zero_run (prefix ++ segs) current -> (snd current <> 0 -> fst current + snd current = length prefix)%nat ->
  zero_run (prefix ++ segs) (longest_zeroes segs (length prefix) longest current).
Proof.
  revert prefix longest current.
  induction segs as [|s segs IH]; intros prefix longest current Hl Hc He; [done|].
  cbn [longest_zeroes].
  replace (prefix ++ s :: segs) with ((prefix ++ [s]) ++ segs) in * by (by rewrite <-app_assoc).
  replace (S (length prefix)) with (length (prefix ++ [s])) by (rewrite length_app; simpl; lia).
  destruct (Z.eqb_spec s 0) as [->|Hne].
  - set (cur := match current with (_, O) => (length prefix, 1%nat) | (st, S n) => (st, S (S n)) end).
    assert (Hcur : zero_run ((prefix ++ [0]) ++ segs) cur
                   /\ (fst cur + snd cur)%nat = length (prefix ++ [0])).
    { rewrite length_app. simpl.
      assert (Hp : ((prefix ++ [0]) ++ segs) !! length prefix = Some 0)
        by (rewrite lookup_app_l by (rewrite length_app; simpl; lia); by apply list_lookup_middle).
      subst cur. destruct current as [st [|n]]; simpl in *.
      - split; [|lia]. intros k Hk. simpl in Hk. replace k with (length prefix) by lia. done.
      - split; [|lia]. intros k Hk. simpl in Hk.
        destruct (decide (k = length prefix)) as [->|]; [done|]. apply Hc. simpl. lia. }
    destruct Hcur as [Hz Hlen].
    destruct current as [st [|n]]; apply IH; try (case_match; done); try done; intros; done.
  - apply IH; try done; intros k Hk; simpl in Hk; lia.
Qed.

Lemma zero_run_split segs start len :
  zero_run segs (start, len) -> (start + len <= length segs)%nat ->
  segs = take start segs ++ replicate len 0 ++ drop (start + len) segs.
Proof.
  intros Hz Hl. rewrite <-(take_drop start segs) at 1. f_equal.
  rewrite <-(take_drop len (drop start segs)) at 1. rewrite drop_drop. f_equal.
  symmetry. apply replicate_as_elem_of. split.
  - rewrite length_take, length_drop. lia.
  - intros y (k & Hk)%list_elem_of_lookup. apply lookup_take_Some in Hk as [Hk Hlt].
    rewrite lookup_drop in Hk. rewrite Hz in Hk by (simpl; lia). by injection Hk.
Qed.

Lemma zero_run_bound segs start len : (0 < len)%nat -> zero_run segs (start, len) -> (start + len <= length segs)%nat.
Proof.
  intros Hl Hz. specialize (Hz (start + len - 1)%nat ltac:(simpl; lia)). apply lookup_lt_Some in Hz. lia.
Qed.

Lemma of_to_segments o : Nat.Even (length o) -> bytes_ok o -> of_segments (to_segments o) = o.
Proof.
  assert (G : forall n o, (length o <= n)%nat -> Nat.Even (length o) -> bytes_ok o -> of_segments (to_segments o) = o).
  { clear o. induction n as [|n IH]; intros [|h [|l o]] Hn He Hb; simpl in *; try done; try lia.
    - by destruct He as [k Hk]; lia.
    - inversion_clear Hb as [|? ? Hh Hb']. inversion_clear Hb' as [|? ? Hl Hb]. unfold is_byte in *.
      rewrite Z.div_add_l, Z.div_small, Z.add_0_r by lia.
      rewrite Z.add_comm, Z.mod_add, Z.mod_small by lia. do 2 f_equal.
      apply IH; [lia| |done]. destruct He as [k Hk]. exists (k - 1)%nat. lia. }
  intros. by eapply G.
Qed.

Lemma to_segments_u16 o : bytes_ok o -> Forall u16 (to_segments o).
Proof.
  assert (G : forall n o, (length o <= n)%nat -> bytes_ok o -> Forall u16 (to_segments o)).
  { clear o. induction n as [|n IH]; intros [|h [|l o]] Hn Hb; simpl in *; try done; try lia; try constructor.
    - inversion_clear Hb as [|? ? Hh Hb']. inversion_clear Hb' as [|? ? Hl Hb].
      unfold is_byte, u16, U16_MAX in *. lia.
    - apply IH; [lia|]. by do 2 apply Forall_inv_tail in Hb. }
  intros. by eapply G.
Qed.

Lemma to_segments_length16 o : length o = 16%nat -> length (to_segments o) = 8%nat.
Proof. intros H. do 16 (destruct o as [|? o]; [done|]). by destruct o. Qed.

Lemma fmt_hex16_ffff r : no_digit 16 r -> read_number 16 (Some 4) true 65535 (str_bytes "ffff" ++ r) = Some (65535, r).
Proof. apply (read_group_fmt 65535). unfold u16, U16_MAX. lia. Qed.

(** The mapped form: "::ffff:" and an embedded IPv4 address. *)
Lemma read_ipv6_mapped o r : ip_wf (V4 o) -> no_digit 10 r ->
  read_ipv6_addr (str_bytes "::ffff:" ++ fmt_ipv4 o ++ r)
  = Some ([0; 0; 0; 0; 0; 0; 0; 0; 0; 0; 255; 255] ++ o, r).
Proof.
  intros Hw Hr.
  assert (Hs : str_bytes "::ffff:" ++ fmt_ipv4 o ++ r = 58 :: 58 :: str_bytes "ffff" ++ 58 :: fmt_ipv4 o ++ r) by done.
  rewrite Hs. unfold read_ipv6_addr.
  change (read_groups 8 0 (58 :: 58 :: str_bytes "ffff" ++ 58 :: fmt_ipv4 o ++ r))
    with (@nil Z, false, 58 :: 58 :: str_bytes "ffff" ++ 58 :: fmt_ipv4 o ++ r).
  cbn [length Nat.eqb read_char Z.eqb Pos.eqb mbind option_bind Nat.sub Nat.add].
  change (8 - (length (@nil Z) + 1))%nat with 7%nat. cbn [read_groups read_separator].
  rewrite (read_ipv4_nondigit (str_bytes "ffff" ++ 58 :: fmt_ipv4 o ++ r)) by done.
  rewrite fmt_hex16_ffff by done. cbn [read_groups read_separator read_char Z.eqb Pos.eqb mbind option_bind].
  rewrite read_ipv4_fmt by done.
  destruct Hw as [Hl Hb]. destruct o as [|a [|c [|d [|e [|]]]]]; try done.
  pose proof (of_to_segments [a; c; d; e] (ex_intro _ 2%nat eq_refl) Hb) as Hseg. simpl in Hseg.
  simpl. rewrite Hseg. done.
Qed.

Lemma read_ipv6_plain segs r : Forall u16 segs -> length segs = 8%nat -> stop r ->
  read_ipv6_addr (fmt_subslice segs ++ r) = Some (of_segments segs, r).
Proof. intros Hu Hl Hs. unfold read_ipv6_addr. rewrite read_groups_fmt by (auto; lia). by rewrite Hl. Qed.

Lemma read_ipv6_compressed segs start len r :
  Forall u16 segs -> length segs = 8%nat -> stop r -> (1 < len)%nat -> zero_run segs (start, len) ->
  read_ipv6_addr ((fmt_subslice (take start segs) ++ str_bytes "::" ++ fmt_subslice (drop (start + len) segs)) ++ r)
  = Some (of_segments segs, r).
Proof.
  intros Hu Hl Hs Hlen Hz. pose proof (zero_run_bound segs start len ltac:(lia) Hz) as Hb.
  rewrite <-!app_assoc. unfold read_ipv6_addr.
  rewrite read_groups_fmt by (try apply Forall_take; rewrite ?length_take; try done; try lia; simpl; auto).
  rewrite length_take, Hl. replace (start `min` 8)%nat with start by lia.
  rewrite (proj2 (Nat.eqb_neq start 8)) by lia.
  change (str_bytes "::") with [58; 58]. cbn [app read_char Z.eqb Pos.eqb mbind option_bind].
  rewrite read_groups_fmt by (try apply Forall_drop; rewrite ?length_drop; try done; lia).
  rewrite length_drop, Hl. replace (8 - start - (8 - (start + len)))%nat with len by lia.
  by rewrite <-zero_run_split by (done || lia).
Qed.

Lemma read_ipv4_subslice segs r : Forall u16 segs -> stop r -> read_ipv4_addr (fmt_subslice segs ++ r) = None.
Proof.
  intros Hu Hs. destruct segs as [|s segs].
  - apply read_ipv4_nondigit; [by apply stop_no_digit; [left|]|apply (head_pre [] r Hs)].
  - inversion Hu; subst. rewrite fmt_subslice_cons, <-app_assoc.
    apply read_ipv4_group; auto using head_pre, no_digit_pre.
Qed.

Lemma read_ipv6_fmt o r : ip_wf (V6 o) -> stop r -> read_ipv6_addr (fmt_ipv6 o ++ r) = Some (o, r).
Proof.
  intros [Hl Hb] Hs.
  assert (Hseg : of_segments (to_segments o) = o) by (apply of_to_segments; [rewrite Hl; by exists 8%nat|done]).
  pose proof (to_segments_u16 o Hb) as Hu. pose proof (to_segments_length16 o Hl) as H8.
  assert (Hgen : forall start len, longest_zeroes (to_segments o) 0 (0%nat, 0%nat) (0%nat, 0%nat) = (start, len) ->
    read_ipv6_addr ((if (1 <? len)%nat
      then fmt_subslice (take start (to_segments o)) ++ str_bytes "::" ++ fmt_subslice (drop (start + len) (to_segments o))
      else fmt_subslice (to_segments o)) ++ r) = Some (o, r)).
  { intros start len Hlz. rewrite <-Hseg at 4. destruct (Nat.ltb_spec 1 len).
    - apply read_ipv6_compressed; try done. rewrite <-Hlz.
      apply (longest_zeroes_run (to_segments o) []); [intros k Hk; simpl in Hk; lia..|done].
    - by apply read_ipv6_plain. }
  unfold fmt_ipv6. destruct (longest_zeroes (to_segments o) _ _ _) as [start len] eqn:Hlz.
  specialize (Hgen start len eq_refl).
  assert (Hmap : forall a c, to_segments o = [0; 0; 0; 0; 0; 65535; a; c] ->
    read_ipv6_addr ((str_bytes "::ffff:" ++ fmt_ipv4 (drop 12 o)) ++ r) = Some (o, r)).
  { intros a c Ho. rewrite <-app_assoc, read_ipv6_mapped.
    - do 2 f_equal. rewrite <-(take_drop 12 o) at 2. f_equal. rewrite <-Hseg, Ho. done.
    - split; [rewrite length_drop; lia|by apply Forall_drop].
    - by apply stop_no_digit; [left|]. }
  repeat case_match; try exact Hgen; eapply Hmap; reflexivity.
Qed.

Lemma read_ipv4_fmt_ipv6 o : ip_wf (V6 o) -> read_ipv4_addr (fmt_ipv6 o) = None.
Proof.
  intros [Hl Hb]. pose proof (to_segments_u16 o Hb) as Hu. unfold fmt_ipv6.
  destruct (longest_zeroes (to_segments o) _ _ _) as [start len].
  assert (Hgen : read_ipv4_addr (if (1 <? len)%nat
      then fmt_subslice (take start (to_segments o)) ++ str_bytes "::" ++ fmt_subslice (drop (start + len) (to_segments o))
      else fmt_subslice (to_segments o)) = None).
  { case_match.
    - apply read_ipv4_subslice; [by apply Forall_take|]. simpl. auto.
    - rewrite <-(app_nil_r (fmt_subslice _)). by apply read_ipv4_subslice. }
  repeat case_match; try exact Hgen; apply read_ipv4_nondigit; done.
Qed.

(** Printing an IP address and parsing the text gives the address back, for
    every IPv4 and IPv6 address, the compressed and the IPv4-mapped forms included. *)
Lemma parse_fmt_ip a : ip_wf a -> parse_ip (fmt_ip a) = Some a.
Proof.
  destruct a as [o|o]; intros H; [by apply parse_fmt_ipv4|].
  unfold parse_ip, parse_with, read_ip_addr, fmt_ip. rewrite read_ipv4_fmt_ipv6 by done.
  pose proof (read_ipv6_fmt o [] H I) as Hr. rewrite app_nil_r in Hr. by rewrite Hr.
Qed.

Lemma read_port_fmt p : u16 p -> read_port (58 :: fmt_dec p) = Some (p, []).
Proof.
  unfold u16, U16_MAX. intros Hp. unfold read_port. simpl. rewrite <-(app_nil_r (fmt_dec p)).
  apply read_number_dec; try done; lia.
Qed.

(** The same for socket addresses, scope ids included. *)
Lemma parse_fmt_socket_addr a : sa_wf a -> parse_socket_addr (fmt_socket_addr a) = Some a.
Proof.
  intros (Hip & Hp & Hsc). unfold parse_socket_addr, parse_with, read_socket_addr.
  destruct a as [o p|o p s]; cbn [sa_ip sa_port fmt_socket_addr] in *.
  - unfold read_socket_addr_v4. change (str_bytes ":") with [58]. rewrite read_ipv4_fmt by done.
    cbn [mbind option_bind app]. by rewrite read_port_fmt.
  - change (str_bytes "[") with [91]. change (str_bytes "]:") with [93; 58]. cbn [app].
    unfold read_socket_addr_v4. rewrite read_ipv4_nondigit by done. cbn [mbind option_bind].
    unfold read_socket_addr_v6. cbn [read_char Z.eqb Pos.eqb mbind option_bind].
    rewrite read_ipv6_fmt by (try done; case_match; simpl; auto). cbn [mbind option_bind].
    destruct (Z.eqb_spec s 0) as [->|Hs].
    + cbn [app read_scope_id read_char Z.eqb Pos.eqb mbind option_bind]. by rewrite read_port_fmt.
    + change (str_bytes "%") with [37]. unfold u32, U32_MAX in Hsc. unfold read_scope_id.
      cbn [app read_char Z.eqb Pos.eqb mbind option_bind].
      rewrite read_number_dec by (try done; unfold U32_MAX; lia).
      cbn [read_char Z.eqb Pos.eqb mbind option_bind]. by rewrite read_port_fmt.
Qed.

Lemma socket_addr_new_wf ip p : ip_wf ip -> u16 p -> sa_wf (socket_addr_new ip p).
Proof.
  intros Hi Hp. destruct ip; (split; [exact Hi|split; [exact Hp|]]); [done|].
  simpl. unfold u32, U32_MAX. lia.
Qed.
