(* ===== verification/Conn.v ===== *)
(** * Client connections

    An accepted TCP connection as the protocol handlers see it: the bytes the peer
    sends, what happens after them, and the bytes written back.  A handler is a
    computation in the monad [io E]: it returns, fails, or waits for ever
    ([Hang]); a Tokio timeout turns the last into an error. *)
From S2P Require Import Prelude.

(** What follows the last byte the peer sends. *)
Inductive stream_end :=
| Closed                    (** orderly end of stream *)
| Broken (k : ErrorKind)    (** reading fails *)
| Silent.                   (** nothing more arrives *)

Inductive out (E A : Type) : Type :=
| Ret (a : A)
| Fail (e : E)
| Hang.
Arguments Ret {E A} a.
Arguments Fail {E A} e.
Arguments Hang {E A}.

#[export] Instance out_ret E : MRet (out E) := fun _ a => Ret a.
#[export] Instance out_bind E : MBind (out E) := fun _ _ k m =>
  match m with Ret a => k a | Fail e => Fail e | Hang => Hang end.

(** The two copies of the byte relay, by where their bytes go. *)
Inductive side := ToOutlet | ToClient.

(** One step of the byte relay, chosen by the scheduler and the network: an answer to a
    pending read, write, flush or shutdown. *)
Inductive relay_event :=
| ReadSome (d : side) (n : Z)         (** the source of a copy has [n] bytes for it *)
| ReadEnd (d : side)                  (** the source ends, or fails *)
| WriteSome (d : side) (n : Z)        (** the sink takes [n] of the bytes offered *)
| WriteErr (d : side) (k : ErrorKind)
| Flushed (d : side)
| FlushErr (d : side) (k : ErrorKind)
| ClientClosed (r : option ErrorKind) (** the client's write side is shut down, or that fails *)
| OutletShut (r : option ErrorKind)   (** the outlet's write side *)
| Tick.                               (** the task is only woken *)

(** What the relay meets: the bytes of the outlet, what follows them, and the events
    with the time of each, in milliseconds. *)
Record relay_script := mk_script { o_in : bytes; o_end : stream_end; o_events : list (Z * relay_event) }.
Definition idle : relay_script := mk_script [] Silent [].

Record conn := mk_conn {
  c_in : bytes;                    (** bytes sent by the peer and not read yet *)
  c_end : stream_end;
  c_writes : option nat;           (** [Some n]: writing fails after [n] more writes *)
  c_out : bytes;                   (** bytes written to the peer *)
  c_up : bytes;                    (** bytes relayed to the outlet *)
  c_relay : relay_script           (** what the relay will see *)
}.

Definition io (E A : Type) : Type := conn -> out E A * conn.

#[export] Instance io_ret E : MRet (io E) := fun _ a c => (Ret a, c).
#[export] Instance io_bind E : MBind (io E) := fun _ _ k m c =>
  match m c with
  | (Ret a, c') => k a c'
  | (Fail e, c') => (Fail e, c')
  | (Hang, c') => (Hang, c')
  end.

(** [From<io::Error>]: how [?] turns an I/O error into the handler's error. *)
Class FromIo (E : Type) := from_io : ErrorKind -> E.

Section ops.
Context {E : Type} `{FromIo E}.

Definition throw {A} (e : E) : io E A := fun c => (Fail e, c).
Definition lift_out {A} (o : out E A) : io E A := fun c => (o, c).

(** [let _ = m.await;] *)
Definition ignore {A} (m : io E A) : io E unit := fun c =>
  match m c with
  | (Hang, c') => (Hang, c')
  | (_, c') => (Ret tt, c')
  end.

(** [match m.await { Err(e) => handler(e), ok => ok }] *)
Definition catch {A} (m : io E A) (handler : E -> io E A) : io E A := fun c =>
  match m c with
  | (Fail e, c') => handler e c'
  | r => r
  end.

(** [timeout_at(deadline, m)]: a computation that never finishes fails instead. *)
Definition timeout_at {A} (e : E) (m : io E A) : io E A := fun c =>
  match m c with
  | (Hang, c') => (Fail e, c')
  | r => r
  end.

(** The outcome of a read that needs more bytes than the peer sends. *)
Definition starved {A} (c : conn) : out E A * conn :=
  let c' := mk_conn [] (c_end c) (c_writes c) (c_out c) (c_up c) (c_relay c) in
  match c_end c with
  | Closed => (Fail (from_io UnexpectedEof), c')
  | Broken k => (Fail (from_io k), c')
  | Silent => (Hang, c')
  end.

(** [read_exact(&mut [0; n])] *)
Definition read_exact (n : Z) : io E bytes := fun c =>
  if n <=? zlen (c_in c)
  then (Ret (take (Z.to_nat n) (c_in c)),
        mk_conn (drop (Z.to_nat n) (c_in c)) (c_end c) (c_writes c) (c_out c) (c_up c) (c_relay c))
  else starved c.

(** [read_u8] *)
Definition read_u8 : io E Z := fun c =>
  match c_in c with
  | x :: r => (Ret x, mk_conn r (c_end c) (c_writes c) (c_out c) (c_up c) (c_relay c))
  | [] => starved c
  end.

(** [peek] of one byte: [None] at the end of the stream; nothing is consumed. *)
Definition peek1 : io E (option Z) := fun c =>
  match c_in c with
  | x :: _ => (Ret (Some x), c)
  | [] => match c_end c with
          | Closed => (Ret None, c)
          | Broken k => (Fail (from_io k), c)
          | Silent => (Hang, c)
          end
  end.

Definition write_all (bs : bytes) : io E unit := fun c =>
  match c_writes c with
  | Some O => (Fail (from_io BrokenPipe), c)
  | Some (S n) => (Ret tt, mk_conn (c_in c) (c_end c) (Some n) (c_out c ++ bs) (c_up c) (c_relay c))
  | None => (Ret tt, mk_conn (c_in c) (c_end c) None (c_out c ++ bs) (c_up c) (c_relay c))
  end.
End ops.

(** Equations for well-fed reads and for writes, used to run handlers. *)
Lemma io_bind_ret {E A B} (m : io E A) (k : A -> io E B) c a c' :
  m c = (Ret a, c') -> (m ≫= k) c = k a c'.
Proof. intros H. unfold mbind, io_bind. by rewrite H. Qed.

Lemma io_bind_fail {E A B} (m : io E A) (k : A -> io E B) c e c' :
  m c = (Fail e, c') -> (m ≫= k) c = (Fail e, c').
Proof. intros H. unfold mbind, io_bind. by rewrite H. Qed.

Lemma read_exact_app `{FromIo E} n bs rest e w o u r :
  n = zlen bs ->
  read_exact (E:=E) n (mk_conn (bs ++ rest) e w o u r) = (Ret bs, mk_conn rest e w o u r).
Proof.
  intros ->. unfold read_exact. simpl. rewrite zlen_app. pose proof (zlen_nonneg rest).
  ztrue. unfold zlen. rewrite Nat2Z.id, take_app_length, drop_app_length. done.
Qed.

(** Why a protocol handler gives up. *)
Inductive proxy_error :=
| EIo (k : ErrorKind)
| EHandshakeTimeout
| EVersion (v : Z)
| ENoAuthMethod
| ECommand (c : Z)
| EAddressType (a : Z)
| EDomainUtf8
| EStringTooLong (max : Z)
| EConnect (k : ErrorKind)
| EUdpUnsupported
| EUdpBind (k : ErrorKind)
| EUdpRelayRead (k : ErrorKind)
| EHttp.

#[export] Instance from_io_proxy : FromIo proxy_error := EIo.

(** A connection whose peer sends [i] and then [e], with nothing written yet. *)
Definition fresh (i : bytes) (e : stream_end) (r : relay_script) : conn :=
  mk_conn i e None [] [] r.

Definition feed (c : conn) (i : bytes) : conn :=
  mk_conn i (c_end c) (c_writes c) (c_out c) (c_up c) (c_relay c).

Lemma feed_in c i : c_in (feed c i) = i.
Proof. done. Qed.

Lemma read_exact_feed `{FromIo E} n bs rest c :
  n = zlen bs -> read_exact (E:=E) n (feed c (bs ++ rest)) = (Ret bs, feed c rest).
Proof. intros ->. unfold feed. by apply read_exact_app. Qed.

Lemma read_u8_feed `{FromIo E} x rest c : read_u8 (E:=E) (feed c (x :: rest)) = (Ret x, feed c rest).
Proof. done. Qed.

(** A connection on which writing succeeds. *)
Definition writes (c : conn) (bs : bytes) : conn :=
  mk_conn (c_in c) (c_end c) (c_writes c) (c_out c ++ bs) (c_up c) (c_relay c).

Lemma write_all_writable `{FromIo E} bs c : c_writes c = None -> write_all (E:=E) bs c = (Ret tt, writes c bs).
Proof. unfold write_all, writes. by intros ->. Qed.

Lemma feed_id c : feed c (c_in c) = c.
Proof. by destruct c. Qed.
