(* ===== verification/Outbound.v ===== *)
(** * Outlets and the byte relay

    The [Outbound] and [Datagram] traits with their default methods
    ([src/src/outbound/mod.rs]), target resolution and dialling order of the IP
    outlets ([src/src/outbound/ip.rs]), the bounded HTTPS body reader
    ([src/src/outbound/https.rs]) and the CONNECT relay ([src/src/relay.rs]). *)
From S2P Require Import Prelude RustStr NetAddr Conn.

(** ** [src/src/outbound/mod.rs] *)
Inductive Host := Domain (name : bytes) | Ip (ip : IpAddr).

#[export] Instance Host_eq_dec : EqDecision Host.
Proof. solve_decision. Defined.

(** [Host::parse]: a literal address is never treated as a name. *)
Definition host_parse (s : bytes) : Host :=
  match parse_ip s with Some ip => Ip ip | None => Domain s end.

Record Connected := mk_connected { cn_stream : Z; note : option bytes }.

(** A datagram channel, by the address its replies come from. *)
Record Datagram := mk_datagram { dg_socket : Z; peer_addr : SocketAddr }.

(** A [dyn Outbound]: what each method returns on the call at hand. *)
Record Outbound := mk_outbound {
  ob_name : bytes;
  supports_udp : bool;
  connect_tcp : Host -> Z -> out ErrorKind Connected;
  connect_udp : Host -> Z -> out ErrorKind Datagram
}.

(** The trait's default for [connect_udp]. *)
Definition connect_udp_default : Host -> Z -> out ErrorKind Datagram := fun _ _ => Fail Unsupported.

(** What the protocol layer relies on: an outlet that announces no UDP support
    refuses every UDP channel, so nothing can leave outside the tunnel. *)
Class LawfulOutbound (o : Outbound) : Prop :=
  udp_refused : supports_udp o = false -> forall h p, connect_udp o h p = Fail Unsupported.

(** [relay::connect] *)
Definition relay_connect (o : Outbound) (host : Host) (port : Z) : out ErrorKind Connected :=
  connect_tcp o host port.

(** ** [src/src/relay.rs] *)
Module Relay.
(** Milliseconds. *)
Definition RELAY_DRAIN_GRACE : Z := 30000.

(** *** [tokio::io::copy]
    A copy reads into a buffer of 8 KiB, behind what it holds already, and writes from
    it; the space of written bytes is free again once the buffer is empty. *)
Definition COPY_BUF : Z := 8192.
Record copier := mk_copier {
  pend : bytes;          (** read and not written yet *)
  pos : Z;               (** how much of the buffer is written *)
  read_done : bool; need_flush : bool
}.
Definition copier_new : copier := mk_copier [] 0 false false.
Definition room (b : copier) : Z := COPY_BUF - (pos b + zlen (pend b)).
Definition wrote (n : Z) (b : copier) : copier :=
  match drop (Z.to_nat n) (pend b) with
  | [] => mk_copier [] 0 (read_done b) true
  | rest => mk_copier rest (pos b + n) (read_done b) true
  end.

(** A step of a copy from [src], which ends with [e]: it moves on (with what is left of
    the source and what was written), or it returns. *)
Inductive copied := Moved (b : copier) (src w : bytes) | Returned (r : option ErrorKind).
Definition copy_step (ev : relay_event) (b : copier) (src : bytes) (e : stream_end) : option copied :=
  match ev with
  | ReadSome _ n =>
      if negb (read_done b) && (0 <? n) && (n <=? room b) && (n <=? zlen src)
      then Some (Moved (mk_copier (pend b ++ take (Z.to_nat n) src) (pos b) false (need_flush b)) (drop (Z.to_nat n) src) [])
      else None
  | ReadEnd _ =>
      if negb (read_done b) && (0 <? room b) then
        match src, e with
        | [], Closed => Some (Moved (mk_copier (pend b) (pos b) true (need_flush b)) [] [])
        | [], Broken k => Some (Returned (Some k))
        | _, _ => None
        end
      else None
  | WriteSome _ n =>
      if 0 <? zlen (pend b) then
        if n =? 0 then Some (Returned (Some WriteZero))
        else if (0 <? n) && (n <=? zlen (pend b)) then Some (Moved (wrote n b) src (take (Z.to_nat n) (pend b)))
        else None
      else None
  | WriteErr _ k => if 0 <? zlen (pend b) then Some (Returned (Some k)) else None
  | Flushed _ =>
      match pend b with
      | [] => if read_done b then Some (Returned None)
              else if need_flush b then Some (Moved (mk_copier [] (pos b) false false) src []) else None
      | _ => None
      end
  | FlushErr _ k => match pend b with [] => if read_done b || need_flush b then Some (Returned (Some k)) else None | _ => None end
  | _ => None
  end.

(** *** [copy_with_drain]
    Both directions are copied until one ends; after the client's end of stream only
    the downlink runs, beside the shutdown of the outlet ([shut]: it is done), both
    under one grace period from [since].  The downlink, at its end, closes the
    client's write side. *)
Inductive phase := Copying | Draining (since : Z) (shut : bool).
Inductive downlink := Fetching (b : copier) | Closing.
Record relay := mk_relay { ph : phase; up : copier; down : downlink }.
Definition relay_new : relay := mk_relay Copying copier_new (Fetching copier_new).
Inductive verdict := Running (s : relay) | Finished (r : option ErrorKind).

Definition on_client (c : conn) (src w : bytes) : conn :=
  mk_conn src (c_end c) (c_writes c) (c_out c) (c_up c ++ w) (c_relay c).
Definition on_outlet (c : conn) (src w : bytes) : conn :=
  mk_conn (c_in c) (c_end c) (c_writes c) (c_out c ++ w) (c_up c) (mk_script src (o_end (c_relay c)) (o_events (c_relay c))).
Definition side_of (ev : relay_event) : option side :=
  match ev with
  | ReadSome d _ | ReadEnd d | WriteSome d _ | WriteErr d _ | Flushed d | FlushErr d _ => Some d
  | _ => None
  end.

(** [None]: nothing pending is answered by the event. *)
Definition step (t : Z) (ev : relay_event) (s : relay) (c : conn) : option (verdict * conn) :=
  match side_of ev with
  | Some ToOutlet =>
      match ph s with
      | Copying =>
          match copy_step ev (up s) (c_in c) (c_end c) with
          | Some (Moved b src w) => Some (Running (mk_relay Copying b (down s)), on_client c src w)
          | Some (Returned None) => Some (Running (mk_relay (Draining t false) copier_new (down s)), c)
          | Some (Returned (Some k)) => Some (Finished (Some k), c)
          | None => None
          end
      | Draining _ _ => None
      end
  | Some ToClient =>
      match down s with
      | Fetching b =>
          match copy_step ev b (o_in (c_relay c)) (o_end (c_relay c)) with
          | Some (Moved b src w) => Some (Running (mk_relay (ph s) (up s) (Fetching b)), on_outlet c src w)
          | Some (Returned None) => Some (Running (mk_relay (ph s) (up s) Closing), c)
          | Some (Returned (Some k)) => Some (Finished (Some k), c)
          | None => None
          end
      | Closing => None
      end
  | None =>
      match ev, ph s, down s with
      | ClientClosed r, _, Closing => Some (Finished r, c)
      | OutletShut None, Draining since false, d => Some (Running (mk_relay (Draining since true) (up s) d), c)
      | OutletShut (Some k), Draining _ false, _ => Some (Finished (Some k), c)
      | _, _, _ => None
      end
  end.

(** [tokio::time::timeout]: the timer is looked at after the futures. *)
Definition expired (grace t : Z) (s : relay) : bool :=
  match ph s with Draining since _ => since + grace <=? t | Copying => false end.

(** The relay until it returns, or waits after the last event; with its last state. *)
Fixpoint run (grace : Z) (evs : list (Z * relay_event)) (s : relay) (c : conn) : out ErrorKind unit * (relay * conn) :=
  match evs with
  | [] => (Hang, (s, c))
  | (t, ev) :: evs' =>
      match default (Running s, c) (step t ev s c) with
      | (Finished None, c') => (Ret tt, (s, c'))
      | (Finished (Some k), c') => (Fail k, (s, c'))
      | (Running s', c') => if expired grace t s' then (Fail TimedOut, (s', c')) else run grace evs' s' c'
      end
  end.

Definition copy_with_drain (drain_grace : Z) (c : conn) : out ErrorKind unit * conn :=
  let '(r, (_, c')) := run drain_grace (o_events (c_relay c)) relay_new c in (r, c').

(** [tunnel_tcp], the log lines aside. *)
Definition tunnel_tcp `{FromIo E} (conn : Connected) : io E unit := fun c =>
  match copy_with_drain RELAY_DRAIN_GRACE c with
  | (Ret _, c') => (Ret tt, c')
  | (Fail k, c') => (Fail (from_io k), c')
  | (Hang, c') => (Hang, c')
  end.

(** *** Conservation *)
(** A copy at work: its buffer is within bounds, and it has seen the end of its source
    only when that has ended. *)
Definition copier_ok (b : copier) (src : bytes) (e : stream_end) : Prop :=
  0 <= pos b /\ pos b + zlen (pend b) <= COPY_BUF /\ (read_done b = true -> src = [] /\ e = Closed).

Lemma wrote_spec n b : 0 < n <= zlen (pend b) -> 0 <= pos b -> pos b + zlen (pend b) <= COPY_BUF ->
  pend b = take (Z.to_nat n) (pend b) ++ pend (wrote n b) /\ read_done (wrote n b) = read_done b /\
  0 <= pos (wrote n b) /\ pos (wrote n b) + zlen (pend (wrote n b)) <= COPY_BUF.
Proof.
  intros Hn Hp Hb. pose proof (zlen_drop n (pend b) ltac:(lia)) as Hd. pose proof (take_drop (Z.to_nat n) (pend b)) as Ht.
  unfold wrote. destruct (drop (Z.to_nat n) (pend b)) as [|x r] eqn:Hr; cbn [pend pos read_done].
  - rewrite Ht. split_and!; try done. 
  - rewrite Ht. split_and!; [done..|lia|]. rewrite Hd. lia.
Qed.

Lemma copy_step_ok ev b src e : copier_ok b src e ->
  match copy_step ev b src e with
  | Some (Moved b' src' w) => pend b ++ src = w ++ pend b' ++ src' /\ copier_ok b' src' e
  | Some (Returned None) => pend b = [] /\ src = [] /\ e = Closed
  | _ => True
  end.
Proof.
  intros (Hp & Hb & Hr). destruct ev as [d n|d|d n|d k|d|d k|r|r|]; cbn [copy_step]; try done.
  - destruct (negb _ && _ && _ && _) eqn:Hc; [|done]. zbool. unfold room in *. cbn [app pend pos]. rewrite <-app_assoc, take_drop. split; [done|].
    split_and!; cbn; [done| |done]. rewrite zlen_app, zlen_take by lia. lia.
  - destruct (negb _ && _); [|done]. destruct src as [|x src]; [|done]. by destruct e.
  - destruct (0 <? _); [|done]. destruct (n =? 0); [done|]. destruct ((0 <? n) && _) eqn:Hn; [|done]. zbool.
    destruct (wrote_spec n b) as (Hw & Hrd & H1 & H2); [lia..|]. rewrite app_assoc, <-Hw. split; [done|]. split_and!; [done..|]. by rewrite Hrd.
  - by destruct (0 <? _).
  - destruct (pend b) eqn:He; [|done]. destruct (read_done b); [by destruct Hr|]. destruct (need_flush b); [|done]. split; [done|].
    split_and!; cbn; [done| |done]. rewrite zlen_nil in *. lia.
  - destruct (pend b); [|done]. by destruct (_ || _).
Qed.

Definition dbuf (d : downlink) : bytes := match d with Fetching b => pend b | Closing => [] end.

(** The state against the connection [c0] the relay started with. *)
Definition relay_inv (c0 : conn) (s : relay) (c : conn) : Prop :=
  (exists sent, c_up c = c_up c0 ++ sent /\ c_in c0 = sent ++ pend (up s) ++ c_in c) /\
  (exists got, c_out c = c_out c0 ++ got /\ o_in (c_relay c0) = got ++ dbuf (down s) ++ o_in (c_relay c)) /\
  c_end c = c_end c0 /\ o_end (c_relay c) = o_end (c_relay c0) /\ copier_ok (up s) (c_in c) (c_end c) /\
  match ph s with Copying => True | Draining _ _ => pend (up s) = [] /\ c_in c = [] /\ c_end c = Closed end /\
  match down s with Fetching b => copier_ok b (o_in (c_relay c)) (o_end (c_relay c)) | Closing => o_in (c_relay c) = [] /\ o_end (c_relay c) = Closed end.

Lemma relay_inv_init c : relay_inv c relay_new c.
Proof.
  assert (Hn : forall src e, copier_ok copier_new src e) by done.
  split_and!; try done; exists []; by rewrite app_nil_r.
Qed.

Lemma relay_step_inv c0 t ev s c : relay_inv c0 s c ->
  match step t ev s c with
  | Some (Running s', c') => relay_inv c0 s' c'
  | Some (Finished r, c') => c' = c /\ (r = None -> down s = Closing)
  | None => True
  end.
Proof.
  intros ((sent & Hu & Hi) & (got & Ho & Hd) & He & Hoe & Hup & Hph & Hdn). unfold step. destruct (side_of ev) as [[]|].
  - destruct (ph s) as [|since shut] eqn:Hp; [|done]. pose proof (copy_step_ok ev (up s) (c_in c) (c_end c) Hup) as Hc.
    destruct (copy_step _ _ _ _) as [[b src w|[k|]]|]; [|by split|destruct Hc as (Hb & Hs & Hcl)|done].
    + destruct Hc as [Hb Hok]. split_and!; cbn; try done.
      * exists (sent ++ w). rewrite Hu, Hi, <-!app_assoc. split; [done|]. by rewrite <-Hb.
      * by exists got.
    + split_and!; cbn; try done; [exists sent; by rewrite Hb in Hi|by exists got].
  - destruct (down s) as [b|] eqn:Hdb; [|done]. pose proof (copy_step_ok ev b _ _ Hdn) as Hc.
    destruct (copy_step _ _ _ _) as [[b' src w|[k|]]|]; [|by split|destruct Hc as (Hb & Hs & Hcl)|done].
    + destruct Hc as [Hb Hok]. split_and!; cbn; try done; [by exists sent|].
      exists (got ++ w). rewrite Ho, Hd, <-!app_assoc. split; [done|]. cbn. by rewrite <-Hb.
    + split_and!; cbn; try done; [by exists sent|]. exists got. split; [done|]. cbn in Hd. by rewrite Hb in Hd.
  - destruct ev as [| | | | | |r|[k|]|]; try done; destruct (ph s) as [|since [|]] eqn:Hp, (down s) as [b|] eqn:Hdb; try done.
    all: split_and!; cbn; rewrite ?Hdb; try done; [by exists sent|by exists got|..]; tauto.
Qed.

Lemma relay_run_inv grace c0 evs s c r s' c' : relay_inv c0 s c -> run grace evs s c = (r, (s', c')) ->
  relay_inv c0 s' c' /\ (r = Ret tt -> down s' = Closing).
Proof.
  revert s c. induction evs as [|[t ev] evs IH]; intros s c Hi; cbn [run]; [by intros [= <- <- <-]|].
  pose proof (relay_step_inv c0 t ev s c Hi) as Hs. destruct (step t ev s c) as [[[s1|[k|]] c1]|]; cbn [default from_option id].
  - destruct (expired grace t s1); [by intros [= <- <- <-]|by apply IH].
  - destruct Hs as [-> _]. by intros [= <- <- <-].
  - destruct Hs as [-> Hs]. intros [= <- <- <-]. auto.
  - destruct (expired grace t s); [by intros [= <- <- <-]|by apply IH].
Qed.

Lemma relay_run_app grace e1 e2 s c : run grace (e1 ++ e2) s c =
  match run grace e1 s c with (Hang, (s', c')) => run grace e2 s' c' | x => x end.
Proof.
  revert s c. induction e1 as [|[t ev] e1 IH]; intros s c; [done|]. cbn [app run].
  destruct (default (Running s, c) (step t ev s c)) as [[s1|[k|]] c1]; [|done..]. destruct (expired grace t s1); [done|apply IH].
Qed.

(** Draining goes on with the time of its start. *)
Lemma step_draining t ev s c since shut : ph s = Draining since shut ->
  forall s' c', step t ev s c = Some (Running s', c') -> exists shut', ph s' = Draining since shut'.
Proof.
  intros Hp s' c'. unfold step. rewrite Hp. destruct (side_of ev) as [[]|]; [done| |].
  - destruct (down s); [|done]. destruct (copy_step _ _ _ _) as [[? ? ?|[]]|]; [|done| |done]; intros [= <- <-]; cbn; eauto.
  - destruct ev as [| | | | | |r|[k|]|]; try done; destruct shut, (down s); try done; intros [= <- <-]; cbn; eauto.
Qed.
Lemma draining_ends grace evs s c since shut : ph s = Draining since shut ->
  (run grace evs s c).1 = Hang -> Forall (fun e => e.1 < since + grace) evs.
Proof.
  revert s c shut. induction evs as [|[t ev] evs IH]; intros s c shut Hp; [constructor|]. cbn [run].
  pose proof (step_draining t ev s c since shut Hp) as Hs.
  assert (Hrun : forall s1 c1 sh, ph s1 = Draining since sh ->
    (if expired grace t s1 then (Fail TimedOut, (s1, c1)) else run grace evs s1 c1).1 = Hang -> Forall (fun e => e.1 < since + grace) ((t, ev) :: evs)).
  { intros s1 c1 sh H1. unfold expired. rewrite H1. destruct (Z.leb_spec (since + grace) t); [done|]. intros Hr. constructor; [done|by eapply IH]. }
  destruct (step t ev s c) as [[[s1|[k|]] c1]|]; cbn [default from_option id]; [|done|done|by apply (Hrun s c shut)].
  destruct (Hs s1 c1 eq_refl) as [sh H1]. by apply (Hrun s1 c1 sh).
Qed.

(** *** Why a relay fails *)
Definition reports (ev : relay_event) (k : ErrorKind) : Prop :=
  match ev with
  | WriteErr _ k' | FlushErr _ k' | ClientClosed (Some k') | OutletShut (Some k') => k = k'
  | WriteSome _ n => n = 0 /\ k = WriteZero
  | _ => False
  end.
Lemma copy_step_fails ev b src e k : copy_step ev b src e = Some (Returned (Some k)) -> reports ev k \/ e = Broken k.
Proof. destruct ev; cbn [copy_step]; repeat case_match; intros Hx; try discriminate Hx; injection Hx as <-; zbool; cbn; auto. Qed.
Lemma step_fails t ev s c k c' : step t ev s c = Some (Finished (Some k), c') ->
  reports ev k \/ c_end c = Broken k \/ o_end (c_relay c) = Broken k.
Proof.
  unfold step. destruct (side_of ev) as [[]|].
  - destruct (ph s); [|done]. destruct (copy_step _ _ _ _) as [[? ? ?|[k'|]]|] eqn:Hc; [done| |done|done].
    intros [= -> _]. apply copy_step_fails in Hc as [?|?]; auto.
  - destruct (down s); [|done]. destruct (copy_step _ _ _ _) as [[? ? ?|[k'|]]|] eqn:Hc; [done| |done|done].
    intros [= -> _]. apply copy_step_fails in Hc as [?|?]; auto.
  - destruct ev as [| | | | | |r|[k'|]|]; try done; destruct (ph s) as [|? []], (down s); try done; intros [= -> _]; cbn; auto.
Qed.

(** The client's end of stream was relayed at [since], in the first [pre] events. *)
Definition ended_at (grace : Z) (pre : list (Z * relay_event)) (s : relay) (c : conn) (since : Z) : Prop :=
  exists s' c' shut, run grace pre s c = (Hang, (s', c')) /\ ph s' = Draining since shut.

Lemma step_since t ev s c s' c' since shut : step t ev s c = Some (Running s', c') -> ph s' = Draining since shut ->
  (exists sh, ph s = Draining since sh) \/ since = t.
Proof.
  unfold step. destruct (side_of ev) as [[]|].
  - destruct (ph s); [|done]. destruct (copy_step _ _ _ _) as [[? ? ?|[]]|]; try done; intros [= <- <-]; cbn; [done|]. intros [= <- _]. by right.
  - destruct (down s); [|done]. destruct (copy_step _ _ _ _) as [[? ? ?|[]]|]; try done; intros [= <- <-]; cbn; eauto.
  - destruct ev as [| | | | | |r|[k'|]|]; try done; destruct (ph s) as [|? []], (down s); try done; intros [= <- <-]; cbn; intros [= <- _]; eauto.
Qed.

Lemma run_fails grace c0 evs s c k x : 0 < grace -> relay_inv c0 s c -> run grace evs s c = (Fail k, x) ->
  (exists t ev, (t, ev) ∈ evs /\ reports ev k) \/ c_end c0 = Broken k \/ o_end (c_relay c0) = Broken k \/
  (k = TimedOut /\ exists pre t ev post since, evs = pre ++ (t, ev) :: post /\ ended_at grace pre s c since /\ since + grace <= t).
Proof.
  intros Hg. revert s c. induction evs as [|[t ev] evs IH]; intros s c Hi; [done|]. cbn [run].
  pose proof (relay_step_inv c0 t ev s c Hi) as Hs.
  assert (Hexp : forall s1 c1, default (Running s, c) (step t ev s c) = (Running s1, c1) -> expired grace t s1 = true ->
    exists pre t' ev' post since, (t, ev) :: evs = pre ++ (t', ev') :: post /\ ended_at grace pre s c since /\ since + grace <= t').
  { intros s1 c1 Hst He. unfold expired in He. destruct (ph s1) as [|since sh] eqn:Hp; [done|]. apply Z.leb_le in He.
    assert (Hp0 : exists sh, ph s = Draining since sh).
    { destruct (step t ev s c) as [[v c2]|] eqn:Hq; cbn in Hst; [|injection Hst as -> ->; eauto]. injection Hst as -> ->.
      destruct (step_since _ _ _ _ _ _ _ _ Hq Hp) as [?|Hx]; [done|lia]. }
    destruct Hp0 as [sh0 Hp0]. exists [], t, ev, evs, since. split_and!; [done| |done]. by exists s, c, sh0. }
  assert (Htail : forall s1 c1, default (Running s, c) (step t ev s c) = (Running s1, c1) -> expired grace t s1 = false -> relay_inv c0 s1 c1 ->
    run grace evs s1 c1 = (Fail k, x) -> (exists t' ev', (t', ev') ∈ (t, ev) :: evs /\ reports ev' k) \/ c_end c0 = Broken k \/ o_end (c_relay c0) = Broken k \/
      (k = TimedOut /\ exists pre t' ev' post since, (t, ev) :: evs = pre ++ (t', ev') :: post /\ ended_at grace pre s c since /\ since + grace <= t')).
  { intros s1 c1 Hst He Hi1 Hr. destruct (IH s1 c1 Hi1 Hr) as [(t' & ev' & Hin & Hrep)|[?|[?|(Hk & pre & t' & ev' & post & since & -> & Hend & Hle)]]]; auto.
    - left. exists t', ev'. split; [by right|done].
    - right. right. right. split; [done|]. exists ((t, ev) :: pre), t', ev', post, since. split_and!; [done| |done].
      destruct Hend as (s2 & c2 & sh & Hrun & Hp). exists s2, c2, sh. split; [|done]. cbn [run]. by rewrite Hst, He. }
  destruct (step t ev s c) as [[[s1|[k'|]] c1]|] eqn:Hst; cbn [default from_option id] in *.
  - destruct (expired grace t s1) eqn:He; [|by apply Htail]. intros [= <- _]. do 3 right. split; [done|]. by eapply Hexp.
  - intros [= -> _]. apply step_fails in Hst as [Hr|Hr]; [left; exists t, ev; split; [by left|done]|].
    destruct Hi as (_ & _ & <- & <- & _). tauto.
  - done.
  - destruct (expired grace t s) eqn:He; [|by apply Htail]. intros [= <- _]. do 3 right. split; [done|]. by eapply Hexp.
Qed.

Lemma run_drained grace c0 evs s c since shut r s' c' : relay_inv c0 s c -> ph s = Draining since shut -> run grace evs s c = (r, (s', c')) ->
  exists shut', ph s' = Draining since shut' /\ relay_inv c0 s' c'.
Proof.
  intros Hi Hp Hr. assert (Hd : exists shut', ph s' = Draining since shut').
  { clear Hi. revert s c shut Hp Hr. induction evs as [|[t ev] evs IH]; intros s c shut Hp; cbn [run]; [intros [= _ <- _]; eauto|].
    pose proof (step_draining t ev s c since shut Hp) as Hs. destruct (step t ev s c) as [[[s1|[k|]] c1]|]; cbn [default from_option id].
    - destruct (Hs s1 c1 eq_refl) as [sh H1]. destruct (expired grace t s1); [intros [= _ <- _]; eauto|by eapply IH].
    - intros [= _ <- _]; eauto.
    - intros [= _ <- _]; eauto.
    - destruct (expired grace t s); [intros [= _ <- _]; eauto|by eapply IH]. }
  destruct Hd as [sh Hd]. exists sh. split; [done|]. by eapply relay_run_inv.
Qed.

(** The relay against an account of its bytes. *)
Lemma copy_conserves grace c : let '(r, c') := copy_with_drain grace c in
  exists sent ubuf got dbuf,
    c_up c' = c_up c ++ sent /\ c_in c = sent ++ ubuf ++ c_in c' /\
    c_out c' = c_out c ++ got /\ o_in (c_relay c) = got ++ dbuf ++ o_in (c_relay c') /\
    zlen ubuf <= COPY_BUF /\ zlen dbuf <= COPY_BUF /\
    (r = Ret tt -> dbuf = [] /\ o_in (c_relay c') = [] /\ o_end (c_relay c) = Closed).
Proof.
  unfold copy_with_drain. destruct (run grace _ relay_new c) as [r [s c']] eqn:Hr.
  destruct (relay_run_inv _ c _ _ _ _ _ _ (relay_inv_init c) Hr) as [((sent & Hu & Hi) & (got & Ho & Hd) & He & Hoe & Hup & _ & Hdn) Hret].
  exists sent, (pend (up s)), got, (dbuf (down s)). split_and!; try done.
  - destruct Hup as (? & ? & _). lia.
  - destruct (down s) as [b|]; cbn; [destruct Hdn as (? & ? & _); lia|done].
  - intros Hx. rewrite (Hret Hx) in *. rewrite <-Hoe. by destruct Hdn.
Qed.

(** C28. The relay neither loses, duplicates nor reorders bytes, however reads, writes
    and flushes of its two copies interleave.  In each direction the bytes written
    are a prefix of the source's; what was read and not written is in the copy's
    buffer, at most 8 KiB, and the rest is unread.  The relay succeeds only when the
    outlet's stream has ended and every byte of it was written to the client.  Once
    the client's end of stream has been relayed, all its bytes have been written to
    the outlet, and the relay returns by its first wake 30 seconds later; it fails
    only with an error of one of the streams, or with [TimedOut] 30 seconds or
    more after the client's end. *)
Theorem relay_faithful c :
  let '(r, c') := copy_with_drain RELAY_DRAIN_GRACE c in
  let events := o_events (c_relay c) in
  (exists sent ubuf got dbuf,
     c_up c' = c_up c ++ sent /\ c_in c = sent ++ ubuf ++ c_in c' /\
     c_out c' = c_out c ++ got /\ o_in (c_relay c) = got ++ dbuf ++ o_in (c_relay c') /\
     zlen ubuf <= 8192 /\ zlen dbuf <= 8192 /\
     (r = Ret tt -> dbuf = [] /\ o_in (c_relay c') = [] /\ o_end (c_relay c) = Closed)) /\
  (forall pre post since, events = pre ++ post -> ended_at RELAY_DRAIN_GRACE pre relay_new c since ->
     c_up c' = c_up c ++ c_in c /\ c_end c = Closed /\ (r = Hang -> Forall (fun e => e.1 < since + 30000) post)) /\
  (forall k, r = Fail k -> (exists t ev, (t, ev) ∈ events /\ reports ev k) \/ c_end c = Broken k \/ o_end (c_relay c) = Broken k \/
     (k = TimedOut /\ exists pre t ev post since, events = pre ++ (t, ev) :: post /\ ended_at RELAY_DRAIN_GRACE pre relay_new c since /\ since + 30000 <= t)).
Proof.
  pose proof (copy_conserves RELAY_DRAIN_GRACE c) as Hc. destruct (copy_with_drain _ c) as [r c'] eqn:Hr. cbv zeta. split_and!; [exact Hc| |].
  - intros pre post since He (s1 & c1 & shut & Hrun & Hp). unfold copy_with_drain in Hr. rewrite He, relay_run_app, Hrun in Hr.
    assert (Hi : relay_inv c s1 c1) by (by eapply relay_run_inv; [apply relay_inv_init|exact Hrun]).
    destruct (run _ post s1 c1) as [r1 [s2 c2]] eqn:H2. injection Hr as -> ->.
    destruct (run_drained _ _ _ _ _ _ _ _ _ _ Hi Hp H2) as (sh & Hp2 & ((sent & Hu & Hin) & _ & He2 & _ & _ & Hph & _)).
    rewrite Hp2 in Hph. destruct Hph as (Hb & Hci & Hce). rewrite Hb, Hci, !app_nil_r in Hin. subst sent. rewrite <-He2. split_and!; [done..|].
    intros ->. eapply (draining_ends RELAY_DRAIN_GRACE); [exact Hp|]. by rewrite H2.
  - intros k ->. unfold copy_with_drain in Hr. destruct (run _ _ relay_new c) as [r1 [s2 c2]] eqn:H2. injection Hr as -> ->.
    by eapply run_fails; [|apply relay_inv_init|exact H2].
Qed.

(** Both sides speak, the client ends first, the outlet's last bytes are drained. *)
Definition sample_relay : conn :=
  fresh [1; 2; 3] Closed (mk_script [7; 8] Closed
    [(0, ReadSome ToOutlet 2); (1, WriteSome ToOutlet 1); (2, ReadSome ToOutlet 1); (3, ReadSome ToClient 1); (4, WriteSome ToOutlet 2);
     (5, ReadEnd ToOutlet); (6, Flushed ToOutlet); (7, OutletShut None); (8, WriteSome ToClient 1); (9, ReadSome ToClient 1);
     (10, WriteSome ToClient 1); (29000, ReadEnd ToClient); (29001, Flushed ToClient); (29002, ClientClosed None)]).
Example sample_relay_runs : copy_with_drain RELAY_DRAIN_GRACE sample_relay =
  (Ret tt, mk_conn [] Closed None [7; 8] [1; 2; 3] (mk_script [] Closed (o_events (c_relay sample_relay)))).
Proof. vm_compute. reflexivity. Qed.
Lemma relay_faithful_witness :
  ended_at RELAY_DRAIN_GRACE (take 7 (o_events (c_relay sample_relay))) relay_new sample_relay 6 /\
  c_up (copy_with_drain RELAY_DRAIN_GRACE sample_relay).2 = [1; 2; 3].
Proof.
  assert (He : ended_at RELAY_DRAIN_GRACE (take 7 (o_events (c_relay sample_relay))) relay_new sample_relay 6)
    by (eexists _, _, _; split; vm_compute; reflexivity).
  split; [exact He|]. pose proof (relay_faithful sample_relay) as H. destruct (copy_with_drain RELAY_DRAIN_GRACE sample_relay) as [r c'].
  destruct H as (_ & H & _). exact (proj1 (H (take 7 (o_events (c_relay sample_relay))) (drop 7 (o_events (c_relay sample_relay))) 6 eq_refl He)).
Defined.
(** An outlet that stays silent is given up after the grace period; one that ends first
    leaves what the other copy had read unsent. *)
Example silent_outlet : (copy_with_drain RELAY_DRAIN_GRACE (fresh [] Closed (mk_script [] Silent
  [(5, ReadEnd ToOutlet); (6, Flushed ToOutlet); (7, OutletShut None); (30005, Tick); (30006, Tick)]))).1 = Fail TimedOut.
Proof. vm_compute. reflexivity. Qed.
Example outlet_ends_first : copy_with_drain RELAY_DRAIN_GRACE (fresh [1; 2; 3] Silent (mk_script [] Closed
  [(0, ReadSome ToOutlet 2); (1, ReadEnd ToClient); (2, Flushed ToClient); (3, ClientClosed None)]))
  = (Ret tt, fresh [3] Silent (mk_script [] Closed [(0, ReadSome ToOutlet 2); (1, ReadEnd ToClient); (2, Flushed ToClient); (3, ClientClosed None)])).
Proof. vm_compute. reflexivity. Qed.
End Relay.

(** ** [src/src/outbound/ip.rs] *)
Module IpDial.

(** [interleave_addresses]: the loop takes one address of each family in turn. *)
Fixpoint interleave (v4 v6 : list SocketAddr) : list SocketAddr :=
  match v4 with
  | [] => v6
  | a :: v4' =>
      a :: match v6 with
           | [] => interleave v4' []
           | c :: v6' => c :: interleave v4' v6'
           end
  end.

Definition is_ipv6 (a : SocketAddr) : bool := negb (is_ipv4 a).

Definition interleave_addresses (targets : list SocketAddr) : list SocketAddr :=
  interleave (List.filter is_ipv4 targets) (List.filter is_ipv6 targets).

(** The [filter] on [seen.insert] over the answers of both queries. *)
Fixpoint dedup_ips (seen : list IpAddr) (l : list IpAddr) : list IpAddr * list IpAddr :=
  match l with
  | [] => ([], seen)
  | x :: r =>
      if bool_decide (x ∈ seen) then dedup_ips seen r
      else let '(out, seen') := dedup_ips (x :: seen) r in (x :: out, seen')
  end.

(** Both become [AddrNotAvailable]; the detail is "no A/AAAA record" or the joined errors. *)
Inductive resolve_error := NoRecords | LookupErrors (details : list bytes).

(** [resolve_targets], given the outcomes of the A and the AAAA query. *)
Definition resolve_targets (host : Host) (port : Z) (a aaaa : bytes + list IpAddr)
    : res resolve_error (list SocketAddr) :=
  match host with
  | Ip ip => Ok [socket_addr_new ip port]
  | Domain _ =>
      let take_result acc r :=
        let '(targets, seen, errors) := acc in
        match r with
        | inr l => let '(fresh, seen') := dedup_ips seen l in
                  (targets ++ map (fun ip => socket_addr_new ip port) fresh, seen', errors)
        | inl e => (targets, seen, errors ++ [e])
        end in
      let '(targets, _, errors) := fold_left take_result [a; aaaa] ([], [], []) in
      match targets with
      | [] => Err (match errors with [] => NoRecords | _ => LookupErrors errors end)
      | _ => Ok targets
      end
  end.

(** One attempt: [CONNECT_TIMEOUT] bounds it, so it always ends. *)
Definition attempt (connect : SocketAddr -> out ErrorKind Connected) (target : SocketAddr)
    : Connected + ErrorKind :=
  match connect target with
  | Ret s => inl s
  | Fail k => inr k
  | Hang => inr TimedOut
  end.

(** [connect_first]: at most [WINDOW] attempts in flight; [order] is the sequence
    in which running attempts finish, as positions in the window.  The result is
    the first success, or the errors of every attempt. *)
Definition WINDOW : nat := 2.

Fixpoint refill (queue inflight : list SocketAddr) : list SocketAddr * list SocketAddr :=
  match queue with
  | [] => ([], inflight)
  | t :: q => if (length inflight <? WINDOW)%nat then refill q (inflight ++ [t]) else (queue, inflight)
  end.

Inductive dial_result :=
| Dialled (stream : Connected) (target : SocketAddr)
| DialFailed (errors : list (SocketAddr * ErrorKind))  (** reported as [NotConnected] *)
| DialPending.

Fixpoint dial_loop (connect : SocketAddr -> out ErrorKind Connected) (order : list nat)
    (queue inflight : list SocketAddr) (errors : list (SocketAddr * ErrorKind)) : dial_result :=
  let '(queue, inflight) := refill queue inflight in
  match inflight with
  | [] => DialFailed errors
  | _ =>
      match order with
      | [] => DialPending
      | i :: order' =>
          match inflight !! (i mod length inflight)%nat with
          | None => DialPending
          | Some t =>
              match attempt connect t with
              | inl s => Dialled s t
              | inr k => dial_loop connect order' queue
                           (delete (i mod length inflight)%nat inflight) (errors ++ [(t, k)])
              end
          end
      end
  end.

Definition connect_first (connect : SocketAddr -> out ErrorKind Connected) (order : list nat)
    (targets : list SocketAddr) : dial_result :=
  dial_loop connect order (interleave_addresses targets) [] [].

(** *** Facts *)
Lemma interleave_perm v4 v6 : interleave v4 v6 ≡ₚ v4 ++ v6.
Proof.
  revert v6. induction v4 as [|a v4 IH]; intros v6; [done|]. simpl. f_equiv.
  destruct v6 as [|c v6]; [apply IH|]. rewrite IH. by rewrite Permutation_middle.
Qed.

Lemma filter_split_perm (l : list SocketAddr) : List.filter is_ipv4 l ++ List.filter is_ipv6 l ≡ₚ l.
Proof.
  induction l as [|x l IH]; [done|]. unfold is_ipv6 in *. simpl.
  destruct (is_ipv4 x); simpl; [by rewrite IH|]. by rewrite <-Permutation_middle, IH.
Qed.

Lemma filter_interleave (P : SocketAddr -> bool) v4 v6 :
  Forall (fun x => P x = true) v4 -> Forall (fun x => P x = false) v6 ->
  List.filter P (interleave v4 v6) = v4.
Proof.
  intros H4. revert v6. induction H4 as [|a v4 Ha H4 IH]; intros v6 H6; simpl.
  - induction H6 as [|c v6 Hc H6 IH]; [done|]. simpl. by rewrite Hc.
  - rewrite Ha. f_equal. inversion H6 as [|c v6' Hc H6']; subst; [by apply IH|].
    simpl. rewrite Hc. by apply IH.
Qed.

Lemma filter_interleave' (P : SocketAddr -> bool) v4 v6 :
  Forall (fun x => P x = false) v4 -> Forall (fun x => P x = true) v6 ->
  List.filter P (interleave v4 v6) = v6.
Proof.
  intros H4. revert v6. induction H4 as [|a v4 Ha H4 IH]; intros v6 H6; simpl.
  - induction H6 as [|c v6 Hc H6 IH]; [done|]. simpl. rewrite Hc. by f_equal.
  - rewrite Ha. inversion H6 as [|c v6' Hc H6']; subst; [by apply IH|].
    simpl. rewrite Hc. f_equal. by apply IH.
Qed.

Lemma Forall_filter_true {A} (P : A -> bool) l : Forall (fun x => P x = true) (List.filter P l).
Proof. induction l as [|x l IH]; simpl; [done|]. destruct (P x) eqn:?; [by constructor|done]. Qed.

Lemma is_ipv6_neg l : Forall (fun x => is_ipv6 x = true) l -> Forall (fun x => is_ipv4 x = false) l.
Proof. intros H. eapply Forall_impl; [exact H|]. intros x. unfold is_ipv6. by destruct (is_ipv4 x). Qed.

Lemma interleave_families l :
  List.filter is_ipv4 (interleave_addresses l) = List.filter is_ipv4 l
  /\ List.filter is_ipv6 (interleave_addresses l) = List.filter is_ipv6 l.
Proof.
  unfold interleave_addresses. split.
  - apply filter_interleave; [apply Forall_filter_true|]. apply is_ipv6_neg, Forall_filter_true.
  - apply filter_interleave'; [|apply Forall_filter_true].
    eapply Forall_impl; [apply Forall_filter_true|]. intros x Hx. unfold is_ipv6. simpl in Hx. by rewrite Hx.
Qed.

Lemma refill_spec q i : fst (refill q i) ++ snd (refill q i) ≡ₚ q ++ i
  /\ (length i <= WINDOW -> length (snd (refill q i)) <= WINDOW)%nat
  /\ (snd (refill q i) = [] -> fst (refill q i) = []).
Proof.
  revert i. induction q as [|t q IH]; intros i; simpl; [done|].
  destruct (Nat.ltb_spec (length i) WINDOW) as [Hlt|Hge].
  - destruct (IH (i ++ [t])) as (Hp & Hl & He). split_and!.
    + rewrite Hp. rewrite app_assoc. by rewrite <-Permutation_cons_append.
    + intros _. apply Hl. rewrite length_app. simpl. lia.
    + done.
  - simpl. split_and!; try done. intros ->. simpl in Hge. unfold WINDOW in Hge. lia.
Qed.

Lemma delete_perm {A} (l : list A) n x : l !! n = Some x -> x :: delete n l ≡ₚ l.
Proof. intros H. symmetry. by apply delete_Permutation. Qed.

Lemma attempt_ok connect t s : attempt connect t = inl s -> connect t = Ret s.
Proof. unfold attempt. destruct (connect t); by intros [= ->]. Qed.

(** Every attempt that failed really failed, and a total failure has tried every
    target. *)
Lemma dial_loop_spec connect order queue inflight errors tried :
  (forall t k, (t, k) ∈ errors -> attempt connect t = inr k) ->
  map fst errors ++ queue ++ inflight ≡ₚ tried ->
  match dial_loop connect order queue inflight errors with
  | Dialled s t => connect t = Ret s /\ t ∈ tried
  | DialFailed es => map fst es ≡ₚ tried /\ forall t k, (t, k) ∈ es -> attempt connect t = inr k
  | DialPending => True
  end.
Proof.
  revert queue inflight errors. induction order as [|i order IH]; intros queue inflight errors He Hp;
    simpl; destruct (refill queue inflight) as [q f] eqn:Hr;
    pose proof (refill_spec queue inflight) as (Hrp & _ & Hre); rewrite Hr in Hrp, Hre; simpl in Hrp, Hre.
  - destruct f as [|t f]; [|done]. rewrite Hre in Hrp by done. simpl in Hrp.
    rewrite <-Hrp, app_nil_r in Hp. done.
  - destruct f as [|t0 f]; [rewrite Hre in Hrp by done; simpl in Hrp; rewrite <-Hrp, app_nil_r in Hp; done|].
    set (l := t0 :: f) in *. destruct (l !! (i mod length l)%nat) as [t|] eqn:Hl; [|done].
    pose proof (delete_perm _ _ _ Hl) as Hd.
    assert (Hin : t ∈ tried).
    { rewrite <-Hp, <-Hrp, <-Hd. set_solver. }
    destruct (attempt connect t) as [s|k] eqn:Hc; [split; [by apply attempt_ok|done]|].
    apply IH.
    + intros t' k' [?|Hx]%elem_of_app; [by apply He|]. apply list_elem_of_singleton in Hx. by simplify_eq.
    + clear IH. revert Hd. generalize (delete (i mod length l)%nat l).
      intros d Hd. rewrite map_app. simpl. rewrite <-Hp, <-Hrp, <-Hd.
      rewrite <-!app_assoc. f_equiv. simpl. by rewrite <-Permutation_middle.
Qed.

(** Every attempt ends, so as many completions as there are targets decide. *)
Lemma dial_loop_total connect order queue inflight errors :
  (length queue + length inflight <= length order)%nat ->
  dial_loop connect order queue inflight errors <> DialPending.
Proof.
  revert queue inflight errors. induction order as [|i order IH]; intros queue inflight errors Hl;
    simpl; destruct (refill queue inflight) as [q f] eqn:Hr;
    pose proof (refill_spec queue inflight) as (Hrp & _ & Hre); rewrite Hr in Hrp, Hre; simpl in Hrp, Hre;
    apply Permutation_length in Hrp; rewrite !length_app in Hrp; simpl in Hl;
    destruct f as [|t0 f]; try done.
  - simpl in Hrp. lia.
  - set (l := t0 :: f) in *. assert (Hm : (i mod length l < length l)%nat) by (apply Nat.mod_upper_bound; done).
    destruct (lookup_lt_is_Some_2 l _ Hm) as [t Ht]. rewrite Ht.
    destruct (attempt connect t); [done|]. apply IH. rewrite length_delete by eauto. lia.
Qed.

Lemma connect_first_tries connect order targets : (length targets <= length order)%nat ->
  match connect_first connect order targets with
  | Dialled s t => connect t = Ret s /\ t ∈ targets
  | DialFailed es => map fst es ≡ₚ targets /\ forall t k, (t, k) ∈ es -> attempt connect t = inr k
  | DialPending => False
  end.
Proof.
  intros Hl. assert (Hp : interleave_addresses targets ≡ₚ targets)
    by (unfold interleave_addresses; by rewrite interleave_perm, filter_split_perm). unfold connect_first.
  pose proof (dial_loop_spec connect order (interleave_addresses targets) [] [] targets) as Hs.
  pose proof (dial_loop_total connect order (interleave_addresses targets) [] []) as Ht.
  destruct (dial_loop _ _ _ _ _).
  - apply Hs; [set_solver|simpl; by rewrite app_nil_r].
  - apply Hs; [set_solver|simpl; by rewrite app_nil_r].
  - apply Ht; [|done]. apply Permutation_length in Hp. simpl. lia.
Qed.

(** Dialling a target list: within as many completions as there are addresses,
    in whatever order they complete, [connect_first] either returns a stream of
    an address of the list on which connecting succeeded, or fails having tried
    every address exactly once and with each one's own error.  The dialling
    order is a permutation that keeps the resolver's order within each family
    and puts an IPv4 address first when there is one. *)
Theorem connect_first_spec connect order targets :
  (length targets <= length order)%nat ->
  match connect_first connect order targets with
  | Dialled s t => connect t = Ret s /\ t ∈ targets
  | DialFailed es => map fst es ≡ₚ targets /\ forall t k, (t, k) ∈ es -> attempt connect t = inr k
  | DialPending => False
  end
  /\ interleave_addresses targets ≡ₚ targets
  /\ List.filter is_ipv4 (interleave_addresses targets) = List.filter is_ipv4 targets
  /\ List.filter is_ipv6 (interleave_addresses targets) = List.filter is_ipv6 targets
  /\ head (interleave_addresses targets)
     = match head (List.filter is_ipv4 targets) with Some a => Some a | None => head targets end.
Proof.
  intros Hl. assert (Hp : interleave_addresses targets ≡ₚ targets)
    by (unfold interleave_addresses; by rewrite interleave_perm, filter_split_perm).
  destruct (interleave_families targets) as [H4 H6]. split_and!; try done; [by apply connect_first_tries|].
  unfold interleave_addresses. destruct (List.filter is_ipv4 targets) as [|a v4] eqn:E4; [|done].
  simpl. clear -E4. destruct targets as [|x l]; [done|]. simpl in *. unfold is_ipv6.
  by destruct (is_ipv4 x).
Qed.

Lemma connect_first_spec_witness :
  connect_first (fun a => if is_ipv4 a then Fail ConnectionRefused else Ret (mk_connected 7 None)) [0; 0; 0]%nat
    [SockV4 [1; 1; 1; 1] 443; SockV4 [1; 0; 0; 1] 443; SockV6 [0;0;0;0;0;0;0;0;0;0;0;0;0;0;0;1] 443 0]
  = Dialled (mk_connected 7 None) (SockV6 [0;0;0;0;0;0;0;0;0;0;0;0;0;0;0;1] 443 0)
  /\ exists t, t ∈ [SockV4 [1; 1; 1; 1] 443].
Proof.
  split; [vm_compute; reflexivity|].
  pose proof (connect_first_spec (fun _ => Ret (mk_connected 7 None)) [0]%nat [SockV4 [1; 1; 1; 1] 443] ltac:(simpl; lia)) as [H _].
  vm_compute in H. exists (SockV4 [1; 1; 1; 1] 443). apply H.
Defined.
End IpDial.

(** ** [src/src/outbound/https.rs]: the response body *)
Module Https.
Inductive https_error := StatusError (status : Z) | TooLarge | BodyError (k : ErrorKind).

(** A body frame: data, a trailer (ignored), or a read error. *)
Inductive frame := Data (bs : bytes) | Trailers | FrameError (k : ErrorKind).

Fixpoint read_body (max_bytes : Z) (body : bytes) (frames : list frame) : res https_error bytes :=
  match frames with
  | [] => Ok body
  | FrameError k :: _ => Err (BodyError k)
  | Trailers :: fs => read_body max_bytes body fs
  | Data d :: fs =>
      if saturating_sub max_bytes (zlen body) <? zlen d then Err TooLarge
      else read_body max_bytes (body ++ d) fs
  end.

(** The response part of [get_inner]: status, announced length, then the body. *)
Definition get_response (max_bytes status : Z) (content_length : option bytes) (frames : list frame)
    : res https_error bytes :=
  if negb ((200 <=? status) && (status <? 300)) then Err (StatusError status)
  else
    let announced := v ← content_length; parse_uint U64_MAX v in
    match announced with
    | Some n => if max_bytes <? n then Err TooLarge else read_body max_bytes [] frames
    | None => read_body max_bytes [] frames
    end.

Definition frame_bytes (f : frame) : bytes := match f with Data d => d | _ => [] end.

Lemma read_body_spec max body frames r :
  zlen body <= max -> read_body max body frames = Ok r ->
  r = body ++ concat (map frame_bytes frames) /\ zlen r <= max.
Proof.
  revert body. induction frames as [|[d| |k] fs IH]; intros body Hb; simpl; try done.
  - intros [= <-]. by rewrite app_nil_r.
  - unfold saturating_sub. destruct (Z.ltb_spec (Z.max 0 (max - zlen body)) (zlen d)); [done|].
    intros Hr. destruct (IH (body ++ d)) as [-> Hl]; [zl|done|]. by rewrite app_assoc.
  - apply IH. done.
Qed.
End Https.
