(* ===== verification/Fetch.v ===== *)
(** * Fetching over an outlet ([src/src/outbound/https.rs], [src/src/health/probe.rs])

    The whole of [https::get]: the stream through the outlet, TLS, the HTTP/1
    exchange with its connection driver, and the time budget; the two WARP probes
    built on HTTP, the supervisor's and the diagnostic one through the SOCKS5
    listener.  rustls and hyper are parameters: the outcome of each of their calls,
    and the order in which the response and the connection make progress. *)
From S2P Require Import Prelude RustStr Health NetAddr Conn Outbound.

Module Fetch.
Import Https.

Inductive fetch_error :=
| TimedOut | Connecting (k : ErrorKind) | TlsVersions | BadServerName | TlsFailed (k : ErrorKind) | HttpFailed (k : ErrorKind)
| BadRequest | SendFailed (k : ErrorKind) | Response (e : https_error) | ConnectionFailed (k : ErrorKind).

(** ** The exchange

    What the response future meets, in order: the head of the response or the
    failure of the request, then the frames of the body and their end. *)
Inductive response_event :=
| Head (status : Z) (content_length : option bytes) | RequestFailed (k : ErrorKind) | Frame (f : frame) | BodyEnd.

(** The response future between two of these: before the head, or with the body so far. *)
Inductive response_state := AwaitHead | InBody (body : bytes).

Inductive progress := More (st : response_state) | Done (r : res fetch_error bytes).

Definition on_head (max_bytes status : Z) (content_length : option bytes) : progress :=
  if negb ((200 <=? status) && (status <? 300)) then Done (Err (Response (StatusError status)))
  else match (v ← content_length; parse_uint U64_MAX v) with
       | Some n => if max_bytes <? n then Done (Err (Response TooLarge)) else More (InBody [])
       | None => More (InBody [])
       end.

Definition on_frame (max_bytes : Z) (body : bytes) (f : frame) : progress :=
  match f with
  | FrameError k => Done (Err (Response (BodyError k)))
  | Trailers => More (InBody body)
  | Data d => if saturating_sub max_bytes (zlen body) <? zlen d then Done (Err (Response TooLarge)) else More (InBody (body ++ d))
  end.

(** [None]: the event does not come in this state. *)
Definition respond (max_bytes : Z) (st : response_state) (e : response_event) : option progress :=
  match st, e with
  | AwaitHead, Head status cl => Some (on_head max_bytes status cl)
  | AwaitHead, RequestFailed k => Some (Done (Err (SendFailed k)))
  | InBody body, Frame f => Some (on_frame max_bytes body f)
  | InBody body, BodyEnd => Some (Done (Ok body))
  | _, _ => None
  end.

(** The biased select at the end of [get_inner]: the connection future may end
    first; when it ends well, what it has delivered is still read. *)
Inductive step := Resp (e : response_event) | ConnEnds (r : res ErrorKind unit).
Fixpoint drive (max_bytes : Z) (st : response_state) (open : bool) (steps : list step) : poll (res fetch_error bytes) :=
  match steps with
  | [] => Pending
  | Resp e :: steps =>
      match respond max_bytes st e with
      | Some (Done r) => Ready r
      | Some (More st) => drive max_bytes st open steps
      | None => drive max_bytes st open steps
      end
  | ConnEnds r :: steps =>
      if open then
        match r with
        | Ok _ => drive max_bytes st false steps
        | Err k => Ready (Err (ConnectionFailed k))
        | Panic => Ready Panic
        end
      else drive max_bytes st open steps
  end.

(** ** [get_inner] and [get] *)
Record world := mk_world {
  versions_ok : bool; server_name_ok : bytes -> bool;
  tls_connect : bytes -> Z -> out ErrorKind unit;  (** name to verify, stream *)
  http_handshake : res ErrorKind unit; uri_ok : bytes -> bool;
  steps : list step;
  expired : bool                                   (** the budget runs out before [get_inner] is done *)
}.

Record request := mk_request { method : bytes; uri : bytes; host_header : bytes }.

(** The result, and the request that was handed to hyper. *)
Definition get_inner (w : world) (ob : Outbound) (host path : bytes) (max_bytes : Z) : poll (res fetch_error bytes) * option request :=
  match connect_tcp ob (Domain host) 443 with
  | Hang => (Pending, None)
  | Fail k => (Ready (Err (Connecting k)), None)
  | Ret c =>
      if negb (versions_ok w) then (Ready (Err TlsVersions), None)
      else if negb (server_name_ok w host) then (Ready (Err BadServerName), None)
      else match tls_connect w host (cn_stream c) with
           | Hang => (Pending, None)
           | Fail k => (Ready (Err (TlsFailed k)), None)
           | Ret _ =>
               match http_handshake w with
               | Err k => (Ready (Err (HttpFailed k)), None)
               | Panic => (Ready Panic, None)
               | Ok _ =>
                   if negb (uri_ok w path) then (Ready (Err BadRequest), None)
                   else (drive max_bytes AwaitHead true (steps w), Some (mk_request (str_bytes "GET") path host))
               end
           end
  end.

Definition get (w : world) (ob : Outbound) (host path : bytes) (max_bytes : Z) : res fetch_error bytes * option request :=
  let '(r, req) := get_inner w ob host path max_bytes in
  (if expired w then Err TimedOut else match r with Ready r => r | Pending => Err TimedOut end, req).

(** ** The probes *)
Definition TRACE_HOST : bytes := str_bytes "cloudflare.com".
Definition TRACE_PATH : bytes := str_bytes "/cdn-cgi/trace".
Definition MAX_TRACE_BYTES : Z := 4096.

(** [probe_outbound]; [show] is the text of an error. *)
Definition probe_outbound (show : fetch_error -> bytes) (w : world) (ob : Outbound) : res Probe.ProbeError Probe.ProbeOutcome :=
  Probe.probe_outbound (map_err show (get w ob TRACE_HOST TRACE_PATH MAX_TRACE_BYTES).1).

(** [SocksTraceProbe::probe]: the proxy URL, the client, and the response as reqwest
    gives it. *)
Record SocksTraceProbe := mk_socks_probe { socks_addr : SocketAddr; timeout : Z; trace_url : bytes }.
Definition socks_probe_new (addr : SocketAddr) (timeout : Z) : SocksTraceProbe :=
  mk_socks_probe addr timeout (str_bytes "https://cloudflare.com/cdn-cgi/trace").
Definition proxy_url (p : SocksTraceProbe) : bytes := str_bytes "socks5h://" ++ fmt_socket_addr (socks_addr p).

Inductive chunk := Chunk (d : bytes) | ChunkError (msg : bytes).
Fixpoint read_chunks (body : bytes) (cs : list chunk) : res Probe.ProbeError bytes :=
  match cs with
  | [] => Ok body
  | ChunkError msg :: _ => Err (Probe.Request msg)
  | Chunk d :: cs =>
      if saturating_sub MAX_TRACE_BYTES (zlen body) <? zlen d then Err (Probe.Request (str_bytes "size"))
      else read_chunks (body ++ d) cs
  end.

Definition socks_probe (proxy_ok client_ok : bool) (sent : res bytes (Z * list chunk)) : res Probe.ProbeError Probe.ProbeOutcome :=
  _ ← bail_if (negb proxy_ok) (Probe.Request (str_bytes "proxy"));
  _ ← bail_if (negb client_ok) (Probe.Request (str_bytes "client"));
  '(status, chunks) ← map_err Probe.Request sent;
  _ ← bail_if (negb ((200 <=? status) && (status <? 300))) (Probe.Request (str_bytes "HTTP"));
  raw ← read_chunks [] chunks;
  body ← ok_or (from_utf8 raw) (Probe.Request (str_bytes "utf-8"));
  Probe.parse_trace body.
End Fetch.

Module FetchFacts.
Import Https Fetch.

(** *** The driver reads the response a batch reader would *)
Definition responses (steps : list step) : list response_event := omap (fun s => match s with Resp e => Some e | ConnEnds _ => None end) steps.
Definition conn_fails (s : step) : bool := match s with ConnEnds (Ok _) | Resp _ => false | _ => true end.

(** The events of a whole response. *)
Definition whole (status : Z) (cl : option bytes) (frames : list frame) : list response_event :=
  Head status cl :: map Frame frames ++ [BodyEnd].

Lemma drive_body max body open frames steps : responses steps = map Frame frames ++ [BodyEnd] -> Forall (fun s => conn_fails s = false) steps ->
  drive max (InBody body) open steps = Ready (map_err Response (read_body max body frames)).
Proof.
  intros Hr Hc. revert body open frames Hr. induction Hc as [|s steps Hs _ IH]; intros body open frames Hr; [by destruct frames|].
  destruct s as [e|[[]|k|]]; [|cbn; destruct open; by apply IH|done|done]. cbn in Hr. destruct frames as [|f frames]; injection Hr as -> Hr; [done|].
  cbn [drive respond read_body]. destruct f as [d| |k]; cbn [on_frame]; [|by apply IH|done]. destruct (_ <? _); [done|by apply IH].
Qed.

(** The exchange gives exactly what reading the whole response in one go gives,
    wherever the connection ends in between, unless it fails. *)
Lemma drive_whole max open status cl frames steps : responses steps = whole status cl frames -> Forall (fun s => conn_fails s = false) steps ->
  drive max AwaitHead open steps = Ready (map_err Response (get_response max status cl frames)).
Proof.
  intros Hr Hc. revert open Hr. induction Hc as [|s steps Hs Hc IH]; intros open Hr; [done|].
  destruct s as [e|[[]|k|]]; [|cbn; destruct open; by apply IH|done|done]. cbn in Hr. injection Hr as -> Hr.
  cbn [drive respond]. unfold on_head, get_response. destruct (negb _); [done|].
  destruct (_ ≫= _) as [n|]; [destruct (max <? n); [done|]|]; by apply drive_body.
Qed.

(** A result always comes from the response or from the connection's failure, and
    a body is within the limit. *)
Lemma drive_sound max st open steps r : match st with AwaitHead => 0 <= max | InBody b => zlen b <= max end ->
  drive max st open steps = Ready (Ok r) -> zlen r <= max.
Proof.
  revert st open. induction steps as [|s steps IH]; intros st open Hst; cbn [drive]; [done|]. destruct s as [e|[[]|k|]].
  - destruct (respond max st e) as [[st'|x]|] eqn:He; [|intros [= ->]|by apply IH].
    + apply IH. destruct st, e; try done; cbn in He; injection He as He.
      * unfold on_head in He. destruct (negb _); [done|]. destruct (_ ≫= _) as [n|]; [destruct (max <? n); [done|]|]; by injection He as <-.
      * destruct f; cbn in He; [|by injection He as <-|done]. destruct (Z.ltb_spec (saturating_sub max (zlen body)) (zlen bs)); [done|].
        injection He as <-. unfold saturating_sub in *. zl.
    + destruct st, e; try done; cbn in He; injection He as He.
      * unfold on_head in He. destruct (negb _); [done|]. destruct (_ ≫= _) as [n|]; [destruct (max <? n); done|done].
      * destruct f; cbn in He; [by destruct (_ <? _)|done|done].
      * by subst.
  - destruct open; by apply IH.
  - destruct open; [done|by apply IH].
  - destruct open; [done|by apply IH].
Qed.

(** A request whose response arrives whole is read like a batch. *)
Lemma get_fetches w ob host path max status cl frames : (get w ob host path max).2 <> None -> expired w = false ->
  responses (steps w) = whole status cl frames -> Forall (fun s => conn_fails s = false) (steps w) ->
  (get w ob host path max).1 = map_err Response (get_response max status cl frames).
Proof.
  unfold get, get_inner. intros H -> Hr Hc. revert H. destruct (connect_tcp ob (Domain host) 443) as [c|k|]; [|done..].
  destruct (versions_ok w); cbn [negb]; [|done]. destruct (server_name_ok w host); cbn [negb]; [|done].
  destruct (tls_connect w host (cn_stream c)) as [[]|k|]; [|done..]. destruct (http_handshake w) as [[]|k|]; [|done..].
  destruct (uri_ok w path); cbn [negb]; [|done]. intros _. cbn [fst]. by rewrite (drive_whole _ _ status cl frames).
Qed.

(** C14. An HTTPS fetch uses the outlet and nothing else, and always ends: a body is
    returned only over the outlet's stream to port 443 of the host, after TLS
    verified that very name on that very stream, for the one GET request, within
    the size limit; when the response arrives whole and the connection does not
    fail, the result is the one of the batch reader, whatever the order of the
    frames and the end of the connection; in every other case the caller gets an
    error, a time-out at the latest. *)
Theorem get_sound w ob host path max : 0 <= max ->
  (forall body, (get w ob host path max).1 = Ok body ->
     exists c, connect_tcp ob (Domain host) 443 = Ret c /\ tls_connect w host (cn_stream c) = Ret tt /\
       (get w ob host path max).2 = Some (mk_request (str_bytes "GET") path host) /\ zlen body <= max) /\
  (forall status cl frames, (get w ob host path max).2 <> None -> expired w = false ->
     responses (steps w) = whole status cl frames -> Forall (fun s => conn_fails s = false) (steps w) ->
     (get w ob host path max).1 = map_err Response (get_response max status cl frames)).
Proof.
  intros Hm. split; [|intros status cl frames; apply get_fetches]. unfold get, get_inner. destruct (connect_tcp ob (Domain host) 443) as [c|k|]; [|by destruct (expired w)..].
  destruct (versions_ok w); cbn [negb]; [|by destruct (expired w)]. destruct (server_name_ok w host); cbn [negb]; [|by destruct (expired w)].
  destruct (tls_connect w host (cn_stream c)) as [[]|k|] eqn:Ht; [|by destruct (expired w)..].
  destruct (http_handshake w) as [[]|k|]; [|by destruct (expired w)..]. destruct (uri_ok w path); cbn [negb]; [|by destruct (expired w)].
  cbn [fst snd]. intros body. destruct (expired w); [done|]. destruct (drive _ _ _ _) as [r|] eqn:Hd; [|done]. intros ->. exists c.
  split_and!; [done|done|done|]. exact (drive_sound max AwaitHead true (steps w) body Hm Hd).
Qed.

(** *** The two probes agree *)
Definition frame_of (c : chunk) : frame := match c with Chunk d => Data d | ChunkError _ => FrameError Other end.

Lemma read_chunks_frames body cs :
  match read_chunks body cs, read_body MAX_TRACE_BYTES body (map frame_of cs) with
  | Ok a, Ok b => a = b
  | Err _, Err _ => True
  | _, _ => False
  end.
Proof.
  revert body. induction cs as [|[d|m] cs IH]; intros body; cbn; [done| |done]. destruct (_ <? _); [done|]. apply IH.
Qed.

(** C15. The diagnostic probe through the SOCKS5 listener and the supervisor's probe
    over the outlet give the same verdict on the same response: for any status and
    any chunks whose total the announced length, if there is one, does not
    overstate, the one reports an outcome exactly when the other does, and the
    same one. *)
Theorem probes_agree show w ob status cl chunks :
  (get w ob TRACE_HOST TRACE_PATH MAX_TRACE_BYTES).2 <> None -> expired w = false ->
  responses (steps w) = whole status cl (map frame_of chunks) -> Forall (fun s => conn_fails s = false) (steps w) ->
  (forall n body, (v ← cl; parse_uint U64_MAX v) = Some n -> read_chunks [] chunks = Ok body -> n <= zlen body) ->
  res_ok (socks_probe true true (Ok (status, chunks))) = res_ok (probe_outbound show w ob).
Proof.
  intros Hreq He Hr Hc Hlen. unfold probe_outbound.
  assert (Hg : (get w ob TRACE_HOST TRACE_PATH MAX_TRACE_BYTES).1 = map_err Response (get_response MAX_TRACE_BYTES status cl (map frame_of chunks))).
  { by apply get_fetches. }
  rewrite Hg. unfold socks_probe, get_response. cbn [negb bail_if mbind res_bind map_err].
  destruct (negb ((200 <=? status) && (status <? 300))); [done|]. cbn [bail_if].
  pose proof (read_chunks_frames [] chunks) as Hb.
  destruct (_ ≫= _) as [n|] eqn:Hn.
  - destruct (Z.ltb_spec MAX_TRACE_BYTES n) as [Hlt|].
    + destruct (read_chunks [] chunks) as [a|e|] eqn:Ha; [|done|done]. exfalso.
      destruct (read_body _ _ _) as [b|e|] eqn:Hrb; [|done..]. subst b. apply read_body_spec in Hrb as [_ Hle]; [|done].
      pose proof (Hlen n a eq_refl eq_refl). lia.
    + destruct (read_chunks [] chunks) as [a|e|], (read_body _ _ _) as [b|e'|]; try done. by subst b.
  - destruct (read_chunks [] chunks) as [a|e|], (read_body _ _ _) as [b|e'|]; try done. by subst b.
Qed.

(** A response in two pieces, with the connection closed by the server between them. *)
Definition sample_outlet : Outbound := mk_outbound (str_bytes "sample") false (fun _ _ => Ret (mk_connected 3 None)) connect_udp_default.
Definition sample_chunks : list chunk := [Chunk (str_bytes "ip=1.2.3.4" ++ [10]); Chunk (str_bytes "warp=on" ++ [10])].
Definition sample_steps : list step :=
  [Resp (Head 200 (Some (str_bytes "19"))); Resp (Frame (Data (str_bytes "ip=1.2.3.4" ++ [10]))); ConnEnds (Ok tt);
   Resp (Frame (Data (str_bytes "warp=on" ++ [10]))); Resp BodyEnd].
Definition sample_fetch : world := mk_world true (fun _ => true) (fun _ _ => Ret tt) (Ok tt) (fun _ => true) sample_steps false.

Lemma get_sound_witness :
  (get sample_fetch sample_outlet TRACE_HOST TRACE_PATH 4096).1 = Ok (str_bytes "ip=1.2.3.4" ++ [10] ++ str_bytes "warp=on" ++ [10]) /\
  exists c, connect_tcp sample_outlet (Domain TRACE_HOST) 443 = Ret c.
Proof.
  assert (Hv : (get sample_fetch sample_outlet TRACE_HOST TRACE_PATH 4096).1 = Ok (str_bytes "ip=1.2.3.4" ++ [10] ++ str_bytes "warp=on" ++ [10]))
    by (vm_compute; reflexivity).
  split; [exact Hv|]. destruct (get_sound sample_fetch sample_outlet TRACE_HOST TRACE_PATH 4096 ltac:(lia)) as [H _].
  destruct (H _ Hv) as (c & Hc & _). exists c. exact Hc.
Defined.

Lemma probes_agree_witness :
  res_ok (socks_probe true true (Ok (200, sample_chunks))) = res_ok (probe_outbound (fun _ => []) sample_fetch sample_outlet) /\
  res_ok (socks_probe true true (Ok (200, sample_chunks))) = Some (Probe.mk_outcome (Some (str_bytes "1.2.3.4")) None).
Proof.
  split; [|vm_compute; reflexivity].
  apply (probes_agree (fun _ => []) sample_fetch sample_outlet 200 (Some (str_bytes "19")) sample_chunks); try reflexivity.
  - discriminate.
  - repeat constructor.
  - intros n body Hn Hb. vm_compute in Hn, Hb. injection Hn as <-. injection Hb as <-. vm_compute. discriminate.
Defined.
End FetchFacts.
