(* ===== verification/Socks5.v ===== *)
(** * The SOCKS5 server ([src/src/socks5.rs])

    The handshake and CONNECT as a computation on the client connection, the UDP
    datagram header codec, and UDP ASSOCIATE as a state machine over the
    association's routes, workers, reply queue and the two process-wide
    semaphores. *)
From S2P Require Import Prelude RustStr NetAddr Conn Outbound.

Module Socks5.

Definition REP_SUCCEEDED : Z := 0.
Definition REP_HOST_UNREACHABLE : Z := 4.
Definition REP_CMD_NOT_SUPPORTED : Z := 7.
Definition REP_ATYP_NOT_SUPPORTED : Z := 8.
Definition CMD_CONNECT : Z := 1.
Definition CMD_UDP_ASSOCIATE : Z := 3.

(** The element of a fixed-size array at a constant index. *)
Definition arr (bs : bytes) (i : nat) : Z := nth i bs 0.

Definition reply_bytes (rep : Z) : bytes := [5; rep; 0; 1; 0; 0; 0; 0; 0; 0].
Definition reply (rep : Z) : io proxy_error unit := write_all (reply_bytes rep).

Definition reply_addr_bytes (rep : Z) (addr : SocketAddr) : bytes :=
  [5; rep; 0]
  ++ match addr with
     | SockV4 o _ => 1 :: o
     | SockV6 o _ _ => 4 :: o
     end
  ++ to_be 2 (sa_port addr).
Definition reply_with_addr (rep : Z) (addr : SocketAddr) : io proxy_error unit :=
  write_all (reply_addr_bytes rep addr).

Record Target := mk_target { t_host : Host; t_port : Z; t_display : bytes }.

Inductive Request := Connect (t : Target) | UdpAssociate.

Definition show_target (h : bytes) (port : Z) : bytes := h ++ str_bytes ":" ++ fmt_dec port.

Definition read_target (atyp : Z) : io proxy_error Target :=
  if atyp =? 1 then
    addr ← read_exact 4;
    port ← read_exact 2;
    mret (mk_target (Ip (V4 addr)) (be_val port) (show_target (fmt_ip (V4 addr)) (be_val port)))
  else if atyp =? 4 then
    addr ← read_exact 16;
    port ← read_exact 2;
    mret (mk_target (Ip (V6 addr)) (be_val port) (show_target (fmt_ip (V6 addr)) (be_val port)))
  else if atyp =? 3 then
    len_buf ← read_exact 1;
    name ← read_exact (arr len_buf 0);
    port ← read_exact 2;
    match from_utf8 name with
    | None => throw EDomainUtf8
    | Some name => mret (mk_target (host_parse name) (be_val port) (show_target name (be_val port)))
    end
  else throw (EAddressType atyp).

Definition skip_target (atyp : Z) : io proxy_error unit :=
  if atyp =? 1 then _ ← read_exact (4 + 2); mret tt
  else if atyp =? 4 then _ ← read_exact (16 + 2); mret tt
  else if atyp =? 3 then
    len_buf ← read_exact 1;
    _ ← read_exact (arr len_buf 0 + 2);
    mret tt
  else throw (EAddressType atyp).

Definition read_request : io proxy_error Request :=
  head ← read_exact 2;
  if negb (arr head 0 =? 5) then throw (EVersion (arr head 0))
  else
  methods ← read_exact (arr head 1);
  if negb (contains_byte 0 methods) then
    _ ← write_all [5; 255]; throw ENoAuthMethod
  else
  _ ← write_all [5; 0];
  req ← read_exact 4;
  if negb (arr req 0 =? 5) then throw (EVersion (arr req 0))
  else if negb ((arr req 1 =? CMD_CONNECT) || (arr req 1 =? CMD_UDP_ASSOCIATE)) then
    _ ← ignore (reply REP_CMD_NOT_SUPPORTED); throw (ECommand (arr req 1))
  else if negb ((arr req 3 =? 1) || (arr req 3 =? 3) || (arr req 3 =? 4)) then
    _ ← ignore (reply REP_ATYP_NOT_SUPPORTED); throw (EAddressType (arr req 3))
  else if arr req 1 =? CMD_UDP_ASSOCIATE then
    _ ← skip_target (arr req 3); mret UdpAssociate
  else
    catch (target ← read_target (arr req 3); mret (Connect target))
          (fun error => _ ← ignore (reply REP_HOST_UNREACHABLE); throw error).

Definition handle_connect (target : Target) (outbound : Outbound) : io proxy_error unit :=
  match relay_connect outbound (t_host target) (t_port target) with
  | Hang => lift_out Hang
  | Fail k => _ ← ignore (reply REP_HOST_UNREACHABLE); throw (EConnect k)
  | Ret conn => _ ← reply REP_SUCCEEDED; Relay.tunnel_tcp conn
  end.

(** ** UDP datagram headers *)
Inductive SocketAddrOrName := Addr (a : SocketAddr) | Name (name : bytes) (port : Z).

#[export] Instance SocketAddrOrName_eq_dec : EqDecision SocketAddrOrName.
Proof. solve_decision. Defined.
#[export] Instance SocketAddrOrName_countable : Countable SocketAddrOrName.
Proof.
  apply (inj_countable'
    (fun a => match a with Addr a => inl a | Name n p => inr (n, p) end)
    (fun c => match c with inl a => Addr a | inr (n, p) => Name n p end)). by intros [].
Defined.

(** [Err tt] is the source's [None]; an index out of range is [Panic]. *)
Definition read_port (buf : bytes) (pos : Z) : res unit Z :=
  h ← idx buf pos; l ← idx buf (pos + 1); Ok (be_val [h; l]).

Definition decode_udp_header (buf : bytes) : res unit (SocketAddrOrName * Z) :=
  if zlen buf <? 4 then Err tt else
  frag ← idx buf 2;
  if negb (frag =? 0) then Err tt else
  atyp ← idx buf 3;
  let pos := 4 in
  if atyp =? 1 then
    if zlen buf <? pos + 4 + 2 then Err tt else
    a ← idx buf pos; b ← idx buf (pos + 1); c ← idx buf (pos + 2); d ← idx buf (pos + 3);
    let pos := pos + 4 in
    port ← read_port buf pos;
    Ok (Addr (socket_addr_new (V4 [a; b; c; d]) port), pos + 2)
  else if atyp =? 4 then
    if zlen buf <? pos + 16 + 2 then Err tt else
    octets ← slice buf pos (pos + 16);
    let pos := pos + 16 in
    port ← read_port buf pos;
    Ok (Addr (socket_addr_new (V6 octets) port), pos + 2)
  else if atyp =? 3 then
    if zlen buf <? pos + 1 then Err tt else
    len ← idx buf pos;
    let pos := pos + 1 in
    if zlen buf <? pos + len + 2 then Err tt else
    raw ← slice buf pos (pos + len);
    name ← ok_or (from_utf8 raw) tt;
    let pos := pos + len in
    port ← read_port buf pos;
    Ok (Name (to_ascii_lowercase name) port, pos + 2)
  else Err tt.

Definition encode_udp_header (target : SocketAddr) : bytes :=
  [0; 0; 0]
  ++ match target with
     | SockV4 o p => 1 :: o ++ to_be 2 p
     | SockV6 o p _ => 4 :: o ++ to_be 2 p
     end.

Definition target_host_port (target : SocketAddrOrName) : Host * Z :=
  match target with
  | Addr a => (Ip (sa_ip a), sa_port a)
  | Name name port => (host_parse name, port)
  end.

Definition udp_source_allowed (control_peer : SocketAddr) (learned_client : option SocketAddr)
    (source : SocketAddr) : bool :=
  bool_decide (sa_ip source = sa_ip control_peer)
  && match learned_client with None => true | Some learned => bool_decide (learned = source) end.

Definition establish_egress (outbound : Outbound) (target : SocketAddrOrName) : out unit (option Datagram) :=
  let '(host, port) := target_host_port target in
  match connect_udp outbound host port with
  | Ret d => Ret (Some d)
  | Fail _ => Ret None
  | Hang => Hang
  end.
End Socks5.

(** ** UDP ASSOCIATE *)
Module Assoc.
Import Socks5.

Definition MAX_UDP_TARGETS_PER_ASSOCIATION : nat := 64.
Definition UDP_TARGET_CHANNEL_CAPACITY : nat := 32.
Definition UDP_REPLY_CHANNEL_CAPACITY : nat := 64.
Definition UDP_QUEUE_BYTES : Z := 8 * 1024 * 1024.
Definition UDP_WORKERS : Z := 128.
Definition RECV_BUF : Z := 65536.

Record UdpReply := mk_reply { r_from : SocketAddr; r_payload : bytes }.

(** What a worker ([run_udp_egress]) is doing: waiting in its [select!], sending a
    datagram taken from its queue, or waiting for room in the reply channel. *)
Inductive operation := Waiting | Sending (payload : bytes) | Delivering (r : UdpReply).
Inductive wstate := Establishing | Active (d : Datagram) (op : operation) | Ended.
Record worker := mk_worker { w_target : SocketAddrOrName; w_state : wstate; w_queue : list bytes }.

(** [UdpEgressSet] with the local variables of [handle_udp_associate] and the two
    process-wide semaphores ([other_*] is what other associations hold); [recvd],
    [sent] and [relayed] record the datagrams of the relay socket and of the
    tunnel channels. *)
Record state := mk_state {
  client_addr : option SocketAddr;
  routes : gmap SocketAddrOrName nat;
  workers : list worker;
  replies : list UdpReply;
  bytes_free : Z; workers_free : Z;
  other_bytes : Z; other_workers : Z;
  recvd : list (SocketAddr * bytes);
  sent : list (SocketAddrOrName * bytes);
  relayed : list (SocketAddr * bytes)
}.

Definition set_bytes_free (st : state) (z : Z) : state :=
  mk_state (client_addr st) (routes st) (workers st) (replies st) z (workers_free st)
    (other_bytes st) (other_workers st) (recvd st) (sent st) (relayed st).
Definition set_workers_free (st : state) (z : Z) : state :=
  mk_state (client_addr st) (routes st) (workers st) (replies st) (bytes_free st) z
    (other_bytes st) (other_workers st) (recvd st) (sent st) (relayed st).
Definition set_workers (st : state) (ws : list worker) : state :=
  mk_state (client_addr st) (routes st) ws (replies st) (bytes_free st) (workers_free st)
    (other_bytes st) (other_workers st) (recvd st) (sent st) (relayed st).
Definition set_routes (st : state) (r : gmap SocketAddrOrName nat) : state :=
  mk_state (client_addr st) r (workers st) (replies st) (bytes_free st) (workers_free st)
    (other_bytes st) (other_workers st) (recvd st) (sent st) (relayed st).
Definition set_replies (st : state) (q : list UdpReply) : state :=
  mk_state (client_addr st) (routes st) (workers st) q (bytes_free st) (workers_free st)
    (other_bytes st) (other_workers st) (recvd st) (sent st) (relayed st).
Definition set_client (st : state) (c : option SocketAddr) : state :=
  mk_state c (routes st) (workers st) (replies st) (bytes_free st) (workers_free st)
    (other_bytes st) (other_workers st) (recvd st) (sent st) (relayed st).
Definition set_other (st : state) (ob ow : Z) : state :=
  mk_state (client_addr st) (routes st) (workers st) (replies st) (bytes_free st) (workers_free st)
    ob ow (recvd st) (sent st) (relayed st).
Definition log_recvd (st : state) (x : SocketAddr * bytes) : state :=
  mk_state (client_addr st) (routes st) (workers st) (replies st) (bytes_free st) (workers_free st)
    (other_bytes st) (other_workers st) (recvd st ++ [x]) (sent st) (relayed st).
Definition log_sent (st : state) (x : SocketAddrOrName * bytes) : state :=
  mk_state (client_addr st) (routes st) (workers st) (replies st) (bytes_free st) (workers_free st)
    (other_bytes st) (other_workers st) (recvd st) (sent st ++ [x]) (relayed st).
Definition log_relayed (st : state) (x : SocketAddr * bytes) : state :=
  mk_state (client_addr st) (routes st) (workers st) (replies st) (bytes_free st) (workers_free st)
    (other_bytes st) (other_workers st) (recvd st) (sent st) (relayed st ++ [x]).

(** [UdpEgressSet::new] at the start of an association. *)
Definition new (bf wf : Z) : state :=
  mk_state None ∅ [] [] bf wf (UDP_QUEUE_BYTES - bf) (UDP_WORKERS - wf) [] [] [].

(** [Semaphore::try_acquire_many] on the byte budget, and dropping the permit. *)
Definition try_acquire_many (n : Z) (st : state) : option state :=
  if n <=? bytes_free st then Some (set_bytes_free st (bytes_free st - n)) else None.
Definition release (n : Z) (st : state) : state := set_bytes_free st (bytes_free st + n).

Definition queue_bytes (q : list bytes) : Z := zsum zlen q.
Definition op_bytes (o : operation) : Z :=
  match o with Waiting => 0 | Sending p => zlen p | Delivering r => zlen (r_payload r) end.
Definition worker_bytes (w : worker) : Z :=
  queue_bytes (w_queue w) + match w_state w with Active _ op => op_bytes op | _ => 0 end.

Definition is_closed (st : state) (i : nat) : bool :=
  match workers st !! i with
  | Some w => match w_state w with Ended => true | _ => false end
  | None => true
  end.

(** A worker returns: its queue, its operation and its permit are dropped. *)
Definition end_worker (i : nat) (st : state) : state :=
  match workers st !! i with
  | Some w =>
      match w_state w with
      | Ended => st
      | _ =>
          let st := set_workers st (<[i := mk_worker (w_target w) Ended []]> (workers st)) in
          set_workers_free (release (worker_bytes w) st) (workers_free st + 1)
      end
  | None => st
  end.

Definition prune (st : state) : state :=
  set_routes st (filter (fun kv => is_closed st kv.2 = false) (routes st)).

(** [mpsc::Sender::try_send] of a datagram on the channel of worker [i]. *)
Inductive try_send_result := Queued (st : state) | ChannelFull | ChannelClosed.
Definition try_send (i : nat) (payload : bytes) (st : state) : try_send_result :=
  match workers st !! i with
  | Some w =>
      match w_state w with
      | Ended => ChannelClosed
      | _ =>
          if (length (w_queue w) <? UDP_TARGET_CHANNEL_CAPACITY)%nat
          then Queued (set_workers st
                 (<[i := mk_worker (w_target w) (w_state w) (w_queue w ++ [payload])]> (workers st)))
          else ChannelFull
      end
  | None => ChannelClosed
  end.

(** The part of [send] after the route lookup: a new worker for [target], its
    permit, its channel with the first datagram, and the route.  [ends_early]:
    the worker has already returned when the datagram is queued. *)
Definition spawn_target (target : SocketAddrOrName) (payload : bytes) (ends_early : bool) (st : state) : state :=
  if (MAX_UDP_TARGETS_PER_ASSOCIATION <=? size (routes st))%nat then release (zlen payload) st
  else if workers_free st <? 1 then release (zlen payload) st
  else
    let i := length (workers st) in
    let st := set_workers_free st (workers_free st - 1) in
    let st := set_workers st (workers st ++ [mk_worker target Establishing []]) in
    let st := if ends_early then end_worker i st else st in
    match try_send i payload st with
    | Queued st' => set_routes st' (<[target := i]> (routes st'))
    | _ => release (zlen payload) st
    end.

(** [UdpEgressSet::send]; [ends_late]: the worker on the route returns between
    [prune] and [try_send]. *)
Definition send (target : SocketAddrOrName) (payload : bytes) (ends_late ends_early : bool) (st : state) : state :=
  let st := prune st in
  match try_acquire_many (zlen payload) st with
  | None => st
  | Some st =>
      match routes st !! target with
      | Some i =>
          let st := if ends_late then end_worker i st else st in
          match try_send i payload st with
          | Queued st' => st'
          | ChannelFull => release (zlen payload) st
          | ChannelClosed => spawn_target target payload ends_early (set_routes st (delete target (routes st)))
          end
      | None => spawn_target target payload ends_early st
      end
  end.

(** One arm of a [select!] that completes, of the association or of a worker. *)
Inductive event :=
| CtrlData | CtrlEnd
| RelayRecv (from : SocketAddr) (dgram : bytes) (ends_late ends_early : bool)
| RelayReadErr (k : ErrorKind)
| ReplyRecv
| WEstablish (i : nat)
| WTake (i : nat)
| WSent (i : nat) (ok : bool)
| WRecv (i : nat) (dgram : bytes)
| WRecvErr (i : nat)
| WDeliver (i : nat)
| WIdle (i : nat)
| Others (db dw : Z).

Inductive outcome := Running (st : state) | Returned (r : proxy_error + unit) (st : state).

Definition relay_recv (peer from : SocketAddr) (dgram : bytes) (late early : bool) (st : state) : state :=
  let st := log_recvd st (from, dgram) in
  if negb (udp_source_allowed peer (client_addr st) from) then st
  else if bool_decide (client_addr st <> None /\ client_addr st <> Some from) then st
  else match decode_udp_header dgram with
       | Ok (target, header_len) =>
           let st := set_client st (Some (default from (client_addr st))) in
           send target (drop (Z.to_nat header_len) dgram) late early st
       | _ => st
       end.

Definition reply_recv (st : state) : state :=
  match replies st with
  | [] => st
  | r :: rest =>
      let st := set_replies st rest in
      let st := match client_addr st with
                | Some c => log_relayed st (c, encode_udp_header (r_from r) ++ r_payload r)
                | None => st
                end in
      release (zlen (r_payload r)) st
  end.

Definition update_worker (i : nat) (w : worker) (st : state) : state :=
  set_workers st (<[i := w]> (workers st)).

(** [run_udp_egress] of worker [i], one operation at a time, after the bounded
    [establish_egress]. *)
Definition worker_step (outbound : Outbound) (i : nat) (ev : event) (st : state) : state :=
  match workers st !! i with
  | None => st
  | Some w =>
      match ev, w_state w with
      | WEstablish _, Establishing =>
          match establish_egress outbound (w_target w) with
          | Ret (Some d) => update_worker i (mk_worker (w_target w) (Active d Waiting) (w_queue w)) st
          | _ => end_worker i st
          end
      | WTake _, Active d Waiting =>
          match w_queue w with
          | [] => st
          | p :: q => update_worker i (mk_worker (w_target w) (Active d (Sending p)) q) st
          end
      | WSent _ true, Active d (Sending p) =>
          let st := log_sent st (w_target w, p) in
          release (zlen p) (update_worker i (mk_worker (w_target w) (Active d Waiting) (w_queue w)) st)
      | WSent _ false, Active d (Sending p) => end_worker i st
      | WRecv _ dgram, Active d Waiting =>
          let payload := take (Z.to_nat RECV_BUF) dgram in
          match try_acquire_many (zlen payload) st with
          | None => st
          | Some st =>
              update_worker i (mk_worker (w_target w)
                (Active d (Delivering (mk_reply (peer_addr d) payload))) (w_queue w)) st
          end
      | WRecvErr _, Active d Waiting => end_worker i st
      | WDeliver _, Active d (Delivering r) =>
          if (length (replies st) <? UDP_REPLY_CHANNEL_CAPACITY)%nat
          then set_replies (update_worker i (mk_worker (w_target w) (Active d Waiting) (w_queue w)) st)
                 (replies st ++ [r])
          else st
      | WIdle _, Active d _ => end_worker i st
      | _, _ => st
      end
  end.

(** Dropping the [UdpEgressSet]: every worker is aborted and every reply dropped. *)
Definition teardown (st : state) : state :=
  let st := fold_left (fun st i => end_worker i st) (seq 0 (length (workers st))) st in
  release (queue_bytes (map r_payload (replies st))) (set_replies st []).

(** One turn of the [select!] loop of [handle_udp_associate]. *)
Definition step (outbound : Outbound) (peer : SocketAddr) (ev : event) (st : state) : outcome :=
  match ev with
  | CtrlData => Running st
  | CtrlEnd => Returned (inr tt) (teardown st)
  | RelayRecv from dgram late early => Running (relay_recv peer from (take (Z.to_nat RECV_BUF) dgram) late early st)
  | RelayReadErr k => Returned (inl (EUdpRelayRead k)) (teardown st)
  | ReplyRecv => Running (reply_recv st)
  | Others db dw =>
      if (0 <=? bytes_free st - db) && (0 <=? other_bytes st + db)
         && (0 <=? workers_free st - dw) && (0 <=? other_workers st + dw)
      then Running (set_other (set_workers_free (set_bytes_free st (bytes_free st - db)) (workers_free st - dw))
                      (other_bytes st + db) (other_workers st + dw))
      else Running st
  | WEstablish i | WTake i | WSent i _ | WRecv i _ | WRecvErr i | WDeliver i | WIdle i =>
      Running (worker_step outbound i ev st)
  end.

Fixpoint run (outbound : Outbound) (peer : SocketAddr) (evs : list event) (st : state) : outcome :=
  match evs with
  | [] => Running st
  | ev :: evs' =>
      match step outbound peer ev st with
      | Running st' => run outbound peer evs' st'
      | r => r
      end
  end.

(** [handle_udp_associate]: the refusal, the relay socket, the reply with its
    address, then the loop; [bind] is the outcome of binding the relay socket. *)
Definition handle_udp_associate (peer : SocketAddr) (outbound : Outbound)
    (bind : out ErrorKind SocketAddr) (evs : list event) (st : state) : io proxy_error unit :=
  if negb (supports_udp outbound) then
    _ ← reply REP_CMD_NOT_SUPPORTED; throw EUdpUnsupported
  else
    match bind with
    | Hang => lift_out Hang
    | Fail k => throw (EUdpBind k)
    | Ret relay_addr =>
        _ ← reply_with_addr REP_SUCCEEDED relay_addr;
        match run outbound peer evs st with
        | Running _ => lift_out Hang
        | Returned (inl e) _ => throw e
        | Returned (inr _) _ => mret tt
        end
    end.

(** [handle_client] *)
Definition handle_client (peer : SocketAddr) (outbound : Outbound)
    (bind : out ErrorKind SocketAddr) (evs : list event) (st : state) : io proxy_error unit :=
  request ← timeout_at EHandshakeTimeout read_request;
  match request with
  | Connect target => handle_connect target outbound
  | UdpAssociate => handle_udp_associate peer outbound bind evs st
  end.
End Assoc.

(** ** Header codec and handshake: facts *)
Module Socks5Facts.
Import Socks5.

Lemma be_val_2 p : u16 p -> be_val (to_be 2 p) = p.
Proof. intros H. apply be_val_to_be. unfold u16, U16_MAX in H. simpl. lia. Qed.

Lemma to_be_2 p : exists h l, to_be 2 p = [h; l].
Proof. simpl. eauto. Qed.

Lemma read_port_at pre h l suf n : n = zlen pre -> read_port (pre ++ h :: l :: suf) n = Ok (be_val [h; l]).
Proof.
  intros ->. unfold read_port. rewrite (idx_at pre h _ (zlen pre)) by done. cbn [mbind res_bind].
  replace (pre ++ h :: l :: suf) with ((pre ++ [h]) ++ l :: suf) by by rewrite <-app_assoc.
  rewrite (idx_at (pre ++ [h]) l _ (zlen pre + 1)) by (by rewrite zlen_app). done.
Qed.

Lemma read_port_no_panic buf pos : 0 <= pos -> pos + 2 <= zlen buf -> no_panic (read_port buf pos).
Proof.
  intros. unfold read_port. repeat (apply bind_no_panic; [apply idx_no_panic; lia|intros ? _]). done.
Qed.

Lemma idx4 (buf : bytes) i v : idx (E:=unit) buf i = Ok v -> 0 <= i < zlen buf.
Proof. by intros [? _]%idx_inv. Qed.

Ltac np5 :=
  repeat first
    [ progress np
    | match goal with
      | |- no_panic (read_port _ _ ≫= _) => apply bind_no_panic; [apply read_port_no_panic; zbool; lia|intros ? ?]
      end ].

Lemma decode_no_panic buf : bytes_ok buf -> no_panic (decode_udp_header buf).
Proof.
  intros Hb. unfold decode_udp_header. np5.
  all: match goal with H : idx ?bf 4 = Ok _, Hb : bytes_ok ?bf |- _ =>
         pose proof (idx_byte _ _ _ Hb H) as Hl; unfold is_byte in Hl end.
  apply bind_no_panic; [apply slice_no_panic; zbool; lia|intros raw Hr]. np5.
Qed.

Lemma read_port_bound buf pos p : bytes_ok buf -> read_port buf pos = Ok p -> u16 p.
Proof.
  intros Hb (h & Hh & (l & Hl & [= <-])%bind_ok)%bind_ok.
  pose proof (idx_byte _ _ _ Hb Hh) as B1. pose proof (idx_byte _ _ _ Hb Hl) as B2.
  unfold is_byte in *. unfold u16, U16_MAX, be_val. cbn [fold_left]. lia.
Qed.

Lemma map_lower_bytes s : bytes_ok s -> bytes_ok (to_ascii_lowercase s).
Proof.
  intros H. apply Forall_map. eapply Forall_impl; [exact H|]. intros c Hc. unfold ascii_lower, is_byte in *.
  destruct (_ && _) eqn:E; zbool; lia.
Qed.

(** A target as a datagram header can carry it. *)
Definition target_wf (t : SocketAddrOrName) : Prop :=
  match t with
  | Addr a => sa_wf a /\ match a with SockV6 _ _ s => s = 0 | _ => True end
  | Name n p => bytes_ok n /\ zlen n <= 255 /\ u16 p
  end.

Lemma decode_sound buf t pos : bytes_ok buf -> decode_udp_header buf = Ok (t, pos) ->
  7 <= pos <= zlen buf /\ target_wf t.
Proof.
  intros Hb H. unfold decode_udp_header in H. inv_ok H; zbool.
  all: repeat match goal with
       | E : idx ?bf _ = Ok ?v , Hb : bytes_ok ?bf |- _ =>
           lazymatch goal with _ : is_byte v |- _ => fail | _ => pose proof (idx_byte _ _ _ Hb E) end
       | E : read_port ?bf _ = Ok ?v , Hb : bytes_ok ?bf |- _ =>
           lazymatch goal with _ : u16 v |- _ => fail | _ => pose proof (read_port_bound _ _ _ Hb E) end
       | E : slice ?bf _ _ = Ok ?v , Hb : bytes_ok ?bf |- _ =>
           lazymatch goal with _ : bytes_ok v |- _ => fail
           | _ => pose proof (slice_bytes _ _ _ _ Hb E); pose proof (slice_zlen _ _ _ _ E) end
       end.
  - split; [lia|]. unfold target_wf, sa_wf. cbn [sa_ip sa_port ip_wf]. split_and!; try done.
    repeat (constructor; [done|]). constructor.
  - split; [lia|]. unfold target_wf, sa_wf. cbn [sa_ip sa_port ip_wf socket_addr_new].
    split_and!; try done. match goal with E : zlen _ = 4 + 16 - 4 |- _ => unfold zlen in E end. lia.
  - match goal with E : ok_or (from_utf8 ?r) _ = Ok ?n |- _ =>
      assert (n = r) as -> by (unfold from_utf8 in E; destruct (utf8_valid r); by inversion E) end.
    unfold is_byte in *. split; [lia|]. split_and!; [by apply map_lower_bytes| |done].
    unfold to_ascii_lowercase, zlen in *. rewrite length_map. lia.
Qed.

(** Re-encoding: the header of a wire target, any name included. *)
Definition encode_target (t : SocketAddrOrName) : bytes :=
  match t with
  | Addr a => encode_udp_header a
  | Name n p => [0; 0; 0; 3; zlen n] ++ n ++ to_be 2 p
  end.

Lemma decode_encode_name n p payload :
  bytes_ok n -> zlen n <= 255 -> u16 p -> utf8_valid n = true ->
  decode_udp_header (encode_target (Name n p) ++ payload)
  = Ok (Name (to_ascii_lowercase n) p, 7 + zlen n).
Proof.
  intros Hn Hl Hp Hu. destruct (to_be_2 p) as (h & l & Hhl). pose proof (zlen_nonneg n). pose proof (zlen_nonneg payload).
  unfold encode_target. rewrite Hhl, <-!app_assoc. unfold decode_udp_header.
  set (buf := [0; 0; 0; 3; zlen n] ++ _).
  assert (Hlen : zlen buf = 7 + zlen n + zlen payload) by (subst buf; autorewrite with wslen; lia).
  rewrite Hlen. zfalse. cbn [Z.add].
  assert (H2 : idx (E:=unit) buf 2 = Ok 0) by (subst buf; cbn [app]; by idxs).
  assert (H3 : idx (E:=unit) buf 3 = Ok 3) by (subst buf; cbn [app]; by idxs).
  assert (H4 : idx (E:=unit) buf 4 = Ok (zlen n)) by (subst buf; cbn [app]; by idxs).
  rewrite H2. cbn [mbind res_bind negb Z.eqb]. rewrite H3. cbn [mbind res_bind negb Z.eqb Pos.eqb].
  zfalse. rewrite H4. cbn [mbind res_bind].
  zfalse. rewrite (slice_at [0; 0; 0; 3; zlen n] n ([h; l] ++ payload)) by (autorewrite with wslen; lia).
  cbn [mbind res_bind]. unfold from_utf8. rewrite Hu. cbn [ok_or mbind res_bind].
  replace buf with (([0; 0; 0; 3; zlen n] ++ n) ++ h :: l :: payload) by by rewrite <-app_assoc.
  rewrite read_port_at by (autorewrite with wslen; lia). cbn [mbind res_bind].
  rewrite <-Hhl, be_val_2 by done. f_equal. f_equal. lia.
Qed.

Lemma decode_encode_addr a payload : target_wf (Addr a) ->
  decode_udp_header (encode_udp_header a ++ payload) = Ok (Addr a, zlen (encode_udp_header a)).
Proof.
  intros [(Hip & Hp & Hs) H0]. unfold decode_udp_header. destruct (to_be_2 (sa_port a)) as (h & l & Hhl).
  pose proof (zlen_nonneg payload).
  destruct a as [o p|o p s]; cbn [sa_port sa_ip ip_wf] in *; destruct Hip as [Hlen Ho]; unfold encode_udp_header; rewrite Hhl.
  - destruct o as [|o1 [|o2 [|o3 [|o4 [|]]]]]; try discriminate Hlen.
    cbn [app]. set (buf := 0 :: _).
    assert (Hl : zlen buf = 10 + zlen payload) by (subst buf; autorewrite with wslen; lia). rewrite Hl.
    do 2 zfalse. subst buf. unfold read_port.
    idxs. cbn [negb Z.eqb Pos.eqb]. idxs. rewrite <-Hhl, be_val_2 by done. done.
  - cbn [app]. set (buf := 0 :: _).
    assert (Ho16 : zlen o = 16) by (unfold zlen; lia).
    assert (Hl : zlen buf = 22 + zlen payload) by (subst buf; autorewrite with wslen; lia). rewrite Hl.
    do 2 zfalse. assert (Hb : buf = [0; 0; 0; 4] ++ o ++ h :: l :: payload)
      by (subst buf; by rewrite <-app_assoc).
    assert (H2 : idx (E:=unit) buf 2 = Ok 0) by (subst buf; by idxs).
    assert (H3 : idx (E:=unit) buf 3 = Ok 4) by (subst buf; by idxs).
    rewrite H2. cbn [mbind res_bind negb Z.eqb]. rewrite H3. cbn [mbind res_bind negb Z.eqb Pos.eqb].
    rewrite Hb at 1. rewrite (slice_at [0; 0; 0; 4] o) by (rewrite ?Ho16; done). cbn [mbind res_bind].
    replace buf with (([0; 0; 0; 4] ++ o) ++ h :: l :: payload) by by rewrite <-app_assoc.
    rewrite read_port_at by (rewrite zlen_app, Ho16; done). cbn [mbind res_bind].
    zfalse. rewrite <-Hhl, be_val_2 by done. subst s. f_equal. f_equal. autorewrite with wslen. rewrite Ho16. done.
Qed.

(** The UDP header decoder on any datagram: it never indexes out of range, and
    what it accepts is a well-formed target (port in range, name of at most 255
    bytes) with a header length inside the datagram, so the payload slice that
    follows is in range. *)
Theorem decode_udp_header_safe buf : bytes_ok buf ->
  no_panic (decode_udp_header buf)
  /\ forall t pos, decode_udp_header buf = Ok (t, pos) -> 7 <= pos <= zlen buf /\ target_wf t.
Proof.
  intros Hb. split; [by apply decode_no_panic|]. intros t pos. by apply decode_sound.
Qed.

Lemma decode_udp_header_safe_witness :
  decode_udp_header [0; 0; 0; 3; 1; 65; 0; 53; 9] = Ok (Name [97] 53, 8)
  /\ no_panic (decode_udp_header [0; 0; 0; 3; 200; 65; 0; 53; 9]).
Proof.
  split; [vm_compute; reflexivity|].
  apply decode_udp_header_safe. repeat (constructor; [unfold is_byte; lia|]). constructor.
Defined.

(** UDP header round trip: for every well-formed address (and every UTF-8 name,
    which is lower-cased) the decoder applied to the encoded header followed by
    any payload returns that target and the exact header length, so the payload
    is delivered unchanged. *)
Theorem udp_header_roundtrip t payload :
  target_wf t -> match t with Name n _ => utf8_valid n = true | _ => True end ->
  decode_udp_header (encode_target t ++ payload)
  = Ok (match t with Name n p => Name (to_ascii_lowercase n) p | _ => t end, zlen (encode_target t))
  /\ drop (Z.to_nat (zlen (encode_target t))) (encode_target t ++ payload) = payload.
Proof.
  intros Hw Hu. split.
  - destruct t as [a|n p]; [by apply decode_encode_addr|]. destruct Hw as (Hn & Hl & Hp).
    rewrite decode_encode_name by done. f_equal. f_equal. unfold encode_target. autorewrite with wslen. lia.
  - unfold zlen. rewrite Nat2Z.id. apply drop_app_length.
Qed.

Lemma udp_header_roundtrip_witness :
  decode_udp_header (encode_udp_header (SockV4 [1; 1; 1; 1] 853) ++ [1; 2; 3]) = Ok (Addr (SockV4 [1; 1; 1; 1] 853), 10).
Proof.
  apply (udp_header_roundtrip (Addr (SockV4 [1; 1; 1; 1] 853)) [1; 2; 3]); [|done].
  split; [|done]. split; [split; [done|]|split; [split; vm_compute; discriminate|done]].
  repeat (constructor; [unfold is_byte; lia|]). constructor.
Defined.

(** ** The handshake *)
Definition greeting (methods : bytes) : bytes := 5 :: zlen methods :: methods.

(** A target in a request: address type, address, port. *)
Definition wire_target (t : SocketAddrOrName) : bytes := drop 3 (encode_target t).
Definition atyp_of (t : SocketAddrOrName) : Z :=
  match t with Addr (SockV4 _ _) => 1 | Addr (SockV6 _ _ _) => 4 | Name _ _ => 3 end.

Definition requested (t : SocketAddrOrName) : Target :=
  match t with
  | Addr a => mk_target (Ip (sa_ip a)) (sa_port a) (show_target (fmt_ip (sa_ip a)) (sa_port a))
  | Name n p => mk_target (host_parse n) p (show_target n p)
  end.

Lemma contains_byte_true c s : contains_byte c s = true <-> c ∈ s.
Proof.
  unfold contains_byte. rewrite existsb_exists. split.
  - intros (x & Hx & ->%Z.eqb_eq). by apply list_elem_of_In.
  - intros H. exists c. split; [by apply list_elem_of_In|apply Z.eqb_refl].
Qed.

Lemma zlen_to_be2 p : 2 = zlen (to_be 2 p).
Proof. by rewrite to_be_zlen. Qed.

Lemma read_target_ok c t rest : target_wf t -> match t with Name n _ => utf8_valid n = true | _ => True end ->
  read_target (atyp_of t) (feed c (drop 1 (wire_target t) ++ rest)) = (Ret (requested t), feed c rest).
Proof.
  intros Hw Hu. destruct t as [[o p|o p s]|n p]; unfold wire_target; cbn [encode_target encode_udp_header app drop atyp_of];
    unfold read_target; cbn [Z.eqb Pos.eqb].
  - destruct Hw as [([Hl _] & Hp & _) _]. rewrite drop_0, <-app_assoc.
    rewrite (io_bind_ret _ _ _ o _ (read_exact_feed 4 o _ c ltac:(unfold zlen; lia))).
    rewrite (io_bind_ret _ _ _ _ _ (read_exact_feed 2 (to_be 2 p) rest c (zlen_to_be2 p))).
    rewrite be_val_2 by done. done.
  - destruct Hw as [([Hl _] & Hp & _) _]. rewrite drop_0, <-app_assoc.
    rewrite (io_bind_ret _ _ _ o _ (read_exact_feed 16 o _ c ltac:(unfold zlen; lia))).
    rewrite (io_bind_ret _ _ _ _ _ (read_exact_feed 2 (to_be 2 p) rest c (zlen_to_be2 p))).
    rewrite be_val_2 by done. done.
  - destruct Hw as (Hn & Hl & Hp). change (zlen n :: (n ++ to_be 2 p) ++ rest) with ([zlen n] ++ (n ++ to_be 2 p) ++ rest).
    rewrite (io_bind_ret _ _ _ [zlen n] _ (read_exact_feed 1 [zlen n] _ c ltac:(done))).
    rewrite <-app_assoc. unfold arr. cbn [nth].
    rewrite (io_bind_ret _ _ _ n _ (read_exact_feed (zlen n) n _ c ltac:(done))).
    rewrite (io_bind_ret _ _ _ _ _ (read_exact_feed 2 (to_be 2 p) rest c (zlen_to_be2 p))).
    unfold from_utf8. rewrite Hu, be_val_2 by done. done.
Qed.

Lemma skip_target_ok c t rest : target_wf t ->
  skip_target (atyp_of t) (feed c (drop 1 (wire_target t) ++ rest)) = (Ret tt, feed c rest).
Proof.
  intros Hw. destruct t as [[o p|o p s]|n p]; unfold wire_target; cbn [encode_target encode_udp_header app drop atyp_of];
    unfold skip_target; cbn [Z.eqb Pos.eqb].
  - destruct Hw as [([Hl _] & _) _]. rewrite drop_0.
    by rewrite (io_bind_ret _ _ _ _ _ (read_exact_feed (4 + 2) (o ++ to_be 2 p) rest c ltac:(rewrite zlen_app, to_be_zlen; unfold zlen; lia))).
  - destruct Hw as [([Hl _] & _) _]. rewrite drop_0.
    by rewrite (io_bind_ret _ _ _ _ _ (read_exact_feed (16 + 2) (o ++ to_be 2 p) rest c ltac:(rewrite zlen_app, to_be_zlen; unfold zlen; lia))).
  - change (zlen n :: (n ++ to_be 2 p) ++ rest) with ([zlen n] ++ (n ++ to_be 2 p) ++ rest).
    rewrite (io_bind_ret _ _ _ [zlen n] _ (read_exact_feed 1 [zlen n] _ c ltac:(done))).
    unfold arr. cbn [nth].
    by rewrite (io_bind_ret _ _ _ _ _ (read_exact_feed (zlen n + 2) (n ++ to_be 2 p) rest c ltac:(rewrite zlen_app, to_be_zlen; lia))).
Qed.

(** After the greeting: what is left of [read_request]. *)
Definition after_greeting : io proxy_error Request :=
  req ← read_exact 4;
  if negb (arr req 0 =? 5) then throw (EVersion (arr req 0))
  else if negb ((arr req 1 =? CMD_CONNECT) || (arr req 1 =? CMD_UDP_ASSOCIATE)) then
    _ ← ignore (reply REP_CMD_NOT_SUPPORTED); throw (ECommand (arr req 1))
  else if negb ((arr req 3 =? 1) || (arr req 3 =? 3) || (arr req 3 =? 4)) then
    _ ← ignore (reply REP_ATYP_NOT_SUPPORTED); throw (EAddressType (arr req 3))
  else if arr req 1 =? CMD_UDP_ASSOCIATE then
    _ ← skip_target (arr req 3); mret UdpAssociate
  else
    catch (target ← read_target (arr req 3); mret (Connect target))
          (fun error => _ ← ignore (reply REP_HOST_UNREACHABLE); throw error).

Lemma read_request_greeting c methods rest : c_writes c = None ->
  read_request (feed c (greeting methods ++ rest))
  = if contains_byte 0 methods
    then after_greeting (feed (writes c [5; 0]) rest)
    else (Fail ENoAuthMethod, feed (writes c [5; 255]) rest).
Proof.
  intros Hw. unfold read_request, greeting.
  change ((5 :: zlen methods :: methods) ++ rest) with ([5; zlen methods] ++ methods ++ rest).
  rewrite (io_bind_ret _ _ _ _ _ (read_exact_feed 2 [5; zlen methods] _ c ltac:(done))).
  unfold arr at 1 2. cbn [nth Z.eqb Pos.eqb negb].
  unfold arr at 1. cbn [nth].
  rewrite (io_bind_ret _ _ _ _ _ (read_exact_feed (zlen methods) methods _ c ltac:(done))).
  destruct (contains_byte 0 methods); cbn [negb].
  - by rewrite (io_bind_ret _ _ _ _ _ (write_all_writable [5; 0] (feed c rest) Hw)).
  - by rewrite (io_bind_ret _ _ _ _ _ (write_all_writable [5; 255] (feed c rest) Hw)).
Qed.

Lemma after_greeting_head c v cmd rsv atyp rest :
  after_greeting (feed c ([v; cmd; rsv; atyp] ++ rest))
  = (if negb (v =? 5) then throw (EVersion v)
     else if negb ((cmd =? CMD_CONNECT) || (cmd =? CMD_UDP_ASSOCIATE)) then
       _ ← ignore (reply REP_CMD_NOT_SUPPORTED); throw (ECommand cmd)
     else if negb ((atyp =? 1) || (atyp =? 3) || (atyp =? 4)) then
       _ ← ignore (reply REP_ATYP_NOT_SUPPORTED); throw (EAddressType atyp)
     else if cmd =? CMD_UDP_ASSOCIATE then _ ← skip_target atyp; mret UdpAssociate
     else catch (target ← read_target atyp; mret (Connect target))
            (fun error => _ ← ignore (reply REP_HOST_UNREACHABLE); throw error)) (feed c rest).
Proof.
  unfold after_greeting.
  by rewrite (io_bind_ret _ _ _ _ _ (read_exact_feed 4 [v; cmd; rsv; atyp] rest c ltac:(done))).
Qed.

Lemma wire_target_cons t : wire_target t = atyp_of t :: drop 1 (wire_target t).
Proof. by destruct t as [[]|]. Qed.

Lemma ignore_reply c rep {A} (k : io proxy_error A) : c_writes c = None ->
  (_ ← ignore (reply rep); k) c = k (writes c (reply_bytes rep)).
Proof. intros H. unfold ignore, mbind, io_bind, reply. by rewrite write_all_writable. Qed.

Lemma atyp_known t : (atyp_of t =? 1) || (atyp_of t =? 3) || (atyp_of t =? 4) = true.
Proof. by destruct t as [[]|]. Qed.

Lemma read_request_ok c methods rsv t rest :
  c_writes c = None -> 0 ∈ methods -> target_wf t ->
  read_request (feed c (greeting methods ++ [5; CMD_UDP_ASSOCIATE; rsv] ++ wire_target t ++ rest))
    = (Ret UdpAssociate, feed (writes c [5; 0]) rest)
  /\ (match t with Name n _ => utf8_valid n = true | _ => True end ->
      read_request (feed c (greeting methods ++ [5; CMD_CONNECT; rsv] ++ wire_target t ++ rest))
        = (Ret (Connect (requested t)), feed (writes c [5; 0]) rest)).
Proof.
  intros Hw Hm Ht. rewrite !read_request_greeting by done.
  rewrite (proj2 (contains_byte_true 0 methods) Hm).
  rewrite (wire_target_cons t). split; [|intros Hu].
  - rewrite (after_greeting_head _ 5 CMD_UDP_ASSOCIATE rsv (atyp_of t) (drop 1 (wire_target t) ++ rest)).
    rewrite atyp_known. cbn [Z.eqb Pos.eqb negb CMD_UDP_ASSOCIATE CMD_CONNECT orb].
    by rewrite (io_bind_ret _ _ _ _ _ (skip_target_ok _ t rest Ht)).
  - rewrite (after_greeting_head _ 5 CMD_CONNECT rsv (atyp_of t) (drop 1 (wire_target t) ++ rest)).
    rewrite atyp_known. cbn [Z.eqb Pos.eqb negb CMD_UDP_ASSOCIATE CMD_CONNECT orb].
    unfold catch. by rewrite (io_bind_ret _ _ _ _ _ (read_target_ok _ t rest Ht Hu)).
Qed.

(** C35. Every well-formed SOCKS5 request is understood: after a greeting that offers
    "no authentication", a CONNECT to an IPv4, IPv6 or UTF-8 domain target
    yields exactly that target (a literal address in a domain field becomes an
    IP), a UDP ASSOCIATE skips its suggested address, only the method reply is
    written, and every byte after the request stays unread for the relay. *)
Theorem read_request_accepts c methods rsv t rest :
  c_writes c = None -> 0 ∈ methods -> target_wf t ->
  read_request (feed c (greeting methods ++ [5; CMD_UDP_ASSOCIATE; rsv] ++ wire_target t ++ rest))
    = (Ret UdpAssociate, feed (writes c [5; 0]) rest)
  /\ (match t with Name n _ => utf8_valid n = true | _ => True end ->
      read_request (feed c (greeting methods ++ [5; CMD_CONNECT; rsv] ++ wire_target t ++ rest))
        = (Ret (Connect (requested t)), feed (writes c [5; 0]) rest)).
Proof. apply read_request_ok. Qed.

Lemma read_request_accepts_witness :
  read_request (fresh ([5; 1; 0] ++ [5; 3; 0] ++ [1; 0; 0; 0; 0; 0; 0] ++ [7]) Silent idle)
  = (Ret UdpAssociate, feed (writes (fresh [] Silent idle) [5; 0]) [7]).
Proof.
  apply (read_request_accepts (fresh [] Silent idle) [0] 0 (Addr (SockV4 [0; 0; 0; 0] 0)) [7]); [done|set_solver|].
  split; [|done]. split; [split; [done|]|split; [split; vm_compute; discriminate|done]].
  repeat (constructor; [unfold is_byte; lia|]). constructor.
Defined.

(** *** Requests that end too early *)
(** What reading past the end of the client's bytes reports. *)
Definition cut_by (e : stream_end) (k : ErrorKind) : Prop := e = Closed /\ k = UnexpectedEof \/ e = Broken k.
(** [p] is too short for the address and port of type [atyp]. *)
Definition truncated (atyp : Z) (p : bytes) : Prop :=
  atyp = 1 /\ zlen p < 6 \/ atyp = 4 /\ zlen p < 18 \/
  atyp = 3 /\ (p = [] \/ exists len q, p = len :: q /\ 0 <= len /\ zlen q < len + 2).

Lemma read_exact_short n p c k : cut_by (c_end c) k -> zlen p < n -> read_exact n (feed c p) = (Fail (EIo k), feed c []).
Proof.
  intros Hc Hn. unfold read_exact, starved, feed. cbn [c_in c_end c_writes c_out c_up c_relay]. rewrite (proj2 (Z.leb_gt _ _)) by lia.
  by destruct Hc as [[-> ->]| ->].
Qed.
Lemma read_exact_long n p c : n <= zlen p -> read_exact (E:=proxy_error) n (feed c p) = (Ret (take (Z.to_nat n) p), feed c (drop (Z.to_nat n) p)).
Proof. intros Hn. unfold read_exact. cbn [c_in feed]. by rewrite (proj2 (Z.leb_le _ _)). Qed.

(** Two reads in a row, of [n] and [m] bytes, of fewer than [n + m]. *)
Lemma read_pair_short {A} n m p c k (f : bytes -> bytes -> io proxy_error A) : cut_by (c_end c) k -> 0 <= n -> zlen p < n + m ->
  (a ← read_exact n; b ← read_exact m; f a b) (feed c p) = (Fail (EIo k), feed c []).
Proof.
  intros Hc Hn Hl. destruct (Z.lt_ge_cases (zlen p) n) as [Hs|Hs].
  - by rewrite (io_bind_fail _ _ _ _ _ (read_exact_short n p c k Hc Hs)).
  - rewrite (io_bind_ret _ _ _ _ _ (read_exact_long n p c Hs)).
    by rewrite (io_bind_fail _ _ _ _ _ (read_exact_short m (drop (Z.to_nat n) p) c k Hc ltac:(rewrite zlen_drop by lia; lia))).
Qed.
Lemma read_target_short atyp p c k : cut_by (c_end c) k -> truncated atyp p -> read_target atyp (feed c p) = (Fail (EIo k), feed c []).
Proof.
  intros Hc [[-> Hl]|[[-> Hl]|[-> Hl]]]; unfold read_target; cbn [Z.eqb Pos.eqb]; [by apply read_pair_short|by apply read_pair_short|].
  destruct Hl as [->|(len & q & -> & Hn & Hq)]; [by rewrite (io_bind_fail _ _ _ _ _ (read_exact_short 1 [] c k Hc ltac:(done)))|].
  rewrite (io_bind_ret _ _ _ [len] _ (read_exact_feed 1 [len] q c ltac:(done))). unfold arr. cbn [nth]. by apply read_pair_short.
Qed.
Lemma skip_target_short atyp p c k : cut_by (c_end c) k -> truncated atyp p -> skip_target atyp (feed c p) = (Fail (EIo k), feed c []).
Proof.
  intros Hc [[-> Hl]|[[-> Hl]|[-> Hl]]]; unfold skip_target; cbn [Z.eqb Pos.eqb].
  1,2: by rewrite (io_bind_fail _ _ _ _ _ (read_exact_short _ p c k Hc Hl)).
  destruct Hl as [->|(len & q & -> & Hn & Hq)]; [by rewrite (io_bind_fail _ _ _ _ _ (read_exact_short 1 [] c k Hc ltac:(done)))|].
  rewrite (io_bind_ret _ _ _ [len] _ (read_exact_feed 1 [len] q c ltac:(done))). unfold arr. cbn [nth].
  by rewrite (io_bind_fail _ _ _ _ _ (read_exact_short _ q c k Hc Hq)).
Qed.

(** The refusals of a complete request. *)
Lemma request_refused c methods rest : c_writes c = None ->
  (0 ∉ methods -> read_request (feed c (greeting methods ++ rest))
                 = (Fail ENoAuthMethod, feed (writes c [5; 255]) rest))
  /\ (0 ∈ methods -> forall v cmd rsv atyp,
      let go := read_request (feed c (greeting methods ++ [v; cmd; rsv; atyp] ++ rest)) in
      let c1 := feed (writes c [5; 0]) rest in
      (v <> 5 -> go = (Fail (EVersion v), c1))
      /\ (v = 5 -> cmd <> 1 -> cmd <> 3 -> go = (Fail (ECommand cmd), writes c1 (reply_bytes 7)))
      /\ (v = 5 -> cmd = 1 \/ cmd = 3 -> atyp <> 1 -> atyp <> 3 -> atyp <> 4 ->
          go = (Fail (EAddressType atyp), writes c1 (reply_bytes 8))))
  /\ (0 ∈ methods -> forall n p rsv, bytes_ok n -> zlen n <= 255 -> u16 p -> utf8_valid n = false ->
      read_request (feed c (greeting methods ++ [5; 1; rsv] ++ wire_target (Name n p) ++ rest))
      = (Fail EDomainUtf8, writes (feed (writes c [5; 0]) rest) (reply_bytes 4))).
Proof.
  intros Hw. rewrite !read_request_greeting by done. split_and!.
  - intros Hm. destruct (contains_byte 0 methods) eqn:E; [|done]. by apply contains_byte_true in E.
  - intros Hm v cmd rsv atyp. cbn zeta. rewrite read_request_greeting by done.
    rewrite (proj2 (contains_byte_true 0 methods) Hm), after_greeting_head.
    unfold CMD_CONNECT, CMD_UDP_ASSOCIATE. split_and!.
    + intros Hv. by rewrite (proj2 (Z.eqb_neq _ _) Hv).
    + intros -> H1 H3. rewrite (proj2 (Z.eqb_neq _ _) H1), (proj2 (Z.eqb_neq _ _) H3).
      cbn [Z.eqb Pos.eqb negb orb]. by rewrite ignore_reply.
    + intros -> Hc H1 H3 H4.
      rewrite (proj2 (Z.eqb_neq _ _) H1), (proj2 (Z.eqb_neq _ _) H3), (proj2 (Z.eqb_neq _ _) H4).
      destruct Hc as [->| ->]; cbn [Z.eqb Pos.eqb negb orb]; by rewrite ignore_reply.
  - intros Hm n p rsv Hn Hl Hp Hu. rewrite read_request_greeting by done.
    rewrite (proj2 (contains_byte_true 0 methods) Hm).
    change ([5; 1; rsv] ++ wire_target (Name n p) ++ rest) with ([5; 1; rsv; 3] ++ [zlen n] ++ (n ++ to_be 2 p) ++ rest).
    rewrite after_greeting_head. cbn [Z.eqb Pos.eqb negb CMD_UDP_ASSOCIATE CMD_CONNECT orb].
    unfold catch, read_target. cbn [Z.eqb Pos.eqb].
    erewrite (io_bind_fail _ _ _ EDomainUtf8); [|].
    + by rewrite ignore_reply.
    + rewrite (io_bind_ret _ _ _ [zlen n] _ (read_exact_feed 1 [zlen n] _ _ ltac:(done))).
      rewrite <-app_assoc. unfold arr. cbn [nth].
      rewrite (io_bind_ret _ _ _ n _ (read_exact_feed (zlen n) n _ _ ltac:(done))).
      rewrite (io_bind_ret _ _ _ _ _ (read_exact_feed 2 (to_be 2 p) rest _ (zlen_to_be2 p))).
      unfold from_utf8. rewrite Hu. done.
Qed.

(** A greeting of another version, or cut short. *)
Lemma greeting_refused c : (forall v nmethods rest, v <> 5 -> read_request (feed c ([v; nmethods] ++ rest)) = (Fail (EVersion v), feed c rest)) /\
  (forall k p, cut_by (c_end c) k -> zlen p < 2 \/ (exists nmethods q, p = 5 :: nmethods :: q /\ zlen q < nmethods) ->
     read_request (feed c p) = (Fail (EIo k), feed c [])).
Proof.
  split.
  - intros v m rest Hv. unfold read_request. rewrite (io_bind_ret _ _ _ _ _ (read_exact_feed 2 [v; m] rest c ltac:(done))).
    unfold arr at 1. cbn [nth]. by rewrite (proj2 (Z.eqb_neq _ _) Hv).
  - intros k p Hc [Hl|(m & q & -> & Hq)]; unfold read_request.
    + by rewrite (io_bind_fail _ _ _ _ _ (read_exact_short 2 p c k Hc Hl)).
    + change (5 :: m :: q) with ([5; m] ++ q). rewrite (io_bind_ret _ _ _ _ _ (read_exact_feed 2 [5; m] q c ltac:(done))).
      unfold arr. cbn [nth Z.eqb Pos.eqb negb]. by rewrite (io_bind_fail _ _ _ _ _ (read_exact_short m q c k Hc Hq)).
Qed.

(** A request cut short after the greeting. *)
Lemma request_cut c methods k : c_writes c = None -> 0 ∈ methods -> cut_by (c_end c) k ->
  (forall p, zlen p < 4 -> read_request (feed c (greeting methods ++ p)) = (Fail (EIo k), feed (writes c [5; 0]) [])) /\
  (forall rsv atyp p, truncated atyp p ->
     read_request (feed c (greeting methods ++ [5; 1; rsv; atyp] ++ p)) = (Fail (EIo k), writes (feed (writes c [5; 0]) []) (reply_bytes 4)) /\
     read_request (feed c (greeting methods ++ [5; 3; rsv; atyp] ++ p)) = (Fail (EIo k), feed (writes c [5; 0]) [])).
Proof.
  intros Hw Hm Hc. pose proof (proj2 (contains_byte_true 0 methods) Hm) as Hb. assert (Hc' : cut_by (c_end (writes c [5; 0])) k) by done. split.
  - intros p Hp. rewrite read_request_greeting, Hb by done. unfold after_greeting.
    by rewrite (io_bind_fail _ _ _ _ _ (read_exact_short 4 p _ k Hc' Hp)).
  - intros rsv atyp p Ht. rewrite !read_request_greeting, Hb, !after_greeting_head by done.
    assert (Hk : (atyp =? 1) || (atyp =? 3) || (atyp =? 4) = true) by (destruct Ht as [[-> _]|[[-> _]|[-> _]]]; done).
    unfold CMD_CONNECT, CMD_UDP_ASSOCIATE. rewrite Hk. cbn [Z.eqb Pos.eqb negb orb]. split.
    + unfold catch. rewrite (io_bind_fail _ _ _ _ _ (read_target_short atyp p _ k Hc' Ht)). by rewrite ignore_reply.
    + by rewrite (io_bind_fail _ _ _ _ _ (skip_target_short atyp p _ k Hc' Ht)).
Qed.

(** C36. Every malformed SOCKS5 request is refused with the reply the code has for it
    and nothing else.  A wrong version, in the greeting or in the request, gets no
    reply of its own; no acceptable method gets 05 FF; an unknown command gets 07, an
    unknown address type 08, a domain that is not UTF-8 gets 04 (host unreachable).
    When the client's stream ends or fails too early the error is the stream's: in
    the greeting nothing has been written, in the first four bytes of the request or
    in the address of a UDP ASSOCIATE only the method reply has, and in the address
    of a CONNECT the reply is 04.  Each comes with the matching error. *)
Theorem read_request_rejects c methods rest : c_writes c = None ->
  (forall v nmethods, v <> 5 -> read_request (feed c ([v; nmethods] ++ rest)) = (Fail (EVersion v), feed c rest))
  /\ (0 ∉ methods -> read_request (feed c (greeting methods ++ rest))
                 = (Fail ENoAuthMethod, feed (writes c [5; 255]) rest))
  /\ (0 ∈ methods -> forall v cmd rsv atyp,
      let go := read_request (feed c (greeting methods ++ [v; cmd; rsv; atyp] ++ rest)) in
      let c1 := feed (writes c [5; 0]) rest in
      (v <> 5 -> go = (Fail (EVersion v), c1))
      /\ (v = 5 -> cmd <> 1 -> cmd <> 3 -> go = (Fail (ECommand cmd), writes c1 [5; 7; 0; 1; 0; 0; 0; 0; 0; 0]))
      /\ (v = 5 -> cmd = 1 \/ cmd = 3 -> atyp <> 1 -> atyp <> 3 -> atyp <> 4 ->
          go = (Fail (EAddressType atyp), writes c1 [5; 8; 0; 1; 0; 0; 0; 0; 0; 0])))
  /\ (0 ∈ methods -> forall n p rsv, bytes_ok n -> zlen n <= 255 -> u16 p -> utf8_valid n = false ->
      read_request (feed c (greeting methods ++ [5; 1; rsv] ++ wire_target (Name n p) ++ rest))
      = (Fail EDomainUtf8, writes (feed (writes c [5; 0]) rest) [5; 4; 0; 1; 0; 0; 0; 0; 0; 0]))
  /\ (forall k, cut_by (c_end c) k ->
      (forall p, zlen p < 2 \/ (exists nmethods q, p = 5 :: nmethods :: q /\ zlen q < nmethods) ->
         read_request (feed c p) = (Fail (EIo k), feed c []))
      /\ (0 ∈ methods -> forall p, zlen p < 4 -> read_request (feed c (greeting methods ++ p)) = (Fail (EIo k), feed (writes c [5; 0]) []))
      /\ (0 ∈ methods -> forall rsv atyp p, truncated atyp p ->
          read_request (feed c (greeting methods ++ [5; 3; rsv; atyp] ++ p)) = (Fail (EIo k), feed (writes c [5; 0]) [])
          /\ read_request (feed c (greeting methods ++ [5; 1; rsv; atyp] ++ p))
             = (Fail (EIo k), writes (feed (writes c [5; 0]) []) [5; 4; 0; 1; 0; 0; 0; 0; 0; 0]))).
Proof.
  intros Hw. destruct (request_refused c methods rest Hw) as (H1 & H2 & H3). destruct (greeting_refused c) as [G1 G2].
  split_and!; [intros; by apply G1|exact H1|exact H2|exact H3|]. intros k Hk. split_and!; [intros; by apply G2|..].
  - intros Hm. by destruct (request_cut c methods k Hw Hm Hk).
  - intros Hm rsv atyp p Hp. destruct (request_cut c methods k Hw Hm Hk) as [_ H]. by destruct (H rsv atyp p Hp).
Qed.

Lemma read_request_rejects_witness :
  read_request (fresh [5; 1; 2] Silent idle) = (Fail ENoAuthMethod, feed (writes (fresh [] Silent idle) [5; 255]) []) /\
  read_request (fresh [4; 1; 0] Silent idle) = (Fail (EVersion 4), feed (fresh [] Silent idle) [0]) /\
  read_request (fresh ([5; 1; 0] ++ [5; 1; 0; 3] ++ [9; 97; 98]) Closed idle)
  = (Fail (EIo UnexpectedEof), writes (feed (writes (fresh [] Closed idle) [5; 0]) []) [5; 4; 0; 1; 0; 0; 0; 0; 0; 0]).
Proof.
  split; [|split].
  - apply (read_request_rejects (fresh [] Silent idle) [2] []); [done|set_solver].
  - apply (read_request_rejects (fresh [] Silent idle) [2] [0]); [done|discriminate].
  - pose proof (read_request_rejects (fresh [] Closed idle) [0] [] eq_refl) as (_ & _ & _ & _ & H).
    destruct (H UnexpectedEof ltac:(left; split; reflexivity)) as (_ & _ & H').
    apply (proj2 (H' ltac:(set_solver) 0 3 [9; 97; 98] ltac:(right; right; split; [reflexivity|]; right; exists 9, [97; 98]; split_and!; [reflexivity|lia|reflexivity]))).
Defined.

(** *** CONNECT *)
Lemma tunnel_conserves conn c :
  let r := Relay.tunnel_tcp (E:=proxy_error) conn c in
  (exists sent buffered, c_up (snd r) = c_up c ++ sent /\ c_in c = sent ++ buffered ++ c_in (snd r)) /\
  exists got, c_out (snd r) = c_out c ++ got /\ got `prefix_of` o_in (c_relay c).
Proof.
  unfold Relay.tunnel_tcp. pose proof (Relay.copy_conserves Relay.RELAY_DRAIN_GRACE c) as H.
  destruct (Relay.copy_with_drain _ c) as [x c']. destruct H as (sent & ubuf & got & dbuf & Hu & Hi & Ho & Hd & _).
  destruct x; cbn [snd]; (split; [by exists sent, ubuf|]); exists got; (split; [done|]); by eexists.
Qed.

(** CONNECT tells the truth: the success reply is written exactly when the
    outlet connected and the client can be written to; only then are the bytes
    after the request carried upward, as a prefix of what the client sent, and
    the outlet's bytes follow the reply.  When the outlet fails, the client gets
    "host unreachable", the outlet's error is reported and no byte moves. *)
Theorem handle_connect_truthful target outbound c :
  let '(r, c') := handle_connect target outbound c in
  match connect_tcp outbound (t_host target) (t_port target) with
  | Hang => r = Hang /\ c' = c
  | Fail k => r = Fail (EConnect k) /\ c_up c' = c_up c /\ c_in c' = c_in c
              /\ (c_writes c = None -> c_out c' = c_out c ++ reply_bytes REP_HOST_UNREACHABLE)
  | Ret conn =>
      match c_writes c with
      | Some O => r = Fail (EIo BrokenPipe) /\ c' = c
      | _ => exists sent buffered down, c_up c' = c_up c ++ sent /\ c_in c = sent ++ buffered ++ c_in c'
               /\ c_out c' = c_out c ++ reply_bytes REP_SUCCEEDED ++ down /\ down `prefix_of` o_in (c_relay c)
      end
  end.
Proof.
  destruct (handle_connect target outbound c) as [r c'] eqn:Hr.
  unfold handle_connect, relay_connect in Hr. destruct (connect_tcp _ _ _) as [conn|k|].
  - destruct (c_writes c) as [[|n]|] eqn:Hw.
    all: unfold mbind, io_bind, reply, write_all in Hr; rewrite Hw in Hr.
    { by simplify_eq. }
    all: match type of Hr with Relay.tunnel_tcp _ ?c1 = _ =>
           destruct (tunnel_conserves conn c1) as ((sent & b & Hu & Hi) & down & Ho & Hd); rewrite Hr in Hu, Hi, Ho end.
    all: simpl in *; exists sent, b, down; split_and!; try done; rewrite Ho; by rewrite <-app_assoc.
  - unfold ignore, mbind, io_bind, reply, write_all, throw in Hr.
    destruct (c_writes c) as [[|n]|] eqn:Hw; simplify_eq; done.
  - unfold lift_out in Hr. by simplify_eq.
Qed.
End Socks5Facts.

(** ** The association: invariant *)
Module AssocFacts.
Import Socks5 Socks5Facts Assoc.

Definition held (st : state) : Z :=
  zsum worker_bytes (workers st) + queue_bytes (map r_payload (replies st)).
Definition alive (w : worker) : Z := match w_state w with Ended => 0 | _ => 1 end.

(** [p] is the payload of a datagram that the learned client sent for [t]. *)
Definition authentic (c : option SocketAddr) (rc : list (SocketAddr * bytes)) (t : SocketAddrOrName) (p : bytes) : Prop :=
  exists from buf pos, c = Some from /\ (from, buf) ∈ rc
    /\ decode_udp_header buf = Ok (t, pos) /\ p = drop (Z.to_nat pos) buf.

(** The address is the remote end of a channel opened through the outlet. *)
Definition from_channel (ob : Outbound) (a : SocketAddr) : Prop :=
  exists t d, establish_egress ob t = Ret (Some d) /\ a = peer_addr d.

Definition worker_ok (ob : Outbound) c rc (w : worker) : Prop :=
  (length (w_queue w) <= UDP_TARGET_CHANNEL_CAPACITY)%nat
  /\ Forall (authentic c rc (w_target w)) (w_queue w)
  /\ match w_state w with
     | Ended => w_queue w = []
     | Establishing => True
     | Active d op => establish_egress ob (w_target w) = Ret (Some d)
         /\ match op with
            | Waiting => True
            | Sending p => authentic c rc (w_target w) p
            | Delivering r => r_from r = peer_addr d
            end
     end.

Definition relayed_ok (ob : Outbound) (c : option SocketAddr) (x : SocketAddr * bytes) : Prop :=
  c = Some x.1 /\ exists a payload, from_channel ob a /\ x.2 = encode_udp_header a ++ payload.

(** [n] bytes and [m] worker permits are in the hands of the running operation. *)
Record inv (ob : Outbound) (peer : SocketAddr) (n m : Z) (st : state) : Prop := mk_inv {
  inv_bytes : bytes_free st + held st + other_bytes st + n = UDP_QUEUE_BYTES;
  inv_bytes_free : 0 <= bytes_free st /\ 0 <= other_bytes st;
  inv_workers : workers_free st + zsum alive (workers st) + other_workers st + m = UDP_WORKERS;
  inv_workers_free : 0 <= workers_free st /\ 0 <= other_workers st;
  inv_routes : (size (routes st) <= MAX_UDP_TARGETS_PER_ASSOCIATION)%nat;
  inv_ptr : forall t i, routes st !! t = Some i -> exists w, workers st !! i = Some w /\ w_target w = t;
  inv_ws : Forall (worker_ok ob (client_addr st) (recvd st)) (workers st);
  inv_replies : (length (replies st) <= UDP_REPLY_CHANNEL_CAPACITY)%nat;
  inv_reply_from : Forall (fun r => from_channel ob (r_from r)) (replies st);
  inv_client : forall c, client_addr st = Some c -> sa_ip c = sa_ip peer;
  inv_sent : Forall (fun x => authentic (client_addr st) (recvd st) x.1 x.2) (sent st);
  inv_relayed : Forall (relayed_ok ob (client_addr st)) (relayed st)
}.

Section facts.
Context (ob : Outbound) (peer : SocketAddr).
Abbreviation Inv := (inv ob peer).

Lemma worker_bytes_nonneg w : 0 <= worker_bytes w.
Proof.
  unfold worker_bytes, queue_bytes. pose proof (zsum_nonneg zlen (w_queue w) zlen_nonneg).
  destruct (w_state w) as [|d []|]; simpl; try lia.
  - pose proof (zlen_nonneg payload). lia.
  - pose proof (zlen_nonneg (r_payload r)). lia.
Qed.

Lemma inv_new bf wf : 0 <= bf <= UDP_QUEUE_BYTES -> 0 <= wf <= UDP_WORKERS -> Inv 0 0 (new bf wf).
Proof.
  intros. constructor; simpl; try done; try lia; try (by constructor).
  - unfold held, queue_bytes. simpl. lia.
  - rewrite map_size_empty. apply Nat.le_0_l.
Qed.

Lemma inv_acquire n m k st : Inv n m st -> 0 <= k <= bytes_free st ->
  Inv (n + k) m (set_bytes_free st (bytes_free st - k)).
Proof. intros [] ?. constructor; simpl; try done; try lia. unfold held in *. simpl. lia. Qed.

Lemma inv_release n m k st : 0 <= k -> Inv (n + k) m st -> Inv n m (release k st).
Proof. intros ? []. constructor; simpl; try done; try lia. unfold held in *. simpl. lia. Qed.

Lemma inv_update n m i w w' st :
  Inv n m st -> workers st !! i = Some w -> w_target w' = w_target w ->
  worker_ok ob (client_addr st) (recvd st) w' ->
  Inv (n + worker_bytes w - worker_bytes w') (m + alive w - alive w') (update_worker i w' st).
Proof.
  intros [] Hw Ht Hok. constructor; simpl; try done.
  - unfold held in *. simpl. rewrite (zsum_insert _ _ _ _ _ Hw). lia.
  - rewrite (zsum_insert _ _ _ _ _ Hw). lia.
  - intros t j Hj. destruct (inv_ptr0 t j Hj) as (w0 & Hw0 & <-).
    destruct (decide (i = j)) as [->|].
    + exists w'. rewrite list_lookup_insert_eq by (by eapply lookup_lt_Some). split; [done|]. rewrite Ht.
      rewrite Hw in Hw0. by injection Hw0 as ->.
    + exists w0. by rewrite list_lookup_insert_ne.
  - by apply Forall_insert.
Qed.

Lemma inv_end_worker n m i st : Inv n m st -> Inv n m (end_worker i st).
Proof.
  intros H. unfold end_worker. destruct (workers st !! i) as [w|] eqn:Hw; [|done].
  assert (Hok : worker_ok ob (client_addr st) (recvd st) (mk_worker (w_target w) Ended []))
    by (split_and!; simpl; try done; try constructor; unfold UDP_TARGET_CHANNEL_CAPACITY; lia).
  pose proof (inv_update n m i w (mk_worker (w_target w) Ended []) st H Hw eq_refl Hok) as H1.
  pose proof (worker_bytes_nonneg w).
  assert (Hgo : w_state w <> Ended -> Inv n m
    (set_workers_free (release (worker_bytes w) (update_worker i (mk_worker (w_target w) Ended []) st)) (workers_free st + 1))).
  { intros Hne. assert (Ha : alive w = 1) by (unfold alive; by destruct (w_state w)).
    rewrite Ha in H1. change (worker_bytes (mk_worker _ Ended [])) with 0 in H1.
    change (alive (mk_worker _ Ended [])) with 0 in H1. rewrite Z.sub_0_r in H1.
    apply inv_release in H1; [|done]. destruct H1. constructor; simpl in *; try done; lia. }
  destruct (w_state w); [apply Hgo; done|apply Hgo; done|done].
Qed.

Lemma inv_prune n m st : Inv n m st -> Inv n m (prune st).
Proof.
  intros []. constructor; simpl; try done.
  - etransitivity; [|exact inv_routes0]. apply map_subseteq_size, map_filter_subseteq.
  - intros t i [Hi _]%map_lookup_filter_Some. by apply inv_ptr0.
Qed.

Lemma inv_set_routes n m st r :
  Inv n m st -> (size r <= MAX_UDP_TARGETS_PER_ASSOCIATION)%nat ->
  (forall t i, r !! t = Some i -> exists w, workers st !! i = Some w /\ w_target w = t) ->
  Inv n m (set_routes st r).
Proof. intros [] ? ?. constructor; simpl; try done. Qed.

Lemma alive_01 w : 0 <= alive w <= 1.
Proof. unfold alive. destruct (w_state w); lia. Qed.

(** Queueing a datagram hands its budget to the channel. *)
Lemma inv_try_send i t p st st' w :
  Inv (zlen p) 0 st -> workers st !! i = Some w -> w_target w = t ->
  authentic (client_addr st) (recvd st) t p ->
  try_send i p st = Queued st' -> Inv 0 0 st'.
Proof.
  intros H Hw <- Ha. unfold try_send. rewrite Hw.
  set (w' := mk_worker (w_target w) (w_state w) (w_queue w ++ [p])).
  assert (Hws := inv_ws _ _ _ _ _ H). pose proof (Forall_lookup_1 _ _ _ _ Hws Hw) as (Hq & Hqa & Hst).
  destruct (Nat.ltb_spec (length (w_queue w)) UDP_TARGET_CHANNEL_CAPACITY) as [Hlt|];
    [|by destruct (w_state w)].
  assert (Hgo : w_state w <> Ended -> Inv 0 0 (update_worker i w' st)).
  { intros Hne. pose proof (inv_update (zlen p) 0 i w w' st H Hw eq_refl) as H1.
    assert (Hb : worker_bytes w' = worker_bytes w + zlen p).
    { unfold worker_bytes, queue_bytes, w'. cbn [w_queue w_state]. rewrite zsum_app. cbn [zsum fold_right]. lia. }
    assert (Hal : alive w' = alive w) by done. rewrite Hb, Hal in H1.
    replace (zlen p + worker_bytes w - _) with 0 in H1 by lia. replace (0 + alive w - alive w) with 0 in H1 by lia.
    apply H1. split_and!; simpl.
    - rewrite length_app. simpl. lia.
    - by apply Forall_app; split; [|constructor].
    - by destruct (w_state w). }
  destruct (w_state w) eqn:Hs; intros [= <-]; by apply Hgo.
Qed.

Lemma inv_push_worker t st : forall n, 1 <= workers_free st ->
  Inv n 0 st -> Inv n 0 (set_workers (set_workers_free st (workers_free st - 1)) (workers st ++ [mk_worker t Establishing []])).
Proof.
  intros n Hf []. constructor; simpl; try done; try lia.
  - unfold held in *. simpl. rewrite zsum_app. change (zsum worker_bytes [_]) with 0. lia.
  - rewrite zsum_app. change (zsum alive [_]) with 1. lia.
  - intros t' i Hi. destruct (inv_ptr0 t' i Hi) as (w & Hw & ?). exists w.
    by rewrite lookup_app_l by (by eapply lookup_lt_Some).
  - apply Forall_app; split; [done|]. constructor; [|constructor].
    split_and!; simpl; try done. apply Nat.le_0_l.
Qed.

Lemma end_worker_same i st : client_addr (end_worker i st) = client_addr st
  /\ recvd (end_worker i st) = recvd st /\ routes (end_worker i st) = routes st.
Proof. unfold end_worker. destruct (workers st !! i) as [w|]; [|done]. by destruct (w_state w). Qed.

Lemma end_worker_lookup i st w : workers st !! i = Some w ->
  exists w', workers (end_worker i st) !! i = Some w' /\ w_target w' = w_target w.
Proof.
  intros Hw. unfold end_worker. rewrite Hw. destruct (w_state w) eqn:?; [..|by eauto].
  all: eexists; simpl; rewrite list_lookup_insert_eq by (by eapply lookup_lt_Some); by split.
Qed.

Lemma try_send_routes i p st st' : try_send i p st = Queued st' ->
  routes st' = routes st /\ workers st' !! i = (fun w => mk_worker (w_target w) (w_state w) (w_queue w ++ [p])) <$> (workers st !! i).
Proof.
  unfold try_send. destruct (workers st !! i) as [w|] eqn:Hw; [|done].
  destruct (w_state w) eqn:Hs, (length (w_queue w) <? UDP_TARGET_CHANNEL_CAPACITY)%nat; try done.
  all: intros [= <-]; simpl; rewrite list_lookup_insert_eq by (by eapply lookup_lt_Some); by rewrite Hs.
Qed.

Lemma try_send_ptr i p st st' t j : try_send i p st = Queued st' ->
  (exists w, workers st !! j = Some w /\ w_target w = t) -> exists w, workers st' !! j = Some w /\ w_target w = t.
Proof.
  intros H (w & Hw & <-). destruct (try_send_routes _ _ _ _ H) as [_ Hi].
  destruct (decide (i = j)) as [->|Hne]; [rewrite Hi, Hw; simpl; eauto|].
  unfold try_send in H. destruct (workers st !! i) as [w0|]; [|done].
  destruct (w_state w0), (length (w_queue w0) <? UDP_TARGET_CHANNEL_CAPACITY)%nat; try done.
  all: injection H as <-; simpl; rewrite list_lookup_insert_ne by done; eauto.
Qed.

Lemma inv_spawn t p early st :
  Inv (zlen p) 0 st -> authentic (client_addr st) (recvd st) t p -> Inv 0 0 (spawn_target t p early st).
Proof.
  intros H Ha. unfold spawn_target. pose proof (zlen_nonneg p).
  destruct (Nat.leb_spec MAX_UDP_TARGETS_PER_ASSOCIATION (size (routes st))) as [|Hsz]; [by apply inv_release|].
  destruct (Z.ltb_spec (workers_free st) 1) as [|Hf]; [by apply inv_release|]. cbn zeta.
  pose proof (inv_push_worker t st (zlen p) Hf H) as H1.
  set (st1 := set_workers _ _) in *. set (i := length (workers st)) in *.
  assert (Hw1 : workers st1 !! i = Some (mk_worker t Establishing [])).
  { subst st1 i. simpl. rewrite lookup_app_r, Nat.sub_diag by lia. done. }
  set (st2 := if early then end_worker i st1 else st1).
  assert (H2 : Inv (zlen p) 0 st2) by (subst st2; destruct early; [by apply inv_end_worker|done]).
  assert (Hsame : client_addr st2 = client_addr st /\ recvd st2 = recvd st /\ routes st2 = routes st).
  { subst st2. destruct early; [|done]. destruct (end_worker_same i st1) as (-> & -> & ->). done. }
  destruct Hsame as (Hc & Hr & Hrt).
  assert (Hw2 : exists w, workers st2 !! i = Some w /\ w_target w = t).
  { subst st2. destruct early; [|eauto]. destruct (end_worker_lookup i st1 _ Hw1) as (w' & ? & ?). eauto. }
  destruct (try_send i p st2) as [st'| |] eqn:Hs; [|by apply inv_release..].
  destruct (try_send_routes _ _ _ _ Hs) as [Hroutes _]. destruct Hw2 as (w & Hw & Ht).
  assert (H3 : Inv 0 0 st') by (eapply inv_try_send; eauto; by rewrite Hc, Hr).
  apply inv_set_routes; [done| |].
  - rewrite Hroutes, Hrt, map_size_insert. destruct (routes st !! t); simpl; lia.
  - intros t' j. destruct (decide (t = t')) as [<-|]; [rewrite lookup_insert_eq|rewrite lookup_insert_ne by done].
    + intros [= <-]. eapply try_send_ptr; eauto.
    + apply (inv_ptr _ _ _ _ _ H3).
Qed.

Lemma inv_send t p late early st :
  Inv 0 0 st -> authentic (client_addr st) (recvd st) t p -> Inv 0 0 (send t p late early st).
Proof.
  intros H Ha. unfold send. cbn zeta. apply inv_prune in H. unfold try_acquire_many.
  change (client_addr st) with (client_addr (prune st)) in Ha. change (recvd st) with (recvd (prune st)) in Ha.
  set (st0 := prune st) in *. clearbody st0. pose proof (zlen_nonneg p).
  destruct (Z.leb_spec (zlen p) (bytes_free st0)) as [Hle|]; [|done].
  apply (inv_acquire 0 0 (zlen p)) in H; [|done]. rewrite Z.add_0_l in H.
  set (st1 := set_bytes_free _ _) in *.
  change (client_addr st0) with (client_addr st1) in Ha. change (recvd st0) with (recvd st1) in Ha. clearbody st1.
  destruct (routes st1 !! t) as [i|] eqn:Hi; [|by apply inv_spawn].
  destruct (inv_ptr _ _ _ _ _ H t i Hi) as (w & Hw & Ht).
  set (st2 := if late then end_worker i st1 else st1).
  assert (H2 : Inv (zlen p) 0 st2) by (subst st2; destruct late; [by apply inv_end_worker|done]).
  assert (Hsame : client_addr st2 = client_addr st1 /\ recvd st2 = recvd st1 /\ routes st2 = routes st1).
  { subst st2. destruct late; [apply end_worker_same|done]. }
  destruct Hsame as (Hc & Hr & Hrt). rewrite <-Hc, <-Hr in Ha.
  destruct (try_send i p st2) as [st'| |] eqn:Hs.
  - assert (Hw2 : exists w, workers st2 !! i = Some w /\ w_target w = t).
    { subst st2. destruct late; [|eauto]. destruct (end_worker_lookup i st1 _ Hw) as (w' & ? & ?). subst. eauto. }
    destruct Hw2 as (w2 & Hw2 & Ht2). eapply inv_try_send; eauto.
  - by apply inv_release.
  - apply inv_spawn; [|done]. apply inv_set_routes; [done| |].
    + pose proof (inv_routes _ _ _ _ _ H2). rewrite map_size_delete. destruct (routes st2 !! t); simpl; lia.
    + intros t' j [_ Hj]%lookup_delete_Some. by apply (inv_ptr _ _ _ _ _ H2).
Qed.

(** The history grows and the client is learned once: nothing becomes unauthentic. *)
Lemma authentic_mono c c' rc rc' t p :
  (c = None \/ c' = c) -> (forall x, x ∈ rc -> x ∈ rc') -> authentic c rc t p -> authentic c' rc' t p.
Proof.
  intros Hc Hr (from & buf & pos & -> & ? & ? & ?). destruct Hc as [| ->]; [done|].
  exists from, buf, pos. auto.
Qed.

Lemma worker_ok_mono c c' rc rc' w :
  (c = None \/ c' = c) -> (forall x, x ∈ rc -> x ∈ rc') -> worker_ok ob c rc w -> worker_ok ob c' rc' w.
Proof.
  intros Hc Hr (Hq & Ha & Hs). split_and!; [done| |].
  - eapply Forall_impl; [exact Ha|]. intros p. by apply authentic_mono.
  - destruct (w_state w) as [|d []|]; try done. destruct Hs as [? Hs]. split; [done|]. by eapply authentic_mono.
Qed.

Lemma inv_learn n m st c x :
  Inv n m st -> (client_addr st = None \/ client_addr st = Some c) -> sa_ip c = sa_ip peer ->
  Inv n m (set_client (log_recvd st x) (Some c)).
Proof.
  intros [] Hc Hip.
  assert (Hc' : client_addr st = None \/ Some c = client_addr st) by (destruct Hc; auto).
  assert (Hr : forall y, y ∈ recvd st -> y ∈ recvd st ++ [x]) by set_solver.
  constructor; simpl; try done.
  - eapply Forall_impl; [exact inv_ws0|]. intros w. by apply worker_ok_mono.
  - by intros ? [= <-].
  - eapply Forall_impl; [exact inv_sent0|]. intros y. by apply authentic_mono.
  - eapply Forall_impl; [exact inv_relayed0|]. intros y [Hy ?]. split; [|done]. destruct Hc'; congruence.
Qed.

Lemma inv_log_recvd n m st x : Inv n m st -> Inv n m (log_recvd st x).
Proof.
  intros []. assert (Hr : forall y, y ∈ recvd st -> y ∈ recvd st ++ [x]) by set_solver.
  constructor; simpl; try done.
  - eapply Forall_impl; [exact inv_ws0|]. intros w. apply worker_ok_mono; auto.
  - eapply Forall_impl; [exact inv_sent0|]. intros y. apply authentic_mono; auto.
Qed.

Lemma inv_relay_recv from dgram late early st :
  Inv 0 0 st -> Inv 0 0 (relay_recv peer from dgram late early st).
Proof.
  intros H. pose proof (inv_log_recvd _ _ _ (from, dgram) H) as H1.
  unfold relay_recv. cbn zeta.
  destruct (udp_source_allowed _ _ _) eqn:Hsrc; cbn [negb]; [|done].
  case_bool_decide as Hfirst; [done|].
  destruct (decode_udp_header dgram) as [[t pos]| |] eqn:Hd; [|done..].
  unfold udp_source_allowed in Hsrc. cbn [client_addr log_recvd] in *.
  apply andb_true_iff in Hsrc as [Hip%bool_decide_eq_true Hl].
  assert (Hc : client_addr st = None \/ client_addr st = Some from).
  { destruct (client_addr st) as [l|]; [|auto]. apply bool_decide_eq_true in Hl. subst. auto. }
  assert (Hdef : default from (client_addr st) = from) by (destruct Hc as [->| ->]; done).
  rewrite Hdef. apply inv_send; [by apply inv_learn|].
  exists from, dgram, pos. simpl. split_and!; try done. set_solver.
Qed.

Lemma inv_reply_recv st : Inv 0 0 st -> Inv 0 0 (reply_recv st).
Proof.
  intros H. unfold reply_recv. destruct (replies st) as [|r rest] eqn:Hr; [done|]. cbn zeta.
  apply inv_release; [apply zlen_nonneg|]. destruct H. unfold held in *. rewrite Hr in *.
  apply Forall_cons in inv_reply_from0 as [Hf Hrest].
  destruct (client_addr st) as [c|] eqn:Hc; cbn [client_addr set_replies]; rewrite ?Hc.
  all: constructor; simpl; try done; rewrite ?Hc; try done.
  all: try (unfold held, queue_bytes in *; simpl in *; lia).
  all: try (simpl in *; lia).
  apply Forall_app; split; [done|]. constructor; [|constructor]. split; [done|].
  exists (r_from r), (r_payload r). auto.
Qed.

Lemma inv_log_sent n m st t p :
  Inv n m st -> authentic (client_addr st) (recvd st) t p -> Inv n m (log_sent st (t, p)).
Proof. intros [] Ha. constructor; simpl; try done. apply Forall_app; split; [done|]. by constructor. Qed.

(** A live worker changes its operation or queue; [n'] bytes are in hand afterwards. *)
Lemma inv_rework n n' m i w w' st :
  Inv n m st -> workers st !! i = Some w -> w_target w' = w_target w ->
  worker_ok ob (client_addr st) (recvd st) w' -> alive w' = alive w ->
  n' = n + worker_bytes w - worker_bytes w' -> Inv n' m (update_worker i w' st).
Proof.
  intros H Hw Ht Hok Ha ->. pose proof (inv_update _ _ _ _ _ _ H Hw Ht Hok) as H1.
  rewrite Ha in H1. by replace (m + alive w - alive w) with m in H1 by lia.
Qed.

Lemma inv_push_reply n m st r : Inv (n + zlen (r_payload r)) m st ->
  (length (replies st) < UDP_REPLY_CHANNEL_CAPACITY)%nat -> from_channel ob (r_from r) ->
  Inv n m (set_replies st (replies st ++ [r])).
Proof.
  intros [] Hl Hf. constructor; simpl; try done.
  - unfold held, queue_bytes in *. simpl. rewrite map_app, zsum_app. simpl. lia.
  - rewrite length_app. simpl. lia.
  - apply Forall_app; split; [done|]. by constructor.
Qed.

Lemma inv_worker_step i ev st : Inv 0 0 st -> Inv 0 0 (worker_step ob i ev st).
Proof.
  intros H. unfold worker_step. destruct (workers st !! i) as [w|] eqn:Hw; [|done].
  pose proof (Forall_lookup_1 _ _ _ _ (inv_ws _ _ _ _ _ H) Hw) as Hok.
  destruct w as [t s q]; unfold worker_ok in Hok; cbn [w_target w_state w_queue] in *; destruct Hok as (Hq & Hqa & Hst).
  destruct ev, s as [|d [|p|r]|]; try done; try (by apply inv_end_worker); try (by destruct ok).
  - destruct (establish_egress ob t) as [[d|]|e|] eqn:He; try (by apply inv_end_worker).
    eapply inv_rework; eauto; [split_and!; try done|unfold worker_bytes; simpl; lia].
  - destruct q as [|p q]; [done|]. apply Forall_cons in Hqa as [Hp Hqa]. destruct Hst as [He _].
    eapply inv_rework; eauto; [split_and!; try done; simpl in *; lia|].
    unfold worker_bytes, queue_bytes. simpl. lia.
  - destruct ok; [|by apply inv_end_worker]. destruct Hst as [He Hp]. apply inv_release; [apply zlen_nonneg|].
    eapply (inv_rework 0); [by apply inv_log_sent|exact Hw|done|by split_and!|done|].
    unfold worker_bytes. simpl. lia.
  - cbn zeta. unfold try_acquire_many. set (pl := take (Z.to_nat RECV_BUF) dgram).
    destruct (Z.leb_spec (zlen pl) (bytes_free st)); [|done]. destruct Hst as [He _].
    eapply (inv_rework (0 + zlen pl)); [apply inv_acquire; [done|split; [apply zlen_nonneg|done]]|exact Hw|done|by split_and!|done|].
    unfold worker_bytes. simpl. lia.
  - destruct (Nat.ltb_spec (length (replies st)) UDP_REPLY_CHANNEL_CAPACITY); [|done]. destruct Hst as [He Hr].
    apply (inv_push_reply 0 0 (update_worker i (mk_worker t (Active d Waiting) q) st)); [|done|by exists t, d].
    eapply inv_rework; [exact H|exact Hw|done|by split_and!|done|]. unfold worker_bytes. simpl. lia.
Qed.

Lemma inv_step ev st st' : Inv 0 0 st -> step ob peer ev st = Running st' -> Inv 0 0 st'.
Proof.
  intros H. destruct ev; simpl; try done; try (intros [= <-]; by apply inv_worker_step).
  - by intros [= <-].
  - intros [= <-]. by apply inv_relay_recv.
  - intros [= <-]. by apply inv_reply_recv.
  - destruct (_ && _) eqn:Hb; intros [= <-]; [|done]. zbool. destruct H. constructor; simpl; try done; try lia.
    unfold held in *. simpl. lia.
Qed.

(** *** Teardown *)
Lemma end_all_inv l st : Inv 0 0 st -> Inv 0 0 (fold_left (fun st i => end_worker i st) l st).
Proof. revert st. induction l as [|i l IH]; intros st H; simpl; [done|]. by apply IH, inv_end_worker. Qed.

Lemma end_worker_frame i st : replies (end_worker i st) = replies st
  /\ length (workers (end_worker i st)) = length (workers st)
  /\ other_bytes (end_worker i st) = other_bytes st /\ other_workers (end_worker i st) = other_workers st
  /\ (forall j w, workers st !! j = Some w -> w_state w = Ended -> workers (end_worker i st) !! j = Some w)
  /\ (forall w, workers (end_worker i st) !! i = Some w -> w_state w = Ended).
Proof.
  unfold end_worker. destruct (workers st !! i) as [w|] eqn:Hw; [|split_and!; try done; congruence].
  destruct (w_state w) eqn:Hs; [..|split_and!; try done; congruence].
  all: simpl; split_and!; try done; [by rewrite length_insert| |].
  all: try (intros j w' Hj He; destruct (decide (i = j)) as [<-|]; [congruence|by rewrite list_lookup_insert_ne]).
  all: intros w'; rewrite list_lookup_insert_eq by (by eapply lookup_lt_Some); by intros [= <-].
Qed.

Lemma end_all_frame l st :
  let st' := fold_left (fun st i => end_worker i st) l st in
  replies st' = replies st /\ length (workers st') = length (workers st)
  /\ other_bytes st' = other_bytes st /\ other_workers st' = other_workers st
  /\ (forall j w, workers st !! j = Some w -> w_state w = Ended -> workers st' !! j = Some w)
  /\ (forall i w, i ∈ l -> workers st' !! i = Some w -> w_state w = Ended).
Proof.
  revert st. induction l as [|i l IH]; intros st; simpl; [split_and!; try done; set_solver|].
  destruct (end_worker_frame i st) as (Hr & Hl & Hb & Hw & He & Hi).
  destruct (IH (end_worker i st)) as (IHr & IHl & IHb & IHw & IHe & IHi). split_and!; try congruence.
  - intros j w Hj Hs. by apply IHe; [apply He|].
  - intros j w [->|Hj]%elem_of_cons Hlk; [|by eapply IHi].
    destruct (workers (end_worker i st) !! i) as [w0|] eqn:Hw0.
    + pose proof (Hi _ eq_refl) as Hs0. rewrite (IHe _ _ Hw0 Hs0) in Hlk. by injection Hlk as <-.
    + apply lookup_ge_None in Hw0. apply lookup_lt_Some in Hlk. lia.
Qed.

Lemma ended_zero ws c rc : Forall (worker_ok ob c rc) ws -> (forall i w, ws !! i = Some w -> w_state w = Ended) ->
  zsum worker_bytes ws = 0 /\ zsum alive ws = 0.
Proof.
  intros Hok He. assert (Hf : Forall (fun w => worker_bytes w = 0 /\ alive w = 0) ws).
  { apply Forall_lookup. intros i w Hw. pose proof (Forall_lookup_1 _ _ _ _ Hok Hw) as (_ & _ & Hs).
    unfold worker_bytes, alive. rewrite (He _ _ Hw) in *. by rewrite Hs. }
  clear -Hf. induction Hf as [|w ws [H1 H2] _ IH]; simpl; [done|]. lia.
Qed.

Lemma teardown_returns st : Inv 0 0 st ->
  bytes_free (teardown st) = UDP_QUEUE_BYTES - other_bytes st
  /\ workers_free (teardown st) = UDP_WORKERS - other_workers st.
Proof.
  intros H. unfold teardown. cbn zeta.
  pose proof (end_all_inv (seq 0 (length (workers st))) st H) as H1.
  destruct (end_all_frame (seq 0 (length (workers st))) st) as (Hr & Hl & Hb & Hw & _ & Hi).
  set (st1 := fold_left _ _ _) in *. clearbody st1.
  destruct (ended_zero (workers st1) _ _ (inv_ws _ _ _ _ _ H1)) as [Z1 Z2].
  { intros i w Hlk. eapply Hi; [|done]. apply elem_of_seq. apply lookup_lt_Some in Hlk. lia. }
  pose proof (inv_bytes _ _ _ _ _ H1). pose proof (inv_workers _ _ _ _ _ H1). unfold held in *. simpl. lia.
Qed.

Lemma inv_run evs st st' : Inv 0 0 st -> run ob peer evs st = Running st' -> Inv 0 0 st'.
Proof.
  revert st. induction evs as [|ev evs IH]; intros st H; simpl; [by intros [= <-]|].
  destruct (step ob peer ev st) as [st1|r st1] eqn:Hs; [|done]. eapply IH, inv_step; eauto.
Qed.
End facts.

(** *** What an association guarantees *)

(** C10. Resource bounds of a UDP association, after any interleaving of client
    datagrams, worker steps and other associations' use of the semaphores: at
    most 64 routes, at most 32 datagrams queued per target and 64 replies, and
    every queued byte and every running worker is paid for by a permit, so the
    process-wide limits of 8 MiB and 128 workers hold exactly (no permit is
    lost or duplicated). *)
Theorem assoc_bounded ob peer bf wf evs st :
  0 <= bf <= UDP_QUEUE_BYTES -> 0 <= wf <= UDP_WORKERS ->
  run ob peer evs (new bf wf) = Running st ->
  (size (routes st) <= 64)%nat
  /\ Forall (fun w => length (w_queue w) <= 32)%nat (workers st)
  /\ (length (replies st) <= 64)%nat
  /\ 0 <= bytes_free st /\ 0 <= workers_free st
  /\ bytes_free st + held st + other_bytes st = 8 * 1024 * 1024
  /\ workers_free st + zsum alive (workers st) + other_workers st = 128.
Proof.
  intros Hb Hw Hr. pose proof (inv_run ob peer _ _ _ (inv_new ob peer bf wf Hb Hw) Hr) as [].
  unfold UDP_QUEUE_BYTES, UDP_WORKERS in *. split_and!; try done; try lia.
  eapply Forall_impl; [exact inv_ws0|]. by intros w [? _].
Qed.

(** A client that sends one datagram, gets one reply. *)
Definition demo_outbound : Outbound :=
  mk_outbound [] true (fun _ _ => Fail NotConnected) (fun _ _ => Ret (mk_datagram 1 (SockV4 [9; 9; 9; 9] 53))).
Definition demo_peer : SocketAddr := SockV4 [10; 0; 0; 2] 4000.
Definition demo_dgram : bytes := [0; 0; 0; 1; 9; 9; 9; 9; 0; 53; 7; 7].
Definition demo_events : list event :=
  [RelayRecv (SockV4 [10; 0; 0; 2] 5000) demo_dgram false false; WEstablish 0; WTake 0; WSent 0 true;
   RelayRecv (SockV4 [10; 0; 0; 3] 5000) demo_dgram false false; WRecv 0 [8]; WDeliver 0; ReplyRecv].
Definition demo_state (r : outcome) : state :=
  match r with Running st => st | Returned _ st => st end.

Lemma assoc_bounded_witness :
  let st := demo_state (run demo_outbound demo_peer demo_events (new 100 2)) in
  bytes_free st + held st + other_bytes st = 8 * 1024 * 1024.
Proof.
  intros st. refine (proj1 (proj2 (proj2 (proj2 (proj2 (proj2
    (assoc_bounded demo_outbound demo_peer 100 2 demo_events st _ _ _))))))).
  - split; vm_compute; discriminate.
  - split; vm_compute; discriminate.
  - vm_compute. reflexivity.
Defined.

(** C1. A UDP association serves one client only: every datagram that enters the
    tunnel is, byte for byte, the payload of a datagram the learned client
    address sent for that very target; the learned address has the control
    connection's IP; every datagram delivered to a client goes to that address
    and starts with the header of a peer reached through the outlet. *)
Theorem assoc_isolated ob peer bf wf evs st :
  0 <= bf <= UDP_QUEUE_BYTES -> 0 <= wf <= UDP_WORKERS ->
  run ob peer evs (new bf wf) = Running st ->
  (forall c, client_addr st = Some c -> sa_ip c = sa_ip peer)
  /\ Forall (fun x => authentic (client_addr st) (recvd st) x.1 x.2) (sent st)
  /\ Forall (relayed_ok ob (client_addr st)) (relayed st).
Proof. intros Hb Hw Hr. by destruct (inv_run ob peer _ _ _ (inv_new ob peer bf wf Hb Hw) Hr). Qed.

Lemma assoc_isolated_witness :
  let st := demo_state (run demo_outbound demo_peer demo_events (new 100 2)) in
  sent st = [(Addr (SockV4 [9; 9; 9; 9] 53), [7; 7])]
  /\ relayed st = [(SockV4 [10; 0; 0; 2] 5000, [0; 0; 0; 1; 9; 9; 9; 9; 0; 53; 8])]
  /\ sa_ip (SockV4 [10; 0; 0; 2] 5000) = sa_ip demo_peer.
Proof.
  intros st. split; [vm_compute; reflexivity|]. split; [vm_compute; reflexivity|].
  apply (proj1 (assoc_isolated demo_outbound demo_peer 100 2 demo_events st
    ltac:(split; vm_compute; discriminate) ltac:(split; vm_compute; discriminate) ltac:(vm_compute; reflexivity))).
  vm_compute. reflexivity.
Defined.

Lemma teardown_other st : other_bytes (teardown st) = other_bytes st /\ other_workers (teardown st) = other_workers st.
Proof.
  unfold teardown. cbn zeta. simpl.
  by destruct (end_all_frame (seq 0 (length (workers st))) st) as (_ & _ & -> & -> & _).
Qed.

Lemma run_returned ob peer evs st r st' : inv ob peer 0 0 st -> run ob peer evs st = Returned r st' ->
  exists st0, inv ob peer 0 0 st0 /\ st' = teardown st0.
Proof.
  revert st. induction evs as [|ev evs IH]; intros st H; simpl; [done|].
  destruct (step ob peer ev st) as [st1|r1 st1] eqn:Hs.
  - intros Hr. by eapply IH; [eapply inv_step|].
  - intros [= <- <-]. exists st. split; [done|]. destruct ev; simpl in Hs; repeat case_match; simplify_eq; done.
Qed.

(** Closing the control connection (or a broken relay socket) ends a UDP
    association and gives back everything it held: afterwards all byte and
    worker permits not held by other associations are free. *)
Theorem assoc_releases ob peer bf wf evs r st :
  0 <= bf <= UDP_QUEUE_BYTES -> 0 <= wf <= UDP_WORKERS ->
  run ob peer evs (new bf wf) = Returned r st ->
  bytes_free st = UDP_QUEUE_BYTES - other_bytes st /\ workers_free st = UDP_WORKERS - other_workers st.
Proof.
  intros Hb Hw Hr. destruct (run_returned _ _ _ _ _ _ (inv_new ob peer bf wf Hb Hw) Hr) as (st0 & H0 & ->).
  destruct (teardown_other st0) as [-> ->]. by apply (teardown_returns ob peer).
Qed.

Lemma assoc_releases_witness :
  let st := demo_state (run demo_outbound demo_peer
    [RelayRecv (SockV4 [10; 0; 0; 2] 5000) demo_dgram false false; CtrlEnd] (new 100 2)) in
  bytes_free st = UDP_QUEUE_BYTES - other_bytes st.
Proof.
  intros st. refine (proj1 (assoc_releases demo_outbound demo_peer 100 2
    [RelayRecv (SockV4 [10; 0; 0; 2] 5000) demo_dgram false false; CtrlEnd] (inr tt) st _ _ _)).
  - split; vm_compute; discriminate.
  - split; vm_compute; discriminate.
  - vm_compute. reflexivity.
Defined.
End AssocFacts.
