(* ===== verification/Socks4.v ===== *)
(** * The SOCKS4/SOCKS4a server ([src/src/socks4.rs]) *)
From S2P Require Import Prelude RustStr NetAddr Conn Outbound Socks5.

Module Socks4.
Definition CMD_CONNECT : Z := 1.
Definition GRANTED : Z := 90.
Definition REJECTED : Z := 91.
Definition SOCKS4A_SENTINEL : bytes := [0; 0; 0; 1].
Definition MAX_USERID_LEN : Z := 1024.
Definition MAX_DOMAIN_LEN : Z := 253.

(** [read_cstring]: the loop on the bytes that are there; each turn reads one. *)
Fixpoint read_cstring_go (max_len : Z) (buf : bytes) (input : bytes) (c : conn) : out proxy_error bytes * conn :=
  match input with
  | [] => starved (feed c [])
  | x :: rest =>
      if x =? 0 then (Ret (from_utf8_lossy buf), feed c rest)
      else if zlen buf =? max_len then (Fail (EStringTooLong max_len), feed c rest)
      else read_cstring_go max_len (buf ++ [x]) rest c
  end.
Definition read_cstring (max_len : Z) : io proxy_error bytes := fun c => read_cstring_go max_len [] (c_in c) c.

Definition reply_bytes (code : Z) : bytes := [0; code; 0; 0; 0; 0; 0; 0].
Definition reply (code : Z) : io proxy_error unit := write_all (reply_bytes code).

(** The handshake, everything before the deadline in [handle_client]. *)
Definition read_request : io proxy_error (Host * Z * bytes) :=
  _ ← read_u8;
  cmd ← read_u8;
  if negb (cmd =? CMD_CONNECT) then _ ← ignore (reply REJECTED); throw (ECommand cmd)
  else
  port_buf ← read_exact 2;
  let port := be_val port_buf in
  ip_buf ← read_exact 4;
  _ ← read_cstring MAX_USERID_LEN;
  if bytes_eqb ip_buf SOCKS4A_SENTINEL then
    name ← read_cstring MAX_DOMAIN_LEN;
    mret (host_parse name, port, Socks5.show_target name port)
  else
    mret (Ip (V4 ip_buf), port, Socks5.show_target (fmt_ip (V4 ip_buf)) port).

Definition handle_client (outbound : Outbound) : io proxy_error unit :=
  '(host, port, target_display) ← timeout_at EHandshakeTimeout read_request;
  match relay_connect outbound host port with
  | Hang => lift_out Hang
  | Fail k => _ ← ignore (reply REJECTED); throw (EConnect k)
  | Ret conn => _ ← reply GRANTED; Relay.tunnel_tcp conn
  end.

(** ** Facts *)
Lemma read_cstring_go_ok max buf s rest c :
  Forall (fun x => x <> 0) s -> zlen buf + zlen s <= max ->
  read_cstring_go max buf (s ++ 0 :: rest) c = (Ret (from_utf8_lossy (buf ++ s)), feed c rest).
Proof.
  intros Hs. revert buf. induction Hs as [|x s Hx Hs IH]; intros buf Hl; cbn [app read_cstring_go].
  - by rewrite app_nil_r.
  - rewrite zlen_cons in Hl. pose proof (zlen_nonneg s). do 2 zfalse.
    rewrite IH by (rewrite zlen_app; change (zlen [x]) with 1; lia). by rewrite <-app_assoc.
Qed.

Lemma read_cstring_ok max s rest c : Forall (fun x => x <> 0) s -> zlen s <= max ->
  read_cstring max (feed c (s ++ 0 :: rest)) = (Ret (from_utf8_lossy s), feed c rest).
Proof. intros. exact (read_cstring_go_ok max [] s rest (feed c (s ++ 0 :: rest)) ltac:(done) ltac:(done)). Qed.

Lemma read_cstring_go_long max buf s rest c :
  Forall (fun x => x <> 0) s -> zlen buf <= max < zlen buf + zlen s ->
  read_cstring_go max buf (s ++ rest) c
  = (Fail (EStringTooLong max), feed c (drop (Z.to_nat (max - zlen buf + 1)) s ++ rest)).
Proof.
  intros Hs. revert buf. induction Hs as [|x s Hx Hs IH]; intros buf Hl; cbn [app read_cstring_go].
  - change (zlen (@nil Z)) with 0 in Hl. lia.
  - rewrite zlen_cons in Hl. zfalse. destruct (Z.eqb_spec (zlen buf) max) as [He|He].
    + by replace (Z.to_nat (max - zlen buf + 1)) with 1%nat by lia.
    + rewrite IH by (rewrite zlen_app; change (zlen [x]) with 1; lia).
      rewrite zlen_app. change (zlen [x]) with 1.
      by replace (Z.to_nat (max - zlen buf + 1)) with (S (Z.to_nat (max - (zlen buf + 1) + 1))) by lia.
Qed.

(** A request on the wire: version, command, port, address, user id, and for
    SOCKS4a the domain. *)
Definition request (cmd port : Z) (ip user : bytes) (domain : option bytes) : bytes :=
  [4; cmd] ++ to_be 2 port ++ ip ++ user ++ [0] ++ match domain with Some d => d ++ [0] | None => [] end.

Definition cstring (max : Z) (s : bytes) : Prop := Forall (fun x => x <> 0) s /\ zlen s <= max.

Lemma read_head cmd port ip rest c :
  u16 port -> zlen ip = 4 ->
  read_request (feed c ([4; cmd] ++ to_be 2 port ++ ip ++ rest))
  = (if negb (cmd =? CMD_CONNECT) then (_ ← ignore (reply REJECTED); throw (ECommand cmd)) (feed c (to_be 2 port ++ ip ++ rest))
     else (_ ← read_cstring MAX_USERID_LEN;
           if bytes_eqb ip SOCKS4A_SENTINEL then
             name ← read_cstring MAX_DOMAIN_LEN; mret (host_parse name, port, Socks5.show_target name port)
           else mret (Ip (V4 ip), port, Socks5.show_target (fmt_ip (V4 ip)) port)) (feed c rest)).
Proof.
  intros Hp Hi. unfold read_request. cbn [app].
  rewrite (io_bind_ret _ _ _ _ _ (read_u8_feed 4 _ c)).
  rewrite (io_bind_ret _ _ _ _ _ (read_u8_feed cmd _ c)).
  destruct (negb (cmd =? CMD_CONNECT)); [done|].
  rewrite (io_bind_ret _ _ _ _ _ (read_exact_feed 2 (to_be 2 port) _ c ltac:(by rewrite to_be_zlen))).
  cbn zeta. rewrite Socks5Facts.be_val_2 by done.
  by rewrite (io_bind_ret _ _ _ _ _ (read_exact_feed 4 ip _ c ltac:(by rewrite Hi))).
Qed.

(** SOCKS4 and SOCKS4a requests: a CONNECT with a user id of at most 1024 bytes
    yields the IPv4 target, or with the 0.0.0.1 sentinel the host named by the
    following string of at most 253 bytes; the bytes after it stay unread.  Any
    other command is answered with "rejected". *)
Theorem read_request_spec c port ip user rest cmd : c_writes c = None ->
  u16 port -> zlen ip = 4 -> cstring MAX_USERID_LEN user ->
  (ip <> SOCKS4A_SENTINEL ->
     read_request (feed c (request CMD_CONNECT port ip user None ++ rest))
     = (Ret (Ip (V4 ip), port, Socks5.show_target (fmt_ip (V4 ip)) port), feed c rest))
  /\ (forall d, cstring MAX_DOMAIN_LEN d -> utf8_valid d = true -> ip = SOCKS4A_SENTINEL ->
     read_request (feed c (request CMD_CONNECT port ip user (Some d) ++ rest))
     = (Ret (host_parse d, port, Socks5.show_target d port), feed c rest))
  /\ (cmd <> CMD_CONNECT -> forall d,
     exists i, read_request (feed c (request cmd port ip user d ++ rest))
     = (Fail (ECommand cmd), writes (feed c i) (reply_bytes REJECTED))).
Proof.
  intros Hw Hp Hi [Hu Hul]. unfold request. split_and!.
  - intros Hne. rewrite <-!app_assoc, read_head by done. cbn [Z.eqb negb CMD_CONNECT Pos.eqb app].
    erewrite (io_bind_ret _ _ _ (from_utf8_lossy user) (feed c rest)).
    + unfold bytes_eqb. by rewrite bool_decide_eq_false_2.
    + by apply read_cstring_ok.
  - intros d [Hd Hdl] Hv ->. rewrite <-!app_assoc, read_head by done. cbn [Z.eqb negb CMD_CONNECT Pos.eqb app].
    erewrite (io_bind_ret _ _ _ (from_utf8_lossy user) (feed c (d ++ 0 :: rest))).
    + unfold bytes_eqb. rewrite bool_decide_eq_true_2 by done.
      erewrite (io_bind_ret _ _ _ (from_utf8_lossy d) (feed c rest)).
      * by rewrite from_utf8_lossy_valid.
      * by apply read_cstring_ok.
    + by apply read_cstring_ok.
  - intros Hc d. rewrite <-!app_assoc, read_head by done. rewrite (proj2 (Z.eqb_neq _ _) Hc). cbn [negb].
    eexists. unfold ignore, mbind, io_bind, reply. rewrite write_all_writable by done. done.
Qed.

Lemma read_request_spec_witness :
  read_request (fresh ([4; 1; 0; 80] ++ [0; 0; 0; 1] ++ [117; 0] ++ [97; 46; 98; 0] ++ [9]) Silent idle)
  = (Ret (Domain [97; 46; 98], 80, [97; 46; 98; 58; 56; 48]), fresh [9] Silent idle).
Proof.
  refine (proj1 (proj2 (read_request_spec (fresh [] Silent idle) 80 [0; 0; 0; 1] [117] [9] 2 _ _ _ _)) [97; 46; 98] _ _ _).
  all: try reflexivity.
  - split; vm_compute; discriminate.
  - split; [repeat (constructor; [lia|]); constructor|vm_compute; discriminate].
  - split; [repeat (constructor; [lia|]); constructor|vm_compute; discriminate].
Defined.

(** An unterminated user id or domain cannot grow without bound: after
    [max + 1] bytes without a terminator the string is refused, whatever the
    peer sends next. *)
Theorem cstring_bounded max s rest c : 0 <= max -> Forall (fun x => x <> 0) s -> max < zlen s ->
  read_cstring max (feed c (s ++ rest))
  = (Fail (EStringTooLong max), feed c (drop (Z.to_nat (max + 1)) s ++ rest)).
Proof.
  intros Hm Hs Hl. unfold read_cstring. rewrite feed_in.
  rewrite (read_cstring_go_long max [] s rest) by (try done; change (zlen (@nil Z)) with 0; lia).
  change (zlen (@nil Z)) with 0. by rewrite Z.sub_0_r.
Qed.

Lemma cstring_bounded_witness :
  read_cstring 2 (feed (fresh [] Silent idle) ([5; 6; 7; 8] ++ [0]))
  = (Fail (EStringTooLong 2), feed (fresh [] Silent idle) [8; 0]).
Proof.
  apply (cstring_bounded 2 [5; 6; 7; 8] [0] (fresh [] Silent idle)); [lia| |vm_compute; reflexivity].
  repeat (constructor; [lia|]). constructor.
Defined.
End Socks4.
