(* ===== verification/HttpProxy.v ===== *)
(** * The HTTP/1 forward proxy ([src/src/http_proxy.rs])

    Target selection, hop-by-hop header removal and the forwarding decision of one
    request.  The [http] crate's [Authority] and [Uri] parsers and hyper's
    connections are parameters: an authority is whatever that crate parsed, and
    the upstream is a function from the request sent to the response received. *)
From S2P Require Import Prelude RustStr NetAddr Conn Outbound.

Module HttpProxy.

(** [HeaderMap]: names are lower case; several fields may share a name. *)
Abbreviation header_map := (list (bytes * bytes)).

Definition get (name : bytes) (hs : header_map) : option bytes :=
  snd <$> List.find (fun h => bytes_eqb (fst h) name) hs.
Definition get_all (name : bytes) (hs : header_map) : list bytes :=
  map snd (List.filter (fun h => bytes_eqb (fst h) name) hs).
(** Names are compared without regard to ASCII case. *)
Definition remove (name : bytes) (hs : header_map) : header_map :=
  List.filter (fun h => negb (bytes_eqb (fst h) (to_ascii_lowercase name))) hs.
Definition insert_header (name value : bytes) (hs : header_map) : header_map :=
  remove name hs ++ [(name, value)].

(** [HeaderValue::to_str] and [HeaderValue::from_str]. *)
Definition visible (c : Z) : bool := ((32 <=? c) && (c <=? 126)) || (c =? 9).
Definition to_str (v : bytes) : option bytes := if forallb visible v then Some v else None.
Definition value_from_str (v : bytes) : option bytes :=
  if forallb (fun c => ((32 <=? c) && negb (c =? 127)) || (c =? 9)) v then Some v else None.

Definition CONNECTION : bytes := str_bytes "connection".
Definition UPGRADE : bytes := str_bytes "upgrade".
Definition HOST : bytes := str_bytes "host".
Definition CONNECT : bytes := str_bytes "CONNECT".

Definition HOP_NAMES : list bytes :=
  map str_bytes ["connection"; "proxy-connection"; "keep-alive"; "proxy-authenticate";
                 "proxy-authorization"; "te"; "trailer"; "transfer-encoding"; "upgrade"]%string.

(** The names a [Connection] header adds to the hop-by-hop set. *)
Definition connection_names (hs : header_map) : list bytes :=
  map trim (concat (map (split_on 44) (omap to_str (get_all CONNECTION hs)))).

Definition strip_hop_headers (hs : header_map) (upgrade : option bytes) : header_map :=
  let names := connection_names hs in
  let hs := fold_left (fun hs name => remove name hs) names hs in
  let hs := fold_left (fun hs name => remove name hs) HOP_NAMES hs in
  match upgrade with
  | Some value => insert_header CONNECTION UPGRADE (insert_header UPGRADE value hs)
  | None => hs
  end.

Section proxy.
(** [http::uri::Authority] and [Uri] parsing. *)
Context {authority : Type}.
Context (auth_str auth_host : authority -> bytes) (port_u16 : authority -> option Z).
Context (parse_authority : bytes -> option authority) (parse_uri : bytes -> bool).

Record request := mk_request {
  method : bytes;
  uri_scheme : option bytes;
  uri_authority : option authority;
  path_and_query : option bytes;
  headers : header_map
}.

Inductive target_error :=
| BadScheme | MissingHost | HostNotText | BadAuthority | IllegalHost | MissingPort | IllegalPort.

Definition is_connect (r : request) : bool := bytes_eqb (method r) CONNECT.

Definition target (r : request) : res target_error (Host * Z * bytes) :=
  _ ← bail_if (negb (is_connect r)
               && match uri_scheme r with Some s => negb (bytes_eqb s (str_bytes "http")) | None => false end)
        BadScheme;
  authority ← match uri_authority r with
              | Some a => Ok a
              | None =>
                  v ← ok_or (get HOST (headers r)) MissingHost;
                  s ← ok_or (to_str v) HostNotText;
                  ok_or (parse_authority s) BadAuthority
              end;
  let host := trim_end_matches 93 (trim_start_matches 91 (auth_host authority)) in
  _ ← bail_if (match host with [] => true | _ => false end || contains_byte 64 (auth_str authority)) IllegalHost;
  port ← (if is_connect r then ok_or (port_u16 authority) MissingPort
          else if bytes_eqb (auth_str authority) (auth_host authority) then Ok 80
          else ok_or (port_u16 authority) IllegalPort);
  _ ← bail_if (port =? 0) IllegalPort;
  Ok (host_parse host, port, auth_str authority).

Inductive body := EmptyBody | FailedBody | UpstreamBody.
Record response := mk_response { status : Z; r_headers : header_map; r_body : body }.

Definition error_response (status : Z) : response := mk_response status [] FailedBody.

(** The request in origin form as written to the upstream. *)
Record sent_request := mk_sent { s_method : bytes; s_uri : bytes; s_headers : header_map }.

Inductive tunnel := ConnectTunnel (c : Connected) | UpgradeTunnel (c : Connected).

Inductive forward_error :=
| ConnectFailed (k : ErrorKind) | AlreadyUpgraded | BadHostValue | BadPath
| UpstreamFailed (k : ErrorKind) | UnrequestedUpgrade.

(** The request as rewritten for the upstream. *)
Definition rewrite_request (r : request) (auth : bytes) : out forward_error sent_request :=
  let hs := strip_hop_headers (headers r) (get UPGRADE (headers r)) in
  match value_from_str auth with
  | None => Fail BadHostValue
  | Some host =>
      let hs := insert_header HOST host hs in
      let path := default (str_bytes "/") (path_and_query r) in
      if parse_uri path then Ret (mk_sent (method r) path hs) else Fail BadPath
  end.

(** [forward]; [busy]: the connection's tunnel slot is taken; [upstream]: the
    HTTP/1 exchange on the connected stream.  The second component is the
    request that reached the upstream, also when an error follows. *)
Definition forward (busy : bool) (outbound : Outbound) (upstream : sent_request -> out ErrorKind response)
    (r : request) : out forward_error (response * option tunnel) * option sent_request :=
  match target r with
  | Ok (host, port, auth) =>
      match connect_tcp outbound host port with
      | Hang => (Hang, None)
      | Fail k => (Fail (ConnectFailed k), None)
      | Ret connected =>
          if is_connect r then
            if busy then (Fail AlreadyUpgraded, None)
            else (Ret (mk_response 200 [] EmptyBody, Some (ConnectTunnel connected)), None)
          else
            match rewrite_request r auth with
            | Hang => (Hang, None)
            | Fail e => (Fail e, None)
            | Ret sent =>
                match upstream sent with
                | Hang => (Hang, Some sent)
                | Fail k => (Fail (UpstreamFailed k), Some sent)
                | Ret resp =>
                    if status resp =? 101 then
                      match get UPGRADE (headers r) with
                      | None => (Fail UnrequestedUpgrade, Some sent)
                      | Some _ =>
                          let hs := strip_hop_headers (r_headers resp) (get UPGRADE (r_headers resp)) in
                          if busy then (Fail AlreadyUpgraded, Some sent)
                          else (Ret (mk_response 101 hs EmptyBody, Some (UpgradeTunnel connected)), Some sent)
                      end
                    else
                      (Ret (mk_response (status resp) (strip_hop_headers (r_headers resp) None) UpstreamBody, None),
                       Some sent)
                end
            end
      end
  | _ => (Ret (error_response 400, None), None)
  end.

(** The service closure of [handle_client]: an error becomes 502. *)
Definition serve_request (busy : bool) (outbound : Outbound) (upstream : sent_request -> out ErrorKind response)
    (r : request) : out unit (response * option tunnel) :=
  match fst (forward busy outbound upstream r) with
  | Ret f => Ret f
  | Fail _ => Ret (error_response 502, None)
  | Hang => Hang
  end.

(** The requests of one connection: at most one tunnel is handed over; the
    channel keeps it until the HTTP connection ends. *)
Fixpoint serve_connection (busy : bool) (outbound : Outbound) (upstream : sent_request -> out ErrorKind response)
    (rs : list request) : list response * option tunnel :=
  match rs with
  | [] => ([], None)
  | r :: rs' =>
      match serve_request busy outbound upstream r with
      | Ret (resp, t) =>
          let '(resps, t') := serve_connection (busy || match t with Some _ => true | None => false end) outbound upstream rs' in
          (resp :: resps, match t with Some _ => t | None => t' end)
      | _ => ([], None)
      end
  end.
End proxy.

(** ** Facts *)
Definition hop (names : list bytes) (h : bytes * bytes) : bool :=
  existsb (fun n => bytes_eqb (fst h) (to_ascii_lowercase n)) names.

Lemma remove_all names hs :
  fold_left (fun hs name => remove name hs) names hs = List.filter (fun h => negb (hop names h)) hs.
Proof.
  revert hs. induction names as [|n names IH]; intros hs; simpl.
  - induction hs as [|h hs IHh]; simpl; [done|]. by f_equal.
  - rewrite IH. unfold remove. clear IH. induction hs as [|h hs IHh]; simpl; [done|].
    unfold hop at 2. simpl. destruct (bytes_eqb (fst h) (to_ascii_lowercase n)); simpl; [done|].
    fold (hop names h). destruct (hop names h); simpl; by rewrite IHh.
Qed.

Lemma filter_filter {A} (f g : A -> bool) l : List.filter f (List.filter g l) = List.filter (fun x => g x && f x) l.
Proof.
  induction l as [|x l IH]; simpl; [done|]. destruct (g x); simpl; [|done]. destruct (f x); by rewrite IH.
Qed.

Lemma filter_ext_in' {A} (f g : A -> bool) l : (forall x, f x = g x) -> List.filter f l = List.filter g l.
Proof. intros H. induction l as [|x l IH]; simpl; [done|]. rewrite H. by destruct (g x); rewrite IH. Qed.

Lemma filter_all {A} (f : A -> bool) l : Forall (fun x => f x = true) l -> List.filter f l = l.
Proof. induction 1 as [|x l Hx _ IH]; simpl; [done|]. by rewrite Hx, IH. Qed.

(** What stays of the fields: those in neither hop-by-hop set. *)
Definition end_to_end (hs : header_map) : header_map :=
  List.filter (fun h => negb (hop (connection_names hs) h) && negb (hop HOP_NAMES h)) hs.

Lemma end_to_end_not_hop hs name : name ∈ HOP_NAMES -> to_ascii_lowercase name = name ->
  remove name (end_to_end hs) = end_to_end hs.
Proof.
  intros Hn Hl. unfold remove. apply filter_all. rewrite Forall_forall. intros h Hh.
  apply list_elem_of_In, filter_In in Hh as [_ Hh]. apply andb_true_iff in Hh as [_ Hh].
  rewrite Hl. apply negb_true_iff. apply negb_true_iff in Hh. unfold hop in Hh.
  destruct (bytes_eqb (fst h) name) eqn:E; [|done]. exfalso.
  rewrite <-not_true_iff_false in Hh. apply Hh. apply existsb_exists. exists name. split; [by apply list_elem_of_In|].
  by rewrite Hl.
Qed.

Lemma strip_hop_headers_eq hs upgrade :
  strip_hop_headers hs upgrade
  = end_to_end hs ++ match upgrade with Some v => [(UPGRADE, v); (CONNECTION, UPGRADE)] | None => [] end.
Proof.
  unfold strip_hop_headers. rewrite !remove_all, filter_filter. fold (end_to_end hs).
  destruct upgrade as [v|]; [|by rewrite app_nil_r]. unfold insert_header.
  rewrite (end_to_end_not_hop hs UPGRADE) by (vm_compute; set_solver || done).
  unfold remove at 1. rewrite List.filter_app. fold (remove CONNECTION (end_to_end hs)).
  rewrite (end_to_end_not_hop hs CONNECTION) by (vm_compute; set_solver || done).
  by rewrite <-app_assoc.
Qed.

(** Hop-by-hop removal, in closed form: exactly the fields named neither in the
    fixed list nor in a [Connection] header survive, in order and with every
    value; when an upgrade is requested the pair [Upgrade] and
    [Connection: upgrade] is added, and nothing else. *)
Theorem strip_hop_headers_exact hs upgrade :
  strip_hop_headers hs upgrade
  = end_to_end hs ++ match upgrade with Some v => [(UPGRADE, v); (CONNECTION, UPGRADE)] | None => [] end.
Proof. apply strip_hop_headers_eq. Qed.

Lemma get_all_app n hs ks : get_all n (hs ++ ks) = get_all n hs ++ get_all n ks.
Proof. unfold get_all. by rewrite List.filter_app, map_app. Qed.

Lemma get_all_remove n hs : to_ascii_lowercase n = n -> get_all n (remove n hs) = [].
Proof.
  intros Hl. unfold get_all, remove. rewrite filter_filter, Hl.
  rewrite (filter_ext_in' _ (fun _ => false)) by (intros x; by destruct (bytes_eqb (fst x) n)).
  by induction hs.
Qed.

Lemma lower_HOST : to_ascii_lowercase HOST = HOST.
Proof. reflexivity. Qed.

Lemma forward_sent_inv {A} auth_str auth_host port_u16 parse_authority parse_uri busy ob up (r : request (authority:=A)) o s :
  forward auth_str auth_host port_u16 parse_authority parse_uri busy ob up r = (o, Some s) ->
  exists host port auth c,
    target auth_str auth_host port_u16 parse_authority r = Ok (host, port, auth)
    /\ connect_tcp ob host port = Ret c /\ is_connect r = false
    /\ rewrite_request parse_uri r auth = Ret s.
Proof.
  unfold forward. intros H.
  destruct (target _ _ _ _ r) as [[[host port] auth]|e|] eqn:Ht; [|done..].
  destruct (connect_tcp ob host port) as [c|k|] eqn:Hc; [|done..].
  destruct (is_connect r) eqn:Hm; [by destruct busy|].
  destruct (rewrite_request parse_uri r auth) as [s'|e|] eqn:Hr; [|done..].
  exists host, port, auth, c. split_and!; try done. f_equal.
  destruct (up s') as [resp|k|]; [|congruence..].
  destruct (status resp =? 101); [|congruence].
  destruct (get UPGRADE (headers r)); [destruct busy|]; congruence.
Qed.

(** *** The hop-by-hop fields, as RFC 9110 names them, with [Proxy-Connection] and [Keep-Alive] *)
Definition hop_by_hop : list bytes :=
  [str_bytes "connection"; str_bytes "proxy-connection"; str_bytes "keep-alive"; str_bytes "proxy-authenticate";
   str_bytes "proxy-authorization"; str_bytes "te"; str_bytes "trailer"; str_bytes "transfer-encoding"; str_bytes "upgrade"].

(** A field name: visible characters, no comma. *)
Definition token (t : bytes) : Prop := t <> [] /\ Forall (fun c => 33 <= c <= 126 /\ c <> 44) t.
(** A [Connection] field of visible text lists the name [n]: its value is a list of
    elements joined by commas, one of which is [n], in any case, between blanks. *)
Definition listed (hs : header_map) (n : bytes) : Prop :=
  exists elements l raw r, (str_bytes "connection", join [44] elements) ∈ hs /\ visible_text (join [44] elements) /\
    Forall (fun x => 44 ∉ x) elements /\ l ++ raw ++ r ∈ elements /\ blanks l /\ blanks r /\
    token raw /\ to_ascii_lowercase raw = n.

Lemma hop_lower names n v : hop names (n, v) = true <-> n ∈ map to_ascii_lowercase names.
Proof.
  unfold hop, bytes_eqb. rewrite existsb_exists, list_elem_of_In, in_map_iff. cbn [fst].
  split; intros (x & H1 & H2); exists x; [apply bool_decide_eq_true in H2; by subst|by rewrite H1; split; [|apply bool_decide_eq_true]].
Qed.
Lemma hop_fixed n v : hop HOP_NAMES (n, v) = true <-> n ∈ hop_by_hop.
Proof. rewrite hop_lower. by replace (map to_ascii_lowercase HOP_NAMES) with hop_by_hop by (vm_compute; reflexivity). Qed.

Lemma visible_forall v : forallb visible v = true <-> visible_text v.
Proof.
  unfold visible_text. rewrite forallb_forall, Forall_forall. setoid_rewrite list_elem_of_In. unfold visible.
  split; intros H c Hc; specialize (H c Hc); [zbool; destruct H as [H|H]; zbool; lia|].
  apply orb_true_iff. destruct H as [H|H]; [left; apply andb_true_iff; lia|right; lia].
Qed.
Lemma connection_name_in hs x : x ∈ connection_names hs <->
  exists v y, (CONNECTION, v) ∈ hs /\ visible_text v /\ y ∈ split_on 44 v /\ x = trim y.
Proof.
  unfold connection_names. rewrite list_elem_of_In, in_map_iff. setoid_rewrite in_concat. setoid_rewrite in_map_iff. split.
  - intros (y & <- & p & (v & <- & Hv) & Hy). apply list_elem_of_In, list_elem_of_omap in Hv as (w & Hw & Ht).
    unfold to_str in Ht. destruct (forallb visible w) eqn:Hvis; [|done]. injection Ht as <-.
    unfold get_all in Hw. apply list_elem_of_In, in_map_iff in Hw as ([n u] & <- & [Hin Hn]%filter_In). cbn in *.
    apply bool_decide_eq_true in Hn as ->. exists u, y. split_and!; [by apply list_elem_of_In|by apply visible_forall|by apply list_elem_of_In|done].
  - intros (v & y & Hin & Hv & Hy & ->). exists y. split; [done|]. exists (split_on 44 v). split; [|by apply list_elem_of_In].
    exists v. split; [done|]. apply list_elem_of_In, list_elem_of_omap. exists v. split.
    + unfold get_all. apply list_elem_of_In, in_map_iff. exists (CONNECTION, v). split; [done|]. apply filter_In.
      split; [by apply list_elem_of_In|]. cbn. by apply bool_decide_eq_true.
    + unfold to_str. by rewrite (proj2 (visible_forall v) Hv).
Qed.

(** The names the code removes are the ones that are listed. *)
Lemma listed_removed hs n v : listed hs n -> hop (connection_names hs) (n, v) = true.
Proof.
  intros (es & l & raw & r & Hin & Hv & Hc & He & Hl & Hr & [Hne Ht] & <-). apply hop_lower, list_elem_of_In, in_map_iff. exists raw. split; [done|].
  apply list_elem_of_In, connection_name_in. exists (join [44] es), (l ++ raw ++ r). split_and!; [done..| |].
  - by rewrite split_on_join by (done || by intros ->; apply not_elem_of_nil in He).
  - symmetry. apply trim_word; [done..|]. eapply Forall_impl; [exact Ht|]. by intros c [? _].
Qed.
Lemma lower_token raw : token (to_ascii_lowercase raw) -> token raw.
Proof.
  intros [Hn Ht]. split; [by intros ->|]. unfold to_ascii_lowercase in Ht. rewrite Forall_map in Ht. eapply Forall_impl; [exact Ht|].
  intros c. cbn. unfold ascii_lower. destruct ((65 <=? c) && (c <=? 90)) eqn:Hc; zbool; lia.
Qed.
Lemma removed_listed hs n v : token n -> hop (connection_names hs) (n, v) = true -> listed hs n.
Proof.
  intros Hn Hh. apply hop_lower, list_elem_of_In, in_map_iff in Hh as (raw & <- & Hr). apply list_elem_of_In, connection_name_in in Hr as (w & y & Hin & Hv & Hy & ->).
  assert (Hy' : visible_text y).
  { clear -Hv Hy. revert y Hy. induction Hv as [|c w Hc Hv IH]; intros y; cbn [split_on]; [intros ->%list_elem_of_singleton; constructor|].
    destruct (c =? 44); [intros [->|Hy]%elem_of_cons; [constructor|by apply IH]|]. destruct (split_on 44 w) as [|q qs]; [intros ->%list_elem_of_singleton; by constructor|].
    intros [->|Hy]%elem_of_cons; [constructor; [done|apply IH; by left]|apply IH; by right]. }
  destruct (trim_parts y Hy') as (l & r & He & Hl & Hr). exists (split_on 44 w), l, (trim y), r. rewrite join_split_on, <-He.
  split_and!; [done|done|apply split_on_no_sep|done|done|done|by apply lower_token|done].
Qed.

(** C32. What the proxy sends upstream for a plain request: only to a target it could
    determine and connect to, never for CONNECT; in origin form with the client's
    method; exactly one [Host], equal to the target's authority.  Of the client's
    fields none of the nine hop-by-hop ones goes out (the proxy credential among
    them), nor any its [Connection] fields list; when the client asked for an
    upgrade, its [Upgrade] value and [Connection: upgrade] are put back, and nothing
    else is added.  Every other field goes out with its value. *)
Theorem forward_request_clean {A} auth_str auth_host port_u16 parse_authority parse_uri
    busy ob up (r : request (authority:=A)) o s :
  forward auth_str auth_host port_u16 parse_authority parse_uri busy ob up r = (o, Some s) ->
  exists host port auth c,
    target auth_str auth_host port_u16 parse_authority r = Ok (host, port, auth)
    /\ connect_tcp ob host port = Ret c /\ is_connect r = false
    /\ s_method s = method r /\ s_uri s = default (str_bytes "/") (path_and_query r)
    /\ get_all (str_bytes "host") (s_headers s) = [auth]
    /\ (forall n v, (n, v) ∈ s_headers s -> n <> str_bytes "host" ->
         (exists u, get (str_bytes "upgrade") (headers r) = Some u /\
            ((n, v) = (str_bytes "upgrade", u) \/ (n, v) = (str_bytes "connection", str_bytes "upgrade")))
         \/ ((n, v) ∈ headers r /\ (n ∉ hop_by_hop) /\ ~ listed (headers r) n))
    /\ (forall u, get (str_bytes "upgrade") (headers r) = Some u ->
         (str_bytes "upgrade", u) ∈ s_headers s /\ (str_bytes "connection", str_bytes "upgrade") ∈ s_headers s)
    /\ (forall n v, (n, v) ∈ headers r -> token n -> n <> str_bytes "host" -> n ∉ hop_by_hop -> ~ listed (headers r) n -> (n, v) ∈ s_headers s).
Proof.
  intros H. destruct (forward_sent_inv _ _ _ _ _ _ _ _ _ _ _ H) as (host & port & auth & c & Ht & Hc & Hm & Hr).
  exists host, port, auth, c. unfold rewrite_request in Hr.
  destruct (value_from_str auth) as [a|] eqn:Hv; [|done].
  assert (a = auth) as -> by (unfold value_from_str in Hv; destruct (forallb _ _); congruence).
  destruct (parse_uri _); [|done]. injection Hr as <-. cbn [s_method s_uri s_headers].
  assert (Hin : forall n v, (n, v) ∈ insert_header HOST auth (strip_hop_headers (headers r) (get UPGRADE (headers r))) -> n <> HOST ->
    (n, v) ∈ strip_hop_headers (headers r) (get UPGRADE (headers r))).
  { intros n v Hin Hn. unfold insert_header in Hin. apply elem_of_app in Hin as [Hin|Hin]; [|apply list_elem_of_singleton in Hin; congruence].
    apply list_elem_of_In, filter_In in Hin as [Hin _]. by apply list_elem_of_In. }
  assert (Hout : forall n v, (n, v) ∈ strip_hop_headers (headers r) (get UPGRADE (headers r)) -> n <> HOST ->
    (n, v) ∈ insert_header HOST auth (strip_hop_headers (headers r) (get UPGRADE (headers r)))).
  { intros n v Hs Hn. apply elem_of_app. left. apply list_elem_of_In, filter_In. split; [by apply list_elem_of_In|].
    rewrite lower_HOST. cbn. apply negb_true_iff. by apply bool_decide_eq_false. }
  rewrite strip_hop_headers_eq in Hin, Hout. rewrite strip_hop_headers_eq. split_and!; try done.
  - unfold insert_header. rewrite get_all_app, get_all_remove by apply lower_HOST. done.
  - intros n v Hi Hn. destruct (proj1 (elem_of_app _ _ _) (Hin n v Hi Hn)) as [He|He].
    + right. apply list_elem_of_In, filter_In in He as [He Hb]. apply list_elem_of_In in He. zbool. split_and!; [done| |].
      * rewrite <-(hop_fixed n v). congruence.
      * intros Hli. rewrite (listed_removed _ n v Hli) in *. done.
    + left. destruct (get UPGRADE (headers r)) as [u|] eqn:Hu; [|by apply not_elem_of_nil in He]. exists u. split; [done|].
      apply elem_of_cons in He as [|He]; [by left|]. apply list_elem_of_singleton in He. by right.
  - intros u Hu. change (get (str_bytes "upgrade") (headers r)) with (get UPGRADE (headers r)) in Hu. rewrite Hu in Hout |- *.
    split; apply Hout; try discriminate; apply elem_of_app; right; [by left|right; by left].
  - intros n v Hi Htok Hn Hnh Hnl. apply Hout; [|done]. apply elem_of_app. left. apply list_elem_of_In, filter_In.
    split; [by apply list_elem_of_In|]. apply andb_true_iff. split; apply negb_true_iff, not_true_iff_false.
    + intros Hh. by apply Hnl, (removed_listed _ n v).
    + by rewrite hop_fixed.
Qed.

(** A plain GET with a proxy credential, on a concrete authority parser. *)
Definition demo_request : request (authority:=bytes) :=
  mk_request (str_bytes "GET") (Some (str_bytes "http")) (Some (str_bytes "a.example")) (Some (str_bytes "/x"))
    [(str_bytes "proxy-authorization", [1]); (str_bytes "accept", [2]);
     (CONNECTION, str_bytes "X-Trace"); (str_bytes "x-trace", [3])].
Definition demo_forward :=
  forward id id (fun _ => None) Some (fun _ => true) false
    (mk_outbound [] false (fun _ _ => Ret (mk_connected 1 None)) connect_udp_default)
    (fun _ => Ret (mk_response 200 [] UpstreamBody)) demo_request.

Lemma forward_request_clean_witness :
  demo_forward = (Ret (mk_response 200 [] UpstreamBody, None),
                  Some (mk_sent (str_bytes "GET") (str_bytes "/x")
                          [(str_bytes "accept", [2]); (HOST, str_bytes "a.example")]))
  /\ exists auth, get_all (str_bytes "host") [(str_bytes "accept", [2]); (HOST, str_bytes "a.example")] = [auth].
Proof.
  assert (H : demo_forward = (Ret (mk_response 200 [] UpstreamBody, None),
                  Some (mk_sent (str_bytes "GET") (str_bytes "/x")
                          [(str_bytes "accept", [2]); (HOST, str_bytes "a.example")]))) by (vm_compute; reflexivity).
  split; [exact H|].
  destruct (forward_request_clean id id (fun _ => None) Some (fun _ => true) false _ _ demo_request _ _ H)
    as (host & port & auth & c & _ & _ & _ & _ & _ & Hh & _). exists auth. exact Hh.
Defined.
End HttpProxy.

(** ** Upstream connections ([Driver], [DrivenBody])

    Every forwarded request spawns a task that drives hyper's connection to the
    target.  Its handle is owned by the call of [forward], then by the response
    body, or by the tunnel of an upgrade, first inside the one-place channel and
    then awaited by [handle_client]; dropping the owner aborts the task. *)
Module Drivers.
Inductive place := InForward | InBody | InChannel | InTunnel.
#[export] Instance place_eq_dec : EqDecision place. Proof. solve_decision. Defined.

(** One client connection: its running driver tasks, and who owns their handles. *)
Record connection := mk_connection { running : gset nat; owners : gmap nat place }.
Definition connection_new : connection := mk_connection ∅ ∅.

Inductive event :=
| Spawn (id : nat)        (** the handshake with the target is done *)
| ForwardEnds (id : nat)  (** [forward] fails or is dropped before the response *)
| Responds (id : nat)     (** a response with a body *)
| Switches (id : nat)     (** 101: the tunnel is offered to the channel *)
| BodyDropped (id : nat)  (** read to its end, or the client is gone *)
| TunnelTaken (id : nat)  (** [tunnel_rx.try_recv] *)
| TunnelEnds (id : nat)
| DriverEnds (id : nat)   (** the target closes the connection *)
| ConnectionDropped.      (** the connection task ends or is released *)

(** [Driver::drop] *)
Definition drop_driver (id : nat) (c : connection) : connection := mk_connection (running c ∖ {[id]}) (delete id (owners c)).
Definition moves (id : nat) (from to : place) (c : connection) : option connection :=
  if bool_decide (owners c !! id = Some from) then Some (mk_connection (running c) (<[id := to]> (owners c))) else None.
Definition drops (id : nat) (from : place) (c : connection) : option connection :=
  if bool_decide (owners c !! id = Some from) then Some (drop_driver id c) else None.
Definition channel_full (c : connection) : bool := existsb (fun e => bool_decide (e.2 = InChannel)) (map_to_list (owners c)).

(** [None]: the event cannot happen. *)
Definition apply (e : event) (c : connection) : option connection :=
  match e with
  | Spawn id => if bool_decide (owners c !! id = None) then Some (mk_connection ({[id]} ∪ running c) (<[id := InForward]> (owners c))) else None
  | ForwardEnds id => drops id InForward c
  | Responds id => moves id InForward InBody c
  | Switches id => if channel_full c then drops id InForward c else moves id InForward InChannel c
  | BodyDropped id => drops id InBody c
  | TunnelTaken id => moves id InChannel InTunnel c
  | TunnelEnds id => drops id InTunnel c
  | DriverEnds id => Some (mk_connection (running c ∖ {[id]}) (owners c))
  | ConnectionDropped => Some (mk_connection (running c ∖ dom (owners c)) ∅)
  end.

Fixpoint run (es : list event) (c : connection) : option connection :=
  match es with [] => Some c | e :: es => c ← apply e c; run es c end.

Definition drivers_owned (c : connection) : Prop :=
  (forall id, id ∈ running c -> is_Some (owners c !! id)) /\
  (forall i j, owners c !! i = Some InChannel -> owners c !! j = Some InChannel -> i = j).

Lemma channel_free c id : channel_full c = false -> owners c !! id <> Some InChannel.
Proof.
  unfold channel_full. intros Hf Hi. assert (Ht : existsb (fun e : nat * place => bool_decide (e.2 = InChannel)) (map_to_list (owners c)) = true); [|congruence].
  apply existsb_exists. exists (id, InChannel). split; [by apply list_elem_of_In, elem_of_map_to_list|]. by apply bool_decide_eq_true.
Qed.

Lemma drops_owned id from c c' : drivers_owned c -> drops id from c = Some c' -> drivers_owned c'.
Proof.
  intros [H1 H2]. unfold drops. case_bool_decide; [|done]. intros [= <-]. split; cbn.
  - intros x Hx. rewrite lookup_delete_ne by set_solver. apply H1. set_solver.
  - intros i j [_ Hi]%lookup_delete_Some [_ Hj]%lookup_delete_Some. by apply H2.
Qed.

Lemma moves_owned id from to c c' : drivers_owned c -> (to = InChannel -> channel_full c = false) -> moves id from to c = Some c' -> drivers_owned c'.
Proof.
  intros [H1 H2] Hf. unfold moves. case_bool_decide; [|done]. intros [= <-]. split; cbn.
  - intros x Hx. destruct (decide (x = id)) as [->|]; [by rewrite lookup_insert_eq|]. rewrite lookup_insert_ne by done. by apply H1.
  - intros i j [[<- Hi]|[_ Hi]]%lookup_insert_Some [[<- Hj]|[_ Hj]]%lookup_insert_Some; [done| | |by apply H2].
    + by destruct (channel_free c j (Hf Hi)).
    + by destruct (channel_free c i (Hf Hj)).
Qed.

Lemma drivers_apply e c c' : drivers_owned c -> apply e c = Some c' -> drivers_owned c'.
Proof.
  intros K. destruct e as [id|id|id|id|id|id|id|id|]; cbn [apply]; try (by apply drops_owned).
  - case_bool_decide as Hn; [|done]. intros [= <-]. destruct K as [H1 H2]. split; cbn.
    + intros x Hx. destruct (decide (x = id)) as [->|]; [by rewrite lookup_insert_eq|]. rewrite lookup_insert_ne by done. apply H1. set_solver.
    + intros i j [[_ ?]|[_ Hi]]%lookup_insert_Some [[_ ?]|[_ Hj]]%lookup_insert_Some; [done|done|done|by apply H2].
  - by apply moves_owned.
  - destruct (channel_full c) eqn:Hf; [by apply drops_owned|by apply moves_owned].
  - intros H. unfold moves in H. case_bool_decide as Ho; [|done]. injection H as <-. destruct K as [H1 H2]. split; cbn.
    + intros x Hx. destruct (decide (x = id)) as [->|]; [by rewrite lookup_insert_eq|]. rewrite lookup_insert_ne by done. by apply H1.
    + intros i j [[_ ?]|[_ Hi]]%lookup_insert_Some [[_ ?]|[_ Hj]]%lookup_insert_Some; [done|done|done|by apply H2].
  - intros [= <-]. destruct K as [H1 H2]. split; cbn; [|exact H2]. intros x Hx. apply H1. set_solver.
  - intros [= <-]. destruct K as [H1 H2]. split; cbn; [|by intros i j Hi]. intros x [Hx Hn]%elem_of_difference.
    apply H1, elem_of_dom in Hx. done.
Qed.

(** No connection to a target outlives its use: whatever the order of responses,
    upgrades, failures and disconnects, every driver task that runs is owned by a
    request in progress, a response body being read or a tunnel; at most one tunnel
    waits; and when the client's connection ends, no driver is left. *)
Theorem drivers_never_leak es c : run es connection_new = Some c ->
  (forall id, id ∈ running c -> is_Some (owners c !! id)) /\
  (forall i j, owners c !! i = Some InChannel -> owners c !! j = Some InChannel -> i = j) /\
  exists c', apply ConnectionDropped c = Some c' /\ running c' = ∅.
Proof.
  assert (H : forall es c0, drivers_owned c0 -> run es c0 = Some c -> drivers_owned c).
  { clear. intros es. induction es as [|e es IH]; intros c0 K; cbn; [by intros [= <-]|]. destruct (apply e c0) as [c1|] eqn:He; [|done]. cbn.
    by apply IH, (drivers_apply e c0). }
  intros Hr. destruct (H es connection_new) as [H1 H2]; [split; cbn; [set_solver|by intros i j Hi]|done|]. split; [done|]. split; [done|].
  eexists. split; [reflexivity|]. cbn. apply set_eq. intros x. split; [|set_solver]. intros [Hx Hn]%elem_of_difference.
  apply H1, elem_of_dom in Hx. done.
Qed.

Lemma drivers_never_leak_witness : match run [Spawn 0; Responds 0; Spawn 1; Switches 1; DriverEnds 0] connection_new with
  | Some c => running c = {[1%nat]} /\ exists c', apply ConnectionDropped c = Some c' /\ running c' = ∅
  | None => False
  end.
Proof.
  destruct (run [Spawn 0; Responds 0; Spawn 1; Switches 1; DriverEnds 0] connection_new) as [c|] eqn:Hr; [|vm_compute in Hr; discriminate Hr].
  destruct (drivers_never_leak _ c Hr) as (_ & _ & H). split; [|exact H]. injection Hr as <-. vm_compute. reflexivity.
Defined.
End Drivers.
