(* ===== verification/Mixed.v ===== *)
(** * The listener ([src/src/mixed.rs])

    Protocol detection on the first byte, the LAN filter, the connection limit
    shared by all listeners, and what a client meets while no outlet is ready. *)
From S2P Require Import Prelude RustStr NetAddr Conn Outbound Socks5 Socks4.

Module Mixed.
Definition MAX_CONNECTIONS : Z := 64.

Inductive ListenMode := Auto (port : Z) | Explicit (addrs : list SocketAddr).

(** [bind_listeners]: the address, the IPv6-only flag of automatic listeners and
    the LAN restriction; [bind] is the operating system. *)
Definition UNSPECIFIED4 : IpAddr := V4 [0; 0; 0; 0].
Definition UNSPECIFIED6 : IpAddr := V6 (replicate 16 0).

Fixpoint bind_explicit (bind : SocketAddr -> option bool -> res ErrorKind unit) (addrs : list SocketAddr)
    : res ErrorKind (list (SocketAddr * bool)) :=
  match addrs with
  | [] => Ok []
  | a :: rest => _ ← bind a None; l ← bind_explicit bind rest; Ok ((a, false) :: l)
  end.

Definition bind_listeners (bind : SocketAddr -> option bool -> res ErrorKind unit) (mode : ListenMode)
    : res ErrorKind (list (SocketAddr * bool)) :=
  match mode with
  | Auto port =>
      let v4 := socket_addr_new UNSPECIFIED4 port in
      let v6 := socket_addr_new UNSPECIFIED6 port in
      _ ← bind v4 (Some false);
      _ ← bind v6 (Some true);
      Ok [(v4, true); (v6, true)]
  | Explicit addrs => bind_explicit bind addrs
  end.

(** The socket of an automatic listener: the calls of [listener_socket] in order,
    ended by the first that fails, then the hand-over to the runtime. *)
Inductive syscall :=
| SocketNew (v6 : bool) | SetReuseAddress | SetOnlyV6 (on : bool) | BindTo (a : SocketAddr) | ListenOn (backlog : Z)
| SetNonblocking | FromStd.
Definition listener_calls (addr : SocketAddr) (only_v6 : bool) : list syscall :=
  [SocketNew (negb (is_ipv4 addr)); SetReuseAddress] ++ (if is_ipv4 addr then [] else [SetOnlyV6 only_v6]) ++
  [BindTo addr; ListenOn 1024; SetNonblocking].
Fixpoint perform (sys : syscall -> res ErrorKind unit) (calls : list syscall) : res ErrorKind unit :=
  match calls with [] => Ok tt | c :: calls => _ ← sys c; perform sys calls end.
Definition listener_socket (sys : syscall -> res ErrorKind unit) (addr : SocketAddr) (only_v6 : bool) : res ErrorKind unit :=
  perform sys (listener_calls addr only_v6).
Definition bind_socket (sys : syscall -> res ErrorKind unit) (addr : SocketAddr) (only_v6 : bool) : res ErrorKind unit :=
  _ ← listener_socket sys addr only_v6; sys FromStd.

(** The two ways of binding; [tcp_bind] is [TcpListener::bind]. *)
Definition os_bind (sys : syscall -> res ErrorKind unit) (tcp_bind : SocketAddr -> res ErrorKind unit) (addr : SocketAddr)
    (only_v6 : option bool) : res ErrorKind unit :=
  match only_v6 with Some b => bind_socket sys addr b | None => tcp_bind addr end.

(** [serve_managed]: [ended] is how the first of the accept loops ends, which never
    return by themselves. *)
Inductive joined (A : Type) := Finished (a : A) | TaskPanicked.
Arguments Finished {A}.
Arguments TaskPanicked {A}.
Inductive serve_error := BindFailed (e : ErrorKind) | ListenerFailed (e : ErrorKind) | ListenerPanicked | NoListener.
Definition serve_managed (bind : SocketAddr -> option bool -> res ErrorKind unit) (mode : ListenMode)
    (ended : option (joined (res ErrorKind unit))) : poll (res serve_error unit) :=
  match bind_listeners bind mode with
  | Ok [] => Ready (Err NoListener)
  | Ok _ =>
      match ended with
      | None => Pending
      | Some (Finished (Ok _)) => Ready (Ok tt)
      | Some (Finished (Err e)) => Ready (Err (ListenerFailed e))
      | Some (Finished Panic) | Some TaskPanicked => Ready (Err ListenerPanicked)
      end
  | Err e => Ready (Err (BindFailed e))
  | Panic => Ready Panic
  end.

(** [std::net] predicates used by [is_lan_address]. *)
Definition o (bs : bytes) (i : nat) : Z := nth i bs 0.
Definition is_loopback4 (a : bytes) : bool := o a 0 =? 127.
Definition is_private (a : bytes) : bool :=
  (o a 0 =? 10) || ((o a 0 =? 172) && (16 <=? o a 1) && (o a 1 <=? 31)) || ((o a 0 =? 192) && (o a 1 =? 168)).
Definition is_link_local (a : bytes) : bool := (o a 0 =? 169) && (o a 1 =? 254).
Definition segment0 (a : bytes) : Z := o a 0 * 256 + o a 1.
Definition is_loopback6 (a : bytes) : bool := bytes_eqb a (replicate 15 0 ++ [1]).
Definition is_unique_local (a : bytes) : bool := Z.land (segment0 a) 65024 =? 64512.
Definition is_unicast_link_local (a : bytes) : bool := Z.land (segment0 a) 65472 =? 65152.

Definition is_lan_address (addr : IpAddr) : bool :=
  match addr with
  | V4 a => is_loopback4 a || is_private a || is_link_local a
  | V6 a => is_loopback6 a || is_unique_local a || is_unicast_link_local a
  end.

Definition is_connection_error (k : ErrorKind) : bool :=
  match k with ConnectionRefused | ConnectionAborted | ConnectionReset => true | _ => false end.

(** ** [accept_loop] of every listener, sharing one semaphore *)
Record server := mk_server {
  permits : Z;
  connections : list (SocketAddr * bool)   (** peer, and whether its listener is LAN only *)
}.

Definition serve_start : server := mk_server MAX_CONNECTIONS [].

Inductive server_event :=
| Accepted (lan_only : bool) (peer : SocketAddr)
| AcceptError (k : ErrorKind)
| Joined (i : nat).                        (** a connection task ends, its permit is dropped *)

Inductive reaction := Spawned | RefusedNotLan | RefusedFull | RetryNow | RetryAfterBackoff | Reaped.

Definition accept_step (ev : server_event) (s : server) : reaction * server :=
  match ev with
  | AcceptError k => (if is_connection_error k then RetryNow else RetryAfterBackoff, s)
  | Joined i =>
      match connections s !! i with
      | Some _ => (Reaped, mk_server (permits s + 1) (delete i (connections s)))
      | None => (Reaped, s)
      end
  | Accepted lan_only peer =>
      if lan_only && negb (is_lan_address (sa_ip peer)) then (RefusedNotLan, s)
      else if permits s <? 1 then (RefusedFull, s)
      else (Spawned, mk_server (permits s - 1) (connections s ++ [(peer, lan_only)]))
  end.

Fixpoint accept_loop (evs : list server_event) (s : server) : server :=
  match evs with [] => s | ev :: evs' => accept_loop evs' (snd (accept_step ev s)) end.

(** ** One connection *)
Definition Unavailable : Outbound :=
  mk_outbound (str_bytes "recovering") false (fun _ _ => Fail NotConnected) connect_udp_default.

#[export] Instance Unavailable_lawful : LawfulOutbound Unavailable.
Proof. intros _ h p. reflexivity. Qed.

Section dispatch.
(** hyper's HTTP/1 server loop on this connection and outlet. *)
Context (http_handle_client : Outbound -> io proxy_error unit).
(** The association a UDP ASSOCIATE would start. *)
Context (bind : out ErrorKind SocketAddr) (evs : list Assoc.event) (st : Assoc.state).

Definition dispatch (peer : SocketAddr) (outbound : Outbound) : io proxy_error unit :=
  first_byte ← timeout_at EHandshakeTimeout peek1;
  match first_byte with
  | None => mret tt
  | Some x =>
      if x =? 5 then Assoc.handle_client peer outbound bind evs st
      else if x =? 4 then Socks4.handle_client outbound
      else http_handle_client outbound
  end.

(** The values of the watch channel seen within [RECOVERY_WAIT]. *)
Fixpoint wait_ready (seen : list (option Outbound)) : option Outbound :=
  match seen with
  | [] => None
  | Some ob :: _ => Some ob
  | None :: rest => wait_ready rest
  end.

(** The task of an accepted connection; the outlet does not change while it runs. *)
Definition connection_task (peer : SocketAddr) (seen : list (option Outbound)) : io proxy_error unit :=
  match wait_ready seen with
  | Some outbound => dispatch peer outbound
  | None => timeout_at EHandshakeTimeout (dispatch peer Unavailable)
  end.
End dispatch.

(** ** Facts *)
Record server_ok (s : server) : Prop := mk_server_ok {
  ok_permits : permits s + zlen (connections s) = MAX_CONNECTIONS;
  ok_free : 0 <= permits s;
  ok_lan : Forall (fun c => c.2 = true -> is_lan_address (sa_ip c.1) = true) (connections s)
}.

Lemma accept_step_ok ev s : server_ok s -> server_ok (snd (accept_step ev s)).
Proof.
  intros [Hp Hf Hl]. destruct ev as [lan peer|k|i]; simpl; [|done|].
  - destruct (lan && negb (is_lan_address (sa_ip peer))) eqn:E; [done|].
    destruct (Z.ltb_spec (permits s) 1); [done|]. constructor; simpl; [zl|lia|].
    apply Forall_app; split; [done|]. constructor; [|constructor]. simpl. intros ->.
    by destruct (is_lan_address (sa_ip peer)).
  - destruct (connections s !! i) as [c|] eqn:Hi; [|done]. constructor; simpl.
    + assert (zlen (delete i (connections s)) = zlen (connections s) - 1); [|lia].
      unfold zlen. rewrite length_delete by eauto. apply lookup_lt_Some in Hi. lia.
    + lia.
    + by apply Forall_delete.
Qed.

Lemma accept_loop_ok evs s : server_ok s -> server_ok (accept_loop evs s).
Proof. revert s. induction evs as [|ev evs IH]; intros s H; simpl; [done|]. by apply IH, accept_step_ok. Qed.

(** C33. Admission: whatever clients connect, fail and leave, at most 64 connections
    are served at once over all listeners, a freed slot is usable again (free
    permits and live connections always add up to 64), and a client of an
    automatic listener that is served has a LAN address. *)
Theorem admission_bounded evs :
  let s := accept_loop evs serve_start in
  zlen (connections s) <= 64 /\ permits s + zlen (connections s) = 64
  /\ forall peer, (peer, true) ∈ connections s -> is_lan_address (sa_ip peer) = true.
Proof.
  intros s. destruct (accept_loop_ok evs serve_start) as [Hp Hf Hl]; [by constructor|]. fold s in Hp, Hf, Hl.
  unfold MAX_CONNECTIONS in Hp. split_and!; [lia|done|]. intros peer Hin.
  rewrite Forall_forall in Hl. by apply (Hl _ Hin).
Qed.

(** The same set by address ranges, on the numeric value of the address. *)
Definition between (lo hi v : Z) : bool := (lo <=? v) && (v <=? hi).
Definition lan_ranges4 (v : Z) : bool :=
  between 2130706432 2147483647 v      (* 127.0.0.0/8 *)
  || between 167772160 184549375 v     (* 10.0.0.0/8 *)
  || between 2886729728 2887778303 v   (* 172.16.0.0/12 *)
  || between 3232235520 3232301055 v   (* 192.168.0.0/16 *)
  || between 2851995648 2852061183 v.  (* 169.254.0.0/16 *)

Lemma mask_check : forallb (fun s => Bool.eqb (Z.land s 65024 =? 64512) (between 64512 65023 s)
   && Bool.eqb (Z.land s 65472 =? 65152) (between 65152 65215 s))
  (concat (map (fun h => map (fun l => h * 256 + l) (seqZ 0 256)) (seqZ 0 256))) = true.
Proof. vm_compute. reflexivity. Qed.

Lemma mask_ranges h l : is_byte h -> is_byte l ->
  (Z.land (h * 256 + l) 65024 =? 64512) = between 64512 65023 (h * 256 + l)
  /\ (Z.land (h * 256 + l) 65472 =? 65152) = between 65152 65215 (h * 256 + l).
Proof.
  intros Hh Hl. unfold is_byte in *. pose proof mask_check as M. rewrite forallb_forall in M.
  assert (Hin : In (h * 256 + l) (concat (map (fun h => map (fun l => h * 256 + l) (seqZ 0 256)) (seqZ 0 256)))).
  { apply in_concat. exists (map (fun l => h * 256 + l) (seqZ 0 256)). split.
    - apply (in_map (fun h => map (fun l => h * 256 + l) (seqZ 0 256))). apply list_elem_of_In, elem_of_seqZ. lia.
    - apply (in_map (fun l => h * 256 + l)). apply list_elem_of_In, elem_of_seqZ. lia. }
  apply M, andb_true_iff in Hin as [H1 H2]. split; by apply Bool.eqb_prop.
Qed.

(** The LAN test accepts exactly 127/8, 10/8, 172.16/12, 192.168/16 and
    169.254/16, and for IPv6 the loopback address, fc00::/7 and fe80::/10. *)
Theorem lan_address_ranges a : ip_wf a ->
  is_lan_address a = match a with
    | V4 bs => lan_ranges4 (be_val bs)
    | V6 bs => bytes_eqb bs (replicate 15 0 ++ [1])
               || between 64512 65023 (be_val (take 2 bs)) || between 65152 65215 (be_val (take 2 bs))
    end.
Proof.
  destruct a as [bs|bs]; intros [Hl Hb].
  - destruct bs as [|a [|b [|c [|d [|]]]]]; try discriminate Hl.
    repeat (apply Forall_cons in Hb as [? Hb]). unfold is_byte in *.
    unfold is_lan_address, is_loopback4, is_private, is_link_local, lan_ranges4, between, be_val, o. cbn [nth fold_left].
    apply eq_iff_eq_true. rewrite !orb_true_iff, !andb_true_iff, !Z.leb_le, !Z.eqb_eq. lia.
  - destruct bs as [|h [|l bs]]; try discriminate Hl.
    apply Forall_cons in Hb as [Hh Hb]. apply Forall_cons in Hb as [Hl' _].
    unfold is_lan_address, is_loopback6, is_unique_local, is_unicast_link_local, segment0, o. cbn [nth take].
    unfold be_val. cbn [fold_left]. rewrite Z.mul_0_l, Z.add_0_l.
    destruct (mask_ranges h l Hh Hl') as [-> ->]. by rewrite take_0.
Qed.

Lemma lan_address_ranges_witness :
  is_lan_address (V4 [192; 168; 1; 7]) = lan_ranges4 3232235783 /\ lan_ranges4 3232235783 = true.
Proof.
  split; [|reflexivity]. apply (lan_address_ranges (V4 [192; 168; 1; 7])).
  split; [reflexivity|]. repeat (constructor; [unfold is_byte; lia|]). constructor.
Defined.

(** While no outlet is ready the listener still answers: a well-formed SOCKS5
    CONNECT gets the method reply and "host unreachable", a SOCKS5 UDP ASSOCIATE
    gets "command not supported", the error is reported, and not one byte of the
    client leaves for an outlet. *)
Theorem recovering_answers http bind evs st peer seen c methods rsv t rest :
  Forall (fun ob => ob = None) seen -> c_writes c = None -> 0 ∈ methods -> Socks5Facts.target_wf t ->
  (match t with Socks5.Name n _ => utf8_valid n = true | _ => True end ->
   connection_task http bind evs st peer seen
     (feed c (Socks5Facts.greeting methods ++ [5; Socks5.CMD_CONNECT; rsv] ++ Socks5Facts.wire_target t ++ rest))
   = (Fail (EConnect NotConnected),
      feed (writes c ([5; 0] ++ Socks5.reply_bytes Socks5.REP_HOST_UNREACHABLE)) rest))
  /\ connection_task http bind evs st peer seen
       (feed c (Socks5Facts.greeting methods ++ [5; Socks5.CMD_UDP_ASSOCIATE; rsv] ++ Socks5Facts.wire_target t ++ rest))
     = (Fail EUdpUnsupported,
        feed (writes c ([5; 0] ++ Socks5.reply_bytes Socks5.REP_CMD_NOT_SUPPORTED)) rest).
Proof.
  intros Hs Hw Hm Ht. assert (Hr : wait_ready seen = None) by (by induction Hs as [|x l ->]).
  unfold connection_task. rewrite Hr. unfold dispatch.
  destruct (Socks5Facts.read_request_ok c methods rsv t rest Hw Hm Ht) as [Hu Hc]. split; [intros Hn|].
  - unfold timeout_at at 1. erewrite io_bind_ret; [|reflexivity]. cbn [Z.eqb Pos.eqb].
    unfold Assoc.handle_client. erewrite io_bind_ret; [|unfold timeout_at; rewrite (Hc Hn); reflexivity].
    unfold Socks5.handle_connect, relay_connect, Unavailable. cbn [connect_tcp].
    rewrite Socks5Facts.ignore_reply by done. unfold throw. f_equal. unfold feed, writes. simpl. by rewrite <-app_assoc.
  - unfold timeout_at at 1. erewrite io_bind_ret; [|reflexivity]. cbn [Z.eqb Pos.eqb].
    unfold Assoc.handle_client. erewrite io_bind_ret; [|unfold timeout_at; rewrite Hu; reflexivity].
    unfold Assoc.handle_udp_associate, Unavailable. cbn [supports_udp negb].
    erewrite io_bind_ret; [|unfold Socks5.reply; by apply write_all_writable].
    unfold throw. f_equal. unfold feed, writes. simpl. by rewrite <-app_assoc.
Qed.

Lemma recovering_answers_witness :
  connection_task (fun _ => throw EHttp) Hang [] (Assoc.new 0 0) (SockV4 [127; 0; 0; 1] 1) [None]
    (fresh ([5; 1; 0] ++ [5; 3; 0] ++ [1; 0; 0; 0; 0; 0; 0]) Silent idle)
  = (Fail EUdpUnsupported, feed (writes (fresh [] Silent idle) [5; 0; 5; 7; 0; 1; 0; 0; 0; 0; 0; 0]) []).
Proof.
  refine (proj2 (recovering_answers (fun _ => throw EHttp) Hang [] (Assoc.new 0 0) (SockV4 [127; 0; 0; 1] 1) [None]
    (fresh [] Silent idle) [0] 0 (Socks5.Addr (SockV4 [0; 0; 0; 0] 0)) [] _ _ _ _)).
  - by constructor.
  - reflexivity.
  - set_solver.
  - split; [|done]. split; [split; [done|]|split; [split; vm_compute; discriminate|done]].
    repeat (constructor; [unfold is_byte; lia|]). constructor.
Defined.
End Mixed.
