(* ===== verification/Dns.v ===== *)
(** * DNS inside the tunnel ([src/src/dns.rs]) and over HTTPS
      ([src/src/outbound/masque/doh.rs])

    The hand-written query encoder and response parser, the resolver loop with its
    retransmissions, and the two TTL caches.  Byte positions are integers and
    every index of the source is an access that may panic, so "never panics" is
    proved for arbitrary datagrams. *)
From S2P Require Import Prelude RustStr NetAddr Conn.

Module Dns.
Inductive RecordType := A | Aaaa.

#[export] Instance RecordType_eq_dec : EqDecision RecordType.
Proof. solve_decision. Defined.
#[export] Instance RecordType_countable : Countable RecordType.
Proof.
  apply (inj_countable' (fun r => match r with A => true | Aaaa => false end)
    (fun b => if b : bool then A else Aaaa)). by intros [].
Defined.

Definition qtype (r : RecordType) : Z := match r with A => 1 | Aaaa => 28 end.

Inductive dns_error :=
| BadNameLength | BadLabelLength
| TooShort | IdMismatch (id : Z) | NotResponse | Truncated | NxDomain | Rcode (r : Z)
| NameOutOfBounds | PointerOutOfBounds | QuestionIncomplete | AnswerIncomplete | RdataIncomplete.

(** ** Query *)
Fixpoint push_labels (labels : list bytes) : res dns_error bytes :=
  match labels with
  | [] => Ok []
  | label :: rest =>
      if (zlen label =? 0) || (63 <? zlen label) then Err BadLabelLength
      else r ← push_labels rest; Ok (zlen label :: label ++ r)
  end.

Definition encode_dns_query (id : Z) (name : bytes) (record_type : RecordType) : res dns_error bytes :=
  let msg := to_be 2 id ++ to_be 2 256 ++ to_be 2 1 ++ [0; 0; 0; 0; 0; 0] in
  let name := trim_end_matches 46 name in
  if (zlen name =? 0) || (253 <? zlen name) then Err BadNameLength
  else
    labels ← push_labels (split_on 46 name);
    Ok (msg ++ labels ++ [0] ++ to_be 2 (qtype record_type) ++ to_be 2 1).

(** ** Response *)
(** [skip_name]: every turn moves forward, so [length buf] turns are enough;
    [Panic] also stands for running out of them. *)
Fixpoint skip_name_go (fuel : nat) (buf : bytes) (pos : Z) : res dns_error Z :=
  match fuel with
  | O => Panic
  | S fuel' =>
      if zlen buf <=? pos then Err NameOutOfBounds else
      len ← idx buf pos;
      if len =? 0 then Ok (pos + 1)
      else if Z.land len 192 =? 192 then
        if zlen buf <=? pos + 1 then Err PointerOutOfBounds else Ok (pos + 2)
      else skip_name_go fuel' buf (pos + (1 + len))
  end.
Definition skip_name (buf : bytes) (pos : Z) : res dns_error Z := skip_name_go (S (length buf)) buf pos.

Definition u16_at (buf : bytes) (pos : Z) : res dns_error Z :=
  a ← idx buf pos; b ← idx buf (pos + 1); Ok (be_val [a; b]).
Definition u32_at (buf : bytes) (pos : Z) : res dns_error Z :=
  a ← idx buf pos; b ← idx buf (pos + 1); c ← idx buf (pos + 2); d ← idx buf (pos + 3); Ok (be_val [a; b; c; d]).

Fixpoint skip_questions (n : nat) (buf : bytes) (pos : Z) : res dns_error Z :=
  match n with
  | O => Ok pos
  | S n' =>
      pos ← skip_name buf pos;
      if zlen buf <? pos + 4 then Err QuestionIncomplete else skip_questions n' buf (pos + 4)
  end.

Fixpoint parse_answers (n : nat) (buf : bytes) (record_type : RecordType) (pos : Z) (addrs : list IpAddr) (min_ttl : Z)
    : res dns_error (list IpAddr * Z) :=
  match n with
  | O => Ok (addrs, min_ttl)
  | S n' =>
      pos ← skip_name buf pos;
      if zlen buf <? pos + 10 then Err AnswerIncomplete else
      rtype ← u16_at buf pos;
      ttl ← u32_at buf (pos + 4);
      rdlength ← u16_at buf (pos + 8);
      let pos := pos + 10 in
      if zlen buf <? pos + rdlength then Err RdataIncomplete else
      match record_type with
      | A =>
          if (rtype =? 1) && (rdlength =? 4) then
            a ← idx buf pos; b ← idx buf (pos + 1); c ← idx buf (pos + 2); d ← idx buf (pos + 3);
            parse_answers n' buf record_type (pos + rdlength) (addrs ++ [V4 [a; b; c; d]]) (Z.min min_ttl ttl)
          else parse_answers n' buf record_type (pos + rdlength) addrs min_ttl
      | Aaaa =>
          if (rtype =? 28) && (rdlength =? 16) then
            octets ← slice buf pos (pos + 16);
            parse_answers n' buf record_type (pos + rdlength) (addrs ++ [V6 octets]) (Z.min min_ttl ttl)
          else parse_answers n' buf record_type (pos + rdlength) addrs min_ttl
      end
  end.

Definition parse_dns_response (buf : bytes) (expected_id : Z) (record_type : RecordType)
    : res dns_error (list IpAddr * Z) :=
  if zlen buf <? 12 then Err TooShort else
  id ← u16_at buf 0;
  if negb (id =? expected_id) then Err (IdMismatch id) else
  flags ← u16_at buf 2;
  if Z.land flags 32768 =? 0 then Err NotResponse else
  if negb (Z.land flags 512 =? 0) then Err Truncated else
  let rcode := Z.land flags 15 in
  if rcode =? 3 then Err NxDomain else
  if negb (rcode =? 0) then Err (Rcode rcode) else
  qdcount ← u16_at buf 4;
  ancount ← u16_at buf 6;
  pos ← skip_questions (Z.to_nat qdcount) buf 12;
  parse_answers (Z.to_nat ancount) buf record_type pos [] U32_MAX.

(** ** The cache of [dns.rs]; time is in seconds *)
Definition CACHE_MIN_TTL : Z := 5.
Definition CACHE_MAX_TTL : Z := 300.
Definition clamp (lo hi v : Z) : Z := Z.max lo (Z.min hi v).

Abbreviation key := (SocketAddr * bytes * RecordType)%type.
Record CacheEntry := mk_entry { addrs : list IpAddr; expires_at : Z }.
Abbreviation DnsCache := (gmap key CacheEntry).

Definition cache_get (c : DnsCache) (k : key) (now : Z) : option (list IpAddr) :=
  e ← c !! k; if now <? expires_at e then Some (addrs e) else None.

Definition cache_put (c : DnsCache) (k : key) (a : list IpAddr) (ttl_secs now : Z) : DnsCache :=
  let ttl := clamp CACHE_MIN_TTL CACHE_MAX_TTL ttl_secs in
  let c := if (512 <=? size c)%nat then
             let c' := filter (fun kv => now < expires_at kv.2) c in
             if (512 <=? size c')%nat then ∅ else c'
           else c in
  <[k := mk_entry a (now + ttl)]> c.

(** ** The resolver loop *)
Inductive recv_event :=
| Received (dgram : bytes) (from : SocketAddr)   (** [recv_from] filled [buf] with [dgram] *)
| RecvError (k : ErrorKind)
| RetryTick.                       (** [RETRY_INTERVAL] passes without a datagram *)

Inductive resolve_error := QueryInvalid (e : dns_error) | BindFailed (k : ErrorKind) | SendFailed (k : ErrorKind)
  | RecvFailed (k : ErrorKind) | ResponseInvalid (e : dns_error) | BudgetExhausted.

Record resolver := mk_resolver { r_cache : DnsCache; r_sent : list bytes }.

(** [send_result i]: the outcome of the [i]-th transmission. *)
Fixpoint resolve_loop (send_result : nat -> option ErrorKind) (query : bytes) (query_id : Z) (server : SocketAddr)
    (k : key) (rt : RecordType) (now : Z) (evs : list recv_event) (st : resolver)
    : res resolve_error (list IpAddr) * resolver :=
  match evs with
  | [] => (Err BudgetExhausted, st)
  | Received dgram from :: evs' =>
      if bool_decide (from = server) then
        match parse_dns_response dgram query_id rt with
        | Ok (a, ttl) =>
            let cache_ttl := match a with [] => CACHE_MIN_TTL | _ => ttl end in
            (Ok a, mk_resolver (cache_put (r_cache st) k a cache_ttl now) (r_sent st))
        | Err e => (Err (ResponseInvalid e), st)
        | Panic => (Panic, st)
        end
      else resolve_loop send_result query query_id server k rt now evs' st
  | RecvError e :: _ => (Err (RecvFailed e), st)
  | RetryTick :: evs' =>
      match send_result (length (r_sent st)) with
      | Some e => (Err (SendFailed e), st)
      | None => resolve_loop send_result query query_id server k rt now evs'
                  (mk_resolver (r_cache st) (r_sent st ++ [query]))
      end
  end.

(** [now] is the clock at the cache lookup, [later] the clock at the store. *)
Definition resolve (bind : option ErrorKind) (send_result : nat -> option ErrorKind) (query_id : Z)
    (server : SocketAddr) (name : bytes) (rt : RecordType) (now later : Z) (evs : list recv_event) (cache : DnsCache)
    : res resolve_error (list IpAddr) * resolver :=
  let k := (server, to_ascii_lowercase name, rt) in
  match cache_get cache k now with
  | Some a => (Ok a, mk_resolver cache [])
  | None =>
      match encode_dns_query query_id name rt with
      | Ok query =>
          match bind with
          | Some e => (Err (BindFailed e), mk_resolver cache [])
          | None =>
              match send_result 0%nat with
              | Some e => (Err (SendFailed e), mk_resolver cache [])
              | None => resolve_loop send_result query query_id server k rt later evs (mk_resolver cache [query])
              end
          end
      | Err e => (Err (QueryInvalid e), mk_resolver cache [])
      | Panic => (Panic, mk_resolver cache [])
      end
  end.
End Dns.

Module DnsFacts.
Import Dns.

(** *** No datagram makes the parser panic *)
Lemma skip_name_go_spec fuel buf pos : bytes_ok buf -> 0 <= pos -> Z.max 0 (zlen buf - pos) < Z.of_nat fuel ->
  no_panic (skip_name_go fuel buf pos)
  /\ forall p, skip_name_go fuel buf pos = Ok p -> pos < p <= zlen buf.
Proof.
  intros Hb. revert pos. induction fuel as [|fuel IH]; intros pos Hp Hf; cbn [skip_name_go].
  - simpl in Hf. lia.
  - destruct (Z.leb_spec (zlen buf) pos); [done|].
    destruct (idx_ok (E:=dns_error) buf pos) as (len & Hi & _); [lia|]. rewrite Hi. cbn [mbind res_bind].
    pose proof (idx_byte _ _ _ Hb Hi) as Hl. unfold is_byte in Hl.
    destruct (len =? 0); [split; [done|]; intros p [= <-]; lia|].
    destruct (Z.land len 192 =? 192).
    + destruct (Z.leb_spec (zlen buf) (pos + 1)); [done|]. split; [done|]. intros p [= <-]. lia.
    + destruct (IH (pos + (1 + len))) as [H1 H2]; [lia|lia|]. split; [done|]. intros p Hpp. specialize (H2 p Hpp). lia.
Qed.

Lemma skip_name_spec buf pos : bytes_ok buf -> 0 <= pos ->
  no_panic (skip_name buf pos) /\ forall p, skip_name buf pos = Ok p -> pos < p <= zlen buf.
Proof. intros. apply skip_name_go_spec; [done..|]. unfold zlen. lia. Qed.

Lemma u16_at_no_panic buf pos : 0 <= pos -> pos + 2 <= zlen buf -> no_panic (u16_at buf pos).
Proof. intros. unfold u16_at. np. Qed.
Lemma u32_at_no_panic buf pos : 0 <= pos -> pos + 4 <= zlen buf -> no_panic (u32_at buf pos).
Proof. intros. unfold u32_at. np. Qed.

Lemma u16_at_bound buf pos v : bytes_ok buf -> u16_at buf pos = Ok v -> u16 v.
Proof.
  intros Hb H. unfold u16_at in H. inv_ok H.
  pose proof (idx_byte _ _ _ Hb E). pose proof (idx_byte _ _ _ Hb E0).
  unfold is_byte, u16, U16_MAX, be_val in *. cbn [fold_left]. lia.
Qed.

Lemma u32_at_bound buf pos v : bytes_ok buf -> u32_at buf pos = Ok v -> u32 v.
Proof.
  intros Hb H. unfold u32_at in H. inv_ok H.
  pose proof (idx_byte _ _ _ Hb E). pose proof (idx_byte _ _ _ Hb E0).
  pose proof (idx_byte _ _ _ Hb E1). pose proof (idx_byte _ _ _ Hb E2).
  unfold is_byte, u32, U32_MAX, be_val in *. cbn [fold_left]. lia.
Qed.

Lemma skip_questions_spec n buf pos : bytes_ok buf -> 0 <= pos ->
  no_panic (skip_questions n buf pos) /\ forall p, skip_questions n buf pos = Ok p -> pos <= p.
Proof.
  intros Hb. revert pos. induction n as [|n IH]; intros pos Hp; cbn [skip_questions].
  - split; [done|]. intros p [= <-]. lia.
  - destruct (skip_name_spec buf pos Hb Hp) as [Hn Hs].
    destruct (skip_name buf pos) as [q|e|]; [|done..]. specialize (Hs q eq_refl). cbn [mbind res_bind].
    destruct (zlen buf <? q + 4); [done|]. destruct (IH (q + 4)) as [H1 H2]; [lia|]. split; [done|].
    intros p Hpp. specialize (H2 p Hpp). lia.
Qed.

Definition ips_ok (rt : RecordType) (l : list IpAddr) : Prop :=
  Forall (fun a => ip_wf a /\ match rt, a with A, V4 _ | Aaaa, V6 _ => True | _, _ => False end) l.

Lemma parse_answers_spec n buf rt pos acc ttl :
  bytes_ok buf -> 0 <= pos -> ips_ok rt acc -> u32 ttl ->
  no_panic (parse_answers n buf rt pos acc ttl)
  /\ forall l t, parse_answers n buf rt pos acc ttl = Ok (l, t) -> ips_ok rt l /\ u32 t /\ (length l <= length acc + n)%nat.
Proof.
  intros Hb. revert pos acc ttl. induction n as [|n IH]; intros pos acc ttl Hp Ha Ht; cbn [parse_answers].
  - split; [done|]. intros l t [= <- <-]. split_and!; try done. lia.
  - destruct (skip_name_spec buf pos Hb Hp) as [Hn Hs].
    destruct (skip_name buf pos) as [q|e|]; [|done..]. specialize (Hs q eq_refl). cbn [mbind res_bind].
    destruct (Z.ltb_spec (zlen buf) (q + 10)); [done|].
    pose proof (u16_at_no_panic buf q ltac:(lia) ltac:(lia)). destruct (u16_at buf q) as [rtype|e|]; [|done..].
    pose proof (u32_at_no_panic buf (q + 4) ltac:(lia) ltac:(lia)).
    destruct (u32_at buf (q + 4)) as [tt|e|] eqn:Ett; [|done..]. cbn [mbind res_bind].
    pose proof (u16_at_no_panic buf (q + 8) ltac:(lia) ltac:(lia)).
    destruct (u16_at buf (q + 8)) as [rd|e|] eqn:Erd; [|done..]. cbn [mbind res_bind]. cbn zeta.
    pose proof (u16_at_bound _ _ _ Hb Erd) as Brd. pose proof (u32_at_bound _ _ _ Hb Ett) as Btt.
    unfold u16, u32 in *.
    destruct (Z.ltb_spec (zlen buf) (q + 10 + rd)); [done|].
    assert (Hskip : forall acc' ttl', ips_ok rt acc' -> u32 ttl' -> (length acc' <= length acc + 1)%nat ->
       no_panic (parse_answers n buf rt (q + 10 + rd) acc' ttl')
       /\ forall l t, parse_answers n buf rt (q + 10 + rd) acc' ttl' = Ok (l, t) ->
            ips_ok rt l /\ u32 t /\ (length l <= length acc + S n)%nat).
    { intros acc' ttl' Ha' Ht' Hlen. destruct (IH (q + 10 + rd) acc' ttl') as [H1' H2']; [lia|done..|].
      split; [done|]. intros l t Hlt. destruct (H2' l t Hlt) as (? & ? & ?). split_and!; try done. lia. }
    assert (Hmin : u32 (Z.min ttl tt)) by (unfold u32 in *; lia).
    destruct rt.
    + destruct (rtype =? 1), (Z.eqb_spec rd 4) as [Hrd|]; cbn [andb]; try (apply Hskip; [done|done|lia]).
      pose proof (fun i H => idx_ok (E:=dns_error) buf i H) as Hi.
      destruct (Hi (q + 10) ltac:(lia)) as (b1 & E1 & _), (Hi (q + 10 + 1) ltac:(lia)) as (b2 & E2 & _),
        (Hi (q + 10 + 2) ltac:(lia)) as (b3 & E3 & _), (Hi (q + 10 + 3) ltac:(lia)) as (b4 & E4 & _).
      rewrite E1, E2, E3, E4. cbn [mbind res_bind].
      apply Hskip; [|done|rewrite length_app; simpl; lia].
      apply Forall_app; split; [done|]. constructor; [|constructor]. split; [|done].
      split; [done|]. repeat constructor; eapply idx_byte; eauto.
    + destruct (rtype =? 28), (Z.eqb_spec rd 16) as [Hrd|]; cbn [andb]; try (apply Hskip; [done|done|lia]).
      rewrite slice_ok by lia. cbn [mbind res_bind].
      apply Hskip; [|done|rewrite length_app; simpl; lia].
      apply Forall_app; split; [done|]. constructor; [|constructor]. split; [|done].
      split; [|by apply Forall_take, Forall_drop].
      rewrite length_take, length_drop. unfold zlen in *. lia.
Qed.

(** *** Responses on the wire *)
Inductive wire_name := Labels (ls : list bytes) | Pointed (ls : list bytes) (hi lo : Z).

Definition label_ok (l : bytes) : Prop := 0 < zlen l < 64 /\ bytes_ok l.
Definition name_ok (n : wire_name) : Prop :=
  match n with
  | Labels ls => Forall label_ok ls
  | Pointed ls hi lo => Forall label_ok ls /\ 192 <= hi < 256
  end.
Definition enc_labels (ls : list bytes) : bytes := concat (map (fun l => zlen l :: l) ls).
Definition enc_name (n : wire_name) : bytes :=
  match n with
  | Labels ls => enc_labels ls ++ [0]
  | Pointed ls hi lo => enc_labels ls ++ [hi; lo]
  end.

Record answer := mk_answer { an_name : wire_name; an_type : Z; an_class : Z; an_ttl : Z; an_rdata : bytes }.
Definition answer_ok (a : answer) : Prop :=
  name_ok (an_name a) /\ u16 (an_type a) /\ u32 (an_ttl a) /\ zlen (an_rdata a) <= U16_MAX.
Definition enc_answer (a : answer) : bytes :=
  enc_name (an_name a) ++ to_be 2 (an_type a) ++ to_be 2 (an_class a) ++ to_be 4 (an_ttl a)
  ++ to_be 2 (zlen (an_rdata a)) ++ an_rdata a.
Definition enc_question (q : wire_name * Z * Z) : bytes := enc_name q.1.1 ++ to_be 2 q.1.2 ++ to_be 2 q.2.

Definition enc_response (id flags : Z) (qs : list (wire_name * Z * Z)) (ans : list answer) (rest : bytes) : bytes :=
  (to_be 2 id ++ to_be 2 flags ++ to_be 2 (zlen qs) ++ to_be 2 (zlen ans) ++ [0; 0; 0; 0])
  ++ concat (map enc_question qs) ++ concat (map enc_answer ans) ++ rest.

(** The address an answer contributes to a lookup of type [rt]. *)
Definition select (rt : RecordType) (a : answer) : option IpAddr :=
  match rt with
  | A => if (an_type a =? 1) && (zlen (an_rdata a) =? 4) then Some (V4 (an_rdata a)) else None
  | Aaaa => if (an_type a =? 28) && (zlen (an_rdata a) =? 16) then Some (V6 (an_rdata a)) else None
  end.
Definition min_ttl_of (rt : RecordType) (ans : list answer) (start : Z) : Z :=
  fold_left (fun t a => match select rt a with Some _ => Z.min t (an_ttl a) | None => t end) ans start.

Lemma u16_at_enc pre v suf n : n = zlen pre -> u16 v -> u16_at (pre ++ to_be 2 v ++ suf) n = Ok v.
Proof.
  intros -> Hv. unfold u16_at. cbn [to_be app].
  rewrite (idx_at pre ((v / 256) mod 256) _ (zlen pre)) by done. cbn [mbind res_bind].
  replace (pre ++ (v / 256) mod 256 :: v mod 256 :: suf) with ((pre ++ [(v / 256) mod 256]) ++ v mod 256 :: suf)
    by by rewrite <-app_assoc.
  rewrite (idx_at _ (v mod 256) _ (zlen pre + 1)) by (by rewrite zlen_app). cbn [mbind res_bind]. f_equal.
  change (be_val (to_be 2 v) = v). apply be_val_to_be. unfold u16, U16_MAX in Hv. simpl. lia.
Qed.

Lemma u32_at_enc pre v suf n : n = zlen pre -> u32 v -> u32_at (pre ++ to_be 4 v ++ suf) n = Ok v.
Proof.
  intros -> Hv. unfold u32_at.
  destruct (to_be 4 v) as [|a [|b [|c [|d [|]]]]] eqn:E; try (apply (f_equal length) in E; by rewrite to_be_length in E).
  rewrite (idx_mid pre [a; b; c; d] suf 0 a (zlen pre)), (idx_mid pre [a; b; c; d] suf 1 b (zlen pre + 1)),
    (idx_mid pre [a; b; c; d] suf 2 c (zlen pre + 2)), (idx_mid pre [a; b; c; d] suf 3 d (zlen pre + 3)) by (done || lia).
  cbn [mbind res_bind]. f_equal.
  rewrite <-E. apply be_val_to_be. unfold u32, U32_MAX in Hv. simpl. lia.
Qed.

Lemma label_not_pointer len : 0 < len < 64 -> (len =? 0) = false /\ (Z.land len 192 =? 192) = false.
Proof.
  intros H. split; [lia|]. apply Z.eqb_neq. intros E.
  assert (Z.land len 192 = 0); [|lia].
  apply Z.bits_inj'. intros n Hn. rewrite Z.land_spec, Z.bits_0.
  destruct (Z.le_gt_cases n 5) as [Hs|Hs].
  - assert (n = 0 \/ n = 1 \/ n = 2 \/ n = 3 \/ n = 4 \/ n = 5) as Hc by lia.
    destruct Hc as [->|[->|[->|[->|[->| ->]]]]]; apply andb_false_r.
  - rewrite Z.bits_above_log2, andb_false_l; [done|lia|].
    apply Z.log2_lt_pow2; [lia|]. eapply Z.lt_le_trans; [apply H|]. change 64 with (2 ^ 6). apply Z.pow_le_mono_r; lia.
Qed.

Lemma pointer_byte hi : 192 <= hi < 256 -> (hi =? 0) = false /\ (Z.land hi 192 =? 192) = true.
Proof.
  intros H. split; [lia|]. assert (Hin : forallb (fun h => Z.land h 192 =? 192) (seqZ 192 64) = true) by reflexivity.
  rewrite forallb_forall in Hin. apply Hin. apply list_elem_of_In, elem_of_seqZ. lia.
Qed.

Lemma skip_name_go_enc fuel pre n suf : name_ok n -> (length (enc_name n) <= fuel)%nat ->
  skip_name_go fuel (pre ++ enc_name n ++ suf) (zlen pre) = Ok (zlen pre + zlen (enc_name n)).
Proof.
  assert (Hlab : forall ls fuel pre tail q,
    Forall label_ok ls -> (length (enc_labels ls) + 1 <= fuel)%nat ->
    (forall fuel' pre', (0 < fuel')%nat -> skip_name_go fuel' (pre' ++ tail) (zlen pre') = Ok (zlen pre' + q)) ->
    skip_name_go fuel (pre ++ enc_labels ls ++ tail) (zlen pre) = Ok (zlen pre + zlen (enc_labels ls) + q)).
  { intros ls. induction ls as [|l ls IH]; intros f pr tail q Hls Hf Hend.
    - cbn [enc_labels map concat app]. rewrite Hend by lia. f_equal. change (zlen (@nil Z)) with 0. lia.
    - apply Forall_cons in Hls as [[Hl Hlb] Hls]. destruct f as [|f]; [lia|].
      unfold enc_labels in *. cbn [map concat app skip_name_go] in *. cbn [length] in Hf. rewrite length_app in Hf.
      pose proof (zlen_nonneg pr). pose proof (zlen_nonneg tail).
      rewrite (proj2 (Z.leb_gt _ _)) by zl.
      rewrite (idx_at pr (zlen l) _ (zlen pr)) by done. cbn [mbind res_bind].
      destruct (label_not_pointer (zlen l) Hl) as [-> ->].
      replace (pr ++ zlen l :: (l ++ concat (map (fun l0 => zlen l0 :: l0) ls)) ++ tail)
        with ((pr ++ zlen l :: l) ++ concat (map (fun l0 => zlen l0 :: l0) ls) ++ tail)
        by (rewrite <-!app_assoc; cbn [app]; by rewrite <-?app_assoc).
      replace (zlen pr + (1 + zlen l)) with (zlen (pr ++ zlen l :: l)) by zl.
      rewrite (IH f (pr ++ zlen l :: l) tail q) by (try done; simpl in Hf; lia). f_equal. zl. }
  intros Hn Hf. destruct n as [ls|ls hi lo]; cbn [enc_name] in *; rewrite length_app in Hf; rewrite <-app_assoc.
  - rewrite (Hlab ls fuel pre ([0] ++ suf) 1); [f_equal; zl|done|simpl in Hf; lia|].
    intros [|f] pr Hf0; [lia|]. cbn [skip_name_go app]. pose proof (zlen_nonneg suf). pose proof (zlen_nonneg pr).
    rewrite (proj2 (Z.leb_gt _ _)) by zl. by rewrite (idx_at pr 0 suf (zlen pr)).
  - destruct Hn as [Hls Hhi]. rewrite (Hlab ls fuel pre ([hi; lo] ++ suf) 2); [f_equal; zl|done|simpl in Hf; lia|].
    intros [|f] pr Hf0; [lia|]. cbn [skip_name_go app]. pose proof (zlen_nonneg suf). pose proof (zlen_nonneg pr).
    rewrite (proj2 (Z.leb_gt _ _)) by zl. rewrite (idx_at pr hi (lo :: suf) (zlen pr)) by done. cbn [mbind res_bind].
    destruct (pointer_byte hi Hhi) as [-> ->]. by rewrite (proj2 (Z.leb_gt _ _)) by zl.
Qed.

Lemma skip_name_enc pre n suf p : p = zlen pre -> name_ok n ->
  skip_name (pre ++ enc_name n ++ suf) p = Ok (zlen pre + zlen (enc_name n)).
Proof. intros -> Hn. apply skip_name_go_enc; [done|]. rewrite !length_app. lia. Qed.

Lemma skip_questions_enc qs pre suf p : p = zlen pre -> Forall (fun q => name_ok q.1.1) qs ->
  skip_questions (length qs) (pre ++ concat (map enc_question qs) ++ suf) p
  = Ok (zlen pre + zlen (concat (map enc_question qs))).
Proof.
  intros -> Hq. revert pre. induction Hq as [|[[n t] c] qs Hn Hq IH]; intros pre; cbn [length skip_questions map concat].
  - f_equal. change (zlen (@nil Z)) with 0. lia.
  - change (enc_question (n, t, c)) with (enc_name n ++ to_be 2 t ++ to_be 2 c). rewrite <-!app_assoc.
    rewrite (skip_name_enc pre n _ _ eq_refl Hn). cbn [mbind res_bind].
    rewrite (proj2 (Z.ltb_ge _ _)) by zl.
    replace (pre ++ enc_name n ++ to_be 2 t ++ to_be 2 c ++ concat (map enc_question qs) ++ suf)
      with ((pre ++ enc_name n ++ to_be 2 t ++ to_be 2 c) ++ concat (map enc_question qs) ++ suf)
      by by rewrite <-!app_assoc.
    replace (zlen pre + zlen (enc_name n) + 4) with (zlen (pre ++ enc_name n ++ to_be 2 t ++ to_be 2 c)) by zl.
    rewrite IH. f_equal. zl.
Qed.

Lemma parse_answers_enc ans rt pre suf acc ttl p : p = zlen pre -> Forall answer_ok ans ->
  parse_answers (length ans) (pre ++ concat (map enc_answer ans) ++ suf) rt p acc ttl
  = Ok (acc ++ omap (select rt) ans, min_ttl_of rt ans ttl).
Proof.
  intros -> Ha. revert pre acc ttl. induction Ha as [|a ans (Hn & Ht & Httl & Hrd) Ha IH]; intros pre acc ttl;
    cbn [length parse_answers map concat omap list_omap].
  - by rewrite app_nil_r.
  - change (enc_answer a) with (enc_name (an_name a) ++ to_be 2 (an_type a) ++ to_be 2 (an_class a)
      ++ to_be 4 (an_ttl a) ++ to_be 2 (zlen (an_rdata a)) ++ an_rdata a). rewrite <-!app_assoc.
    rewrite (skip_name_enc pre (an_name a) _ _ eq_refl Hn). cbn [mbind res_bind].
    set (tail := concat (map enc_answer ans) ++ suf).
    set (P := pre ++ enc_name (an_name a)).
    assert (HP : zlen pre + zlen (enc_name (an_name a)) = zlen P) by (subst P; zl). rewrite HP.
    set (buf := pre ++ enc_name (an_name a) ++ _).
    assert (Hlen : zlen buf = zlen P + 10 + zlen (an_rdata a) + zlen tail) by (subst buf P; clear HP; zl).
    assert (B1 : buf = P ++ to_be 2 (an_type a) ++ to_be 2 (an_class a) ++ to_be 4 (an_ttl a)
                  ++ to_be 2 (zlen (an_rdata a)) ++ an_rdata a ++ tail) by (subst buf P; by rewrite <-app_assoc).
    assert (B2 : buf = (P ++ to_be 2 (an_type a) ++ to_be 2 (an_class a)) ++ to_be 4 (an_ttl a)
                  ++ to_be 2 (zlen (an_rdata a)) ++ an_rdata a ++ tail) by (rewrite B1; by rewrite <-!app_assoc).
    assert (B3 : buf = (P ++ to_be 2 (an_type a) ++ to_be 2 (an_class a) ++ to_be 4 (an_ttl a))
                  ++ to_be 2 (zlen (an_rdata a)) ++ an_rdata a ++ tail) by (rewrite B1; by rewrite <-!app_assoc).
    set (Q := P ++ to_be 2 (an_type a) ++ to_be 2 (an_class a) ++ to_be 4 (an_ttl a) ++ to_be 2 (zlen (an_rdata a))).
    assert (B4 : buf = Q ++ an_rdata a ++ tail) by (subst Q; rewrite B1; by rewrite <-!app_assoc).
    assert (B5 : buf = (Q ++ an_rdata a) ++ tail) by (by rewrite B4, <-app_assoc).
    assert (HQ : zlen P + 10 = zlen Q) by (subst Q; clear Hlen HP; zl).
    clearbody buf. pose proof (zlen_nonneg (an_rdata a)). pose proof (zlen_nonneg tail).
    rewrite (proj2 (Z.ltb_ge _ _)) by lia.
    rewrite B1 at 1. rewrite u16_at_enc by done. cbn [mbind res_bind].
    rewrite B2 at 1. rewrite u32_at_enc by (try done; zl). cbn [mbind res_bind].
    rewrite B3 at 1. rewrite u16_at_enc by (try (unfold u16; lia); zl). cbn [mbind res_bind].
    rewrite (proj2 (Z.ltb_ge _ _)) by lia. rewrite HQ.
    replace (zlen Q + zlen (an_rdata a)) with (zlen (Q ++ an_rdata a)) by zl.
    assert (Hnext : forall acc' ttl', parse_answers (length ans) buf rt (zlen (Q ++ an_rdata a)) acc' ttl'
                    = Ok (acc' ++ omap (select rt) ans, min_ttl_of rt ans ttl')).
    { intros. rewrite B5. unfold tail. apply IH. }
    unfold min_ttl_of in *. cbn [fold_left].
    pose proof (eq_refl (select rt a)) as Hs. unfold select in Hs at 2. destruct rt.
    + destruct (an_type a =? 1), (Z.eqb_spec (zlen (an_rdata a)) 4) as [H4|]; cbn [andb] in *; rewrite Hs; try apply Hnext.
      assert (Hr : exists b1 b2 b3 b4, an_rdata a = [b1; b2; b3; b4]).
      { destruct (an_rdata a) as [|b1 [|b2 [|b3 [|b4 [|]]]]]; unfold zlen in H4; simpl in H4; try lia. eauto 10. }
      destruct Hr as (b1 & b2 & b3 & b4 & Hr). rewrite Hr in *.
      rewrite B4, (idx_mid Q [b1; b2; b3; b4] tail 0 b1 (zlen Q)), (idx_mid Q [b1; b2; b3; b4] tail 1 b2 (zlen Q + 1)),
        (idx_mid Q [b1; b2; b3; b4] tail 2 b3 (zlen Q + 2)), (idx_mid Q [b1; b2; b3; b4] tail 3 b4 (zlen Q + 3)) by (done || lia).
      cbn [mbind res_bind]. rewrite <-B4.
      rewrite Hnext. by rewrite <-app_assoc.
    + destruct (an_type a =? 28), (Z.eqb_spec (zlen (an_rdata a)) 16) as [H4|]; cbn [andb] in *; rewrite Hs; try apply Hnext.
      rewrite B4 at 1. rewrite (slice_at Q (an_rdata a) tail) by (rewrite ?H4; done). cbn [mbind res_bind].
      rewrite Hnext. by rewrite <-app_assoc.
Qed.

Lemma header_u16 id flags nq na rest :
  u16 id -> u16 flags -> u16 nq -> u16 na ->
  let buf := (to_be 2 id ++ to_be 2 flags ++ to_be 2 nq ++ to_be 2 na ++ [0; 0; 0; 0]) ++ rest in
  u16_at buf 0 = Ok id /\ u16_at buf 2 = Ok flags /\ u16_at buf 4 = Ok nq /\ u16_at buf 6 = Ok na.
Proof.
  intros H1 H2 H3 H4. cbn zeta. rewrite <-!app_assoc. split_and!.
  - by apply (u16_at_enc []).
  - by apply (u16_at_enc (to_be 2 id)).
  - rewrite (app_assoc (to_be 2 id)). by apply (u16_at_enc (to_be 2 id ++ to_be 2 flags)).
  - rewrite (app_assoc (to_be 2 flags)), (app_assoc (to_be 2 id)).
    by apply (u16_at_enc (to_be 2 id ++ to_be 2 flags ++ to_be 2 nq)).
Qed.

(** The verdict on the header flags. *)
Definition flags_error (flags : Z) : option dns_error :=
  if Z.land flags 32768 =? 0 then Some NotResponse
  else if negb (Z.land flags 512 =? 0) then Some Truncated
  else if Z.land flags 15 =? 3 then Some NxDomain
  else if negb (Z.land flags 15 =? 0) then Some (Rcode (Z.land flags 15))
  else None.

Lemma parse_total buf id rt : bytes_ok buf ->
  no_panic (parse_dns_response buf id rt)
  /\ forall l t, parse_dns_response buf id rt = Ok (l, t) -> ips_ok rt l /\ u32 t.
Proof.
  intros Hb. unfold parse_dns_response. destruct (Z.ltb_spec (zlen buf) 12) as [|Hlen]; [done|].
  assert (H16 : forall i, 0 <= i <= 10 -> exists v, u16_at buf i = Ok v).
  { intros i Hi. unfold u16_at. destruct (idx_ok (E:=dns_error) buf i ltac:(lia)) as (a & -> & _).
    destruct (idx_ok (E:=dns_error) buf (i + 1) ltac:(lia)) as (c & -> & _). eauto. }
  destruct (H16 0) as [i0 E0], (H16 2) as [fl E2], (H16 4) as [qd E4], (H16 6) as [an E6]; try lia.
  rewrite E0. cbn [mbind res_bind]. destruct (negb (i0 =? id)); [done|].
  rewrite E2. cbn [mbind res_bind]. cbn zeta.
  destruct (_ =? 0); [done|]. destruct (negb _); [done|]. destruct (_ =? 3); [done|]. destruct (negb _); [done|].
  rewrite E4, E6. cbn [mbind res_bind].
  destruct (skip_questions_spec (Z.to_nat qd) buf 12 Hb ltac:(lia)) as [Hn Hs].
  destruct (skip_questions (Z.to_nat qd) buf 12) as [p|e|]; [|done..]. specialize (Hs p eq_refl). cbn [mbind res_bind].
  destruct (parse_answers_spec (Z.to_nat an) buf rt p [] U32_MAX Hb) as [H1 H2]; [lia|by constructor|unfold u32, U32_MAX; lia|].
  split; [done|]. intros l t Hlt. by destruct (H2 l t Hlt) as (? & ? & _).
Qed.

Lemma parse_no_panic buf id rt : bytes_ok buf -> no_panic (parse_dns_response buf id rt).
Proof. intros Hb. by destruct (parse_total buf id rt Hb). Qed.

(** The response parser is total on arbitrary datagrams: no index is out of
    range and the name loop ends; what it returns are well-formed addresses of
    the requested family, with a TTL that fits 32 bits. *)
Theorem parse_dns_response_safe buf id rt : bytes_ok buf ->
  no_panic (parse_dns_response buf id rt)
  /\ forall l t, parse_dns_response buf id rt = Ok (l, t) -> ips_ok rt l /\ u32 t.
Proof. apply parse_total. Qed.

Lemma parse_dns_response_safe_witness : no_panic (parse_dns_response [0; 7; 129; 128; 0; 1; 0; 1; 0; 0; 0; 0; 63] 7 A).
Proof. apply parse_dns_response_safe. repeat (constructor; [unfold is_byte; lia|]). constructor. Defined.

(** C37. Every well-formed response is read exactly: after the id check and the flag
    verdict (not a response, truncated, NXDOMAIN, another RCODE), the result is
    the list of A (or AAAA) addresses in answer order, whatever other records,
    compressed or not, surround them, and the smallest of their TTLs. *)
Theorem parse_dns_response_exact id flags qs ans rest expected rt :
  u16 id -> u16 flags -> zlen qs <= U16_MAX -> zlen ans <= U16_MAX ->
  Forall (fun q => name_ok q.1.1) qs -> Forall answer_ok ans ->
  parse_dns_response (enc_response id flags qs ans rest) expected rt
  = if negb (id =? expected) then Err (IdMismatch id)
    else match flags_error flags with
         | Some e => Err e
         | None => Ok (omap (select rt) ans, min_ttl_of rt ans U32_MAX)
         end.
Proof.
  intros Hi Hf Hq Ha Hqs Hans. unfold parse_dns_response, enc_response.
  set (head := to_be 2 id ++ _). set (tail := concat (map enc_question qs) ++ _).
  assert (Hh : zlen head = 12) by (subst head; zl).
  destruct (header_u16 id flags (zlen qs) (zlen ans) tail) as (E0 & E2 & E4 & E6);
    [done|done|split; [apply zlen_nonneg|done]..|]. fold head in E0, E2, E4, E6.
  rewrite (proj2 (Z.ltb_ge _ _)) by zl. rewrite E0. cbn [mbind res_bind].
  destruct (negb (id =? expected)); [done|]. rewrite E2. cbn [mbind res_bind]. unfold flags_error.
  destruct (Z.land flags 32768 =? 0); [done|]. destruct (negb (Z.land flags 512 =? 0)); [done|]. cbn zeta.
  destruct (Z.land flags 15 =? 3); [done|]. destruct (negb (Z.land flags 15 =? 0)); [done|].
  rewrite E4, E6. cbn [mbind res_bind]. unfold tail.
  assert (Hnat : forall T (l : list T), Z.to_nat (zlen l) = length l) by (intros; unfold zlen; lia). rewrite !Hnat.
  rewrite (skip_questions_enc qs head _ 12) by done. cbn [mbind res_bind].
  rewrite app_assoc.
  rewrite (parse_answers_enc ans rt (head ++ concat (map enc_question qs))) by (try done; by rewrite zlen_app). done.
Qed.

Lemma parse_dns_response_exact_witness :
  parse_dns_response (enc_response 7 33152 [(Labels [[97]], 1, 1)]
      [mk_answer (Pointed [] 192 12) 5 1 60 [192; 12]; mk_answer (Pointed [] 192 12) 1 1 30 [1; 2; 3; 4]] []) 7 A
  = Ok ([V4 [1; 2; 3; 4]], 30).
Proof.
  apply (parse_dns_response_exact 7 33152 [(Labels [[97]], 1, 1)]
      [mk_answer (Pointed [] 192 12) 5 1 60 [192; 12]; mk_answer (Pointed [] 192 12) 1 1 30 [1; 2; 3; 4]] [] 7 A).
  1-4: try split; vm_compute; discriminate.
  - constructor; [|constructor]. constructor; [|constructor]. split; [split; vm_compute; reflexivity|].
    constructor; [unfold is_byte; lia|constructor].
  - constructor; [|constructor; [|constructor]].
    all: split; [split; [constructor|split; vm_compute; [discriminate|reflexivity]]|].
    all: repeat split; vm_compute; discriminate.
Defined.

(** *** Queries *)
Lemma push_labels_spec ls :
  match push_labels ls with
  | Ok r => r = enc_labels ls /\ Forall (fun l => 0 < zlen l < 64) ls
  | Err e => e = BadLabelLength /\ Exists (fun l => zlen l = 0 \/ 63 < zlen l) ls
  | Panic => False
  end.
Proof.
  induction ls as [|l ls IH]; cbn [push_labels]; [by split|].
  destruct ((zlen l =? 0) || (63 <? zlen l)) eqn:E.
  - split; [done|]. constructor. zbool. destruct E; zbool; lia.
  - zbool. pose proof (zlen_nonneg l). destruct (push_labels ls) as [r|e|]; cbn [mbind res_bind].
    + destruct IH as [-> Hls]. split; [done|]. constructor; [lia|done].
    + destruct IH as [-> He]. split; [done|]. by constructor 2.
    + done.
Qed.

Lemma enc_labels_len ls : ls <> [] -> zlen (enc_labels ls) = zlen (join [46] ls) + 1.
Proof.
  induction ls as [|l ls IH]; [done|]. intros _. unfold enc_labels in *. cbn [map concat].
  destruct ls as [|k ls].
  - cbn [map concat join]. zl.
  - rewrite join_cons, zlen_app, IH by done. zl.
Qed.

Definition query_header (id : Z) : bytes := to_be 2 id ++ to_be 2 256 ++ to_be 2 1 ++ [0; 0; 0; 0; 0; 0].

(** The query encoder: it accepts exactly the names of 1 to 253 bytes (trailing
    dots aside) whose labels have 1 to 63 bytes; the message it builds is one
    recursive question whose labels spell the name, at most 271 bytes long, and
    a parser that skips the question arrives exactly at its end. *)
Theorem encode_dns_query_spec id name rt : bytes_ok name ->
  let n := trim_end_matches 46 name in
  let ls := split_on 46 n in
  match encode_dns_query id name rt with
  | Ok q => Forall label_ok ls /\ join [46] ls = n
            /\ q = query_header id ++ enc_question (Labels ls, qtype rt, 1)
            /\ zlen q <= 271 /\ skip_questions 1 q 12 = Ok (zlen q)
  | Err BadNameLength => zlen n = 0 \/ 253 < zlen n
  | Err BadLabelLength => Exists (fun l => zlen l = 0 \/ 63 < zlen l) ls
  | _ => False
  end.
Proof.
  intros Hb n ls. unfold encode_dns_query. fold n. fold ls.
  destruct ((zlen n =? 0) || (253 <? zlen n)) eqn:E; [zbool; destruct E; zbool; lia|]. zbool.
  pose proof (push_labels_spec ls) as Hp. destruct (push_labels ls) as [r|e|]; cbn [mbind res_bind].
  - destruct Hp as [-> Hl]. assert (Hj : join [46] ls = n) by apply join_split_on.
    assert (Hok : Forall label_ok ls).
    { assert (Hbs : Forall bytes_ok ls).
      { apply split_on_bytes. destruct (trim_end_matches_prefix 46 name) as [p Hp]. unfold n.
        rewrite Hp in Hb. by apply Forall_app in Hb as [? _]. }
      clear -Hl Hbs. induction Hl; [constructor|]. apply Forall_cons in Hbs as [? ?]. constructor; [by split|auto]. }
    assert (Hlen : zlen (enc_labels ls) = zlen n + 1).
    { rewrite enc_labels_len, Hj; [done|]. apply split_on_nonnil. }
    assert (Hq : (to_be 2 id ++ to_be 2 256 ++ to_be 2 1 ++ [0; 0; 0; 0; 0; 0]) ++
                 enc_labels ls ++ [0] ++ to_be 2 (qtype rt) ++ to_be 2 1
               = query_header id ++ enc_question (Labels ls, qtype rt, 1)).
    { unfold enc_question, enc_name, query_header. cbn [fst snd]. by rewrite <-!app_assoc. }
    rewrite Hq. unfold query_header. split_and!; try done.
    + unfold enc_question, enc_name. cbn [fst snd]. zl.
    + pose proof (skip_questions_enc [(Labels ls, qtype rt, 1)] (query_header id) [] 12) as Hs.
      cbn [length map concat] in Hs. rewrite !app_nil_r in Hs. unfold query_header in Hs.
      rewrite Hs; [f_equal; zl|zl|by constructor].
  - by destruct Hp as [-> ?].
  - done.
Qed.

Lemma encode_dns_query_spec_witness :
  encode_dns_query 7 (str_bytes "a.io.") Aaaa = Ok (query_header 7 ++ [1; 97; 2; 105; 111; 0; 0; 28; 0; 1])
  /\ zlen (query_header 7 ++ [1; 97; 2; 105; 111; 0; 0; 28; 0; 1]) <= 271.
Proof.
  assert (H : encode_dns_query 7 (str_bytes "a.io.") Aaaa = Ok (query_header 7 ++ [1; 97; 2; 105; 111; 0; 0; 28; 0; 1]))
    by (vm_compute; reflexivity).
  split; [exact H|].
  pose proof (encode_dns_query_spec 7 (str_bytes "a.io.") Aaaa) as Hs. rewrite H in Hs.
  apply Hs. repeat (constructor; [vm_compute; split; [discriminate|reflexivity]|]). constructor.
Defined.

(** *** The cache and the resolver *)
Lemma cache_put_size c k a ttl now : (size c <= 512)%nat -> (size (cache_put c k a ttl now) <= 512)%nat.
Proof.
  intros Hc. unfold cache_put. cbn zeta.
  set (c' := if (512 <=? size c)%nat then _ else c).
  assert (Hc' : (size c' < 512)%nat).
  { subst c'. destruct (Nat.leb_spec 512 (size c)); [|done].
    destruct (Nat.leb_spec 512 (size (filter (fun kv => now < expires_at kv.2) c))); [rewrite map_size_empty; lia|done]. }
  rewrite map_size_insert. destruct (c' !! k); simpl; lia.
Qed.

Lemma clamp_range lo hi v : lo <= hi -> lo <= clamp lo hi v <= hi.
Proof. unfold clamp. lia. Qed.

(** The DNS cache: it never exceeds 512 entries; an answer just stored is
    returned, unchanged, until its TTL clamped to 5..300 seconds has passed and
    not afterwards; storing never changes what another key returns, except by
    dropping it. *)
Theorem dns_cache_spec c k a ttl now : (size c <= 512)%nat ->
  (size (cache_put c k a ttl now) <= 512)%nat
  /\ (forall t, cache_get (cache_put c k a ttl now) k t
       = if t <? now + clamp 5 300 ttl then Some a else None)
  /\ (forall k' t v, k' <> k -> cache_get (cache_put c k a ttl now) k' t = Some v -> cache_get c k' t = Some v).
Proof.
  intros Hc. split_and!.
  - by apply cache_put_size.
  - intros t. unfold cache_get, cache_put. cbn zeta. by rewrite lookup_insert_eq.
  - intros k' t v Hk. unfold cache_get, cache_put. cbn zeta. rewrite lookup_insert_ne by done.
    destruct (512 <=? size c)%nat; [|done].
    destruct (Nat.leb 512 (size (filter _ c))); [by rewrite lookup_empty|].
    destruct (filter _ c !! k') as [e|] eqn:He; [|done]. apply map_lookup_filter_Some in He as [He _]. by rewrite He.
Qed.

Lemma dns_cache_spec_witness :
  let k := (SockV4 [1; 1; 1; 1] 53, [97], A) in
  cache_get (cache_put ∅ k [V4 [9; 9; 9; 9]] 86400 1000) k 1299 = Some [V4 [9; 9; 9; 9]].
Proof.
  intros k. rewrite (proj1 (proj2 (dns_cache_spec ∅ k [V4 [9; 9; 9; 9]] 86400 1000 ltac:(rewrite map_size_empty; apply Nat.le_0_l))) 1299).
  reflexivity.
Defined.

Lemma encode_no_panic id name rt : no_panic (encode_dns_query id name rt).
Proof.
  unfold encode_dns_query. cbn zeta. destruct (_ || _); [done|].
  pose proof (push_labels_spec (split_on 46 (trim_end_matches 46 name))) as H. by destruct (push_labels _).
Qed.

Definition dgram_ok (ev : recv_event) : Prop := match ev with Received d _ => bytes_ok d | _ => True end.

Lemma resolve_loop_sound sr q id server k rt now evs st :
  Forall dgram_ok evs -> Forall (fun m => m = q) (r_sent st) ->
  let '(r, st') := resolve_loop sr q id server k rt now evs st in
  r <> Panic /\ Forall (fun m => m = q) (r_sent st')
  /\ match r with
     | Ok a => exists dgram ttl, Received dgram server ∈ evs /\ parse_dns_response dgram id rt = Ok (a, ttl)
                 /\ r_cache st' = cache_put (r_cache st) k a (match a with [] => CACHE_MIN_TTL | _ => ttl end) now
     | _ => r_cache st' = r_cache st
     end.
Proof.
  intros He. revert st. induction He as [|ev evs Hev He IH]; intros st Hq; cbn [resolve_loop]; [done|].
  assert (Hlift : forall st1, Forall (fun m => m = q) (r_sent st1) -> r_cache st1 = r_cache st ->
    let '(r, st') := resolve_loop sr q id server k rt now evs st1 in
    r <> Panic /\ Forall (fun m => m = q) (r_sent st')
    /\ match r with
       | Ok a => exists dgram ttl, Received dgram server ∈ ev :: evs /\ parse_dns_response dgram id rt = Ok (a, ttl)
                   /\ r_cache st' = cache_put (r_cache st) k a (match a with [] => CACHE_MIN_TTL | _ => ttl end) now
       | _ => r_cache st' = r_cache st
       end).
  { intros st1 H1 Hc. specialize (IH st1 H1). destruct (resolve_loop _ _ _ _ _ _ _ evs st1) as [r st'].
    rewrite Hc in IH. destruct IH as (? & ? & Hr). split_and!; try done.
    destruct r; try done. destruct Hr as (d & t & Hin & ? & ?). exists d, t. split_and!; try done. by right. }
  destruct ev as [d from|e|].
  - case_bool_decide as Hs; [|by apply Hlift]. subst from.
    destruct (parse_dns_response d id rt) as [[a ttl]|e|] eqn:Hp; [|done|].
    + split_and!; try done. exists d, ttl. split_and!; try done. by left.
    + exfalso. by apply (parse_no_panic d id rt Hev).
  - done.
  - destruct (sr _); [done|]. apply Hlift; [|done]. apply Forall_app; split; [done|by constructor].
Qed.

(** *** What an accepted datagram contains, in the words of RFC 1035 *)
(** A response to the query [id]: the id, the QR bit, no TC bit, RCODE 0. *)
Definition response_to (id : Z) (buf : bytes) : Prop :=
  exists flags rest, buf = to_be 2 id ++ to_be 2 flags ++ rest /\ 8 <= zlen rest /\
    Z.testbit flags 15 = true /\ Z.testbit flags 9 = false /\ flags mod 16 = 0.

(** A resource record with its TTL: type, class, TTL, length, address. *)
Definition holds_record (rt : RecordType) (buf : bytes) (r : Z * IpAddr) : Prop :=
  exists pre class post, length class = 2%nat /\
    match rt, r.2 with
    | A, V4 o => length o = 4%nat /\ buf = pre ++ [0; 1] ++ class ++ to_be 4 r.1 ++ [0; 4] ++ o ++ post
    | Aaaa, V6 o => length o = 16%nat /\ buf = pre ++ [0; 28] ++ class ++ to_be 4 r.1 ++ [0; 16] ++ o ++ post
    | _, _ => False
    end.
(** The addresses are those of records of the datagram, and [ttl] is their least TTL. *)
Definition answers_in (rt : RecordType) (buf : bytes) (a : list IpAddr) (ttl : Z) : Prop :=
  exists recs, Forall (holds_record rt buf) recs /\ a = map snd recs /\ ttl = fold_left Z.min (map fst recs) 4294967295.

Lemma cut_at (buf : bytes) q n : 0 <= q -> q + Z.of_nat n <= zlen buf ->
  exists pre mid post, buf = pre ++ mid ++ post /\ zlen pre = q /\ length mid = n.
Proof.
  intros Hq Hn. unfold zlen in *. exists (take (Z.to_nat q) buf), (take n (drop (Z.to_nat q) buf)), (drop n (drop (Z.to_nat q) buf)).
  split; [by rewrite !take_drop|]. rewrite !length_take, length_drop. lia.
Qed.

Lemma u16_at_inv pre x y post : bytes_ok (pre ++ [x; y] ++ post) ->
  exists v, u16_at (pre ++ [x; y] ++ post) (zlen pre) = Ok v /\ [x; y] = to_be 2 v.
Proof.
  intros Hb. unfold u16_at. rewrite (idx_mid pre [x; y] post 0 x (zlen pre)), (idx_mid pre [x; y] post 1 y (zlen pre + 1)) by (done || lia). cbn [mbind res_bind].
  eexists. split; [done|]. symmetry. apply (to_be_be_val [x; y]). by apply Forall_app in Hb as [_ [Hb _]%Forall_app].
Qed.

Lemma u32_at_inv pre a b c d post : bytes_ok (pre ++ [a; b; c; d] ++ post) ->
  exists v, u32_at (pre ++ [a; b; c; d] ++ post) (zlen pre) = Ok v /\ [a; b; c; d] = to_be 4 v.
Proof.
  intros Hb. unfold u32_at.
  rewrite (idx_mid pre [a; b; c; d] post 0 a (zlen pre)), (idx_mid pre [a; b; c; d] post 1 b (zlen pre + 1)),
    (idx_mid pre [a; b; c; d] post 2 c (zlen pre + 2)), (idx_mid pre [a; b; c; d] post 3 d (zlen pre + 3)) by (done || lia). cbn [mbind res_bind].
  eexists. split; [done|]. symmetry. apply (to_be_be_val [a; b; c; d]). by apply Forall_app in Hb as [_ [Hb _]%Forall_app].
Qed.

(** The fixed part of a record as the parser reads it, and the bytes that follow. *)
Lemma record_shape buf q rtype ttl rd : bytes_ok buf -> 0 <= q -> q + 10 + rd <= zlen buf -> 0 <= rd ->
  u16_at buf q = Ok rtype -> u32_at buf (q + 4) = Ok ttl -> u16_at buf (q + 8) = Ok rd ->
  exists pre class o post, length class = 2%nat /\ zlen pre = q /\ zlen o = rd /\
    buf = pre ++ to_be 2 rtype ++ class ++ to_be 4 ttl ++ to_be 2 rd ++ o ++ post.
Proof.
  intros Hb Hq Hlen Hrd H1 H2 H3.
  destruct (cut_at buf q (10 + Z.to_nat rd)) as (pre & mid & post & Hbuf & Hpre & Hmid); [done|lia|].
  do 10 (destruct mid as [|? mid]; [done|]). cbn in Hmid. injection Hmid as Hmid.
  match type of Hbuf with _ = pre ++ (?b0 :: ?b1 :: ?b2 :: ?b3 :: ?b4 :: ?b5 :: ?b6 :: ?b7 :: ?b8 :: ?b9 :: mid) ++ post =>
    destruct (u16_at_inv pre b0 b1 ([b2; b3; b4; b5; b6; b7; b8; b9] ++ mid ++ post)) as (v1 & E1 & F1); [cbn; cbn in Hbuf; by rewrite <-Hbuf|];
    destruct (u32_at_inv (pre ++ [b0; b1; b2; b3]) b4 b5 b6 b7 ([b8; b9] ++ mid ++ post)) as (v2 & E2 & F2);
      [rewrite <-app_assoc; cbn; cbn in Hbuf; by rewrite <-Hbuf|];
    destruct (u16_at_inv (pre ++ [b0; b1; b2; b3; b4; b5; b6; b7]) b8 b9 (mid ++ post)) as (v3 & E3 & F3);
      [rewrite <-app_assoc; cbn; cbn in Hbuf; by rewrite <-Hbuf|];
    exists pre, [b2; b3], mid, post
  end.
  rewrite <-app_assoc in E2, E3. cbn [app] in E1, E2, E3, Hbuf. rewrite <-Hbuf in E1, E2, E3. rewrite zlen_app in E2, E3.
  change (zlen [_; _; _; _]) with 4 in E2. change (zlen [_; _; _; _; _; _; _; _]) with 8 in E3. rewrite Hpre in E1, E2, E3.
  rewrite H1 in E1. rewrite H2 in E2. rewrite H3 in E3. injection E1 as <-. injection E2 as <-. injection E3 as <-.
  rewrite <-F1, <-F2, <-F3. split_and!; [done|done|unfold zlen; lia|exact Hbuf].
Qed.

Lemma fold_min_snoc l t x : fold_left Z.min (l ++ [x]) t = Z.min (fold_left Z.min l t) x.
Proof. by rewrite fold_left_app. Qed.

Lemma parse_answers_in n buf rt pos acc ttl l t : bytes_ok buf -> 0 <= pos -> answers_in rt buf acc ttl ->
  parse_answers n buf rt pos acc ttl = Ok (l, t) -> answers_in rt buf l t.
Proof.
  intros Hb. revert pos acc ttl. induction n as [|n IH]; intros pos acc ttl Hp Ha; cbn [parse_answers]; [by intros [= <- <-]|].
  destruct (skip_name_spec buf pos Hb Hp) as [_ Hs]. destruct (skip_name buf pos) as [q|e|]; [|done..].
  specialize (Hs q eq_refl). cbn [mbind res_bind]. destruct (Z.ltb_spec (zlen buf) (q + 10)); [done|].
  destruct (u16_at buf q) as [rtype|e|] eqn:E1; [|done..]. cbn [mbind res_bind].
  destruct (u32_at buf (q + 4)) as [tt|e|] eqn:E2; [|done..]. cbn [mbind res_bind].
  destruct (u16_at buf (q + 8)) as [rd|e|] eqn:E3; [|done..]. cbn [mbind res_bind]. cbn zeta.
  pose proof (u16_at_bound _ _ _ Hb E3) as [Brd _]. destruct (Z.ltb_spec (zlen buf) (q + 10 + rd)); [done|].
  destruct (record_shape buf q rtype tt rd) as (pre & class & o & post & Hc & Hpre & Ho & Hbuf); [done|lia|lia|done..|].
  assert (Hadd : forall a, holds_record rt buf (tt, a) -> answers_in rt buf (acc ++ [a]) (Z.min ttl tt)).
  { intros a Hr. destruct Ha as (recs & Hf & -> & ->). exists (recs ++ [(tt, a)]). rewrite !map_app. cbn [map fst snd]. rewrite fold_min_snoc.
    split_and!; [|done|done]. apply Forall_app. by repeat constructor. }
  set (Q := pre ++ to_be 2 rtype ++ class ++ to_be 4 tt ++ to_be 2 rd).
  assert (HQ : buf = Q ++ o ++ post) by (subst Q; rewrite Hbuf; by rewrite <-!app_assoc).
  assert (HQl : zlen Q = q + 10) by (subst Q; rewrite !zlen_app, !to_be_zlen; unfold zlen in *; lia).
  destruct rt.
  - destruct (Z.eqb_spec rtype 1) as [->|], (Z.eqb_spec rd 4) as [->|]; cbn [andb]; try (apply IH; [lia|done]).
    destruct o as [|b1 [|b2 [|b3 [|b4 [|]]]]]; unfold zlen in Ho; cbn in Ho; try lia.
    assert (Hi : forall i b, [b1; b2; b3; b4] !! i = Some b -> idx (E:=dns_error) buf (q + 10 + Z.of_nat i) = Ok b).
    { intros i b Hb'. rewrite HQ. apply (idx_mid Q [b1; b2; b3; b4] post i b); [done|lia]. }
    pose proof (Hi 0%nat b1 eq_refl) as I0. rewrite Z.add_0_r in I0. pose proof (Hi 1%nat b2 eq_refl) as I1. pose proof (Hi 2%nat b3 eq_refl) as I2.
    pose proof (Hi 3%nat b4 eq_refl) as I3. change (Z.of_nat 1) with 1 in I1. change (Z.of_nat 2) with 2 in I2. change (Z.of_nat 3) with 3 in I3. rewrite I0, I1, I2, I3. cbn [mbind res_bind].
    apply IH; [lia|]. apply Hadd. exists pre, class, post. split; [done|]. split; [done|]. exact Hbuf.
  - destruct (Z.eqb_spec rtype 28) as [->|], (Z.eqb_spec rd 16) as [->|]; cbn [andb]; try (apply IH; [lia|done]).
    rewrite HQ at 1. rewrite (slice_at Q o post) by (done || lia). cbn [mbind res_bind].
    apply IH; [lia|]. apply Hadd. exists pre, class, post. split; [done|]. split; [unfold zlen in Ho; lia|]. exact Hbuf.
Qed.

Lemma land_bit v n : 0 <= n -> Z.land v (2 ^ n) = if Z.testbit v n then 2 ^ n else 0.
Proof.
  intros Hn. apply Z.bits_inj'. intros k Hk. rewrite Z.land_spec, Z.pow2_bits_eqb by done.
  destruct (Z.eqb_spec n k) as [->|Hne]; [|rewrite andb_false_r; destruct (Z.testbit v n); [|by rewrite Z.bits_0]].
  - destruct (Z.testbit v k); [by rewrite Z.pow2_bits_true|by rewrite Z.bits_0].
  - by rewrite Z.pow2_bits_false.
Qed.

Lemma parse_response_in buf id rt a ttl : bytes_ok buf -> parse_dns_response buf id rt = Ok (a, ttl) ->
  response_to id buf /\ answers_in rt buf a ttl.
Proof.
  intros Hb. unfold parse_dns_response. destruct (Z.ltb_spec (zlen buf) 12) as [|Hlen]; [done|].
  destruct buf as [|b0 [|b1 [|b2 [|b3 rest]]]]; try (unfold zlen in Hlen; cbn in Hlen; lia).
  destruct (u16_at_inv [] b0 b1 (b2 :: b3 :: rest) Hb) as (v & E1 & F1). cbn [app] in E1. change (zlen []) with 0 in E1. rewrite E1. cbn [mbind res_bind].
  destruct (Z.eqb_spec v id) as [->|]; [|done]. cbn [negb].
  destruct (u16_at_inv [b0; b1] b2 b3 rest Hb) as (flags & E2 & F2). cbn [app] in E2. change (zlen [b0; b1]) with 2 in E2. rewrite E2. cbn [mbind res_bind].
  change 32768 with (2 ^ 15). change 512 with (2 ^ 9). rewrite !land_bit by lia.
  destruct (Z.testbit flags 15) eqn:T15; [|done]. destruct (Z.testbit flags 9) eqn:T9; [done|]. cbn [negb Z.eqb].
  change 15 with (Z.ones 4). rewrite Z.land_ones by lia. change (2 ^ 4) with 16. change (2 ^ 15 =? 0) with false. cbn [negb].
  destruct (flags mod 16 =? 3); [done|]. destruct (Z.eqb_spec (flags mod 16) 0) as [Hr|]; [|done]. cbn [negb].
  set (buf := b0 :: b1 :: b2 :: b3 :: rest) in *. destruct (u16_at buf 4) as [qd|e|]; [|done..]. cbn [mbind res_bind].
  destruct (u16_at buf 6) as [an|e|]; [|done..]. cbn [mbind res_bind].
  destruct (skip_questions_spec (Z.to_nat qd) buf 12 Hb) as [_ Hq]; [lia|]. destruct (skip_questions _ _ _) as [pos|e|]; [|done..].
  cbn [mbind res_bind]. specialize (Hq pos eq_refl). intros Hp. split.
  - exists flags, rest. rewrite <-F1, <-F2. split_and!; try done. subst buf. revert Hlen. rewrite !zlen_cons. lia.
  - eapply parse_answers_in; [exact Hb| |by exists []|exact Hp]. lia.
Qed.

(** C8. A lookup is answered only from an unexpired cache entry of the same server,
    lower-cased name and type, or else from a datagram that came from the queried
    server, carries this query's id and the flags of a successful response, and
    contains the records of the addresses; the answer is cached for the least TTL of
    its records, at least 5 and at most 300 seconds (5 when it is empty), and other
    entries are at most dropped; only the one question is ever sent, retransmissions
    included; a failed lookup leaves the cache as it was; no datagram makes it panic. *)
Theorem resolve_sound bind sr id server name rt now later evs cache :
  bytes_ok name -> Forall dgram_ok evs ->
  let k := (server, to_ascii_lowercase name, rt) in
  let '(r, st') := resolve bind sr id server name rt now later evs cache in
  r <> Panic
  /\ (forall m, m ∈ r_sent st' -> m = to_be 2 id ++ [1; 0; 0; 1; 0; 0; 0; 0; 0; 0] ++
        enc_labels (split_on 46 (trim_end_matches 46 name)) ++ [0; 0; match rt with A => 1 | Aaaa => 28 end; 0; 1])
  /\ match r with
     | Ok a =>
         (exists e, cache !! k = Some e /\ now < expires_at e /\ a = addrs e /\ r_cache st' = cache /\ r_sent st' = [])
         \/ (forall e, cache !! k = Some e -> expires_at e <= now)
            /\ exists dgram ttl, Received dgram server ∈ evs /\ response_to id dgram /\ answers_in rt dgram a ttl
                 /\ r_cache st' !! k = Some (mk_entry a (later + match a with [] => 5 | _ => Z.max 5 (Z.min 300 ttl) end))
                 /\ forall k' e, k' <> k -> r_cache st' !! k' = Some e -> cache !! k' = Some e
     | _ => r_cache st' = cache
     end.
Proof.
  intros Hn He k. unfold resolve. fold k.
  destruct (cache_get cache k now) as [a|] eqn:Hg; unfold cache_get in Hg.
  { destruct (cache !! k) as [e|] eqn:Hc; [|done]. cbn in Hg. destruct (Z.ltb_spec now (expires_at e)); [|done]. injection Hg as <-.
    split_and!; [done|set_solver|]. left. by exists e. }
  assert (Hexp : forall e, cache !! k = Some e -> expires_at e <= now).
  { intros e Hc. rewrite Hc in Hg. cbn in Hg. by destruct (Z.ltb_spec now (expires_at e)). }
  pose proof (encode_dns_query_spec id name rt Hn) as Hspec. cbv zeta in Hspec.
  destruct (encode_dns_query id name rt) as [q|e|] eqn:Hq; [|split_and!; [done|set_solver|done]|].
  - destruct bind; [split_and!; [done|set_solver|done]|]. destruct (sr 0%nat); [split_and!; [done|set_solver|done]|].
    pose proof (resolve_loop_sound sr q id server k rt later evs (mk_resolver cache [q]) He) as H.
    destruct (resolve_loop _ _ _ _ _ _ _ _ _) as [r st']. destruct H as (Hp & Hs & Hr); [by constructor|].
    split_and!; [done| |].
    + intros m Hm. rewrite Forall_forall in Hs. rewrite (Hs m Hm). destruct Hspec as (_ & _ & -> & _).
      unfold query_header, enc_question, enc_name. cbn [fst snd]. rewrite <-!app_assoc. by destruct rt.
    + destruct r as [a|e|]; try done. right. split; [done|]. destruct Hr as (dg & ttl & Hin & Hparse & Hc). exists dg, ttl.
      assert (Hdg : bytes_ok dg) by (rewrite Forall_forall in He; apply (He _ Hin)).
      destruct (parse_response_in dg id rt a ttl Hdg Hparse) as [H1 H2]. rewrite Hc. split_and!; [done..| |].
      * unfold cache_put. cbn zeta. rewrite lookup_insert_eq. f_equal. f_equal. by destruct a.
      * intros k' e' Hk. unfold cache_put. cbn zeta. rewrite lookup_insert_ne by done. cbn [r_cache]. destruct (512 <=? size cache)%nat; [|done].
        destruct (512 <=? size _)%nat; [done|]. by intros [? _]%map_lookup_filter_Some.
  - exfalso. by apply (encode_no_panic id name rt).
Qed.

Lemma resolve_sound_witness :
  let server := SockV4 [1; 1; 1; 1] 53 in
  let answer := enc_response 7 33152 [] [mk_answer (Pointed [] 192 12) 1 1 30 [1; 2; 3; 4]] [] in
  let r := resolve None (fun _ => None) 7 server (str_bytes "a.io") A 0 2
             [RetryTick; Received [1] (SockV4 [6; 6; 6; 6] 53); Received answer server] ∅ in
  fst r = Ok [V4 [1; 2; 3; 4]] /\ r_cache (snd r) !! (server, str_bytes "a.io", A) = Some (mk_entry [V4 [1; 2; 3; 4]] 32) /\ fst r <> Panic.
Proof.
  intros server answer r. split; [vm_compute; reflexivity|]. split; [vm_compute; reflexivity|].
  pose proof (resolve_sound None (fun _ => None) 7 server (str_bytes "a.io") A 0 2
     [RetryTick; Received [1] (SockV4 [6; 6; 6; 6] 53); Received answer server] ∅) as H.
  destruct (resolve _ _ _ _ _ _ _ _ _ _) as [x y] eqn:E in H. unfold r. rewrite E. apply H.
  - repeat (constructor; [vm_compute; split; [discriminate|reflexivity]|]). constructor.
  - constructor; [exact I|]. constructor; [|constructor; [|constructor]].
    all: cbn [dgram_ok]; repeat (constructor; [vm_compute; split; [discriminate|reflexivity]|]); constructor.
Defined.
End DnsFacts.
