(* ===== verification/Doh.v ===== *)
(** * DNS over HTTPS inside the MASQUE tunnel ([src/src/outbound/masque/doh.rs])

    The name cache with its eviction, the hand-written HTTP/1.1 request and the
    response reader, which sees the stream in chunks of the network's choosing.
    TLS is not modelled; [httparse] is a parameter. *)
From S2P Require Import Prelude RustStr NetAddr Conn Dns.

Module Doh.
Definition MIN_TTL : Z := 5.
Definition MAX_TTL : Z := 300.
Definition MAX_CACHE_ENTRIES : nat := 512.
Definition DOH_SNI : bytes := str_bytes "cloudflare-dns.com".
Definition DOH_PATH : bytes := str_bytes "/dns-query".

Record CacheEntry := mk_entry { ip : IpAddr; expires_at : Z }.
Abbreviation DnsCache := (gmap bytes CacheEntry).

Definition cached (domain : bytes) (now : Z) (c : DnsCache) : option IpAddr * DnsCache :=
  match c !! domain with
  | Some e => if now <? expires_at e then (Some (ip e), c) else (None, delete domain c)
  | None => (None, c)
  end.

(** [min_by_key] over the entries in the map's iteration order: the first minimum. *)
Fixpoint min_by_expiry (l : list (bytes * CacheEntry)) : option (bytes * CacheEntry) :=
  match l with
  | [] => None
  | x :: r =>
      match min_by_expiry r with
      | Some y => if expires_at y.2 <? expires_at x.2 then Some y else Some x
      | None => Some x
      end
  end.

Section cache.
(** The (unspecified) iteration order of the [HashMap]. *)
Context (iter : DnsCache -> list (bytes * CacheEntry)).

Definition evict (now : Z) (c : DnsCache) : DnsCache :=
  let c := filter (fun kv => now < expires_at kv.2) c in
  if (MAX_CACHE_ENTRIES <=? size c)%nat then
    match min_by_expiry (iter c) with
    | Some (name, _) => delete name c
    | None => c
    end
  else c.

Definition store (domain : bytes) (a : IpAddr) (ttl now : Z) (c : DnsCache) : DnsCache :=
  let c := if bool_decide (c !! domain = None) && (MAX_CACHE_ENTRIES <=? size c)%nat then evict now c else c in
  <[domain := mk_entry a (now + Dns.clamp MIN_TTL MAX_TTL ttl)]> c.
End cache.

Definition CRLF : bytes := [13; 10].
Definition build_http_request (body : bytes) : bytes :=
  str_bytes "POST " ++ DOH_PATH ++ str_bytes " HTTP/1.1" ++ CRLF
  ++ str_bytes "host: " ++ DOH_SNI ++ CRLF
  ++ str_bytes "content-type: application/dns-message" ++ CRLF
  ++ str_bytes "accept: application/dns-message" ++ CRLF
  ++ str_bytes "content-length: " ++ fmt_dec (zlen body) ++ CRLF
  ++ str_bytes "connection: close" ++ CRLF ++ CRLF
  ++ body.

(** [buf.windows(4).position(..)]: the first index of the blank line. *)
Definition BLANK : bytes := [13; 10; 13; 10].
Fixpoint position_blank (buf : bytes) : option Z :=
  match strip_prefix BLANK buf with
  | Some _ => Some 0
  | None => match buf with [] => None | _ :: r => Z.succ <$> position_blank r end
  end.

Inductive doh_error :=
| ReadFailed (k : ErrorKind) | ClosedInHead | HeadTooLarge | HeadInvalid | BadStatus (s : Z) | NoContentLength | ClosedInBody.

Record response_head := mk_head { h_code : option Z; h_headers : list (bytes * bytes) }.

Section response.
(** [httparse::Response::parse] on a complete head. *)
Context (httparse : bytes -> option response_head).

Definition stream_failed (closed : doh_error) {A} (e : stream_end) : out doh_error A :=
  match e with Closed => Fail closed | Broken k => Fail (ReadFailed k) | Silent => Hang end.

(** The stream as the chunks successive reads return (a read of no byte is its
    end), then how it ends. *)
Fixpoint read_head (buf : bytes) (chunks : list bytes) (e : stream_end) : out doh_error (Z * bytes * list bytes) :=
  match chunks with
  | [] => stream_failed ClosedInHead e
  | [] :: _ => Fail ClosedInHead
  | chunk :: rest =>
      let buf := buf ++ chunk in
      match position_blank buf with
      | Some pos => Ret (pos + 4, buf, rest)
      | None => if 8192 <? zlen buf then Fail HeadTooLarge else read_head buf rest e
      end
  end.

Fixpoint read_rest (content_length : Z) (body : bytes) (chunks : list bytes) (e : stream_end) : out doh_error bytes :=
  if content_length <=? zlen body then Ret body
  else match chunks with
       | [] => stream_failed ClosedInBody e
       | [] :: _ => Fail ClosedInBody
       | chunk :: rest => read_rest content_length (body ++ chunk) rest e
       end.

Definition content_length_of (hs : list (bytes * bytes)) : option Z :=
  h ← List.find (fun h => eq_ignore_ascii_case (fst h) (str_bytes "content-length")) hs;
  v ← from_utf8 (snd h);
  parse_uint U64_MAX (trim v).

Definition read_http_response (chunks : list bytes) (e : stream_end) : out doh_error bytes :=
  match read_head [] chunks e with
  | Ret (header_end, buf, rest) =>
      match httparse (take (Z.to_nat header_end) buf) with
      | None => Fail HeadInvalid
      | Some head =>
          let status := default 0 (h_code head) in
          if negb (status =? 200) then Fail (BadStatus status)
          else match content_length_of (h_headers head) with
               | None => Fail NoContentLength
               | Some content_length =>
                   match read_rest content_length (drop (Z.to_nat header_end) buf) rest e with
                   | Ret body => Ret (take (Z.to_nat content_length) body)
                   | Fail err => Fail err
                   | Hang => Hang
                   end
               end
      end
  | Fail err => Fail err
  | Hang => Hang
  end.
End response.

(** ** Facts *)
Section cache_facts.
Context (iter : DnsCache -> list (bytes * CacheEntry)).
Hypothesis iter_perm : forall m, iter m ≡ₚ map_to_list m.

Lemma min_by_expiry_spec l :
  match min_by_expiry l with
  | None => l = []
  | Some x => x ∈ l /\ forall y, y ∈ l -> expires_at x.2 <= expires_at y.2
  end.
Proof.
  induction l as [|x l IH]; simpl; [done|]. destruct (min_by_expiry l) as [y|].
  - destruct IH as [Hin Hmin]. destruct (Z.ltb_spec (expires_at y.2) (expires_at x.2)).
    + split; [by right|]. intros z [->|Hz]%elem_of_cons; [lia|by apply Hmin].
    + split; [by left|]. intros z [->|Hz]%elem_of_cons; [lia|]. specialize (Hmin z Hz). lia.
  - subst l. split; [by left|]. intros z [->|Hz]%elem_of_cons; [lia|set_solver].
Qed.

Lemma evict_spec now c :
  ((0 < size c)%nat -> (size (evict iter now c) < Nat.max (size c) MAX_CACHE_ENTRIES)%nat)
  /\ (forall d e, evict iter now c !! d = Some e -> c !! d = Some e)
  /\ (forall d e, c !! d = Some e -> evict iter now c !! d = None ->
        expires_at e <= now \/ forall d' e', evict iter now c !! d' = Some e' -> expires_at e <= expires_at e').
Proof.
  unfold evict. set (f := filter _ c). cbn zeta.
  assert (Hf : (size f <= size c)%nat) by (apply map_subseteq_size, map_filter_subseteq).
  destruct (Nat.leb_spec MAX_CACHE_ENTRIES (size f)) as [Hle|Hlt].
  - pose proof (min_by_expiry_spec (iter f)) as Hm. destruct (min_by_expiry (iter f)) as [[n en]|].
    + destruct Hm as [Hin Hmin]. rewrite iter_perm in Hin. apply elem_of_map_to_list in Hin.
      split_and!.
      * intros _. rewrite map_size_delete, Hin. unfold MAX_CACHE_ENTRIES in *. simpl. lia.
      * intros d e [_ Hd]%lookup_delete_Some. by apply map_lookup_filter_Some in Hd as [? _].
      * intros d e Hd. rewrite lookup_delete_None. intros [<-|Hfd].
        -- right. intros d' e' [_ Hd']%lookup_delete_Some.
           assert (e = en) as -> by (apply map_lookup_filter_Some in Hin as [Hin _]; congruence).
           apply (Hmin (d', e')). rewrite iter_perm. by apply elem_of_map_to_list.
        -- left. apply map_lookup_filter_None in Hfd as [|Hnot]; [congruence|]. specialize (Hnot e Hd). simpl in Hnot. lia.
    + exfalso. assert (Hnil : map_to_list f = []) by (apply Permutation_nil; rewrite <-Hm; apply iter_perm).
      apply map_to_list_empty_iff in Hnil. rewrite Hnil, map_size_empty in Hle. unfold MAX_CACHE_ENTRIES in Hle. lia.
  - split_and!.
    + lia.
    + intros d e Hd. by apply map_lookup_filter_Some in Hd as [? _].
    + intros d e Hd Hfd. left. apply map_lookup_filter_None in Hfd as [|Hnot]; [congruence|]. specialize (Hnot e Hd). simpl in Hnot. lia.
Qed.

(** The DoH cache: at most 512 names; the name just stored is answered until
    its TTL, clamped to 5..300 s, has passed; every other name keeps its entry
    unless the cache is full, and then only expired entries or one with the
    earliest expiry go; an expired entry is never answered. *)
Theorem doh_cache_spec c domain a ttl now : (size c <= MAX_CACHE_ENTRIES)%nat ->
  let c' := store iter domain a ttl now c in
  (size c' <= MAX_CACHE_ENTRIES)%nat
  /\ (forall t, fst (cached domain t c') = if t <? now + Dns.clamp 5 300 ttl then Some a else None)
  /\ (forall d e, d <> domain -> c !! d = Some e -> c' !! d = None ->
        (size c = MAX_CACHE_ENTRIES)
        /\ (expires_at e <= now \/ forall d' e', d' <> domain -> c' !! d' = Some e' -> expires_at e <= expires_at e'))
  /\ (forall d t v, fst (cached d t c') = Some v -> exists e, c' !! d = Some e /\ t < expires_at e).
Proof.
  intros Hc c'. subst c'. unfold store. cbn zeta.
  set (full := bool_decide (c !! domain = None) && (MAX_CACHE_ENTRIES <=? size c)%nat).
  destruct (evict_spec now c) as (E1 & E2 & E3). split_and!.
  - rewrite map_size_insert. destruct full eqn:Hfull; subst full; zbool.
    + case_bool_decide as Hnone; [|done]. apply Nat.leb_le in H0. specialize (E1 ltac:(unfold MAX_CACHE_ENTRIES in *; lia)).
      destruct (evict iter now c !! domain) eqn:He; [apply E2 in He; congruence|]. simpl. lia.
    + destruct (c !! domain) eqn:Hd; simpl; [lia|].
      destruct Hfull as [Hb|Hb]; [by case_bool_decide|]. apply Nat.leb_gt in Hb. lia.
  - intros t. unfold cached. rewrite lookup_insert_eq. cbn [expires_at ip].
    change (Dns.clamp 5 300 ttl) with (Dns.clamp MIN_TTL MAX_TTL ttl). by destruct (t <? _).
  - intros d e Hne Hd. rewrite lookup_insert_ne by done. destruct full eqn:Hfull; [|congruence].
    intros Hev. apply andb_true_iff in Hfull as [_ Hfull%Nat.leb_le]. split; [lia|].
    destruct (E3 d e Hd Hev) as [|Hmin]; [by left|right]. intros d' e' Hd'. rewrite lookup_insert_ne by done. apply Hmin.
  - intros d t v. unfold cached. destruct (_ !! d) as [e|] eqn:Hd; [|done].
    destruct (Z.ltb_spec t (expires_at e)); [|done]. eauto.
Qed.
End cache_facts.

Lemma doh_cache_spec_witness :
  (forall m : DnsCache, map_to_list m ≡ₚ map_to_list m)
  /\ fst (cached [97] 1004 (store map_to_list [97] (V4 [9; 9; 9; 9]) 1 1000 ∅)) = Some (V4 [9; 9; 9; 9]).
Proof.
  split; [reflexivity|].
  rewrite (proj1 (proj2 (doh_cache_spec map_to_list (fun _ => Permutation_refl _) ∅ [97] (V4 [9; 9; 9; 9]) 1 1000
    ltac:(rewrite map_size_empty; apply Nat.le_0_l)))). reflexivity.
Defined.

Lemma strip_blank_inv s r : strip_prefix BLANK s = Some r -> s = BLANK ++ r.
Proof.
  unfold BLANK. intros H. destruct s as [|a [|b [|c [|d s]]]]; cbn [strip_prefix] in H;
    repeat match type of H with
    | (if ?x =? ?y then _ else _) = _ => destruct (Z.eqb_spec x y); [|discriminate H]
    end; try discriminate H. by simplify_eq.
Qed.

Lemma strip_blank_app s : strip_prefix BLANK (BLANK ++ s) = Some s.
Proof. done. Qed.

Lemma position_blank_bound s p : position_blank s = Some p -> 0 <= p /\ p + 4 <= zlen s.
Proof.
  revert p. induction s as [|a s IH]; intros p; cbn [position_blank].
  - done.
  - destruct (strip_prefix BLANK (a :: s)) as [r|] eqn:E.
    + intros [= <-]. apply strip_blank_inv in E. rewrite E. unfold BLANK. zl.
    + destruct (position_blank s) as [q|]; [|done]. intros [= <-]. destruct (IH q eq_refl). zl.
Qed.

Lemma position_blank_app s t p : position_blank s = Some p -> position_blank (s ++ t) = Some p.
Proof.
  revert p. induction s as [|a s IH]; intros p; [done|]. cbn [position_blank app].
  destruct (strip_prefix BLANK (a :: s)) as [r|] eqn:E.
  - intros [= <-]. apply strip_blank_inv in E.
    change (a :: s ++ t) with ((a :: s) ++ t). rewrite E, <-app_assoc. done.
  - destruct (position_blank s) as [q|] eqn:Eq; [|done]. intros [= <-].
    destruct (strip_prefix BLANK (a :: s ++ t)) as [r'|] eqn:E'; [|by rewrite (IH q eq_refl)].
    exfalso. pose proof (position_blank_bound _ _ Eq) as [Hq Hb].
    apply strip_blank_inv in E'. unfold BLANK in E'. injection E' as -> E'.
    destruct s as [|b [|c [|d s]]]; try (unfold zlen in Hb; simpl in Hb; lia).
    cbn [app] in E'. injection E' as -> -> -> _. discriminate E.
Qed.

(** A buffer that is a prefix of a stream starting with [head] shows the blank
    line exactly when it holds all of [head]. *)
Lemma position_blank_prefix head tail buf more :
  position_blank head = Some (zlen head - 4) -> buf ++ more = head ++ tail ->
  position_blank buf = if zlen head <=? zlen buf then Some (zlen head - 4) else None.
Proof.
  intros Hh He. destruct (Z.leb_spec (zlen head) (zlen buf)) as [Hle|Hlt].
  - apply (f_equal (take (length head))) in He. rewrite take_app_length in He.
    rewrite take_app_le in He by (unfold zlen in Hle; lia).
    rewrite <-(take_drop (length head) buf), He. by apply position_blank_app.
  - destruct (position_blank buf) as [p|] eqn:Hp; [|done]. exfalso.
    pose proof (position_blank_bound _ _ Hp) as [_ Hb].
    assert (Hpre : head = buf ++ drop (length buf) head).
    { apply (f_equal (take (length buf))) in He. rewrite take_app_length in He.
      rewrite take_app_le in He by (unfold zlen in Hlt; lia). rewrite He at 1. by rewrite take_drop. }
    rewrite Hpre in Hh. rewrite (position_blank_app _ _ _ Hp) in Hh. rewrite <-Hpre in Hh.
    injection Hh as Hh. lia.
Qed.

Lemma read_head_chunks head tail buf chunks e :
  position_blank head = Some (zlen head - 4) -> zlen head <= 8193 -> zlen buf < zlen head ->
  Forall (fun c => c <> []) chunks -> buf ++ concat chunks = head ++ tail ->
  exists buf' rest, read_head buf chunks e = Ret (zlen head, buf', rest)
    /\ buf' ++ concat rest = head ++ tail /\ zlen head <= zlen buf' /\ Forall (fun c => c <> []) rest.
Proof.
  intros Hh Hl Hb Hc. revert buf Hb. induction Hc as [|c cs Hne Hc IH]; intros buf Hb He; cbn [concat] in He.
  - exfalso. rewrite app_nil_r in He. subst buf. rewrite zlen_app in Hb. pose proof (zlen_nonneg tail). lia.
  - assert (Hread : read_head buf (c :: cs) e =
      match position_blank (buf ++ c) with
      | Some pos => Ret (pos + 4, buf ++ c, cs)
      | None => if 8192 <? zlen (buf ++ c) then Fail HeadTooLarge else read_head (buf ++ c) cs e
      end) by (by destruct c).
    rewrite Hread. rewrite app_assoc in He.
    rewrite (position_blank_prefix head tail (buf ++ c) (concat cs) Hh He).
    destruct (Z.leb_spec (zlen head) (zlen (buf ++ c))) as [Hle|Hlt].
    + exists (buf ++ c), cs. split_and!; try done. f_equal. f_equal. f_equal. lia.
    + rewrite (proj2 (Z.ltb_ge _ _)) by lia. by apply IH.
Qed.

Lemma read_rest_chunks n body chunks e tail : Forall (fun c => c <> []) chunks ->
  n <= zlen body + zlen (concat chunks) -> body ++ concat chunks = tail ->
  exists b more, read_rest n body chunks e = Ret b /\ n <= zlen b /\ b ++ more = tail.
Proof.
  intros Hc. revert body. induction Hc as [|c cs Hne Hc IH]; intros body Hn Ht; cbn [read_rest concat] in *.
  - change (zlen (@nil Z)) with 0 in Hn. ztrue. exists body, []. split_and!; [done|lia|done].
  - destruct (Z.leb_spec n (zlen body)).
    + exists body, (c ++ concat cs). done.
    + destruct c as [|x c]; [done|]. apply IH; [zl|]. by rewrite <-app_assoc.
Qed.

(** Reading an HTTP response does not depend on how the network cuts it: for
    every division of "head, body, anything" into chunks, with a head of at most
    8 KiB that [httparse] accepts with status 200 and that announces the body's
    length, the reader returns exactly the body. *)
Theorem read_http_response_chunking httparse head body extra hs chunks e :
  position_blank head = Some (zlen head - 4) -> zlen head <= 8192 ->
  httparse head = Some (mk_head (Some 200) hs) -> content_length_of hs = Some (zlen body) ->
  Forall (fun c => c <> []) chunks -> concat chunks = head ++ body ++ extra ->
  read_http_response httparse chunks e = Ret body.
Proof.
  intros Hh Hl Hp Hc Hch He. unfold read_http_response.
  pose proof (position_blank_bound _ _ Hh) as [Hb _].
  destruct (read_head_chunks head (body ++ extra) [] chunks e Hh ltac:(lia) ltac:(change (zlen (@nil Z)) with 0; lia) Hch He)
    as (buf & rest & -> & Hbuf & Hle & Hrest).
  assert (Hbh : buf = head ++ drop (length head) buf).
  { apply (f_equal (take (length head))) in Hbuf. rewrite take_app_length in Hbuf.
    rewrite take_app_le in Hbuf by (unfold zlen in Hle; lia). rewrite <-Hbuf at 1. by rewrite take_drop. }
  assert (Hnat : Z.to_nat (zlen head) = length head) by (unfold zlen; lia). rewrite Hnat.
  rewrite Hbh at 1. rewrite take_app_length, Hp. cbn [default h_code h_headers negb Z.eqb Pos.eqb]. rewrite Hc.
  assert (Htail : drop (length head) buf ++ concat rest = body ++ extra).
  { rewrite Hbh, <-app_assoc in Hbuf. by apply app_inv_head in Hbuf. }
  destruct (read_rest_chunks (zlen body) (drop (length head) buf) rest e (body ++ extra) Hrest) as (b & more & -> & Hbl & Hbm).
  - rewrite <-zlen_app, Htail. zl.
  - done.
  - f_equal. assert (Hnb : Z.to_nat (zlen body) = length body) by (unfold zlen; lia). rewrite Hnb.
    apply (f_equal (take (length body))) in Hbm. rewrite take_app_length in Hbm.
    rewrite take_app_le in Hbm by (unfold zlen in Hbl; lia). done.
Qed.

Lemma read_http_response_chunking_witness :
  read_http_response (fun _ => Some (mk_head (Some 200) [(str_bytes "Content-Length", str_bytes "2")]))
    [[72; 13]; [10; 13; 10; 1]; [2; 9]] Silent = Ret [1; 2].
Proof.
  apply (read_http_response_chunking _ [72; 13; 10; 13; 10] [1; 2] [9]
    [(str_bytes "Content-Length", str_bytes "2")]); try (vm_compute; reflexivity).
  - vm_compute. discriminate.
  - repeat (constructor; [discriminate|]). constructor.
Defined.
End Doh.
