(* ===== verification/Huffman.v ===== *)
(** * Huffman decoding of header strings ([src/src/outbound/masque/huffman.rs])

    The code table, the symbol matcher and the byte-wise decoder with its 64-bit
    accumulator, against a bit-level specification: a string's code words in
    sequence, then fewer than eight one bits. *)
From S2P Require Import Prelude.

Module Huffman.
(** Code and bit length; positions 0 to 255 are the byte values, 256 is EOS. *)
Definition TABLE_low : list (Z * Z) :=
  [(8184, 13); (8388568, 23); (268435426, 28); (268435427, 28); (268435428, 28);
   (268435429, 28); (268435430, 28); (268435431, 28); (268435432, 28); (16777194, 24);
   (1073741820, 30); (268435433, 28); (268435434, 28); (1073741821, 30); (268435435, 28);
   (268435436, 28); (268435437, 28); (268435438, 28); (268435439, 28); (268435440, 28);
   (268435441, 28); (268435442, 28); (1073741822, 30); (268435443, 28); (268435444, 28);
   (268435445, 28); (268435446, 28); (268435447, 28); (268435448, 28); (268435449, 28);
   (268435450, 28); (268435451, 28); (20, 6); (1016, 10); (1017, 10); (4090, 12); (8185, 13);
   (21, 6); (248, 8); (2042, 11); (1018, 10); (1019, 10); (249, 8); (2043, 11); (250, 8);
   (22, 6); (23, 6); (24, 6); (0, 5); (1, 5); (2, 5); (25, 6); (26, 6); (27, 6); (28, 6);
   (29, 6); (30, 6); (31, 6); (92, 7); (251, 8); (32764, 15); (32, 6); (4091, 12); (1020, 10);
   (8186, 13); (33, 6); (93, 7); (94, 7); (95, 7); (96, 7); (97, 7); (98, 7); (99, 7);
   (100, 7); (101, 7); (102, 7); (103, 7); (104, 7); (105, 7); (106, 7); (107, 7); (108, 7);
   (109, 7); (110, 7); (111, 7); (112, 7); (113, 7); (114, 7); (252, 8); (115, 7); (253, 8);
   (8187, 13); (524272, 19); (8188, 13); (16380, 14); (34, 6); (32765, 15); (3, 5); (35, 6);
   (4, 5); (36, 6); (5, 5); (37, 6); (38, 6); (39, 6); (6, 5); (116, 7); (117, 7); (40, 6);
   (41, 6); (42, 6); (7, 5); (43, 6); (118, 7); (44, 6); (8, 5); (9, 5); (45, 6); (119, 7);
   (120, 7); (121, 7); (122, 7); (123, 7); (32766, 15); (2044, 11); (16381, 14); (8189, 13);
   (268435452, 28)].
Definition TABLE_high : list (Z * Z) :=
  [(1048550, 20); (4194258, 22); (1048551, 20); (1048552, 20); (4194259, 22); (4194260, 22);
   (4194261, 22); (8388569, 23); (4194262, 22); (8388570, 23); (8388571, 23); (8388572, 23);
   (8388573, 23); (8388574, 23); (16777195, 24); (8388575, 23); (16777196, 24); (16777197, 24);
   (4194263, 22); (8388576, 23); (16777198, 24); (8388577, 23); (8388578, 23); (8388579, 23);
   (8388580, 23); (2097116, 21); (4194264, 22); (8388581, 23); (4194265, 22); (8388582, 23);
   (8388583, 23); (16777199, 24); (4194266, 22); (2097117, 21); (1048553, 20); (4194267, 22);
   (4194268, 22); (8388584, 23); (8388585, 23); (2097118, 21); (8388586, 23); (4194269, 22);
   (4194270, 22); (16777200, 24); (2097119, 21); (4194271, 22); (8388587, 23); (8388588, 23);
   (2097120, 21); (2097121, 21); (4194272, 22); (2097122, 21); (8388589, 23); (4194273, 22);
   (8388590, 23); (8388591, 23); (1048554, 20); (4194274, 22); (4194275, 22); (4194276, 22);
   (8388592, 23); (4194277, 22); (4194278, 22); (8388593, 23); (67108832, 26); (67108833, 26);
   (1048555, 20); (524273, 19); (4194279, 22); (8388594, 23); (4194280, 22); (33554412, 25);
   (67108834, 26); (67108835, 26); (67108836, 26); (134217694, 27); (134217695, 27);
   (67108837, 26); (16777201, 24); (33554413, 25); (524274, 19); (2097123, 21); (67108838, 26);
   (134217696, 27); (134217697, 27); (67108839, 26); (134217698, 27); (16777202, 24);
   (2097124, 21); (2097125, 21); (67108840, 26); (67108841, 26); (268435453, 28);
   (134217699, 27); (134217700, 27); (134217701, 27); (1048556, 20); (16777203, 24);
   (1048557, 20); (2097126, 21); (4194281, 22); (2097127, 21); (2097128, 21); (8388595, 23);
   (4194282, 22); (4194283, 22); (33554414, 25); (33554415, 25); (16777204, 24);
   (16777205, 24); (67108842, 26); (8388596, 23); (67108843, 26); (134217702, 27);
   (67108844, 26); (67108845, 26); (134217703, 27); (134217704, 27); (134217705, 27);
   (134217706, 27); (134217707, 27); (268435454, 28); (134217708, 27); (134217709, 27);
   (134217710, 27); (134217711, 27); (134217712, 27); (67108846, 26); (1073741823, 30)].
Definition TABLE : list (Z * Z) := TABLE_low ++ TABLE_high.

Inductive huffman_error := EosInStream | TrailingByte | BadPadding.

(** [match_symbol]: the first symbol whose code is the head of the [nbits] bits
    held right-aligned in [acc]. *)
Fixpoint match_in (table : list (Z * Z)) (sym : Z) (acc nbits : Z) : option (Z * Z) :=
  match table with
  | [] => None
  | (code, len) :: rest =>
      if (len <=? nbits)
         && (Z.land (Z.shiftr acc (nbits - len)) (Z.shiftl 1 len - 1) =? code)
      then Some (sym, len)
      else match_in rest (sym + 1) acc nbits
  end.
Definition match_symbol (acc nbits : Z) : option (Z * Z) := match_in TABLE 0 acc nbits.

(** The [while let] loop; every turn consumes at least one bit, so [nbits] turns
    are enough ([Panic]: out of turns, or [nbits] underflows). *)
Fixpoint drain (fuel : nat) (acc nbits : Z) (out : bytes) : res huffman_error (Z * Z * bytes) :=
  match fuel with
  | O => Panic
  | S fuel' =>
      match match_symbol acc nbits with
      | None => Ok (acc, nbits, out)
      | Some (sym, len) =>
          if sym =? 256 then Err EosInStream
          else if nbits <? len then Panic
          else
            let nbits := nbits - len in
            drain fuel' (Z.land acc (Z.shiftl 1 nbits - 1)) nbits (out ++ [sym])
      end
  end.

Fixpoint decode_bytes (buf : bytes) (acc nbits : Z) (out : bytes) : res huffman_error (Z * Z * bytes) :=
  match buf with
  | [] => Ok (acc, nbits, out)
  | byte :: rest =>
      let acc := Z.lor (wrap64 (Z.shiftl acc 8)) byte in
      let nbits := nbits + 8 in
      '(acc, nbits, out) ← drain (S (Z.to_nat nbits)) acc nbits out;
      decode_bytes rest acc nbits out
  end.

Definition decode (buf : bytes) : res huffman_error bytes :=
  '(acc, nbits, out) ← decode_bytes buf 0 0 [];
  if 8 <=? nbits then Err TrailingByte
  else if (0 <? nbits) && negb (Z.land acc (Z.shiftl 1 nbits - 1) =? Z.shiftl 1 nbits - 1) then Err BadPadding
  else Ok out.

(** ** Bit-level specification *)
Fixpoint bits (n : nat) (v : Z) : list bool :=
  match n with
  | O => []
  | S n' => Z.testbit v (Z.of_nat n') :: bits n' v
  end.

Definition code_word (sym : Z) : list bool :=
  match TABLE !! Z.to_nat sym with
  | Some (code, len) => bits (Z.to_nat len) code
  | None => []
  end.
Definition code_words (s : bytes) : list bool := concat (map code_word s).
Definition stream_bits (buf : bytes) : list bool := concat (map (bits 8) buf).

(** ** Bits *)
Lemma bits_length n v : length (bits n v) = n.
Proof. induction n; simpl; congruence. Qed.

Lemma bits_ext n v w : (forall i, 0 <= i < Z.of_nat n -> Z.testbit v i = Z.testbit w i) -> bits n v = bits n w.
Proof. induction n as [|n IH]; intros H; simpl; [done|]. rewrite H by lia. f_equal. apply IH. intros i Hi. apply H. lia. Qed.

Lemma bits_inj n v w : bits n v = bits n w -> forall i, 0 <= i < Z.of_nat n -> Z.testbit v i = Z.testbit w i.
Proof.
  induction n as [|n IH]; intros H i Hi; simpl in *; [lia|]. injection H as H1 H2.
  destruct (Z.eq_dec i (Z.of_nat n)) as [->|]; [done|]. apply IH; [done|lia].
Qed.

Lemma bits_inj_small n v w : 0 <= v < 2 ^ Z.of_nat n -> 0 <= w < 2 ^ Z.of_nat n -> bits n v = bits n w -> v = w.
Proof.
  intros Hv Hw H. apply Z.bits_inj'. intros i Hi. destruct (Z.lt_ge_cases i (Z.of_nat n)) as [Hlt|Hge].
  - apply (bits_inj n _ _ H). lia.
  - rewrite <-(Z.mod_small v (2 ^ Z.of_nat n)), <-(Z.mod_small w (2 ^ Z.of_nat n)) by done.
    by rewrite !Z.mod_pow2_bits_high by lia.
Qed.

Lemma ones_shift n : 0 <= n -> Z.shiftl 1 n - 1 = Z.ones n.
Proof. intros. rewrite Z.ones_equiv, Z.shiftl_1_l. lia. Qed.

Lemma bits_land n m v : (n <= m)%nat -> bits n (Z.land v (Z.ones (Z.of_nat m))) = bits n v.
Proof. intros H. apply bits_ext. intros i Hi. rewrite Z.land_spec, Z.ones_spec_low by lia. apply andb_true_r. Qed.

Lemma bits_split n m v : bits (n + m) v = bits n (Z.shiftr v (Z.of_nat m)) ++ bits m v.
Proof.
  induction n as [|n IH]; simpl; [done|]. rewrite IH. f_equal. rewrite Z.shiftr_spec by lia. f_equal. lia.
Qed.

Lemma bits_cons_byte n acc byte : is_byte byte ->
  bits (n + 8) (Z.lor (Z.shiftl acc 8) byte) = bits n acc ++ bits 8 byte.
Proof.
  intros Hb. unfold is_byte in Hb. rewrite bits_split. f_equal; apply bits_ext; intros i Hi.
  - rewrite Z.shiftr_spec, Z.lor_spec, Z.shiftl_spec by lia.
    replace (i + Z.of_nat 8 - 8) with i by lia.
    rewrite <-(Z.mod_small byte (2 ^ 8)) by (simpl; lia). rewrite Z.mod_pow2_bits_high by lia. apply orb_false_r.
  - rewrite Z.lor_spec, Z.shiftl_spec_low by lia. done.
Qed.

(** ** The table: prefix free and complete, by computation *)
Fixpoint is_prefix (a b : list bool) : bool :=
  match a, b with
  | [], _ => true
  | x :: a', y :: b' => if Bool.eqb x y then is_prefix a' b' else false
  | _ :: _, [] => false
  end.

Definition words : list (list bool) := map (fun e => bits (Z.to_nat (snd e)) (fst e)) TABLE.

Lemma is_prefix_spec a b : is_prefix a b = true <-> a `prefix_of` b.
Proof.
  revert b. induction a as [|x a IH]; intros [|y b]; simpl; split; intros H; try done.
  - apply prefix_nil.
  - by destruct H as [k H].
  - destruct (Bool.eqb_spec x y) as [->|]; [|done]. by apply prefix_cons, IH.
  - destruct (Bool.eqb_spec x y) as [->|Hne]; [apply IH; by apply prefix_cons_inv_2 in H|].
    by apply prefix_cons_inv_1 in H.
Qed.

Lemma prefix_free_check :
  forallb (fun i => forallb (fun j => Bool.eqb (is_prefix (nth i words []) (nth j words [])) (Nat.eqb i j)) (seq 0 257)) (seq 0 257) = true.
Proof. vm_compute. reflexivity. Qed.

Lemma words_nth i w : words !! i = Some w -> (i < 257)%nat /\ nth i words [] = w.
Proof.
  intros H. split; [apply lookup_lt_Some in H; exact H|]. rewrite nth_lookup, H. done.
Qed.

Lemma prefix_free i j v w : words !! i = Some v -> words !! j = Some w -> v `prefix_of` w -> i = j.
Proof.
  intros [Hi Hv]%words_nth [Hj Hw]%words_nth Hp. pose proof prefix_free_check as C.
  rewrite forallb_forall in C. specialize (C i ltac:(apply in_seq; lia)). rewrite forallb_forall in C.
  specialize (C j ltac:(apply in_seq; lia)). apply Bool.eqb_prop in C. rewrite Hv, Hw in C.
  apply is_prefix_spec in Hp. rewrite Hp in C. symmetry in C. by apply Nat.eqb_eq.
Qed.

Definition tails (b : bool) (cs : list (list bool)) : list (list bool) :=
  omap (fun c => match c with x :: r => if Bool.eqb x b then Some r else None | [] => None end) cs.
Fixpoint complete (fuel : nat) (cs : list (list bool)) : bool :=
  if existsb (fun c => match c with [] => true | _ => false end) cs then true
  else match fuel with
       | O => false
       | S f => if complete f (tails true cs) then complete f (tails false cs) else false
       end.

Lemma complete_spec fuel cs l : complete fuel cs = true -> (fuel <= length l)%nat -> exists c, c ∈ cs /\ c `prefix_of` l.
Proof.
  revert cs l. induction fuel as [|f IH]; intros cs l; simpl.
  all: destruct (existsb _ cs) eqn:E; [intros _ _; apply existsb_exists in E as (c & Hin & Hc); destruct c; [|done];
         exists []; split; [by apply list_elem_of_In|apply prefix_nil]|].
  - done.
  - destruct (complete f (tails true cs)) eqn:Ht; [|done]. intros Hf Hl.
    destruct l as [|b l]; simpl in Hl; [lia|].
    assert (Hb : complete f (tails b cs) = true) by (by destruct b).
    destruct (IH _ l Hb) as (c & Hin & Hp); [lia|].
    apply list_elem_of_omap in Hin as ([|x r] & Hin & Hr); [done|].
    destruct (Bool.eqb_spec x b) as [->|]; [|done]. injection Hr as ->.
    exists (b :: c). split; [done|]. by apply prefix_cons.
Qed.

Lemma words_complete l : (30 <= length l)%nat -> exists c, c ∈ words /\ c `prefix_of` l.
Proof. apply complete_spec. vm_compute. reflexivity. Qed.

Lemma table_ok_check : forallb (fun e => (0 <? snd e) && (snd e <=? 30) && (0 <=? fst e) && (fst e <? 2 ^ snd e)) TABLE = true.
Proof. vm_compute. reflexivity. Qed.

Lemma table_ok i code len : TABLE !! i = Some (code, len) -> 0 < len <= 30 /\ 0 <= code < 2 ^ len.
Proof.
  intros H. pose proof table_ok_check as C. rewrite forallb_forall in C.
  specialize (C (code, len)). cbn [fst snd] in C. apply list_elem_of_lookup_2, list_elem_of_In in H. specialize (C H). zbool. lia.
Qed.

Lemma words_table i : words !! i = (fun e => bits (Z.to_nat (snd e)) (fst e)) <$> (TABLE !! i).
Proof. unfold words. apply list_lookup_fmap. Qed.

Lemma code_word_words i w : words !! i = Some w -> code_word (Z.of_nat i) = w.
Proof.
  rewrite words_table. unfold code_word. rewrite Nat2Z.id. destruct (TABLE !! i) as [[c l]|]; [|done]. by intros [= <-].
Qed.

(** ** The matcher against code words *)
Definition held (acc nbits : Z) : list bool := bits (Z.to_nat nbits) acc.

Lemma candidate_word acc nbits code len : 0 < len -> 0 <= code < 2 ^ len -> len <= nbits ->
  (Z.land (Z.shiftr acc (nbits - len)) (Z.shiftl 1 len - 1) =? code) = true
  <-> bits (Z.to_nat len) code `prefix_of` held acc nbits.
Proof.
  intros Hl Hc Hn. rewrite ones_shift by lia. set (n := Z.to_nat len). set (m := Z.to_nat (nbits - len)).
  assert (Hsplit : held acc nbits = bits n (Z.shiftr acc (nbits - len)) ++ bits m acc).
  { unfold held. replace (Z.to_nat nbits) with (n + m)%nat by lia. rewrite bits_split. by replace (Z.of_nat m) with (nbits - len) by lia. }
  rewrite Hsplit, Z.eqb_eq. split.
  - intros <-. replace (Z.ones len) with (Z.ones (Z.of_nat n)) by (f_equal; lia).
    rewrite bits_land by lia. by apply prefix_app_r.
  - intros [k Hk]. apply app_inj_1 in Hk as [Hk _]; [|by rewrite !bits_length].
    apply (bits_inj_small n).
    + rewrite Z.land_ones by lia. replace (Z.of_nat n) with len by lia. apply Z.mod_pos_bound. lia.
    + by replace (Z.of_nat n) with len by lia.
    + replace (Z.ones len) with (Z.ones (Z.of_nat n)) by (f_equal; lia). by rewrite bits_land by lia.
Qed.

Lemma match_in_spec t k acc nbits :
  (forall i code len, t !! i = Some (code, len) -> 0 < len <= 30 /\ 0 <= code < 2 ^ len) ->
  match match_in t k acc nbits with
  | Some (sym, len) => exists i code, t !! i = Some (code, len) /\ sym = k + Z.of_nat i
      /\ len <= nbits /\ bits (Z.to_nat len) code `prefix_of` held acc nbits
  | None => forall i code len, t !! i = Some (code, len) -> 0 <= nbits ->
      ~ bits (Z.to_nat len) code `prefix_of` held acc nbits
  end.
Proof.
  revert k. induction t as [|[code len] t IH]; intros k Ht; cbn [match_in]; [done|].
  pose proof (Ht 0%nat code len eq_refl) as [Hl Hc].
  destruct (Z.leb_spec len nbits) as [Hle|Hgt]; cbn [andb].
  - pose proof (candidate_word acc nbits code len ltac:(lia) Hc Hle) as Hw.
    destruct (Z.land _ _ =? code).
    + exists 0%nat, code. split_and!; try done; [lia|by apply Hw].
    + specialize (IH (k + 1) (fun i => Ht (S i))). destruct (match_in t (k + 1) acc nbits) as [[sym l]|].
      * destruct IH as (i & c & Hi & -> & ? & ?). exists (S i), c. split_and!; try done. lia.
      * intros [|i] c l Hi Hn; [|by apply (IH i)]. injection Hi as <- <-. intros Hp. by apply Hw in Hp.
  - specialize (IH (k + 1) (fun i => Ht (S i))). destruct (match_in t (k + 1) acc nbits) as [[sym l]|].
    + destruct IH as (i & c & Hi & -> & ? & ?). exists (S i), c. split_and!; try done. lia.
    + intros [|i] c l Hi Hn; [|by apply (IH i)]. injection Hi as <- <-. intros Hp%prefix_length.
      unfold held in Hp. rewrite !bits_length in Hp. lia.
Qed.

Lemma match_symbol_some acc nbits sym len : match_symbol acc nbits = Some (sym, len) ->
  0 <= sym <= 256 /\ 0 < len <= nbits /\ words !! Z.to_nat sym = Some (code_word sym)
  /\ length (code_word sym) = Z.to_nat len /\ code_word sym `prefix_of` held acc nbits.
Proof.
  intros H. pose proof (match_in_spec TABLE 0 acc nbits table_ok) as Hs. unfold match_symbol in H. rewrite H in Hs.
  destruct Hs as (i & code & Hi & -> & Hn & Hp). destruct (table_ok _ _ _ Hi) as [Hl _].
  assert (Hw : words !! i = Some (bits (Z.to_nat len) code)) by (by rewrite words_table, Hi).
  rewrite Z.add_0_l, Nat2Z.id, (code_word_words i _ Hw). apply lookup_lt_Some in Hi. change (length TABLE) with 257%nat in Hi.
  split_and!; try done; try lia. apply bits_length.
Qed.

Lemma match_symbol_none acc nbits w : match_symbol acc nbits = None -> 0 <= nbits -> w ∈ words -> ~ w `prefix_of` held acc nbits.
Proof.
  intros H Hn Hw. pose proof (match_in_spec TABLE 0 acc nbits table_ok) as Hs. unfold match_symbol in H. rewrite H in Hs.
  apply list_elem_of_lookup in Hw as [i Hi]. rewrite words_table in Hi.
  destruct (TABLE !! i) as [[code len]|] eqn:Ht; [|done]. injection Hi as <-. by apply (Hs i).
Qed.

Lemma no_match_short acc nbits : match_symbol acc nbits = None -> 0 <= nbits -> nbits < 30.
Proof.
  intros H Hn. destruct (Z.lt_ge_cases nbits 30) as [|Hge]; [done|].
  destruct (words_complete (held acc nbits)) as (w & Hw & Hp); [unfold held; rewrite bits_length; lia|].
  by destruct (match_symbol_none acc nbits w).
Qed.

(** The accumulator holds [nbits] bits. *)
Definition acc_ok (acc nbits : Z) : Prop := 0 <= nbits /\ 0 <= acc < 2 ^ nbits.

Lemma consume acc nbits len : acc_ok acc nbits -> 0 < len <= nbits ->
  let acc' := Z.land acc (Z.shiftl 1 (nbits - len) - 1) in
  acc_ok acc' (nbits - len) /\ held acc' (nbits - len) = drop (Z.to_nat len) (held acc nbits).
Proof.
  intros [Hn Ha] Hl. cbn zeta. rewrite ones_shift by lia. split.
  - split; [lia|]. rewrite Z.land_ones by lia. apply Z.mod_pos_bound. lia.
  - unfold held. set (n := Z.to_nat len). set (m := Z.to_nat (nbits - len)).
    replace (Z.to_nat nbits) with (n + m)%nat by lia. rewrite bits_split.
    rewrite (drop_app_length' (bits n _)) by (by rewrite bits_length).
    replace (nbits - len) with (Z.of_nat m) by lia. by rewrite bits_land.
Qed.

Lemma code_words_app s t : code_words (s ++ t) = code_words s ++ code_words t.
Proof. unfold code_words. by rewrite map_app, concat_app. Qed.

Lemma code_words_cons x s : code_words (x :: s) = code_word x ++ code_words s.
Proof. done. Qed.

Lemma drain_spec fuel acc nbits out : acc_ok acc nbits -> (Z.to_nat nbits < fuel)%nat ->
  match drain fuel acc nbits out with
  | Panic => False
  | Err e => e = EosInStream /\ exists s, bytes_ok s /\ (code_words s ++ code_word 256) `prefix_of` held acc nbits
  | Ok (acc', nbits', out') =>
      acc_ok acc' nbits' /\ match_symbol acc' nbits' = None
      /\ exists s, bytes_ok s /\ out' = out ++ s /\ held acc nbits = code_words s ++ held acc' nbits'
  end.
Proof.
  revert acc nbits out. induction fuel as [|fuel IH]; intros acc nbits out Ha Hf; [lia|]. cbn [drain].
  destruct (match_symbol acc nbits) as [[sym len]|] eqn:Hm.
  - destruct (match_symbol_some _ _ _ _ Hm) as (Hs & Hl & Hw & Hlen & Hp).
    destruct (Z.eqb_spec sym 256) as [->|Hne]; [split; [done|]; by exists []|].
    rewrite (proj2 (Z.ltb_ge _ _)) by lia. cbn zeta.
    destruct (consume acc nbits len Ha Hl) as [Ha' Hh'].
    assert (Hsplit : held acc nbits = code_word sym ++ held (Z.land acc (Z.shiftl 1 (nbits - len) - 1)) (nbits - len)).
    { rewrite Hh', <-Hlen. destruct Hp as [k Hk]. rewrite Hk. by rewrite drop_app_length. }
    specialize (IH _ _ (out ++ [sym]) Ha' ltac:(lia)).
    assert (Hb : is_byte sym) by (unfold is_byte; lia).
    destruct (drain fuel _ _ _) as [[[acc' nbits'] out']|e|]; [| |done].
    + destruct IH as (? & ? & s & Hsb & -> & He). split_and!; try done.
      exists (sym :: s). split_and!; [by constructor|by rewrite <-app_assoc|].
      by rewrite Hsplit, He, code_words_cons, <-app_assoc.
    + destruct IH as (-> & s & Hsb & Hp'). split; [done|]. exists (sym :: s). split; [by constructor|].
      rewrite Hsplit, code_words_cons, <-app_assoc. by apply prefix_app.
  - split_and!; try done. exists []. split_and!; [constructor|by rewrite app_nil_r|done].
Qed.

(** A byte is shifted in without losing a bit of the accumulator. *)
Lemma push_byte acc nbits byte : acc_ok acc nbits -> nbits < 30 -> is_byte byte ->
  let acc' := Z.lor (wrap64 (Z.shiftl acc 8)) byte in
  acc_ok acc' (nbits + 8) /\ held acc' (nbits + 8) = held acc nbits ++ bits 8 byte.
Proof.
  intros [Hn Ha] H30 Hb. cbn zeta.
  assert (Hsh : 0 <= Z.shiftl acc 8 < 2 ^ (nbits + 8)).
  { rewrite Z.shiftl_mul_pow2, Z.pow_add_r by lia. split; [lia|]. apply Z.mul_lt_mono_pos_r; lia. }
  assert (Hw : wrap64 (Z.shiftl acc 8) = Z.shiftl acc 8).
  { unfold wrap64. apply Z.mod_small. split; [lia|]. eapply Z.lt_le_trans; [apply Hsh|].
    change 18446744073709551616 with (2 ^ 64). apply Z.pow_le_mono_r; lia. }
  rewrite Hw. split.
  - split; [lia|]. unfold is_byte in Hb. split; [apply Z.lor_nonneg; lia|].
    destruct (Z.eq_dec (Z.lor (Z.shiftl acc 8) byte) 0) as [->|Hnz]; [apply Z.pow_pos_nonneg; lia|].
    apply Z.log2_lt_pow2; [pose proof (proj2 (Z.lor_nonneg (Z.shiftl acc 8) byte)); lia|]. rewrite Z.log2_lor by lia.
    apply Z.max_lub_lt.
    + destruct (Z.eq_dec (Z.shiftl acc 8) 0) as [->|]; [simpl; lia|]. apply Z.log2_lt_pow2; lia.
    + destruct (Z.eq_dec byte 0) as [->|]; [simpl; lia|].
      apply Z.log2_lt_pow2; [lia|]. apply Z.lt_le_trans with (2 ^ 8); [simpl; lia|]. apply Z.pow_le_mono_r; lia.
  - unfold held. replace (Z.to_nat (nbits + 8)) with (Z.to_nat nbits + 8)%nat by lia. by apply bits_cons_byte.
Qed.

Lemma decode_bytes_spec buf acc nbits out : bytes_ok buf -> acc_ok acc nbits -> match_symbol acc nbits = None ->
  match decode_bytes buf acc nbits out with
  | Panic => False
  | Err e => exists s, bytes_ok s /\ (code_words s ++ code_word 256) `prefix_of` (held acc nbits ++ stream_bits buf)
  | Ok (acc', nbits', out') =>
      acc_ok acc' nbits' /\ match_symbol acc' nbits' = None
      /\ exists s, bytes_ok s /\ out' = out ++ s /\ held acc nbits ++ stream_bits buf = code_words s ++ held acc' nbits'
  end.
Proof.
  intros Hb. revert acc nbits out. induction Hb as [|byte buf Hbyte Hb IH]; intros acc nbits out Ha Hm; cbn [decode_bytes].
  - split_and!; try done. exists []. by rewrite !app_nil_r.
  - destruct (push_byte acc nbits byte Ha (no_match_short _ _ Hm (proj1 Ha)) Hbyte) as [Ha1 Hh1]. cbn zeta.
    set (acc1 := Z.lor _ _) in *. clearbody acc1.
    pose proof (drain_spec (S (Z.to_nat (nbits + 8))) acc1 (nbits + 8) out Ha1 ltac:(lia)) as Hd.
    assert (Hs : held acc nbits ++ stream_bits (byte :: buf) = held acc1 (nbits + 8) ++ stream_bits buf)
      by (rewrite Hh1, <-app_assoc; done).
    rewrite Hs. destruct (drain _ acc1 (nbits + 8) out) as [[[acc2 nbits2] out2]|e|]; cbn [mbind res_bind]; [| |done].
    + destruct Hd as (Ha2 & Hm2 & s & Hsb & -> & Hh2). rewrite Hh2, <-app_assoc. specialize (IH acc2 nbits2 (out ++ s) Ha2 Hm2).
      destruct (decode_bytes buf acc2 nbits2 (out ++ s)) as [[[acc3 nbits3] out3]|e|]; [| |done].
      * destruct IH as (? & ? & t & Htb & -> & He). split_and!; try done. exists (s ++ t).
        split_and!; [by apply Forall_app|by rewrite app_assoc|]. by rewrite He, code_words_app, <-app_assoc.
      * destruct IH as (t & Htb & Hp). exists (s ++ t). split; [by apply Forall_app|].
        rewrite code_words_app, <-app_assoc. by apply prefix_app.
    + destruct Hd as (_ & s & Hsb & Hp). exists s. split; [done|]. by apply prefix_app_r.
Qed.

(** ** Unique decoding *)
Lemma words_sym x : 0 <= x <= 256 -> words !! Z.to_nat x = Some (code_word x).
Proof.
  intros Hx. destruct (lookup_lt_is_Some_2 words (Z.to_nat x)) as [w Hw]; [change (length words) with 257%nat; lia|].
  rewrite Hw. f_equal. rewrite <-(code_word_words _ _ Hw). f_equal. lia.
Qed.

Lemma word_inj x y r1 r2 : 0 <= x <= 256 -> 0 <= y <= 256 -> code_word x ++ r1 = code_word y ++ r2 -> x = y.
Proof.
  intros Hx Hy He. assert (Hc : code_word x `prefix_of` code_word y \/ code_word y `prefix_of` code_word x).
  { apply (prefix_weak_total _ _ (code_word x ++ r1)); [by apply prefix_app_r|rewrite He; by apply prefix_app_r]. }
  destruct Hc as [Hc|Hc].
  - pose proof (prefix_free _ _ _ _ (words_sym x Hx) (words_sym y Hy) Hc). lia.
  - pose proof (prefix_free _ _ _ _ (words_sym y Hy) (words_sym x Hx) Hc). lia.
Qed.

Definition stuck (r : list bool) : Prop := forall w, w ∈ words -> ~ w `prefix_of` r.

Lemma word_in x : 0 <= x <= 256 -> code_word x ∈ words.
Proof. intros Hx. eapply list_elem_of_lookup_2, (words_sym x Hx). Qed.

Lemma unique_parse s t r1 r2 : bytes_ok s -> bytes_ok t -> stuck r1 -> stuck r2 ->
  code_words s ++ r1 = code_words t ++ r2 -> s = t /\ r1 = r2.
Proof.
  intros Hs. revert t. induction Hs as [|x s Hx Hs IH]; intros t Ht H1 H2 He; unfold is_byte in *.
  - destruct Ht as [|y t Hy Ht]; [done|]. exfalso. unfold is_byte in Hy. apply (H1 (code_word y)); [apply word_in; lia|].
    rewrite code_words_cons, <-app_assoc in He. cbn [app code_words map concat] in He. rewrite He. by apply prefix_app_r.
  - destruct Ht as [|y t Hy Ht].
    + exfalso. apply (H2 (code_word x)); [apply word_in; lia|].
      rewrite code_words_cons, <-app_assoc in He. cbn [app code_words map concat] in He. rewrite <-He. by apply prefix_app_r.
    + unfold is_byte in Hy. rewrite !code_words_cons, <-!app_assoc in He.
      assert (x = y) as <- by (eapply word_inj; [lia|lia|exact He]).
      apply app_inv_head in He. destruct (IH t Ht H1 H2 He) as [-> ->]. done.
Qed.

Lemma no_eos s t z r : bytes_ok s -> bytes_ok t -> stuck r -> code_words s ++ code_word 256 ++ z <> code_words t ++ r.
Proof.
  intros Hs. revert t. induction Hs as [|x s Hx Hs IH]; intros t Ht Hr He; unfold is_byte in *.
  - destruct Ht as [|y t Hy Ht]; cbn [app code_words map concat] in He.
    + apply (Hr (code_word 256)); [apply word_in; lia|]. rewrite <-He. by apply prefix_app_r.
    + unfold is_byte in Hy. rewrite <-app_assoc in He. assert (256 = y) by (eapply word_inj; [lia|lia|exact He]). lia.
  - destruct Ht as [|y t Hy Ht]; rewrite code_words_cons, <-app_assoc in He.
    + apply (Hr (code_word x)); [apply word_in; lia|]. cbn [app code_words map concat] in He. rewrite <-He. by apply prefix_app_r.
    + unfold is_byte in Hy. rewrite code_words_cons, <-app_assoc in He.
      assert (x = y) as <- by (eapply word_inj; [lia|lia|exact He]). apply app_inv_head in He. by apply (IH t Ht Hr).
Qed.

Lemma ones_check : forallb (fun w => negb (is_prefix w (replicate 7 true))) words = true.
Proof. vm_compute. reflexivity. Qed.

Lemma ones_stuck k : (k < 8)%nat -> stuck (replicate k true).
Proof.
  intros Hk w Hw Hp. pose proof ones_check as C. rewrite forallb_forall in C.
  apply list_elem_of_In in Hw. specialize (C w Hw). apply negb_true_iff in C.
  assert (Hp7 : w `prefix_of` replicate 7 true).
  { replace 7%nat with (k + (7 - k))%nat by lia. rewrite replicate_add. by apply prefix_app_r. }
  apply is_prefix_spec in Hp7. congruence.
Qed.

Lemma held_ones acc nbits : acc_ok acc nbits ->
  (Z.land acc (Z.shiftl 1 nbits - 1) =? Z.shiftl 1 nbits - 1) = true <-> held acc nbits = replicate (Z.to_nat nbits) true.
Proof.
  intros [Hn Ha]. rewrite ones_shift by lia. rewrite Z.land_ones, Z.mod_small, Z.eqb_eq by lia.
  assert (Hones : bits (Z.to_nat nbits) (Z.ones nbits) = replicate (Z.to_nat nbits) true).
  { clear Ha. assert (Hgo : forall n, Z.of_nat n <= nbits -> bits n (Z.ones nbits) = replicate n true).
    { induction n as [|n IH]; intros Hle; simpl; [done|]. rewrite Z.ones_spec_low by lia. f_equal. apply IH. lia. }
    apply Hgo. lia. }
  unfold held. split; [by intros ->|]. rewrite <-Hones. intros He. apply (bits_inj_small (Z.to_nat nbits)); [by rewrite Z2Nat.id| |done].
  rewrite Z2Nat.id, Z.ones_equiv by lia. pose proof (Z.pow_pos_nonneg 2 nbits). lia.
Qed.

Lemma decode_iff buf : bytes_ok buf ->
  no_panic (decode buf)
  /\ forall s, decode buf = Ok s <-> bytes_ok s /\ exists k, (k < 8)%nat /\ stream_bits buf = code_words s ++ replicate k true.
Proof.
  intros Hb. assert (H0 : acc_ok 0 0) by (split; simpl; lia).
  assert (Hm0 : match_symbol 0 0 = None) by (vm_compute; reflexivity).
  pose proof (decode_bytes_spec buf 0 0 [] Hb H0 Hm0) as Hd. unfold decode.
  destruct (decode_bytes buf 0 0 []) as [[[acc nbits] out]|e|]; cbn [mbind res_bind]; [| |done].
  - destruct Hd as (Ha & Hm & s & Hsb & -> & He). cbn [app] in *.
    assert (Hst : stuck (held acc nbits)) by (intros w; apply match_symbol_none; [done|apply Ha]).
    pose proof (held_ones acc nbits Ha) as Hones. change (held 0 0) with (@nil bool) in He. cbn [app] in He. split.
    + destruct (8 <=? nbits); [done|]. by destruct (_ && _).
    + intros t. split.
      * destruct (Z.leb_spec 8 nbits); [done|]. destruct (Z.ltb_spec 0 nbits) as [Hpos|Hz]; cbn [andb].
        -- destruct (_ =? _); [|done]. cbn [negb]. intros [= <-]. split; [done|]. exists (Z.to_nat nbits).
           split; [lia|]. rewrite He. f_equal. by apply Hones.
        -- intros [= <-]. split; [done|]. exists 0%nat. split; [lia|]. rewrite He. f_equal.
           destruct Ha as [? _]. by replace nbits with 0 by lia.
      * intros (Htb & k & Hk & Ht). rewrite Ht in He.
        destruct (unique_parse t s _ _ Htb Hsb (ones_stuck k Hk) Hst He) as [-> Hr].
        assert (Hlen : Z.to_nat nbits = k) by (rewrite <-(bits_length (Z.to_nat nbits) acc); fold (held acc nbits); by rewrite <-Hr, length_replicate).
        rewrite (proj2 (Z.leb_gt 8 nbits)) by lia. rewrite <-Hlen in Hr. symmetry in Hr. apply Hones in Hr. rewrite Hr.
        cbn [negb]. by rewrite andb_false_r.
  - destruct Hd as (s & Hsb & z & Hz). change (held 0 0) with (@nil bool) in Hz. cbn [app] in Hz. split; [done|]. intros t.
    split; [done|]. intros (Htb & k & Hk & Ht). exfalso. rewrite Hz, <-app_assoc in Ht.
    exact (no_eos s t z _ Hsb Htb (ones_stuck k Hk) Ht).
Qed.

(** C9. Huffman decoding, exactly: on any input the decoder neither panics, nor
    loses a bit of its 64-bit accumulator, nor loops; and it returns [s] if and
    only if the input is the code words of [s] in sequence followed by fewer
    than eight one bits (so a decoding is unique, and EOS, a wrong padding or a
    longer padding is refused). *)
Theorem huffman_decode_exact buf : bytes_ok buf ->
  no_panic (decode buf)
  /\ forall s, decode buf = Ok s
     <-> bytes_ok s /\ exists k, (k < 8)%nat /\ stream_bits buf = code_words s ++ replicate k true.
Proof. apply decode_iff. Qed.

Lemma huffman_decode_exact_witness :
  decode [207; 15; 231] = Ok (str_bytes "LAX")
  /\ exists k, (k < 8)%nat /\ stream_bits [207; 15; 231] = code_words (str_bytes "LAX") ++ replicate k true.
Proof.
  assert (H : decode [207; 15; 231] = Ok (str_bytes "LAX")) by (vm_compute; reflexivity).
  split; [exact H|]. apply (huffman_decode_exact [207; 15; 231]); [|exact H].
  repeat (constructor; [unfold is_byte; lia|]). constructor.
Defined.
End Huffman.
