(* ===== verification/Varint.v ===== *)
(** * QUIC variable-length integers ([src/src/outbound/masque/varint.rs])

    The codec itself is the quinn crate's [VarInt].  The class states what its
    documentation (RFC 9000, section 16) promises and the framing code relies
    on; clients are proved against the class, and [rfc9000] is an instance that
    shows the laws can hold. *)
From S2P Require Import Prelude.

Definition VARINT_BOUND : Z := 4611686018427387904. (* 2^62 *)

Class VarInt := {
  vi_encode : Z -> bytes;
  vi_decode : bytes -> option (Z * bytes)
}.

(** The total length announced by the two top bits of the first byte. *)
Definition vi_len (b : Z) : Z := Z.shiftl 1 (Z.shiftr b 6).

Class VarIntLaws (V : VarInt) : Prop := {
  vi_roundtrip : forall v r, 0 <= v < VARINT_BOUND -> vi_decode (vi_encode v ++ r) = Some (v, r);
  vi_shape : forall v, 0 <= v < VARINT_BOUND ->
    bytes_ok (vi_encode v) /\ exists b t, vi_encode v = b :: t /\ zlen (vi_encode v) = vi_len b;
  vi_total : forall b t, bytes_ok (b :: t) -> zlen (b :: t) = vi_len b ->
    exists v, vi_decode (b :: t) = Some (v, []) /\ 0 <= v < VARINT_BOUND;
  vi_stable : forall b v r x, vi_decode b = Some (v, r) -> vi_decode (b ++ x) = Some (v, r ++ x);
  vi_zero : vi_encode 0 = [0]
}.

(** [write]: [expect] panics on a value of more than 62 bits. *)
Definition varint_write `{VarInt} {E} (out : bytes) (value : Z) : res E bytes :=
  if (0 <=? value) && (value <? VARINT_BOUND) then Ok (out ++ vi_encode value) else Panic.

(** [read]: the value and the number of bytes it takes. *)
Definition varint_read `{VarInt} (buf : bytes) : option (Z * Z) :=
  match vi_decode buf with
  | Some (v, rest) => Some (v, zlen buf - zlen rest)
  | None => None
  end.

(** ** The format of RFC 9000 *)
Module Rfc9000.
Definition encode (v : Z) : bytes :=
  if v <? 64 then [v]
  else if v <? 16384 then to_be 2 (16384 + v)
  else if v <? 1073741824 then to_be 4 (2147483648 + v)
  else to_be 8 (13835058055282163712 + v).

Definition decode (buf : bytes) : option (Z * bytes) :=
  match buf with
  | [] => None
  | b :: _ =>
      let n := vi_len b in
      if zlen buf <? n then None
      else Some (be_val (take (Z.to_nat n) buf) mod 2 ^ (8 * n - 2), drop (Z.to_nat n) buf)
  end.

#[export] Instance codec : VarInt := { vi_encode := encode; vi_decode := decode }.

(** The first byte of [to_be n v] is its top byte. *)
Lemma to_be_head n v : 0 <= v < 256 ^ Z.of_nat (S n) ->
  exists t, to_be (S n) v = v / 256 ^ Z.of_nat n :: t.
Proof.
  revert v. induction n as [|n IH]; intros v Hv.
  - exists []. simpl. f_equal. simpl in Hv. rewrite Z.div_1_r. apply Z.mod_small. lia.
  - rewrite Nat2Z.inj_succ, Z.pow_succ_r in Hv by lia.
    destruct (IH (v / 256)) as [t Ht].
    { split; [apply Z.div_pos; lia|]. apply Z.div_lt_upper_bound; lia. }
    exists (t ++ [v mod 256]). change (to_be (S (S n)) v) with (to_be (S n) (v / 256) ++ [v mod 256]). rewrite Ht.
    cbn [app]. f_equal. rewrite (Nat2Z.inj_succ n), Z.pow_succ_r by lia. rewrite Z.div_div by lia. done.
Qed.

Lemma len_of_top k b : 0 <= k <= 3 -> 64 * k <= b < 64 * k + 64 -> vi_len b = 2 ^ k.
Proof.
  intros Hk Hb. unfold vi_len. rewrite Z.shiftl_1_l, Z.shiftr_div_pow2 by lia. f_equal.
  change (2 ^ 6) with 64. symmetry. apply (Z.div_unique b 64 k (b - 64 * k)); lia.
Qed.

(** One width: [n] bytes with [k] in the two top bits. *)
Lemma width_ok k n v r : 0 <= k <= 3 -> Z.of_nat (S n) = 2 ^ k -> 0 <= v < 2 ^ (8 * 2 ^ k - 2) ->
  let w := k * 2 ^ (8 * 2 ^ k - 2) + v in
  let e := to_be (S n) w in
  decode (e ++ r) = Some (v, r) /\ bytes_ok e /\ exists b t, e = b :: t /\ zlen e = vi_len b.
Proof.
  intros Hk Hn Hv w e.
  assert (Hp : 256 ^ Z.of_nat (S n) = 4 * 2 ^ (8 * 2 ^ k - 2)).
  { rewrite Hn. change 256 with (2 ^ 8). rewrite <-Z.pow_mul_r by lia. change 4 with (2 ^ 2).
    assert (1 <= 2 ^ k) by (pose proof (Z.pow_pos_nonneg 2 k); lia).
    rewrite <-Z.pow_add_r by lia. f_equal. lia. }
  assert (Hw : 0 <= w < 256 ^ Z.of_nat (S n)) by (subst w; rewrite Hp; nia).
  destruct (to_be_head n w Hw) as [t Ht].
  assert (Hb : 64 * k <= w / 256 ^ Z.of_nat n < 64 * k + 64).
  { rewrite Nat2Z.inj_succ, Z.pow_succ_r in Hp by lia.
    assert (Hq : 2 ^ (8 * 2 ^ k - 2) = 64 * 256 ^ Z.of_nat n) by lia.
    assert (0 < 256 ^ Z.of_nat n) by (apply Z.pow_pos_nonneg; lia).
    subst w. rewrite Hq. replace (k * (64 * 256 ^ Z.of_nat n) + v) with (v + 64 * k * 256 ^ Z.of_nat n) by lia.
    rewrite Z.div_add by lia. rewrite Hq in Hv.
    assert (0 <= v / 256 ^ Z.of_nat n < 64); [|lia]. split; [apply Z.div_pos; lia|]. apply Z.div_lt_upper_bound; lia. }
  pose proof (len_of_top k _ Hk Hb) as Hlen.
  assert (He : zlen e = 2 ^ k) by (subst e; rewrite to_be_zlen; lia).
  split_and!; [|apply to_be_bytes|exists (w / 256 ^ Z.of_nat n), t; split; [exact Ht|congruence]].
  unfold decode. assert (Hc : e ++ r = w / 256 ^ Z.of_nat n :: t ++ r) by (subst e; by rewrite Ht).
  rewrite Hc, Hlen, <-Hc. rewrite (proj2 (Z.ltb_ge _ _)) by zl.
  replace (Z.to_nat (2 ^ k)) with (length e) by (unfold zlen in He; lia).
  rewrite take_app_length, drop_app_length. f_equal. f_equal.
  subst e. rewrite be_val_to_be by done. subst w. rewrite Z.add_comm, Z.mod_add by lia. by apply Z.mod_small.
Qed.

#[export] Instance laws : VarIntLaws codec.
Proof.
  assert (Hall : forall v r, 0 <= v < VARINT_BOUND ->
    decode (encode v ++ r) = Some (v, r) /\ bytes_ok (encode v) /\ exists b t, encode v = b :: t /\ zlen (encode v) = vi_len b).
  { intros v r Hv. unfold encode, VARINT_BOUND in *.
    destruct (Z.ltb_spec v 64); [|destruct (Z.ltb_spec v 16384); [|destruct (Z.ltb_spec v 1073741824)]].
    - pose proof (width_ok 0 0 v r ltac:(lia) ltac:(done) ltac:(simpl; lia)) as H1. cbn zeta in H1.
      change (0 * 2 ^ (8 * 2 ^ 0 - 2) + v) with v in H1. simpl to_be in H1. rewrite Z.mod_small in H1 by lia. exact H1.
    - exact (width_ok 1 1 v r ltac:(lia) ltac:(done) ltac:(simpl; lia)).
    - exact (width_ok 2 3 v r ltac:(lia) ltac:(done) ltac:(simpl; lia)).
    - exact (width_ok 3 7 v r ltac:(lia) ltac:(done) ltac:(simpl; lia)). }
  constructor.
  - intros v r Hv. apply (Hall v r Hv).
  - intros v Hv. apply (Hall v [] Hv).
  - intros b t Hb Hl. cbn [vi_decode codec]. unfold decode. rewrite Hl, Z.ltb_irrefl.
    eexists. split; [f_equal; f_equal|].
    + rewrite drop_ge; [done|]. unfold zlen in Hl. lia.
    + assert (0 <= b < 256) as Hbb by (by apply Forall_cons in Hb as [? _]).
      assert (Hn : vi_len b <= 8 /\ 1 <= vi_len b).
      { unfold vi_len. rewrite Z.shiftl_1_l, Z.shiftr_div_pow2 by lia. change (2 ^ 6) with 64.
        assert (0 <= b / 64 <= 3) by (split; [apply Z.div_pos; lia|]; assert (b / 64 < 4) by (apply Z.div_lt_upper_bound; lia); lia).
        split; [change 8 with (2 ^ 3)|change 1 with (2 ^ 0)]; apply Z.pow_le_mono_r; lia. }
      pose proof (Z.mod_pos_bound (be_val (take (Z.to_nat (vi_len b)) (b :: t))) (2 ^ (8 * vi_len b - 2))
        ltac:(apply Z.pow_pos_nonneg; lia)).
      split; [lia|]. eapply Z.lt_le_trans; [apply H|]. unfold VARINT_BOUND. change 4611686018427387904 with (2 ^ 62).
      apply Z.pow_le_mono_r; lia.
  - intros b v r x. cbn [vi_decode codec]. unfold decode. destruct b as [|h t]; [done|]. cbn [app].
    destruct (Z.ltb_spec (zlen (h :: t)) (vi_len h)); [done|]. intros [= <- <-].
    change (h :: t ++ x) with ((h :: t) ++ x). rewrite (proj2 (Z.ltb_ge _ _)) by zl.
    assert (Hn : (Z.to_nat (vi_len h) <= length (h :: t))%nat) by (unfold zlen in *; lia).
    by rewrite take_app_le, drop_app_le by done.
  - reflexivity.
Qed.
End Rfc9000.

(** An incomplete integer is not read. *)
Lemma varint_read_cut {V : VarInt} {L : VarIntLaws V} v p k : 0 <= v < VARINT_BOUND -> vi_encode v = p ++ k -> k <> [] ->
  varint_read p = None.
Proof.
  intros Hv Hp Hk. unfold varint_read. destruct (vi_decode p) as [[w r]|] eqn:Hd; [|done]. exfalso.
  apply (vi_stable p w r k) in Hd. pose proof (vi_roundtrip v [] Hv) as Hr. rewrite app_nil_r, Hp, Hd in Hr.
  injection Hr as _ Hr. by apply app_eq_nil in Hr as [_ ?].
Qed.

(** The reader on a stream that starts with an encoded value. *)
Lemma varint_read_encode {V : VarInt} {L : VarIntLaws V} v r : 0 <= v < VARINT_BOUND ->
  varint_read (vi_encode v ++ r) = Some (v, zlen (vi_encode v)).
Proof. intros Hv. unfold varint_read. rewrite vi_roundtrip by done. f_equal. f_equal. zl. Qed.
