(* ===== verification/Qpack.v ===== *)
(** * QPACK and H3 frames ([src/src/outbound/masque/qpack.rs])

    Prefix integers, string literals, the CONNECT request's field section, H3
    frames and the response header decoder, with every index and every 64-bit
    addition of the source as an operation that may panic. *)
From S2P Require Import Prelude RustStr Huffman Varint.

Module Qpack.
Inductive qpack_error :=
| IntOutOfBounds | ContinuationOutOfBounds | IntTooLong | NameLengthOverflow | NameOutOfBounds
| ValueLengthOutOfBounds | ValueLengthOverflow | ValueOutOfBounds | HuffmanFailed | PostBase | NoStatus.

(** ** Encoding *)
Fixpoint push_rest (fuel : nat) (rest : Z) : bytes :=
  match fuel with
  | O => []
  | S f => if 128 <=? rest then Z.lor (Z.land rest 127) 128 :: push_rest f (Z.shiftr rest 7) else [rest]
  end.

(** A 64-bit value has at most ten groups of seven bits. *)
Definition encode_integer (value prefix_bits prefix_max : Z) : bytes :=
  let max := Z.shiftl 1 prefix_bits - 1 in
  if value <? max then [Z.lor prefix_max value]
  else Z.lor prefix_max max :: push_rest 10 (value - max).

Definition encode_string (s : bytes) : bytes := encode_integer (zlen s) 7 0 ++ s.

Section frames.
Context {V : VarInt}.
Definition write_frame {E} (out : bytes) (frame_type : Z) (payload : bytes) : res E bytes :=
  out ← varint_write out frame_type;
  out ← varint_write out (zlen payload);
  Ok (out ++ payload).

Definition headers_frame {E} (qpack_payload : bytes) : res E bytes := write_frame [] 1 qpack_payload.
Definition data_frame {E} (out payload : bytes) : res E bytes := write_frame out 0 payload.
Definition control_stream_prelude {E} : res E bytes := write_frame [0] 4 [].
End frames.

Definition encode_connect_request (authority bearer_token : bytes) : bytes :=
  [0; 0] ++ [207] ++ [80] ++ encode_string authority ++ [127; 69] ++ encode_string bearer_token.

(** ** Decoding *)
Definition u64_add (a b : Z) : res qpack_error Z := if a + b <=? U64_MAX then Ok (a + b) else Panic.

Fixpoint decode_more (fuel : nat) (buf : bytes) (p value shift : Z) : res qpack_error (Z * Z) :=
  match fuel with
  | O => Panic
  | S f =>
      if zlen buf <=? p then Err ContinuationOutOfBounds else
      b ← idx buf p;
      let p := p + 1 in
      value ← u64_add value (wrap64 (Z.shiftl (Z.land b 127) shift));
      if Z.land b 128 =? 0 then Ok (value, p)
      else
        let shift := shift + 7 in
        if 56 <? shift then Err IntTooLong else decode_more f buf p value shift
  end.

(** The loop ends after at most nine continuation bytes. *)
Definition decode_integer (buf : bytes) (pos prefix_bits : Z) : res qpack_error (Z * Z) :=
  let max := Z.shiftl 1 prefix_bits - 1 in
  let mask := max mod 256 in
  if zlen buf <=? pos then Err IntOutOfBounds else
  b ← idx buf pos;
  let value := Z.land b mask in
  let p := pos + 1 in
  if value <? max then Ok (value, p) else decode_more 10 buf p value 0.

Definition skip_integer (buf : bytes) (pos prefix_bits : Z) : res qpack_error Z :=
  '(_, p) ← decode_integer buf pos prefix_bits; Ok p.

(** [usize::checked_add] *)
Definition checked_add (a b : Z) (e : qpack_error) : res qpack_error Z :=
  if a + b <=? U64_MAX then Ok (a + b) else Err e.

Definition decode_string (raw : bytes) (huffman : bool) : res qpack_error bytes :=
  if huffman then map_err (fun _ => HuffmanFailed) (Huffman.decode raw) else Ok raw.

Definition read_literal_value (payload : bytes) (pos : Z) : res qpack_error (bytes * Z) :=
  if zlen payload <=? pos then Err ValueLengthOutOfBounds else
  b ← idx payload pos;
  let huffman := negb (Z.land b 128 =? 0) in
  '(len, start) ← decode_integer payload pos 7;
  fin ← checked_add start len ValueLengthOverflow;
  if zlen payload <? fin then Err ValueOutOfBounds else
  raw ← slice payload start fin;
  v ← decode_string raw huffman;
  Ok (v, fin).

Definition skip_literal_value (payload : bytes) (pos : Z) : res qpack_error Z :=
  '(len, start) ← decode_integer payload pos 7;
  fin ← checked_add start len ValueLengthOverflow;
  if zlen payload <? fin then Err ValueOutOfBounds else Ok fin.

Definition static_status (i : Z) : option Z :=
  match i with
  | 24 => Some 103 | 25 => Some 200 | 26 => Some 304 | 27 => Some 404 | 28 => Some 503
  | 63 => Some 100 | 64 => Some 204 | 65 => Some 206 | 66 => Some 302 | 67 => Some 400
  | 68 => Some 403 | 69 => Some 421 | 70 => Some 425 | 71 => Some 500
  | _ => None
  end.

Record ResponseHeaders := mk_headers { status : Z; colo : option bytes }.

Definition COLO : bytes := str_bytes "cf-warp-colo".

(** One field line at [pos]: the state after it and its end. *)
Definition decode_line (payload : bytes) (pos : Z) (st : option Z) (co : option bytes)
    : res qpack_error (Z * option Z * option bytes) :=
  b ← idx payload pos;
  if negb (Z.land b 128 =? 0) then
    let static_table := negb (Z.land b 64 =? 0) in
    '(i, n) ← decode_integer payload pos 6;
    let st := if static_table then
                if i =? 25 then Some 200
                else match static_status i with Some code => Some code | None => st end
              else st in
    Ok (n, st, co)
  else if Z.land b 192 =? 64 then
    '(_, n) ← decode_integer payload pos 4;
    n ← skip_literal_value payload n;
    Ok (n, st, co)
  else if Z.land b 224 =? 32 then
    let name_huffman := negb (Z.land b 8 =? 0) in
    '(name_len, n) ← decode_integer payload pos 3;
    name_end ← checked_add n name_len NameLengthOverflow;
    if zlen payload <? name_end then Err NameOutOfBounds else
    raw ← slice payload n name_end;
    name ← decode_string raw name_huffman;
    '(value, new_pos) ← read_literal_value payload name_end;
    let co := if bytes_eqb name COLO then from_utf8 value else co in
    Ok (new_pos, st, co)
  else Err PostBase.

(** The [while] loop; every line is at least one byte long. *)
Fixpoint decode_lines (fuel : nat) (payload : bytes) (pos : Z) (st : option Z) (co : option bytes)
    : res qpack_error (option Z * option bytes) :=
  match fuel with
  | O => Panic
  | S f =>
      if pos <? zlen payload then
        '(pos, st, co) ← decode_line payload pos st co;
        decode_lines f payload pos st co
      else Ok (st, co)
  end.

Definition decode_headers (payload : bytes) : res qpack_error ResponseHeaders :=
  pos ← skip_integer payload 0 8;
  pos ← skip_integer payload pos 7;
  '(st, co) ← decode_lines (S (length payload)) payload pos None None;
  st ← ok_or st NoStatus;
  Ok (mk_headers st co).
End Qpack.

Module QpackFacts.
Import Qpack.

Lemma land_127 b : Z.land b 127 = b mod 128.
Proof. exact (Z.land_ones b 7 ltac:(lia)). Qed.

Lemma mask_ones n : 1 <= n <= 8 -> (Z.shiftl 1 n - 1) mod 256 = Z.ones n.
Proof.
  intros Hn. rewrite Huffman.ones_shift by lia. rewrite Z.ones_equiv. apply Z.mod_small.
  pose proof (Z.pow_le_mono_r 2 n 8 ltac:(lia) ltac:(lia)) as Hle. change (2 ^ 8) with 256 in Hle.
  pose proof (Z.pow_pos_nonneg 2 n). lia.
Qed.

(** *** Safety on arbitrary input *)
Lemma decode_more_safe fuel buf p value shift : bytes_ok buf -> 0 <= p ->
  0 <= shift <= 56 -> 63 <= 7 * Z.of_nat fuel + shift -> 0 <= value < 256 + 2 ^ shift ->
  no_panic (decode_more fuel buf p value shift)
  /\ forall v q, decode_more fuel buf p value shift = Ok (v, q) -> p < q <= zlen buf /\ 0 <= v <= U64_MAX.
Proof.
  intros Hb. revert p value shift. induction fuel as [|f IH]; intros p value shift Hp Hs Hf Hv; [lia|].
  cbn [decode_more]. destruct (Z.leb_spec (zlen buf) p); [done|].
  destruct (idx_ok (E:=qpack_error) buf p ltac:(lia)) as (b & Hi & _). rewrite Hi. cbn [mbind res_bind]. cbn zeta.
  assert (Hg : 0 <= Z.land b 127 <= 127).
  { rewrite land_127. pose proof (Z.mod_pos_bound b 128 ltac:(lia)). lia. }
  assert (Hpow : 0 < 2 ^ shift <= 2 ^ 56) by (split; [apply Z.pow_pos_nonneg; lia|apply Z.pow_le_mono_r; lia]).
  change (2 ^ 56) with 72057594037927936 in Hpow.
  assert (Hsh : wrap64 (Z.shiftl (Z.land b 127) shift) = Z.land b 127 * 2 ^ shift).
  { rewrite Z.shiftl_mul_pow2 by lia. unfold wrap64. apply Z.mod_small. nia. }
  rewrite Hsh. unfold u64_add.
  assert (Hsum : value + Z.land b 127 * 2 ^ shift < 256 + 2 ^ (shift + 7)).
  { rewrite Z.pow_add_r by lia. change (2 ^ 7) with 128. nia. }
  assert (Hpow7 : 2 ^ (shift + 7) <= 2 ^ 63) by (apply Z.pow_le_mono_r; lia).
  change (2 ^ 63) with 9223372036854775808 in Hpow7.
  assert (Hmax : value + Z.land b 127 * 2 ^ shift <= U64_MAX) by (unfold U64_MAX; lia).
  rewrite (proj2 (Z.leb_le _ _) Hmax). cbn [mbind res_bind].
  destruct (Z.land b 128 =? 0); [split; [done|]; intros v q [= <- <-]; nia|].
  destruct (Z.ltb_spec 56 (shift + 7)); [done|].
  destruct (IH (p + 1) (value + Z.land b 127 * 2 ^ shift) (shift + 7)) as [H1 H2]; [lia|lia|lia|nia|].
  split; [done|]. intros v q Hvq. specialize (H2 v q Hvq). lia.
Qed.

Lemma decode_integer_safe buf pos n : bytes_ok buf -> 0 <= pos -> 1 <= n <= 8 ->
  no_panic (decode_integer buf pos n)
  /\ forall v q, decode_integer buf pos n = Ok (v, q) -> pos < q <= zlen buf /\ 0 <= v <= U64_MAX.
Proof.
  intros Hb Hp Hn. unfold decode_integer. cbn zeta. destruct (Z.leb_spec (zlen buf) pos); [done|].
  destruct (idx_ok (E:=qpack_error) buf pos ltac:(lia)) as (b & Hi & _). rewrite Hi. cbn [mbind res_bind].
  pose proof (idx_byte _ _ _ Hb Hi) as Hbb. unfold is_byte in Hbb.
  assert (Hl : 0 <= Z.land b ((Z.shiftl 1 n - 1) mod 256) <= 255).
  { rewrite mask_ones, Z.land_ones by lia. pose proof (Z.mod_pos_bound b (2 ^ n) ltac:(apply Z.pow_pos_nonneg; lia)).
    pose proof (Z.pow_le_mono_r 2 n 8 ltac:(lia) ltac:(lia)) as Hle. change (2 ^ 8) with 256 in Hle. lia. }
  destruct (_ <? _).
  - split; [done|]. intros v q [= <- <-]. unfold U64_MAX. lia.
  - destruct (decode_more_safe 10 buf (pos + 1) (Z.land b ((Z.shiftl 1 n - 1) mod 256)) 0) as [H1 H2];
      [done|lia|lia|lia|simpl; lia|].
    split; [done|]. intros v q Hvq. specialize (H2 v q Hvq). lia.
Qed.

Lemma decode_string_no_panic raw h : bytes_ok raw -> no_panic (decode_string raw h).
Proof.
  intros Hb. unfold decode_string. destruct h; [|done]. apply map_err_no_panic. by apply Huffman.decode_iff.
Qed.

(** A length field and the slice that follows it. *)
Lemma counted_safe buf pos n e : bytes_ok buf -> 0 <= pos -> 1 <= n <= 8 ->
  no_panic ('(len, start) ← decode_integer buf pos n; checked_add start len e)
  /\ forall len start fin, decode_integer buf pos n = Ok (len, start) -> checked_add start len e = Ok fin ->
       pos < start <= fin.
Proof.
  intros Hb Hp Hn. destruct (decode_integer_safe buf pos n Hb Hp Hn) as [H1 H2]. split.
  - destruct (decode_integer buf pos n) as [[len start]|?|]; [|done..]. cbn [mbind res_bind]. unfold checked_add. by destruct (_ <=? _).
  - intros len start fin Hd. unfold checked_add. destruct (_ <=? _); [|done]. intros [= <-].
    specialize (H2 _ _ Hd). lia.
Qed.

Lemma skip_literal_value_safe buf pos : bytes_ok buf -> 0 <= pos ->
  no_panic (skip_literal_value buf pos) /\ forall q, skip_literal_value buf pos = Ok q -> pos < q <= zlen buf.
Proof.
  intros Hb Hp. destruct (counted_safe buf pos 7 ValueLengthOverflow Hb Hp ltac:(lia)) as [H1 H2]. unfold skip_literal_value.
  destruct (decode_integer buf pos 7) as [[len start]|?|]; [|done..]. cbn [mbind res_bind] in *.
  destruct (checked_add start len ValueLengthOverflow) as [fin|?|] eqn:Hc; [|done..]. cbn [mbind res_bind].
  specialize (H2 len start fin eq_refl Hc). destruct (Z.ltb_spec (zlen buf) fin); [done|].
  split; [done|]. intros q [= <-]. lia.
Qed.

Lemma read_literal_value_safe buf pos : bytes_ok buf -> 0 <= pos ->
  no_panic (read_literal_value buf pos) /\ forall v q, read_literal_value buf pos = Ok (v, q) -> pos < q <= zlen buf.
Proof.
  intros Hb Hp. destruct (counted_safe buf pos 7 ValueLengthOverflow Hb Hp ltac:(lia)) as [H1 H2]. unfold read_literal_value.
  destruct (Z.leb_spec (zlen buf) pos); [done|].
  destruct (idx_ok (E:=qpack_error) buf pos ltac:(lia)) as (b & Hi & _). rewrite Hi. cbn [mbind res_bind].
  destruct (decode_integer buf pos 7) as [[len start]|?|]; [|done..]. cbn [mbind res_bind] in *.
  destruct (checked_add start len ValueLengthOverflow) as [fin|?|] eqn:Hc; [|done..]. cbn [mbind res_bind].
  specialize (H2 len start fin eq_refl Hc). destruct (Z.ltb_spec (zlen buf) fin); [done|].
  rewrite slice_ok by lia. cbn [mbind res_bind].
  pose proof (decode_string_no_panic (take (Z.to_nat (fin - start)) (drop (Z.to_nat start) buf)) (negb (Z.land b 128 =? 0))
    ltac:(by apply Forall_take, Forall_drop)) as Hs.
  destruct (decode_string _ _); [|done..]. cbn [mbind res_bind]. split; [done|]. intros v q [= <- <-]. lia.
Qed.

Lemma decode_line_safe buf pos st co : bytes_ok buf -> 0 <= pos < zlen buf ->
  no_panic (decode_line buf pos st co)
  /\ forall q st' co', decode_line buf pos st co = Ok (q, st', co') -> pos < q <= zlen buf.
Proof.
  intros Hb Hp. unfold decode_line. destruct (idx_ok (E:=qpack_error) buf pos ltac:(lia)) as (b & Hi & _). rewrite Hi.
  cbn [mbind res_bind]. destruct (negb (Z.land b 128 =? 0)).
  - destruct (decode_integer_safe buf pos 6 Hb ltac:(lia) ltac:(lia)) as [H1 H2].
    destruct (decode_integer buf pos 6) as [[i n]|?|]; [|done..]. cbn [mbind res_bind]. split; [done|].
    intros q st' co' [= <- _ _]. specialize (H2 i n eq_refl). lia.
  - destruct (Z.land b 192 =? 64).
    + destruct (decode_integer_safe buf pos 4 Hb ltac:(lia) ltac:(lia)) as [H1 H2].
      destruct (decode_integer buf pos 4) as [[i n]|?|]; [|done..]. cbn [mbind res_bind].
      specialize (H2 i n eq_refl). destruct (skip_literal_value_safe buf n Hb ltac:(lia)) as [H3 H4].
      destruct (skip_literal_value buf n) as [m|?|]; [|done..]. cbn [mbind res_bind]. split; [done|].
      intros q st' co' [= <- _ _]. specialize (H4 m eq_refl). lia.
    + destruct (Z.land b 224 =? 32); [|done].
      destruct (counted_safe buf pos 3 NameLengthOverflow Hb ltac:(lia) ltac:(lia)) as [H1 H2].
      destruct (decode_integer buf pos 3) as [[nl n]|?|]; [|done..]. cbn [mbind res_bind] in *.
      destruct (checked_add n nl NameLengthOverflow) as [ne|?|] eqn:Hc; [|done..]. cbn [mbind res_bind].
      specialize (H2 nl n ne eq_refl Hc). destruct (Z.ltb_spec (zlen buf) ne); [done|].
      rewrite slice_ok by lia. cbn [mbind res_bind].
      pose proof (decode_string_no_panic (take (Z.to_nat (ne - n)) (drop (Z.to_nat n) buf)) (negb (Z.land b 8 =? 0))
        ltac:(by apply Forall_take, Forall_drop)) as Hs.
      destruct (decode_string _ _); [|done..]. cbn [mbind res_bind].
      destruct (read_literal_value_safe buf ne Hb ltac:(lia)) as [H3 H4].
      destruct (read_literal_value buf ne) as [[v np]|?|]; [|done..]. cbn [mbind res_bind]. split; [done|].
      intros q st' co' [= <- _ _]. specialize (H4 v np eq_refl). lia.
Qed.

Lemma decode_lines_safe fuel buf pos st co : bytes_ok buf -> 0 <= pos -> Z.max 0 (zlen buf - pos) < Z.of_nat fuel ->
  no_panic (decode_lines fuel buf pos st co).
Proof.
  intros Hb. revert pos st co. induction fuel as [|f IH]; intros pos st co Hp Hf; [lia|]. cbn [decode_lines].
  destruct (Z.ltb_spec pos (zlen buf)); [|done].
  destruct (decode_line_safe buf pos st co Hb ltac:(lia)) as [H1 H2].
  destruct (decode_line buf pos st co) as [[[q st'] co']|?|]; [|done..]. cbn [mbind res_bind].
  specialize (H2 q st' co' eq_refl). apply IH; lia.
Qed.

(** The response header decoder is safe on arbitrary bytes: no index or slice
    out of range, no 64-bit overflow, and it terminates. *)
Theorem decode_headers_safe payload : bytes_ok payload -> no_panic (decode_headers payload).
Proof.
  intros Hb. unfold decode_headers, skip_integer.
  destruct (decode_integer_safe payload 0 8 Hb ltac:(lia) ltac:(lia)) as [H1 H2].
  destruct (decode_integer payload 0 8) as [[v p]|?|]; [|done..]. cbn [mbind res_bind]. specialize (H2 v p eq_refl).
  destruct (decode_integer_safe payload p 7 Hb ltac:(lia) ltac:(lia)) as [H3 H4].
  destruct (decode_integer payload p 7) as [[w q]|?|]; [|done..]. cbn [mbind res_bind]. specialize (H4 w q eq_refl).
  pose proof (decode_lines_safe (S (length payload)) payload q None None Hb ltac:(lia) ltac:(unfold zlen in *; lia)) as H5.
  destruct (decode_lines _ _ _ _ _) as [[st co]|?|]; [|done..]. cbn [mbind res_bind]. by destruct st.
Qed.

Lemma decode_headers_safe_witness : no_panic (decode_headers [0; 0; 255; 255; 255; 255; 255; 255; 255; 255; 255; 255; 255]).
Proof. apply decode_headers_safe. repeat (constructor; [unfold is_byte; lia|]). constructor. Defined.

(** *** Exact decoding of encoded fields *)
Lemma byte_bits_check : forallb (fun x => (Z.land (Z.lor x 128) 127 =? x) && (Z.land (Z.lor x 128) 128 =? 128)
  && (Z.land x 128 =? 0)) (seqZ 0 128) = true.
Proof. vm_compute. reflexivity. Qed.

Lemma byte_bits x : 0 <= x < 128 ->
  Z.land (Z.lor x 128) 127 = x /\ (Z.land (Z.lor x 128) 128 =? 0) = false /\ (Z.land x 128 =? 0) = true.
Proof.
  intros Hx. pose proof byte_bits_check as C. rewrite forallb_forall in C.
  specialize (C x ltac:(apply list_elem_of_In, elem_of_seqZ; lia)). zbool. split_and!; [done| |by apply Z.eqb_eq].
  apply Z.eqb_neq. lia.
Qed.

Lemma decode_more_push g rest f pre suf value k :
  0 <= k <= 8 -> 0 <= rest < 2 ^ (7 * (9 - k)) -> 9 - k <= Z.of_nat f -> 9 - k <= Z.of_nat g ->
  0 <= value -> value + rest * 2 ^ (7 * k) <= U64_MAX ->
  decode_more f (pre ++ push_rest g rest ++ suf) (zlen pre) value (7 * k)
  = Ok (value + rest * 2 ^ (7 * k), zlen pre + zlen (push_rest g rest)).
Proof.
  revert rest f pre value k. induction g as [|g IH]; intros rest f pre value k Hk Hr Hf Hg Hv Hm; [lia|].
  destruct f as [|f]; [lia|]. cbn [push_rest decode_more].
  assert (Hpow : 0 < 2 ^ (7 * k)) by (apply Z.pow_pos_nonneg; lia).
  destruct (Z.leb_spec 128 rest) as [Hge|Hlt].
  - assert (Hk7 : k <= 7).
    { destruct (Z.le_gt_cases k 7); [done|]. assert (k = 8) as -> by lia. simpl in Hr. lia. }
    rewrite land_127. assert (Hmod : 0 <= rest mod 128 < 128) by (apply Z.mod_pos_bound; lia).
    destruct (byte_bits (rest mod 128) Hmod) as (B1 & B2 & _).
    set (h := Z.lor (rest mod 128) 128) in *. cbn [app].
    rewrite (proj2 (Z.leb_gt _ _)) by zl. rewrite (idx_at pre h _ (zlen pre)) by done. cbn [mbind res_bind].
    rewrite B1, B2. cbn zeta. rewrite Z.shiftl_mul_pow2 by lia.
    assert (Hdm : rest = 128 * (rest / 128) + rest mod 128) by (apply Z.div_mod; lia).
    assert (Hq : 0 <= rest / 128) by (apply Z.div_pos; lia).
    assert (Hle : rest mod 128 * 2 ^ (7 * k) <= U64_MAX - value) by nia.
    assert (Hw : wrap64 (rest mod 128 * 2 ^ (7 * k)) = rest mod 128 * 2 ^ (7 * k)).
    { unfold wrap64. apply Z.mod_small. unfold U64_MAX in Hle. nia. }
    rewrite Hw. unfold u64_add. rewrite (proj2 (Z.leb_le _ _)) by lia. cbn [mbind res_bind].
    rewrite (proj2 (Z.ltb_ge _ _)) by lia.
    rewrite Z.shiftr_div_pow2 by lia. change (2 ^ 7) with 128.
    replace (pre ++ h :: push_rest g (rest / 128) ++ suf) with ((pre ++ [h]) ++ push_rest g (rest / 128) ++ suf) by by rewrite <-app_assoc.
    replace (zlen pre + 1) with (zlen (pre ++ [h])) by zl. replace (7 * k + 7) with (7 * (k + 1)) by lia.
    assert (Hp7 : 2 ^ (7 * (k + 1)) = 128 * 2 ^ (7 * k)).
    { replace (7 * (k + 1)) with (7 + 7 * k) by lia. rewrite Z.pow_add_r by lia. done. }
    rewrite (IH (rest / 128) f (pre ++ [h]) _ (k + 1)); [f_equal; f_equal; [rewrite Hp7; nia|zl]|lia| |lia|lia|nia|rewrite Hp7; nia].
    split; [done|]. apply Z.div_lt_upper_bound; [lia|]. replace (7 * (9 - k)) with (7 + 7 * (9 - (k + 1))) in Hr by lia.
    rewrite Z.pow_add_r in Hr by lia. change (2 ^ 7) with 128 in Hr. lia.
  - destruct (byte_bits rest ltac:(lia)) as (_ & _ & B3). cbn [app].
    rewrite (proj2 (Z.leb_gt _ _)) by zl. rewrite (idx_at pre rest _ (zlen pre)) by done. cbn [mbind res_bind]. cbn zeta.
    rewrite land_127, (Z.mod_small rest 128) by lia. rewrite Z.shiftl_mul_pow2 by lia.
    assert (Hw : wrap64 (rest * 2 ^ (7 * k)) = rest * 2 ^ (7 * k)).
    { unfold wrap64. apply Z.mod_small. unfold U64_MAX in Hm. nia. }
    rewrite Hw. unfold u64_add. rewrite (proj2 (Z.leb_le _ _)) by lia. cbn [mbind res_bind]. rewrite B3.
    f_equal; f_equal; zl.
Qed.

(** The values a prefix integer can carry here: nine groups above the prefix. *)
Definition int_ok (v : Z) : Prop := 0 <= v < 2 ^ 62.

Lemma prefix_byte n flags x : 1 <= n <= 8 -> flags mod 2 ^ n = 0 -> 0 <= x < 2 ^ n -> Z.land (Z.lor flags x) (Z.ones n) = x.
Proof.
  intros Hn Hf Hx. rewrite Z.land_lor_distr_l, !Z.land_ones by lia. rewrite Hf, Z.lor_0_l. by apply Z.mod_small.
Qed.

Lemma decode_integer_enc pre v n flags suf p : p = zlen pre -> 1 <= n <= 8 -> flags mod 2 ^ n = 0 -> int_ok v ->
  decode_integer (pre ++ encode_integer v n flags ++ suf) p n = Ok (v, zlen pre + zlen (encode_integer v n flags)).
Proof.
  intros -> Hn Hf Hv. unfold int_ok in Hv. change (2 ^ 62) with 4611686018427387904 in Hv.
  unfold decode_integer, encode_integer. rewrite mask_ones by done. rewrite Huffman.ones_shift by lia. cbn zeta.
  assert (Hmax : 0 <= Z.ones n < 2 ^ n /\ 2 ^ n <= 256).
  { rewrite Z.ones_equiv. pose proof (Z.pow_pos_nonneg 2 n). pose proof (Z.pow_le_mono_r 2 n 8 ltac:(lia) ltac:(lia)) as Hle.
    change (2 ^ 8) with 256 in Hle. lia. }
  destruct (Z.ltb_spec v (Z.ones n)) as [Hlt|Hge]; cbn [app].
  - rewrite (proj2 (Z.leb_gt _ _)) by zl. rewrite (idx_at pre _ _ (zlen pre)) by done. cbn [mbind res_bind].
    rewrite prefix_byte by lia. rewrite (proj2 (Z.ltb_lt _ _)) by lia. f_equal; f_equal; zl.
  - rewrite (proj2 (Z.leb_gt _ _)) by zl. rewrite (idx_at pre _ _ (zlen pre)) by done. cbn [mbind res_bind].
    rewrite prefix_byte by lia. rewrite Z.ltb_irrefl.
    set (h := Z.lor flags (Z.ones n)).
    replace (pre ++ h :: push_rest 10 (v - Z.ones n) ++ suf) with ((pre ++ [h]) ++ push_rest 10 (v - Z.ones n) ++ suf) by by rewrite <-app_assoc.
    replace (zlen pre + 1) with (zlen (pre ++ [h])) by zl.
    change 0 with (7 * 0) at 1.
    rewrite (decode_more_push 10 (v - Z.ones n) 10 (pre ++ [h]) suf (Z.ones n) 0);
      [change (2 ^ (7 * 0)) with 1; f_equal; f_equal; [lia|zl]|lia| |lia|lia|lia|change (2 ^ (7 * 0)) with 1; unfold U64_MAX; lia].
    change (2 ^ (7 * (9 - 0))) with 9223372036854775808. lia.
Qed.

Lemma encode_integer_head v n flags : 1 <= n <= 8 -> 0 <= v ->
  exists x t, encode_integer v n flags = Z.lor flags x :: t /\ 0 <= x < 2 ^ n.
Proof.
  intros Hn Hv. unfold encode_integer. rewrite Huffman.ones_shift by lia. cbn zeta.
  assert (Hmax : 0 <= Z.ones n < 2 ^ n) by (rewrite Z.ones_equiv; pose proof (Z.pow_pos_nonneg 2 n); lia).
  destruct (Z.ltb_spec v (Z.ones n)); eexists _, _; (split; [reflexivity|lia]).
Qed.

(** The five field line representations of RFC 9204, and what one does to the
    decoder's state.  The flags of a name reference are its N and T bits. *)
Inductive line :=
| Indexed (static : bool) (i : Z)
| NameRef (flags i : Z) (huff : bool) (raw : bytes)
| LiteralName (never huff : bool) (raw_name : bytes) (vhuff : bool) (raw_value : bytes)
| PostIndexed (i : Z)
| PostNameRef (never : bool) (i : Z) (huff : bool) (raw : bytes).

Definition bit (b : bool) (w : Z) : Z := if b then w else 0.
Definition enc_value (huff : bool) (raw : bytes) : bytes := encode_integer (zlen raw) 7 (bit huff 128) ++ raw.
Definition enc_line (l : line) : bytes :=
  match l with
  | Indexed static i => encode_integer i 6 (128 + bit static 64)
  | NameRef flags i huff raw => encode_integer i 4 (64 + 16 * flags) ++ enc_value huff raw
  | LiteralName never huff rn vhuff rv =>
      encode_integer (zlen rn) 3 (32 + bit never 16 + bit huff 8) ++ rn ++ enc_value vhuff rv
  | PostIndexed i => encode_integer i 4 16
  | PostNameRef never i huff raw => encode_integer i 3 (bit never 8) ++ enc_value huff raw
  end.
Definition line_ok (l : line) : Prop :=
  match l with
  | Indexed _ i => int_ok i
  | NameRef flags i _ raw => 0 <= flags < 4 /\ int_ok i /\ int_ok (zlen raw)
  | LiteralName _ _ rn _ rv => int_ok (zlen rn) /\ int_ok (zlen rv)
  | PostIndexed i => int_ok i
  | PostNameRef _ i _ raw => int_ok i /\ int_ok (zlen raw)
  end.

(** The [:status] entries of the static table, RFC 9204 appendix A. *)
Definition status_entries : list (Z * Z) :=
  [(24, 103); (25, 200); (26, 304); (27, 404); (28, 503); (63, 100); (64, 204); (65, 206); (66, 302); (67, 400);
   (68, 403); (69, 421); (70, 425); (71, 500)].
Definition table_status (i : Z) : option Z := snd <$> List.find (fun e => e.1 =? i) status_entries.
Lemma static_status_table i : static_status i = table_status i.
Proof. destruct i as [|p|p]; [done| |done]. do 8 (try (destruct p as [p|p|]; try reflexivity)). Qed.

Definition line_effect (l : line) (s : option Z * option bytes) : res qpack_error (option Z * option bytes) :=
  match l with
  | Indexed true i => Ok (match table_status i with Some c => Some c | None => s.1 end, s.2)
  | Indexed false _ | NameRef _ _ _ _ => Ok s
  | LiteralName _ huff rn vhuff rv =>
      name ← decode_string rn huff;
      value ← decode_string rv vhuff;
      Ok (s.1, if bytes_eqb name (str_bytes "cf-warp-colo") then from_utf8 value else s.2)
  | PostIndexed _ | PostNameRef _ _ _ _ => Err PostBase
  end.
Fixpoint lines_effect (ls : list line) (s : option Z * option bytes) : res qpack_error (option Z * option bytes) :=
  match ls with [] => Ok s | l :: ls' => s ← line_effect l s; lines_effect ls' s end.

Lemma flag_check :
  forallb (fun x => forallb (fun b => negb (Z.land (Z.lor (128 + bit b 64) x) 128 =? 0)
                       && Bool.eqb (negb (Z.land (Z.lor (128 + bit b 64) x) 64 =? 0)) b) [true; false]) (seqZ 0 64)
  && forallb (fun x => forallb (fun f => (Z.land (Z.lor (64 + 16 * f) x) 128 =? 0)
                       && (Z.land (Z.lor (64 + 16 * f) x) 192 =? 64)) (seqZ 0 4)) (seqZ 0 16)
  && forallb (fun x => forallb (fun b => forallb (fun c => let v := Z.lor (32 + bit b 16 + bit c 8) x in
                       (Z.land v 128 =? 0) && negb (Z.land v 192 =? 64) && (Z.land v 224 =? 32)
                       && Bool.eqb (negb (Z.land v 8 =? 0)) c) [true; false]) [true; false]) (seqZ 0 8)
  && forallb (fun x => forallb (fun b => Bool.eqb (negb (Z.land (Z.lor (bit b 128) x) 128 =? 0)) b) [true; false]) (seqZ 0 128)
  = true.
Proof. vm_compute. reflexivity. Qed.

Lemma in_bools (b : bool) : In b [true; false].
Proof. destruct b; simpl; auto. Qed.
Lemma in_seqZ n x : 0 <= x < n -> In x (seqZ 0 n).
Proof. intros. apply list_elem_of_In, elem_of_seqZ. lia. Qed.

Lemma flags_indexed b x : 0 <= x < 64 -> (Z.land (Z.lor (128 + bit b 64) x) 128 =? 0) = false
  /\ negb (Z.land (Z.lor (128 + bit b 64) x) 64 =? 0) = b.
Proof.
  intros Hx. pose proof flag_check as C. rewrite !andb_true_iff, !forallb_forall in C. destruct C as [[[C _] _] _].
  specialize (C x (in_seqZ _ _ Hx)). rewrite forallb_forall in C. specialize (C b (in_bools b)).
  apply andb_true_iff in C as [C1 C2]. split; [by apply negb_true_iff|by apply Bool.eqb_prop].
Qed.
Lemma flags_nameref f x : 0 <= f < 4 -> 0 <= x < 16 -> (Z.land (Z.lor (64 + 16 * f) x) 128 =? 0) = true
  /\ (Z.land (Z.lor (64 + 16 * f) x) 192 =? 64) = true.
Proof.
  intros Hf Hx. pose proof flag_check as C. rewrite !andb_true_iff, !forallb_forall in C. destruct C as [[[_ C] _] _].
  specialize (C x (in_seqZ _ _ Hx)). rewrite forallb_forall in C. specialize (C f (in_seqZ _ _ Hf)).
  by apply andb_true_iff in C.
Qed.
Lemma flags_literal b c x : 0 <= x < 8 -> let v := Z.lor (32 + bit b 16 + bit c 8) x in
  (Z.land v 128 =? 0) = true /\ (Z.land v 192 =? 64) = false /\ (Z.land v 224 =? 32) = true /\ negb (Z.land v 8 =? 0) = c.
Proof.
  intros Hx v. pose proof flag_check as C. rewrite !andb_true_iff, !forallb_forall in C. destruct C as [[[_ _] C] _].
  specialize (C x (in_seqZ _ _ Hx)). rewrite forallb_forall in C. specialize (C b (in_bools b)).
  rewrite forallb_forall in C. specialize (C c (in_bools c)). cbn zeta in C. fold v in C.
  rewrite !andb_true_iff in C. destruct C as [[[C1 C2] C3] C4]. split_and!; [done|by apply negb_true_iff|done|by apply Bool.eqb_prop].
Qed.
Lemma flags_value b x : 0 <= x < 128 -> negb (Z.land (Z.lor (bit b 128) x) 128 =? 0) = b.
Proof.
  intros Hx. pose proof flag_check as C. rewrite !andb_true_iff, !forallb_forall in C. destruct C as [_ C].
  specialize (C x (in_seqZ _ _ Hx)). rewrite forallb_forall in C. specialize (C b (in_bools b)). by apply Bool.eqb_prop.
Qed.

Lemma flags_postbase f n x : (f, n) ∈ [(16, 4); (0, 3); (8, 3)] -> 0 <= x < 2 ^ n ->
  (Z.land (Z.lor f x) 128 =? 0) = true /\ (Z.land (Z.lor f x) 192 =? 64) = false /\ (Z.land (Z.lor f x) 224 =? 32) = false.
Proof.
  intros Hf Hx.
  assert (C : forallb (fun fn : Z * Z => forallb (fun x => (Z.land (Z.lor fn.1 x) 128 =? 0) && negb (Z.land (Z.lor fn.1 x) 192 =? 64) &&
    negb (Z.land (Z.lor fn.1 x) 224 =? 32)) (seqZ 0 (2 ^ fn.2))) [(16, 4); (0, 3); (8, 3)] = true) by (vm_compute; reflexivity).
  rewrite forallb_forall in C. specialize (C (f, n) (proj1 (list_elem_of_In _ _) Hf)). cbn [fst snd] in C. rewrite forallb_forall in C.
  specialize (C x (in_seqZ _ _ Hx)). rewrite !andb_true_iff, !negb_true_iff in C. by destruct C as [[? ?] ?].
Qed.

(** A post-base line ends the decoding. *)
Lemma decode_line_postbase pre v n f suf st co : (f, n) ∈ [(16, 4); (0, 3); (8, 3)] -> int_ok v ->
  decode_line (pre ++ encode_integer v n f ++ suf) (zlen pre) st co = Err PostBase.
Proof.
  intros Hf [Hv _]. assert (Hn : 1 <= n <= 8) by (rewrite !elem_of_cons, elem_of_nil in Hf; destruct Hf as [[=]|[[=]|[[=]|[]]]]; lia).
  destruct (encode_integer_head v n f Hn Hv) as (x & t & -> & Hx). unfold decode_line. cbn [app].
  rewrite (idx_at pre _ _ (zlen pre)) by done. cbn [mbind res_bind].
  by destruct (flags_postbase f n x Hf Hx) as (-> & -> & ->).
Qed.

Lemma bit_mod b w n : 0 <= n -> w mod 2 ^ n = 0 -> bit b w mod 2 ^ n = 0.
Proof. intros Hn Hw. destruct b; [done|]. apply Z.mod_0_l. pose proof (Z.pow_pos_nonneg 2 n). lia. Qed.

Lemma checked_add_small a b e : a + b <= U64_MAX -> checked_add a b e = Ok (a + b).
Proof. intros H. unfold checked_add. by rewrite (proj2 (Z.leb_le _ _) H). Qed.

(** Everything the decoder sees fits in memory. *)
Definition small (buf : bytes) : Prop := zlen buf < 2 ^ 62.

Lemma read_literal_value_enc pre huff raw suf p : p = zlen pre -> small (pre ++ enc_value huff raw ++ suf) ->
  read_literal_value (pre ++ enc_value huff raw ++ suf) p
  = (v ← decode_string raw huff; Ok (v, zlen pre + zlen (enc_value huff raw))).
Proof.
  intros -> Hs. unfold small in Hs. change (2 ^ 62) with 4611686018427387904 in Hs. unfold enc_value in *.
  set (e := encode_integer (zlen raw) 7 (bit huff 128)) in *. rewrite <-app_assoc in *.
  assert (Hraw : int_ok (zlen raw)) by (unfold int_ok; change (2 ^ 62) with 4611686018427387904; zl).
  destruct (encode_integer_head (zlen raw) 7 (bit huff 128) ltac:(lia) (zlen_nonneg raw)) as (x & t & He & Hx). fold e in He.
  assert (Hpos : 0 < zlen e) by (rewrite He; zl).
  unfold read_literal_value. rewrite (proj2 (Z.leb_gt _ _)) by zl.
  assert (Hidx : idx (E:=qpack_error) (pre ++ e ++ raw ++ suf) (zlen pre) = Ok (Z.lor (bit huff 128) x)).
  { rewrite He. cbn [app]. by apply idx_at. }
  rewrite Hidx. cbn [mbind res_bind]. rewrite flags_value by (simpl in Hx; lia).
  pose proof (decode_integer_enc pre (zlen raw) 7 (bit huff 128) (raw ++ suf) _ eq_refl ltac:(lia) ltac:(by apply bit_mod) Hraw) as Hdi.
  fold e in Hdi. rewrite Hdi. cbn [mbind res_bind]. rewrite checked_add_small by (unfold U64_MAX; zl). cbn [mbind res_bind].
  rewrite (proj2 (Z.ltb_ge _ _)) by zl.
  rewrite (app_assoc pre e), (slice_at (pre ++ e) raw suf) by zl. cbn [mbind res_bind].
  destruct (decode_string raw huff); cbn [mbind res_bind]; [|done..]. f_equal; f_equal; zl.
Qed.

Lemma skip_literal_value_enc pre huff raw suf p : p = zlen pre -> small (pre ++ enc_value huff raw ++ suf) ->
  skip_literal_value (pre ++ enc_value huff raw ++ suf) p = Ok (zlen pre + zlen (enc_value huff raw)).
Proof.
  intros -> Hs. unfold small in Hs. change (2 ^ 62) with 4611686018427387904 in Hs. unfold enc_value in *.
  assert (Hraw : int_ok (zlen raw)) by (unfold int_ok; change (2 ^ 62) with 4611686018427387904; zl).
  rewrite <-app_assoc in *. unfold skip_literal_value.
  rewrite (decode_integer_enc pre (zlen raw) 7 (bit huff 128) (raw ++ suf) _ eq_refl) by (try done; try lia; by apply bit_mod).
  cbn [mbind res_bind]. rewrite checked_add_small by (unfold U64_MAX; zl). cbn [mbind res_bind].
  rewrite (proj2 (Z.ltb_ge _ _)) by zl. f_equal. zl.
Qed.

Lemma decode_line_enc pre l suf p s : p = zlen pre -> line_ok l -> small (pre ++ enc_line l ++ suf) ->
  decode_line (pre ++ enc_line l ++ suf) p s.1 s.2
  = (s' ← line_effect l s; Ok (zlen pre + zlen (enc_line l), s'.1, s'.2)).
Proof.
  intros -> Hok Hs. destruct s as [st co]. unfold decode_line.
  destruct l as [static i|flags i huff raw|never huff rn vhuff rv|i|never i huff raw]; cbn [enc_line line_ok] in *.
  4: { by apply decode_line_postbase; [left|]. }
  4: { rewrite <-app_assoc. apply decode_line_postbase; [|by destruct Hok]. destruct never; cbn [bit]; [right; right; by left|right; by left]. }
  - destruct (encode_integer_head i 6 (128 + bit static 64) ltac:(lia) (proj1 Hok)) as (x & t & He & Hx). simpl in Hx.
    assert (Hidx : idx (E:=qpack_error) (pre ++ encode_integer i 6 (128 + bit static 64) ++ suf) (zlen pre) = Ok (Z.lor (128 + bit static 64) x)).
    { rewrite He. cbn [app]. by apply idx_at. }
    rewrite Hidx. cbn [mbind res_bind]. destruct (flags_indexed static x ltac:(lia)) as [-> ->]. cbn [negb].
    rewrite (decode_integer_enc pre i 6 _ suf _ eq_refl) by (try done; try lia; by destruct static).
    cbn [mbind res_bind fst snd line_effect]. destruct static; [|done]. rewrite <-static_status_table. destruct (Z.eqb_spec i 25) as [->|]; done.
  - destruct Hok as (Hf & Hi & Hr). rewrite <-app_assoc in *.
    destruct (encode_integer_head i 4 (64 + 16 * flags) ltac:(lia) (proj1 Hi)) as (x & t & He & Hx). simpl in Hx.
    assert (Hidx : idx (E:=qpack_error) (pre ++ encode_integer i 4 (64 + 16 * flags) ++ enc_value huff raw ++ suf) (zlen pre)
                   = Ok (Z.lor (64 + 16 * flags) x)) by (rewrite He; cbn [app]; by apply idx_at).
    rewrite Hidx. cbn [mbind res_bind]. destruct (flags_nameref flags x Hf ltac:(lia)) as [-> ->]. cbn [negb].
    assert (Hmod : (64 + 16 * flags) mod 2 ^ 4 = 0).
    { change (2 ^ 4) with 16. replace (64 + 16 * flags) with ((4 + flags) * 16) by lia. apply Z.mod_mul. lia. }
    rewrite (decode_integer_enc pre i 4 _ _ _ eq_refl) by (done || lia). cbn [mbind res_bind].
    rewrite app_assoc. rewrite skip_literal_value_enc by (try (unfold small in *; rewrite <-app_assoc; done); zl).
    cbn [mbind res_bind line_effect]. f_equal; f_equal; f_equal; zl.
  - destruct Hok as (Hn & Hv). rewrite <-!app_assoc in *. set (fl := 32 + bit never 16 + bit huff 8) in *.
    destruct (encode_integer_head (zlen rn) 3 fl ltac:(lia) (zlen_nonneg rn)) as (x & t & He & Hx). simpl in Hx.
    assert (Hidx : idx (E:=qpack_error) (pre ++ encode_integer (zlen rn) 3 fl ++ rn ++ enc_value vhuff rv ++ suf) (zlen pre)
                   = Ok (Z.lor fl x)) by (rewrite He; cbn [app]; by apply idx_at).
    rewrite Hidx. cbn [mbind res_bind]. destruct (flags_literal never huff x ltac:(lia)) as (H1 & H2 & H3 & H4). fold fl in H1, H2, H3, H4.
    rewrite H1, H2, H3, H4. cbn [negb].
    assert (Hmod : fl mod 2 ^ 3 = 0) by (subst fl; by destruct never, huff).
    rewrite (decode_integer_enc pre (zlen rn) 3 fl _ _ eq_refl) by (done || lia). cbn [mbind res_bind].
    set (e := encode_integer (zlen rn) 3 fl) in *. unfold small in Hs. change (2 ^ 62) with 4611686018427387904 in Hs.
    rewrite checked_add_small by (unfold U64_MAX; zl). cbn [mbind res_bind].
    rewrite (proj2 (Z.ltb_ge _ _)) by zl.
    rewrite (app_assoc pre e), (slice_at (pre ++ e) rn) by zl. cbn [mbind res_bind line_effect].
    destruct (decode_string rn huff) as [name|?|]; cbn [mbind res_bind]; [|done..].
    rewrite (app_assoc (pre ++ e) rn).
    rewrite read_literal_value_enc by (try (unfold small; change (2 ^ 62) with 4611686018427387904; rewrite <-!app_assoc; done); zl).
    destruct (decode_string rv vhuff) as [value|?|]; cbn [mbind res_bind]; [|done..]. f_equal; f_equal; f_equal; zl.
Qed.

Lemma enc_line_pos l : line_ok l -> 0 < zlen (enc_line l).
Proof.
  assert (Hpos : forall v n f, 1 <= n <= 8 -> 0 <= v -> 0 < zlen (encode_integer v n f)).
  { intros v n f Hn Hv. destruct (encode_integer_head v n f Hn Hv) as (x & t & -> & _). zl. }
  destruct l as [st i|f i h r|nv h rn vh rv|i|nv i h r]; simpl; intros Hok.
  - apply Hpos; [lia|apply Hok].
  - destruct Hok as (_ & Hi & _). specialize (Hpos i 4 (64 + 16 * f) ltac:(lia) (proj1 Hi)). zl.
  - specialize (Hpos (zlen rn) 3 (32 + bit nv 16 + bit h 8) ltac:(lia) (zlen_nonneg rn)). zl.
  - apply Hpos; [lia|apply Hok].
  - destruct Hok as [Hi _]. specialize (Hpos i 3 (bit nv 8) ltac:(lia) (proj1 Hi)). zl.
Qed.

Lemma decode_lines_enc ls fuel pre p s : p = zlen pre -> Forall line_ok ls ->
  small (pre ++ concat (map enc_line ls)) -> zlen (concat (map enc_line ls)) < Z.of_nat fuel ->
  decode_lines fuel (pre ++ concat (map enc_line ls)) p s.1 s.2 = lines_effect ls s.
Proof.
  intros -> Hok. revert fuel pre s. induction Hok as [|l ls Hl Hok IH]; intros fuel pre s Hs Hf;
    (destruct fuel as [|fuel]; [pose proof (zlen_nonneg (concat (map enc_line []))); zl|]); cbn [map concat decode_lines lines_effect] in *.
  - rewrite app_nil_r, Z.ltb_irrefl. by destruct s.
  - pose proof (enc_line_pos l Hl). rewrite (proj2 (Z.ltb_lt _ _)) by zl.
    rewrite decode_line_enc by done. destruct (line_effect l s) as [s'|?|]; cbn [mbind res_bind]; [|done..].
    rewrite app_assoc. replace (zlen pre + zlen (enc_line l)) with (zlen (pre ++ enc_line l)) by zl.
    apply IH; [unfold small in *; by rewrite <-app_assoc|zl].
Qed.

(** C38. What response headers decode to: for every sequence of field lines, in any of
    the five representations of RFC 9204, Huffman coded or not, behind any prefix, the
    decoder computes the last [:status] given by an index of the static table (its
    fourteen entries, by value) and the last [cf-warp-colo] given by name (if it is
    UTF-8).  Dynamic indices and name references change nothing, whatever name they
    refer to, so that a [:status] sent as a name reference is not seen.  It fails
    exactly when a literal name or its value does not decode, when a post-base line
    occurs, or when no indexed [:status] does. *)
Theorem decode_headers_exact ric base sign ls :
  int_ok ric -> int_ok base -> Forall line_ok ls ->
  let payload := encode_integer ric 8 0 ++ encode_integer base 7 (bit sign 128) ++ concat (map enc_line ls) in
  small payload ->
  decode_headers payload
  = ('(st, co) ← lines_effect ls (None, None); match st with Some c => Ok (mk_headers c co) | None => Err NoStatus end).
Proof.
  intros Hr Hb Hok payload Hs. unfold decode_headers, skip_integer. subst payload.
  set (tail := concat (map enc_line ls)) in *.
  pose proof (decode_integer_enc [] ric 8 0 (encode_integer base 7 (bit sign 128) ++ tail) 0 eq_refl ltac:(lia) eq_refl Hr) as H1.
  cbn [app] in H1. rewrite H1. cbn [mbind res_bind].
  change (zlen (@nil Z)) with 0. rewrite Z.add_0_l.
  pose proof (decode_integer_enc (encode_integer ric 8 0) base 7 (bit sign 128) tail _ eq_refl ltac:(lia)
    ltac:(by apply bit_mod) Hb) as H2.
  rewrite H2. cbn [mbind res_bind]. rewrite app_assoc in *.
  rewrite (decode_lines_enc ls _ (encode_integer ric 8 0 ++ encode_integer base 7 (bit sign 128)) _ (None, None));
    [|zl|done|done|fold tail; unfold zlen; rewrite !length_app; lia].
  destruct (lines_effect ls (None, None)) as [[[c|] co]|?|]; done.
Qed.

(** The response of a captured session: status 200, a Huffman coded colo. *)
Definition captured_lines : list line :=
  [Indexed true 25; LiteralName false true [36; 171; 120; 29; 149; 172; 67; 208; 127] true [207; 15; 231]].
Definition captured : bytes := [0; 0; 217; 47; 2; 36; 171; 120; 29; 149; 172; 67; 208; 127; 131; 207; 15; 231].

Lemma decode_headers_exact_witness : decode_headers captured = Ok (mk_headers 200 (Some (str_bytes "LAX"))).
Proof.
  assert (Hp : captured = encode_integer 0 8 0 ++ encode_integer 0 7 (bit false 128) ++ concat (map enc_line captured_lines))
    by (vm_compute; reflexivity).
  rewrite Hp. rewrite (decode_headers_exact 0 0 false captured_lines).
  - vm_compute. reflexivity.
  - split; vm_compute; [discriminate|reflexivity].
  - split; vm_compute; [discriminate|reflexivity].
  - constructor; [|constructor; [|constructor]]; cbn [line_ok]; [|split].
    all: split; vm_compute; [discriminate|reflexivity].
  - vm_compute. reflexivity.
Defined.

(** The CONNECT request is the QPACK encoding of exactly three field lines with
    an empty dynamic table: [:method] (static 15, CONNECT), [:authority]
    (static 0) with the authority, and [authorization] (static 84, never
    indexed) with the token; both values are literal and come back unchanged. *)
Theorem encode_connect_request_lines authority token :
  encode_connect_request authority token
  = encode_integer 0 8 0 ++ encode_integer 0 7 0
    ++ concat (map enc_line [Indexed true 15; NameRef 1 0 false authority; NameRef 3 84 false token]).
Proof.
  unfold encode_connect_request, enc_line, enc_value, encode_string.
  cbn [map concat]. rewrite app_nil_r. reflexivity.
Qed.
End QpackFacts.
