(* ===== verification/H2.v ===== *)
(** * CONNECT-IP over HTTP/2 ([src/src/outbound/masque/h2.rs])

    The capsule framing of IP packets in both directions, the device's size limit
    and the order in which edges are tried.  The h2 connection is a source of
    chunks and a sink with flow control. *)
From S2P Require Import Prelude NetAddr Conn Outbound Varint.

Module H2.
Definition PACKET_MTU : Z := 1280.
Definition MAX_CAPSULE_BUFFER : Z := 256 * 1024.

Inductive h2_error := PacketTooLarge | BufferOverflow | CapsuleTooLarge (len : Z) | StreamClosed | ReadFailed | SendClosed.

Section capsules.
Context {V : VarInt}.

(** *** [send_packets] *)
Definition capsule (packet : bytes) : res h2_error bytes :=
  if PACKET_MTU <? zlen packet then Err PacketTooLarge
  else c ← varint_write [0] (zlen packet); Ok (c ++ packet).

(** The flow-control loop: each turn sends up to [available] bytes; [None]: the
    stream is closed.  The frames sent, in order, and the grants left. *)
Fixpoint send_chunks (remaining : bytes) (grants : list (option Z)) : res h2_error (list bytes * list (option Z)) :=
  match remaining with
  | [] => Ok ([], grants)
  | _ =>
      match grants with
      | [] => Err SendClosed
      | None :: _ => Err SendClosed
      | Some available :: grants' =>
          if available =? 0 then send_chunks remaining grants'
          else
            let n := Z.to_nat (Z.min available (zlen remaining)) in
            '(chunks, g) ← send_chunks (drop n remaining) grants';
            Ok (take n remaining :: chunks, g)
      end
  end.

(** The DATA frames, each with its END_STREAM flag. *)
Fixpoint send_packets (packets : list bytes) (grants : list (option Z)) : res h2_error (list (bytes * bool)) :=
  match packets with
  | [] => Ok [([], true)]
  | packet :: rest =>
      c ← capsule packet;
      '(chunks, grants) ← send_chunks c grants;
      more ← send_packets rest grants;
      Ok (map (fun chunk => (chunk, false)) chunks ++ more)
  end.

(** *** [receive_packets] *)
(** The IP packet in a DATAGRAM capsule: an optional context id 0, then a packet
    of version 4 or 6. *)
Definition packet_of (payload : bytes) : option bytes :=
  let packet := match payload with 0 :: (_ :: _) as r => r | _ => payload end in
  match packet with
  | b :: _ => if (Z.shiftr b 4 =? 4) || (Z.shiftr b 4 =? 6) then Some packet else None
  | [] => None
  end.

Inductive parsed := NeedMore | TooBig (len : Z) | Capsule (kind : Z) (payload rest : bytes).

Definition parse_capsule (buf : bytes) : parsed :=
  match varint_read buf with
  | None => NeedMore
  | Some (kind, kind_len) =>
      match varint_read (drop (Z.to_nat kind_len) buf) with
      | None => NeedMore
      | Some (length, length_len) =>
          if MAX_CAPSULE_BUFFER <? length then TooBig length
          else
            let header := kind_len + length_len in
            if zlen buf <? header + length then NeedMore
            else Capsule kind (take (Z.to_nat length) (drop (Z.to_nat header) buf))
                   (drop (Z.to_nat (header + length)) buf)
      end
  end.

(** How the inner loop ends: out of complete capsules, with the device gone
    ([return Ok(())]), with an error, or out of fuel. *)
Inductive drained := Drained (buf : bytes) | DeviceGone | DrainError (e : h2_error) | DrainFuel.

(** [closed offered] tells whether the device's queue is closed when a packet is
    offered after [offered]; a full queue drops the packet, so [offered] is what
    was handed to [try_send].  A capsule takes at least two bytes. *)
Fixpoint drain_capsules (closed : list bytes -> bool) (fuel : nat) (buf : bytes) (offered : list bytes)
    : drained * list bytes :=
  match fuel with
  | O => (DrainFuel, offered)
  | S f =>
      match parse_capsule buf with
      | NeedMore => (Drained buf, offered)
      | TooBig len => (DrainError (CapsuleTooLarge len), offered)
      | Capsule kind payload rest =>
          if kind =? 0 then
            match packet_of payload with
            | Some p => if closed offered then (DeviceGone, offered) else drain_capsules closed f rest (offered ++ [p])
            | None => drain_capsules closed f rest offered
            end
          else drain_capsules closed f rest offered
      end
  end.

(** The outer loop; [None]: reading a chunk fails. *)
Fixpoint receive_packets (closed : list bytes -> bool) (chunks : list (option bytes)) (buf : bytes) (offered : list bytes)
    : res h2_error unit * list bytes :=
  match chunks with
  | [] => (Err StreamClosed, offered)
  | None :: _ => (Err ReadFailed, offered)
  | Some chunk :: rest =>
      if MAX_CAPSULE_BUFFER <? zlen buf + zlen chunk then (Err BufferOverflow, offered)
      else
        let buf := buf ++ chunk in
        match drain_capsules closed (S (length buf)) buf offered with
        | (Drained buf, offered) => receive_packets closed rest buf offered
        | (DeviceGone, offered) => (Ok tt, offered)
        | (DrainError e, offered) => (Err e, offered)
        | (DrainFuel, offered) => (Panic, offered)
        end
  end.
End capsules.

(** [start_send] of the device. *)
Definition start_send (item : bytes) : res ErrorKind bytes :=
  if PACKET_MTU <? zlen item then Err InvalidData else Ok item.

(** [connect]: edges on port 443 one after the other; a timed-out channel closes
    the carrier, so it ends the search. *)
Inductive h2_connect := Connected_to (addr : SocketAddr) | CarrierTimedOut (addr : SocketAddr) | AllFailed (tried : list SocketAddr) | NoEdge.

Fixpoint try_edges (upstream : Outbound) (dial : SocketAddr -> bool) (addrs errors : list SocketAddr) : h2_connect :=
  match addrs with
  | [] => match errors with [] => NoEdge | _ => AllFailed errors end
  | addr :: rest =>
      match connect_tcp upstream (Ip (sa_ip addr)) (sa_port addr) with
      | Fail TimedOut | Hang => CarrierTimedOut addr
      | Fail _ => try_edges upstream dial rest (errors ++ [addr])
      | Ret _ => if dial addr then Connected_to addr else try_edges upstream dial rest (errors ++ [addr])
      end
  end.

Definition connect (upstream : Outbound) (dial : SocketAddr -> bool) (edge_addrs : list SocketAddr) : h2_connect :=
  try_edges upstream dial (List.filter (fun a => sa_port a =? 443) edge_addrs) [].
End H2.

(** ** Framing is transparent *)
Module H2Facts.
Import H2.

(** A capsule on the wire. *)
Record cap := Cap { cap_kind : Z; cap_payload : bytes }.

Section facts.
Context {V : VarInt} {L : VarIntLaws V}.

Definition enc (c : cap) : bytes := vi_encode (cap_kind c) ++ vi_encode (zlen (cap_payload c)) ++ cap_payload c.
Definition cap_ok (c : cap) : Prop := 0 <= cap_kind c < VARINT_BOUND /\ zlen (cap_payload c) <= MAX_CAPSULE_BUFFER.

(** What the device is offered for a capsule. *)
Definition deliver (c : cap) : option bytes := if cap_kind c =? 0 then packet_of (cap_payload c) else None.

(** A proper prefix of a capsule of at most [m] bytes. *)
Definition partial (m : Z) (b : bytes) : Prop := exists c k, cap_ok c /\ enc c = b ++ k /\ k <> [] /\ zlen (enc c) <= m.

Lemma payload_len_bound c : cap_ok c -> 0 <= zlen (cap_payload c) < VARINT_BOUND.
Proof. intros [_ H]. unfold MAX_CAPSULE_BUFFER, VARINT_BOUND in *. pose proof (zlen_nonneg (cap_payload c)). lia. Qed.

Lemma vi_drop v r : drop (Z.to_nat (zlen (vi_encode v))) (vi_encode v ++ r) = r.
Proof. unfold zlen. rewrite Nat2Z.id. apply drop_app_length. Qed.

Lemma enc_zlen c : zlen (enc c) = zlen (vi_encode (cap_kind c)) + zlen (vi_encode (zlen (cap_payload c))) + zlen (cap_payload c).
Proof. unfold enc. zl. Qed.

(** The buffer starts with a complete capsule. *)
Lemma parse_full c r : cap_ok c -> parse_capsule (enc c ++ r) = Capsule (cap_kind c) (cap_payload c) r.
Proof.
  intros Hc. pose proof Hc as [Hk Hm]. pose proof (payload_len_bound c Hc) as Hp. unfold parse_capsule, enc. rewrite <-!app_assoc.
  rewrite varint_read_encode, vi_drop, varint_read_encode by done.
  rewrite (proj2 (Z.ltb_ge _ _)) by lia. rewrite (proj2 (Z.ltb_ge _ _)) by zl.
  f_equal.
  - rewrite app_assoc, <-zlen_app. unfold zlen. by rewrite !Nat2Z.id, drop_app_length, take_app_length.
  - rewrite !app_assoc, <-!zlen_app. unfold zlen. by rewrite Nat2Z.id, drop_app_length.
Qed.

(** An incomplete capsule waits for more bytes. *)
Lemma parse_partial m b : partial m b -> parse_capsule b = NeedMore.
Proof.
  intros (c & k & Hc & He & Hk & _). pose proof Hc as [Hkind Hm]. pose proof (payload_len_bound c Hc) as Hp.
  unfold parse_capsule, enc in *. symmetry in He. apply app_eq_inv in He as [(b2 & -> & He)|(k2 & He & ->)].
  - rewrite varint_read_encode, vi_drop by done. apply app_eq_inv in He as [(b3 & He & ->)|(b3 & He & Hp2)].
    + destruct b3 as [|x b3]; [|by rewrite (varint_read_cut _ _ _ Hp He)].
      rewrite app_nil_r in He. subst b2. pose proof (varint_read_encode _ [] Hp) as Hr. rewrite app_nil_r in Hr. rewrite Hr.
      rewrite (proj2 (Z.ltb_ge _ _)) by lia. cbn [app] in Hk. rewrite (proj2 (Z.ltb_lt _ _)); [done|].
      destruct (cap_payload c); [done|]. zl.
    + subst b2. rewrite varint_read_encode by done. rewrite (proj2 (Z.ltb_ge _ _)) by lia.
      rewrite (proj2 (Z.ltb_lt _ _)); [done|]. rewrite Hp2. destruct k; [done|]. zl.
  - destruct k2 as [|x k2]; [|by rewrite (varint_read_cut _ _ _ Hkind He)].
    rewrite app_nil_r in He. subst b. pose proof (varint_read_encode _ [] Hkind) as Hr. rewrite app_nil_r in Hr. rewrite Hr.
    pose proof (vi_drop (cap_kind c) []) as Hd. rewrite app_nil_r in Hd. rewrite Hd.
    destruct (vi_shape _ Hp) as (_ & h & t & Ht & _). by rewrite (varint_read_cut _ [] _ Hp eq_refl) by (by rewrite Ht).
Qed.

Definition stream (caps : list cap) : bytes := concat (map enc caps).
Definition never (_ : list bytes) : bool := false.

Lemma enc_nonempty c : cap_ok c -> (0 < length (enc c))%nat.
Proof.
  intros [Hk _]. destruct (vi_shape _ Hk) as (_ & h & t & Ht & _). unfold enc. rewrite Ht. simpl. lia.
Qed.

(** A prefix of a partial capsule is one. *)
Lemma partial_prefix m b s : partial m (b ++ s) -> partial m b.
Proof.
  intros (c & k & Hc & He & Hk & Hm). exists c, (s ++ k). rewrite app_assoc. split_and!; try done.
  intros [_ ?]%app_eq_nil. done.
Qed.

(** One run of the inner loop on a prefix [b] of the stream: the complete capsules
    of [b] are delivered and the rest waits. *)
Lemma drain_capsules_spec m fuel caps tail b s offered : Forall (fun c => cap_ok c /\ zlen (enc c) <= m) caps -> partial m tail ->
  b ++ s = stream caps ++ tail -> (length b < fuel)%nat ->
  exists done rest b', caps = done ++ rest /\ b' ++ s = stream rest ++ tail /\ partial m b' /\
    drain_capsules never fuel b offered = (Drained b', offered ++ omap deliver done).
Proof.
  revert fuel b offered. induction caps as [|c caps IH]; intros fuel b offered Hok Ht Hs Hf.
  - cbn in Hs. subst tail. exists [], [], b. pose proof (partial_prefix _ _ _ Ht) as Hp. split_and!; try done.
    destruct fuel; [lia|]. cbn [drain_capsules]. rewrite (parse_partial _ _ Hp). by rewrite app_nil_r.
  - apply Forall_cons in Hok as [[Hc Hm] Hok]. unfold stream in Hs. cbn [map concat] in Hs. rewrite <-app_assoc in Hs.
    apply app_eq_inv in Hs as [(b2 & -> & Hs)|(k & He & ->)].
    + destruct fuel as [|fuel]; [lia|]. rewrite length_app in Hf. pose proof (enc_nonempty c Hc).
      destruct (IH fuel b2 (offered ++ omap deliver [c]) Hok Ht (eq_sym Hs) ltac:(lia)) as (d & r & b' & -> & Hb' & Hp & Hd).
      exists (c :: d), r, b'. split_and!; try done. cbn [drain_capsules]. rewrite (parse_full _ _ Hc).
      change (c :: d) with ([c] ++ d). rewrite omap_app, app_assoc, <-Hd.
      unfold omap, list_omap, deliver. destruct (cap_kind c =? 0); [destruct (packet_of _)|]; by rewrite ?app_nil_r.
    + destruct (decide (k = [])) as [->|Hk].
      * rewrite app_nil_r in He. destruct fuel as [|fuel]; [lia|]. pose proof (enc_nonempty c Hc). rewrite He in H.
        destruct (IH fuel [] (offered ++ omap deliver [c]) Hok Ht eq_refl ltac:(simpl; lia)) as (d & r & b' & -> & Hb' & Hp & Hd).
        exists (c :: d), r, b'. split_and!; try done. cbn [drain_capsules].
        pose proof (parse_full c [] Hc) as Hpf. rewrite app_nil_r, He in Hpf. rewrite Hpf.
        change (c :: d) with ([c] ++ d). rewrite omap_app, app_assoc, <-Hd.
        unfold omap, list_omap, deliver. destruct (cap_kind c =? 0); [destruct (packet_of _)|]; by rewrite ?app_nil_r.
      * exists [], (c :: caps), b. assert (Hp : partial m b) by (by exists c, k).
        split_and!; try done; [unfold stream; cbn [map concat]; by rewrite He, <-!app_assoc|].
        destruct fuel; [lia|]. cbn [drain_capsules]. rewrite (parse_partial _ _ Hp). by rewrite app_nil_r.
Qed.

(** The whole loop, started with a partial capsule in the buffer. *)
Lemma receive_spec m caps tail chunks buf offered :
  Forall (fun c => cap_ok c /\ zlen (enc c) <= m) caps -> partial m tail -> partial m buf ->
  Forall (fun c => m + zlen c <= MAX_CAPSULE_BUFFER) chunks ->
  buf ++ concat chunks = stream caps ++ tail ->
  receive_packets never (map Some chunks) buf offered = (Err StreamClosed, offered ++ omap deliver caps).
Proof.
  revert caps buf offered. induction chunks as [|chunk chunks IH]; intros caps buf offered Hok Ht Hb Hc Hs.
  - cbn [map receive_packets]. cbn [concat] in Hs. 
    destruct (drain_capsules_spec m (S (length buf)) caps tail buf [] offered Hok Ht Hs ltac:(lia)) as (d & r & b' & -> & Hb' & Hp & Hd).
    cbn [drain_capsules] in Hd. rewrite (parse_partial _ _ Hb) in Hd. injection Hd as <- Hd.
    assert (Hr : r = []).
    { destruct r as [|c r]; [done|]. exfalso. apply Forall_app in Hok as [_ Hok]. apply Forall_cons in Hok as [[Hcc _] _].
      pose proof (parse_partial _ _ Hb) as Hpp. rewrite app_nil_r in Hb'. rewrite Hb' in Hpp. unfold stream in Hpp.
      cbn [map concat] in Hpp. rewrite <-app_assoc, (parse_full _ _ Hcc) in Hpp. done. }
    subst r. rewrite app_nil_r. by rewrite <-Hd.
  - apply Forall_cons in Hc as [Hlen Hc]. cbn [concat] in Hs. rewrite app_assoc in Hs. cbn [map receive_packets].
    assert (Hbl : zlen buf <= m) by (destruct Hb as (? & ? & ? & He & ? & ?); rewrite He in *; zl).
    rewrite (proj2 (Z.ltb_ge _ _)) by lia.
    destruct (drain_capsules_spec m (S (length (buf ++ chunk))) caps tail _ _ offered Hok Ht Hs ltac:(lia)) as (d & r & b' & -> & Hb' & Hp & Hd).
    rewrite Hd. apply Forall_app in Hok as [_ Hok]. by rewrite (IH r), omap_app, app_assoc.
Qed.

(** *** The sending side *)
Definition granted (g : option Z) : Prop := exists n, g = Some n /\ 0 < n.

(** With enough positive grants the flow-control loop sends every byte, in order. *)
Lemma send_chunks_all remaining grants : Forall granted grants -> zlen remaining <= zlen grants ->
  exists chunks g, send_chunks remaining grants = Ok (chunks, g) /\ concat chunks = remaining /\
    Forall granted g /\ zlen grants <= zlen g + zlen remaining.
Proof.
  revert remaining. induction grants as [|x grants IH]; intros remaining Hg Hl.
  - destruct remaining as [|y r]; [|zl]. exists [], []. done.
  - destruct remaining as [|y r]; [exists [], (x :: grants); split_and!; try done; zl|].
    apply Forall_cons in Hg as [(n & -> & Hn) Hg]. cbn [send_chunks]. rewrite (proj2 (Z.eqb_neq _ _)) by lia.
    set (k := Z.min n (zlen (y :: r))). assert (Hk : 1 <= k <= zlen (y :: r)) by (subst k; zl).
    destruct (IH (drop (Z.to_nat k) (y :: r)) Hg) as (chunks & g & -> & Hc & Hgg & Hlen).
    { rewrite zlen_drop by lia. zl. }
    rewrite zlen_drop in Hlen by lia. exists (take (Z.to_nat k) (y :: r) :: chunks), g.
    cbn [mbind res_bind concat]. rewrite Hc, take_drop. split_and!; try done. zl.
Qed.

(** An IPv4 or IPv6 packet that fits the tunnel: its first byte is 0x40 to 0x4f or 0x60
    to 0x6f. *)
Definition ip_packet (p : bytes) : Prop :=
  exists b rest, p = b :: rest /\ (64 <= b <= 79 \/ 96 <= b <= 111) /\ zlen p <= 1280.

Lemma packet_of_ip p : ip_packet p -> packet_of p = Some p.
Proof.
  intros (b & rest & -> & Hb & _). unfold packet_of.
  assert (b / 16 = 4 \/ b / 16 = 6) as [Hv|Hv] by (destruct Hb; [left|right]; symmetry; [apply (Z.div_unique b 16 4 (b - 64))|apply (Z.div_unique b 16 6 (b - 96))]; lia).
  all: destruct b as [|b|b]; [lia| |lia]; cbv beta zeta match; rewrite (Z.shiftr_div_pow2 _ 4) by lia; change (2 ^ 4) with 16; by rewrite Hv.
Qed.
Lemma ip_packet_len p : ip_packet p -> zlen p <= PACKET_MTU.
Proof. by intros (b & rest & _ & _ & ?). Qed.

Definition datagram (p : bytes) : cap := Cap 0 p.

Lemma vi_len_max v : 0 <= v < VARINT_BOUND -> zlen (vi_encode v) <= 8.
Proof.
  intros Hv. destruct (vi_shape _ Hv) as (Hb & h & t & Ht & ->). rewrite Ht in Hb. apply Forall_cons in Hb as [Hb _].
  unfold vi_len, is_byte in *. rewrite Z.shiftl_1_l, Z.shiftr_div_pow2 by lia. change (2 ^ 6) with 64.
  assert (0 <= h / 64 < 4) by (split; [apply Z.div_pos; lia|apply Z.div_lt_upper_bound; lia]).
  change 8 with (2 ^ 3). apply Z.pow_le_mono_r; lia.
Qed.

Lemma datagram_ok p : zlen p <= PACKET_MTU ->
  cap_ok (datagram p) /\ zlen (enc (datagram p)) <= zlen p + 9 /\ capsule p = Ok (enc (datagram p)).
Proof.
  intros Hp. pose proof (zlen_nonneg p) as H0. unfold PACKET_MTU in Hp.
  assert (Hv : 0 <= zlen p < VARINT_BOUND) by (unfold VARINT_BOUND; lia).
  pose proof (vi_len_max _ Hv). split_and!.
  - unfold cap_ok, VARINT_BOUND, MAX_CAPSULE_BUFFER. simpl. lia.
  - rewrite enc_zlen. simpl. rewrite vi_zero. zl.
  - unfold capsule, varint_write, enc. simpl. rewrite vi_zero. unfold PACKET_MTU.
    rewrite (proj2 (Z.ltb_ge _ _)) by lia. rewrite (proj2 (Z.leb_le _ _)), (proj2 (Z.ltb_lt _ _)) by lia. done.
Qed.

Lemma send_packets_all packets grants : Forall (fun p => zlen p <= PACKET_MTU) packets -> Forall granted grants ->
  zsum (fun p => zlen p + 9) packets <= zlen grants ->
  exists frames, send_packets packets grants = Ok frames /\ concat (map fst frames) = stream (map datagram packets).
Proof.
  revert grants. induction packets as [|p packets IH]; intros grants Hp Hg Hl; [by exists [([], true)]|].
  apply Forall_cons in Hp as [Hpp Hp]. destruct (datagram_ok p Hpp) as (_ & Hlen & Hcap). cbn [zsum fold_right] in Hl.
  fold (zsum (fun p => zlen p + 9) packets) in Hl.
  assert (0 <= zsum (fun p : bytes => zlen p + 9) packets) by (apply zsum_nonneg; intros; zl).
  destruct (send_chunks_all (enc (datagram p)) grants Hg ltac:(lia)) as (chunks & g & Hs & Hc & Hgg & Hgl).
  destruct (IH g Hp Hgg ltac:(lia)) as (frames & Hf & Hstream). cbn [send_packets]. rewrite Hcap. cbn [mbind res_bind].
  rewrite Hs. cbn [mbind res_bind]. rewrite Hf. cbn [mbind res_bind]. eexists. split; [done|].
  rewrite map_app, concat_app, Hstream, map_map. simpl. rewrite map_id, Hc. done.
Qed.
End facts.

(** C24. CONNECT-IP framing over HTTP/2 is transparent: the sender turns any list of
    IPv4 and IPv6 packets (a first byte of 0x4x or 0x6x, at most 1280 bytes) into
    DATA frames whatever the (positive) flow-control grants, and however the byte
    stream is cut into chunks of at most 64 KiB, the receiver offers its device
    exactly those packets in order before reporting that the stream has ended; it
    never overflows its buffer. *)
Theorem h2_tunnel_transparent {V : VarInt} {L : VarIntLaws V} packets grants :
  Forall ip_packet packets -> Forall granted grants -> zsum (fun p => zlen p + 9) packets <= zlen grants ->
  exists frames, send_packets packets grants = Ok frames /\
    forall chunks, concat chunks = concat (map fst frames) -> Forall (fun c => zlen c <= 65536) chunks ->
      receive_packets never (map Some chunks) [] [] = (Err StreamClosed, packets).
Proof.
  intros Hp Hg Hl. destruct (send_packets_all packets grants) as (frames & Hf & Hs); [|done..|].
  { eapply Forall_impl; [exact Hp|]. apply ip_packet_len. }
  exists frames. split; [done|]. intros chunks Hc Hk.
  assert (Hpart : partial 2048 []).
  { exists (datagram []), (enc (datagram [])). destruct (datagram_ok []) as (Hok & Hlen & _); [done|]. rewrite zlen_nil in Hlen.
    pose proof (enc_nonempty _ Hok). split_and!; [done|done| |lia]. intros He. rewrite He in *. simpl in *. lia. }
  rewrite (receive_spec 2048 (map datagram packets) [] chunks [] []); try done.
  - cbn [app]. f_equal. clear -Hp. induction Hp as [|p packets Hp _ IH]; [done|]. cbn.
    unfold deliver at 1. cbn [datagram cap_kind cap_payload Z.eqb]. rewrite (packet_of_ip _ Hp). by f_equal.
  - apply Forall_map. eapply Forall_impl; [exact Hp|]. intros p Hpp%ip_packet_len. destruct (datagram_ok p Hpp) as (? & ? & _).
    unfold PACKET_MTU in *. split; [done|]. lia.
  - eapply Forall_impl; [exact Hk|]. unfold MAX_CAPSULE_BUFFER. intros; lia.
  - cbn [app]. by rewrite Hc, Hs, app_nil_r.
Qed.

(** Two packets over twenty-three grants of one byte, read back byte by byte. *)
Lemma h2_tunnel_transparent_witness :
  exists frames, send_packets (V:=Rfc9000.codec) [[69; 0]; [96; 1; 2]] (replicate 23 (Some 1)) = Ok frames /\
    receive_packets (V:=Rfc9000.codec) never (map Some (map (fun b => [b]) (concat (map fst frames)))) [] [] =
      (Err StreamClosed, [[69; 0]; [96; 1; 2]]).
Proof.
  destruct (h2_tunnel_transparent (L:=Rfc9000.laws) [[69; 0]; [96; 1; 2]] (replicate 23 (Some 1))) as (frames & Hf & H).
  - constructor; [|constructor; [|constructor]].
    + exists 69, [0]. split_and!; [done|lia|vm_compute; congruence].
    + exists 96, [1; 2]. split_and!; [done|lia|vm_compute; congruence].
  - apply Forall_replicate. exists 1. split; [done|lia].
  - vm_compute. congruence.
  - exists frames. split; [exact Hf|]. apply H.
    + generalize (concat (map fst frames)). intros l. induction l as [|x l IH]; simpl; [done|]. by rewrite IH.
    + apply Forall_map, Forall_true. intros x. vm_compute. congruence.
Defined.
End H2Facts.
