(* ===== verification/Dataplane.v ===== *)
(** * Data-plane counters ([src/src/dataplane.rs])

    The observer's atomic cells, the calls that update them, and the five-second
    report with its window arithmetic.  A struct of [AtomicU64] is a total map
    from its field names to 64-bit values; each call is one step on it.  The
    checked packet views are smoltcp's and parameters. *)
From S2P Require Import Prelude RustStr NetAddr.

Module Dataplane.
Inductive Direction := Rx | Tx.
Inductive DecapOutcome := Done | WriteToNetwork | WriteToTunnelV4 | WriteToTunnelV6 | Error.
Inductive ReactorWake := Device | Notify | Timer.

(** ** The cells *)
Inductive tcp_cell :=
| packets | payload_bytes | ack_packets | ack_only_packets | last_at_ms | last_ports | last_seq | last_ack
| last_flags | last_payload_len.

Inductive bulk_cell := ports | rx_at_ms | rx_seq | rx_ack | rx_payload_len | ack_at_ms | ack_seq | ack_ack.

Inductive cell :=
| outer_rx_packets | outer_rx_bytes | outer_tx_packets | outer_tx_bytes | outer_tx_dropped | device_tx_dropped
| decap_done | decap_write_network | decap_v4 | decap_v6 | decap_errors
| plain_rx_packets | plain_rx_bytes | plain_tx_packets | plain_tx_bytes
| tcp_rx (f : tcp_cell) | tcp_tx (f : tcp_cell) | bulk_flow (f : bulk_cell)
| outer_backlog_current | outer_backlog_peak | device_rx_backlog | device_tx_backlog
| device_rx_backlog_peak | device_tx_backlog_peak
| reactor_loops | reactor_wake_calls | reactor_waits | reactor_device_wakes | reactor_notify_wakes
| reactor_timer_wakes | reactor_polls | reactor_last_progress_ms | reactor_max_gap_ms.

#[export] Instance Direction_eq_dec : EqDecision Direction. Proof. solve_decision. Defined.
#[export] Instance tcp_cell_eq_dec : EqDecision tcp_cell. Proof. solve_decision. Defined.
#[export] Instance bulk_cell_eq_dec : EqDecision bulk_cell. Proof. solve_decision. Defined.
#[export] Instance cell_eq_dec : EqDecision cell. Proof. solve_decision. Defined.

Definition ObserverInner : Type := cell -> Z.
Definition new : ObserverInner := fun _ => 0.

Definition store (c : cell) (v : Z) (s : ObserverInner) : ObserverInner := fun c' => if decide (c' = c) then v else s c'.
Definition add (c : cell) (v : Z) (s : ObserverInner) : ObserverInner := store c (wrap64 (s c + v)) s.
Definition update_peak (c : cell) (v : Z) (s : ObserverInner) : ObserverInner := store c (Z.max (s c) v) s.
Definition set_current_and_peak (current peak : cell) (v : Z) (s : ObserverInner) : ObserverInner :=
  update_peak peak v (store current v s).

(** ** Packet views *)
Record TcpPacket := mk_tcp {
  src_port : Z; dst_port : Z; seq_number : Z; ack_number : Z; payload : bytes;
  fin : bool; syn : bool; rst : bool; psh : bool; ack : bool; urg : bool; ece : bool; cwr : bool
}.
Record IpView := mk_ip { frag_offset : Z; next_header : Z; ip_payload : bytes }.
Definition IpProtocol_Tcp : Z := 6.

Record wire := mk_wire {
  ipv4_checked : bytes -> option IpView;
  ipv6_checked : bytes -> option IpView;
  tcp_checked : bytes -> option TcpPacket
}.

Definition tcp_packet (w : wire) (packet : bytes) : option TcpPacket :=
  match packet with
  | [] => None
  | b :: _ =>
      if Z.shiftr b 4 =? 4 then
        ip ← ipv4_checked w packet;
        if (frag_offset ip =? 0) && (next_header ip =? IpProtocol_Tcp) then tcp_checked w (ip_payload ip) else None
      else if Z.shiftr b 4 =? 6 then
        ip ← ipv6_checked w packet;
        if next_header ip =? IpProtocol_Tcp then tcp_checked w (ip_payload ip) else None
      else None
  end.

Definition u64_of_bool (b : bool) : Z := if b then 1 else 0.
Definition tcp_flags (p : TcpPacket) : Z :=
  Z.lor (Z.lor (Z.lor (Z.lor (Z.lor (Z.lor (Z.lor (u64_of_bool (fin p))
    (Z.shiftl (u64_of_bool (syn p)) 1)) (Z.shiftl (u64_of_bool (rst p)) 2)) (Z.shiftl (u64_of_bool (psh p)) 3))
    (Z.shiftl (u64_of_bool (ack p)) 4)) (Z.shiftl (u64_of_bool (urg p)) 5)) (Z.shiftl (u64_of_bool (ece p)) 6))
    (Z.shiftl (u64_of_bool (cwr p)) 7).

Definition flag_names : list (Z * bytes) :=
  [(0, str_bytes "F"); (1, str_bytes "S"); (2, str_bytes "R"); (3, str_bytes "P");
   (4, str_bytes "A"); (5, str_bytes "U"); (6, str_bytes "E"); (7, str_bytes "C")].

Definition format_tcp_flags (flags : Z) : bytes :=
  let value := concat (omap (fun '(bit, name) =>
    if Z.land flags (Z.shiftl 1 bit) =? 0 then None else Some name) flag_names) in
  match value with [] => str_bytes "-" | _ => value end.

(** ** Recording *)
Definition pair_ports (a b : Z) : Z := Z.lor (Z.shiftl a 16) b.

Definition tcp_record (cell_of : tcp_cell -> cell) (now_ms : Z) (p : TcpPacket) (s : ObserverInner) : ObserverInner :=
  let payload_len := zlen (payload p) in
  let s := add (cell_of packets) 1 s in
  let s := add (cell_of payload_bytes) payload_len s in
  let s := if ack p then
             let s := add (cell_of ack_packets) 1 s in
             if (payload_len =? 0) && negb (syn p) && negb (fin p) && negb (rst p)
             then add (cell_of ack_only_packets) 1 s else s
           else s in
  let s := store (cell_of last_at_ms) (u64_saturating_add now_ms 1) s in
  let s := store (cell_of last_ports) (pair_ports (src_port p) (dst_port p)) s in
  let s := store (cell_of last_seq) (seq_number p) s in
  let s := store (cell_of last_ack) (ack_number p) s in
  let s := store (cell_of last_flags) (tcp_flags p) s in
  store (cell_of last_payload_len) payload_len s.

Definition bulk_record (d : Direction) (now_ms : Z) (p : TcpPacket) (s : ObserverInner) : ObserverInner :=
  let pp := pair_ports (src_port p) (dst_port p) in
  match d with
  | Rx =>
      if 1000 <=? zlen (payload p) then
        let s := store (bulk_flow ports) pp s in
        let s := store (bulk_flow rx_at_ms) (u64_saturating_add now_ms 1) s in
        let s := store (bulk_flow rx_seq) (seq_number p) s in
        let s := store (bulk_flow rx_ack) (ack_number p) s in
        store (bulk_flow rx_payload_len) (zlen (payload p)) s
      else s
  | Tx =>
      if ack p && (zlen (payload p) =? 0) then
        let bulk_ports := s (bulk_flow ports) in
        let reverse := pair_ports (Z.land bulk_ports 65535) (Z.shiftr bulk_ports 16) in
        if negb (bulk_ports =? 0) && (pp =? reverse) then
          let s := store (bulk_flow ack_at_ms) (u64_saturating_add now_ms 1) s in
          let s := store (bulk_flow ack_seq) (seq_number p) s in
          store (bulk_flow ack_ack) (ack_number p) s
        else s
      else s
  end.

Definition record_outer_rx (n : Z) (s : ObserverInner) : ObserverInner := add outer_rx_bytes n (add outer_rx_packets 1 s).
Definition record_outer_tx (n : Z) (s : ObserverInner) : ObserverInner := add outer_tx_bytes n (add outer_tx_packets 1 s).
Definition record_outer_tx_dropped (s : ObserverInner) : ObserverInner := add outer_tx_dropped 1 s.
Definition record_device_tx_dropped (n : Z) (s : ObserverInner) : ObserverInner := add device_tx_dropped n s.

Definition decap_cell (o : DecapOutcome) : cell :=
  match o with
  | Done => decap_done | WriteToNetwork => decap_write_network | WriteToTunnelV4 => decap_v4
  | WriteToTunnelV6 => decap_v6 | Error => decap_errors
  end.
Definition record_decap (o : DecapOutcome) (s : ObserverInner) : ObserverInner := add (decap_cell o) 1 s.

Definition record_plaintext (w : wire) (now_ms : Z) (d : Direction) (packet : bytes) (s : ObserverInner) : ObserverInner :=
  let '(pk, by_, tcp) := match d with
    | Rx => (plain_rx_packets, plain_rx_bytes, tcp_rx) | Tx => (plain_tx_packets, plain_tx_bytes, tcp_tx) end in
  let s := add by_ (zlen packet) (add pk 1 s) in
  match tcp_packet w packet with
  | Some p => bulk_record d now_ms p (tcp_record tcp now_ms p s)
  | None => s
  end.

Definition record_outer_backlog (n : Z) (s : ObserverInner) : ObserverInner :=
  set_current_and_peak outer_backlog_current outer_backlog_peak n s.
Definition record_device_backlog (rx tx : Z) (s : ObserverInner) : ObserverInner :=
  set_current_and_peak device_tx_backlog device_tx_backlog_peak tx
    (set_current_and_peak device_rx_backlog device_rx_backlog_peak rx s).

Definition record_reactor_wake_call (s : ObserverInner) : ObserverInner := add reactor_wake_calls 1 s.
Definition record_reactor_wait (s : ObserverInner) : ObserverInner := add reactor_waits 1 s.
Definition wake_cell (w : ReactorWake) : cell :=
  match w with Device => reactor_device_wakes | Notify => reactor_notify_wakes | Timer => reactor_timer_wakes end.
Definition record_reactor_wake (w : ReactorWake) (s : ObserverInner) : ObserverInner := add (wake_cell w) 1 s.
Definition record_reactor_poll (s : ObserverInner) : ObserverInner := add reactor_polls 1 s.
Definition record_reactor_loop (now : Z) (s : ObserverInner) : ObserverInner :=
  let s := add reactor_loops 1 s in
  let previous := s reactor_last_progress_ms in
  let s := store reactor_last_progress_ms now s in
  if 0 <? previous then update_peak reactor_max_gap_ms (saturating_sub now previous) s else s.

(** ** Reporting *)
(** The fields of [CounterSnapshot]; [new_counters] is its [Default]. *)
Definition is_counter (c : cell) : bool :=
  match c with
  | tcp_rx f | tcp_tx f =>
      match f with packets | payload_bytes | ack_packets | ack_only_packets => true | _ => false end
  | bulk_flow _ | outer_backlog_current | outer_backlog_peak | device_rx_backlog | device_tx_backlog
  | device_rx_backlog_peak | device_tx_backlog_peak | reactor_last_progress_ms | reactor_max_gap_ms => false
  | _ => true
  end.
Definition CounterSnapshot : Type := cell -> Z.
Definition snapshot (s : ObserverInner) : CounterSnapshot := fun c => if is_counter c then s c else 0.
Definition delta (now previous : CounterSnapshot) : CounterSnapshot := fun c => saturating_sub (now c) (previous c).

Record CpuSnapshot := mk_cpu { usage_usec : Z; nr_periods : Z; nr_throttled : Z; throttled_usec : Z }.
Definition cpu_default : CpuSnapshot := mk_cpu 0 0 0 0.
Definition cpu_delta (a b : CpuSnapshot) : CpuSnapshot :=
  mk_cpu (saturating_sub (usage_usec a) (usage_usec b)) (saturating_sub (nr_periods a) (nr_periods b))
    (saturating_sub (nr_throttled a) (nr_throttled b)) (saturating_sub (throttled_usec a) (throttled_usec b)).

Definition cpu_line (snap : CpuSnapshot) (line : bytes) : CpuSnapshot :=
  match split_whitespace line with
  | name :: value :: _ =>
      match parse_uint U64_MAX value with
      | None => snap
      | Some v =>
          let 'mk_cpu u p t us := snap in
          if bytes_eqb name (str_bytes "usage_usec") then mk_cpu v p t us
          else if bytes_eqb name (str_bytes "nr_periods") then mk_cpu u v t us
          else if bytes_eqb name (str_bytes "nr_throttled") then mk_cpu u p v us
          else if bytes_eqb name (str_bytes "throttled_usec") then mk_cpu u p t v
          else if bytes_eqb name (str_bytes "throttled_time") then mk_cpu u p t (v / 1000)
          else snap
      end
  | _ => snap
  end.
Definition parse_cpu_stat (content : bytes) : CpuSnapshot := fold_left cpu_line (lines content) cpu_default.

(** [read_cpu_snapshot]: the two files' contents, if readable. *)
Definition read_cpu_snapshot (v2 v1 : option bytes) : option CpuSnapshot :=
  content ← (match v2 with Some c => Some c | None => v1 end); Some (parse_cpu_stat content).

Definition kv (k : string) (v : Z) : bytes := str_bytes k ++ fmt_dec v.

Definition format_cpu_delta (cpu : option CpuSnapshot) : bytes :=
  match cpu with
  | None => str_bytes "unavailable"
  | Some c => kv "usage_ms:" (usage_usec c / 1000) ++ kv ",periods:" (nr_periods c) ++
      kv ",throttled:" (nr_throttled c) ++ kv ",throttled_ms:" (throttled_usec c / 1000)
  end.

Definition age (now_ms at_ : Z) : Z := saturating_sub now_ms (saturating_sub at_ 1).

Definition last_packet (cell_of : tcp_cell -> cell) (now_ms : Z) (s : ObserverInner) : bytes :=
  if s (cell_of last_at_ms) =? 0 then str_bytes "none"
  else
    fmt_dec (Z.shiftr (s (cell_of last_ports)) 16) ++ kv ">" (Z.land (s (cell_of last_ports)) 65535) ++
    kv ",seq:" (s (cell_of last_seq) mod 4294967296) ++ kv ",ack:" (s (cell_of last_ack) mod 4294967296) ++
    str_bytes ",flags:" ++ format_tcp_flags (s (cell_of last_flags)) ++
    kv ",payload:" (s (cell_of last_payload_len)) ++ kv ",age_ms:" (age now_ms (s (cell_of last_at_ms))).

Definition bulk_summary (now_ms : Z) (s : ObserverInner) : bytes :=
  let pp := s (bulk_flow ports) in
  if (pp =? 0) || (s (bulk_flow rx_at_ms) =? 0) then str_bytes "none"
  else
    let ack_part :=
      if s (bulk_flow ack_at_ms) =? 0 then str_bytes "none"
      else kv "seq:" (s (bulk_flow ack_seq) mod 4294967296) ++ kv ",ack:" (s (bulk_flow ack_ack) mod 4294967296) ++
           kv ",age_ms:" (age now_ms (s (bulk_flow ack_at_ms))) in
    fmt_dec (Z.shiftr pp 16) ++ kv ">" (Z.land pp 65535) ++
    kv ",rx_seq:" (s (bulk_flow rx_seq) mod 4294967296) ++ kv ",rx_ack:" (s (bulk_flow rx_ack) mod 4294967296) ++
    kv ",rx_payload:" (s (bulk_flow rx_payload_len)) ++ kv ",rx_age_ms:" (age now_ms (s (bulk_flow rx_at_ms))) ++
    str_bytes ",ack:" ++ ack_part.

Record ReportState := mk_report_state { rs_counters : CounterSnapshot; rs_cpu : option CpuSnapshot }.

(** What one report prints. *)
Record report := mk_report {
  r_delta : CounterSnapshot; r_tcp_rx_last : bytes; r_tcp_tx_last : bytes; r_bulk : bytes;
  r_idle_ms : Z; r_max_gap_ms : Z;
  r_outer_backlog : Z * Z; r_device_rx_backlog : Z * Z; r_device_tx_backlog : Z * Z; r_cgroup : bytes
}.

(** [report_window]: the new baseline, the report, and the cells with the peaks
    swapped to zero. *)
Definition report_window (cpu : option CpuSnapshot) (now_ms : Z) (st : ReportState) (s : ObserverInner)
    : ReportState * report * ObserverInner :=
  let current := snapshot s in
  let d := delta current (rs_counters st) in
  let cd := match cpu, rs_cpu st with Some now, Some before => Some (cpu_delta now before) | _, _ => None end in
  let r := mk_report d (last_packet tcp_rx now_ms s) (last_packet tcp_tx now_ms s) (bulk_summary now_ms s)
    (saturating_sub now_ms (s reactor_last_progress_ms)) (s reactor_max_gap_ms)
    (s outer_backlog_current, s outer_backlog_peak) (s device_rx_backlog, s device_rx_backlog_peak)
    (s device_tx_backlog, s device_tx_backlog_peak) (format_cpu_delta cd) in
  let s := store device_tx_backlog_peak 0 (store device_rx_backlog_peak 0
             (store outer_backlog_peak 0 (store reactor_max_gap_ms 0 s))) in
  (mk_report_state current cpu, r, s).
End Dataplane.

(** ** Window accounting *)
Module DataplaneFacts.
Import Dataplane.

(** The calls of the hot path, and the periodic report. *)
Inductive event :=
| OuterRx (n : Z) | OuterTx (n : Z) | OuterTxDropped | DeviceTxDropped (n : Z) | Decap (o : DecapOutcome)
| Plaintext (now_ms : Z) (d : Direction) (packet : bytes) | OuterBacklog (n : Z) | DeviceBacklog (rx tx : Z)
| WakeCall | Wait | Wake (w : ReactorWake) | Poll | Loop (now : Z)
| Report (cpu : option CpuSnapshot) (now_ms : Z).

Definition obs : Type := ReportState * ObserverInner.

Section windows.
Context (w : wire).

Definition apply (e : event) (o : obs) : obs :=
  let '(st, s) := o in
  match e with
  | OuterRx n => (st, record_outer_rx n s)
  | OuterTx n => (st, record_outer_tx n s)
  | OuterTxDropped => (st, record_outer_tx_dropped s)
  | DeviceTxDropped n => (st, record_device_tx_dropped n s)
  | Decap d => (st, record_decap d s)
  | Plaintext now d p => (st, record_plaintext w now d p s)
  | OuterBacklog n => (st, record_outer_backlog n s)
  | DeviceBacklog rx tx => (st, record_device_backlog rx tx s)
  | WakeCall => (st, record_reactor_wake_call s)
  | Wait => (st, record_reactor_wait s)
  | Wake k => (st, record_reactor_wake k s)
  | Poll => (st, record_reactor_poll s)
  | Loop now => (st, record_reactor_loop now s)
  | Report cpu now => let '(st, _, s) := report_window cpu now st s in (st, s)
  end.
Definition start (cpu : option CpuSnapshot) : obs := (mk_report_state (fun _ => 0) cpu, new).
Definition run (evs : list event) (o : obs) : obs := fold_left (fun o e => apply e o) evs o.

(** The events after the last report. *)
Definition window (evs : list event) : list event :=
  fold_left (fun acc e => match e with Report _ _ => [] | _ => acc ++ [e] end) evs [].

(** What an event is worth to a counter, as a list of charges. *)
Definition tcp_charges (cell_of : tcp_cell -> cell) (p : TcpPacket) : list (cell * Z) :=
  [(cell_of packets, 1); (cell_of payload_bytes, zlen (payload p))] ++
  (if ack p then [(cell_of ack_packets, 1)] else []) ++
  (if ack p && ((zlen (payload p) =? 0) && negb (syn p) && negb (fin p) && negb (rst p))
   then [(cell_of ack_only_packets, 1)] else []).

Definition charges (e : event) : list (cell * Z) :=
  match e with
  | OuterRx n => [(outer_rx_packets, 1); (outer_rx_bytes, n)]
  | OuterTx n => [(outer_tx_packets, 1); (outer_tx_bytes, n)]
  | OuterTxDropped => [(outer_tx_dropped, 1)]
  | DeviceTxDropped n => [(device_tx_dropped, n)]
  | Decap d => [(decap_cell d, 1)]
  | Plaintext _ Rx p => [(plain_rx_packets, 1); (plain_rx_bytes, zlen p)] ++
      match tcp_packet w p with Some t => tcp_charges tcp_rx t | None => [] end
  | Plaintext _ Tx p => [(plain_tx_packets, 1); (plain_tx_bytes, zlen p)] ++
      match tcp_packet w p with Some t => tcp_charges tcp_tx t | None => [] end
  | WakeCall => [(reactor_wake_calls, 1)]
  | Wait => [(reactor_waits, 1)]
  | Wake k => [(wake_cell k, 1)]
  | Poll => [(reactor_polls, 1)]
  | Loop _ => [(reactor_loops, 1)]
  | OuterBacklog _ | DeviceBacklog _ _ | Report _ _ => []
  end.
Definition charge_to (c : cell) (k : cell * Z) : Z := if decide (c = k.1) then k.2 else 0.
Definition worth (c : cell) (e : event) : Z := zsum (charge_to c) (charges e).

(** Sizes are [usize] values. *)
Definition event_ok (e : event) : Prop :=
  match e with OuterRx n | OuterTx n | DeviceTxDropped n => 0 <= n | _ => True end.

Lemma charge_nonneg e : event_ok e -> Forall (fun k => 0 <= k.2) (charges e).
Proof.
  destruct e as [| | | | |? [] ?| | | | | | | |]; simpl; intros; repeat constructor; simpl; try lia; try apply zlen_nonneg;
    destruct (tcp_packet w _) as [t|]; simpl; repeat constructor; simpl; try apply zlen_nonneg; try lia;
    destruct (ack t), (zlen (payload t) =? 0), (syn t), (fin t), (rst t); simpl; repeat constructor; simpl; lia.
Qed.

Lemma worth_nonneg c e : event_ok e -> 0 <= worth c e.
Proof.
  intros H%charge_nonneg. unfold worth. induction H as [|k l Hk _ IH]; simpl; [lia|].
  unfold charge_to at 1. case_decide; lia.
Qed.

(** A counter holds a total modulo [2^64]. *)
Definition holds (c : cell) (t : Z) (s : ObserverInner) : Prop := s c = wrap64 t.

Lemma holds_add c c0 v t s : holds c t s -> holds c (t + charge_to c (c0, v)) (add c0 v s).
Proof.
  unfold holds, add, store, charge_to, wrap64. simpl. intros H. case_decide as Hc; [subst c0|by rewrite H, Z.add_0_r].
  rewrite H. by rewrite Zplus_mod_idemp_l.
Qed.

Lemma holds_store c c0 v t s : is_counter c = true -> is_counter c0 = false -> holds c t s -> holds c t (store c0 v s).
Proof. unfold holds, store. intros H1 H2 H. case_decide; [congruence|done]. Qed.

Lemma holds_eq c t t' s : t = t' -> holds c t s -> holds c t' s.
Proof. by intros ->. Qed.

Ltac hold := repeat first
  [ eassumption | apply holds_add | apply holds_store; [assumption|reflexivity|]
  | progress unfold update_peak, set_current_and_peak ].

Lemma bulk_holds c d now p t s : is_counter c = true -> holds c t s -> holds c t (bulk_record d now p s).
Proof. intros Hc H. unfold bulk_record. destruct d; repeat case_match; hold. Qed.

Lemma tcp_holds c d now p t s : is_counter c = true -> (d = tcp_rx \/ d = tcp_tx) ->
  holds c t s -> holds c (t + zsum (charge_to c) (tcp_charges d p)) (tcp_record d now p s).
Proof.
  intros Hc Hd H. unfold tcp_record, tcp_charges.
  destruct Hd as [-> | ->]; destruct (ack p); simpl andb; cbv zeta;
    try destruct ((zlen (payload p) =? 0) && negb (syn p) && negb (fin p) && negb (rst p));
    (eapply holds_eq; [|hold]); simpl; lia.
Qed.

(** One event charges each counter by its worth. *)
Lemma apply_holds c e o t : is_counter c = true -> holds c t o.2 -> holds c (t + worth c e) (apply e o).2.
Proof.
  intros Hc. destruct o as [st s]. cbn [snd]. intros H. unfold worth.
  destruct e as [| | | | |now d p| | | | | | | |]; cbn [apply charges snd zsum fold_right]; try (eapply holds_eq; [|hold]; simpl; lia).
  - unfold record_plaintext. destruct d; (destruct (tcp_packet w p); [|eapply holds_eq; [|hold]; simpl; lia]);
      apply bulk_holds; [done| |done|]; (eapply holds_eq; [|apply tcp_holds; [done|by auto|hold]]);
      unfold zsum; cbn [fold_right app]; lia.
  - unfold record_reactor_loop. cbv zeta. case_match; (eapply holds_eq; [|hold]); simpl; lia.
Qed.

Lemma run_snoc evs e o : run (evs ++ [e]) o = apply e (run evs o).
Proof. unfold run. by rewrite fold_left_app. Qed.

Lemma window_snoc evs e :
  window (evs ++ [e]) = match e with Report _ _ => [] | _ => window evs ++ [e] end.
Proof. unfold window. by rewrite fold_left_app. Qed.

Lemma run_holds c evs cpu : is_counter c = true -> holds c (zsum (worth c) evs) (run evs (start cpu)).2.
Proof.
  intros Hc. induction evs as [|e evs IH] using rev_ind; [done|].
  rewrite run_snoc, zsum_app. eapply holds_eq; [|apply apply_holds; [done|exact IH]]. simpl. lia.
Qed.

Definition is_report (e : event) : bool := match e with Report _ _ => true | _ => false end.

Lemma apply_baseline e o : is_report e = false -> (apply e o).1 = o.1.
Proof. destruct o as [st s], e; done. Qed.

(** The baseline is the total up to the last report. *)
Lemma baseline c evs cpu : is_counter c = true ->
  rs_counters (run evs (start cpu)).1 c = wrap64 (zsum (worth c) evs - zsum (worth c) (window evs)).
Proof.
  intros Hc. induction evs as [|e evs IH] using rev_ind; [done|].
  rewrite run_snoc, window_snoc, zsum_app. destruct (is_report e) eqn:He.
  - destruct e as [| | | | | | | | | | | | |cpu' now]; try discriminate He.
    pose proof (run_holds c evs cpu Hc) as H. destruct (run evs (start cpu)) as [st s]. cbn [snd] in H.
    cbn [apply report_window fst rs_counters]. unfold snapshot. rewrite Hc, H. f_equal.
    change (zsum (worth c) [Report cpu' now]) with 0. change (zsum (worth c) []) with 0. lia.
  - rewrite (apply_baseline _ _ He), IH. f_equal. destruct e; try discriminate He; rewrite zsum_app; lia.
Qed.

Lemma worths_nonneg c l : Forall event_ok l -> 0 <= zsum (worth c) l.
Proof. intros H. induction H as [|e l He _ IH]; simpl; [lia|]. pose proof (worth_nonneg c e He). lia. Qed.

(** The window is a suffix of the history. *)
Lemma window_split evs : exists pre, evs = pre ++ window evs.
Proof.
  induction evs as [|e evs [pre IH]] using rev_ind; [by exists []|]. rewrite window_snoc.
  destruct (is_report e) eqn:He.
  - exists (evs ++ [e]). destruct e; try discriminate He. by rewrite app_nil_r.
  - exists pre. destruct e; try discriminate He; rewrite IH at 1; by rewrite app_assoc.
Qed.

(** The largest backlog of the window, zero if none was recorded. *)
Definition peak (value : event -> option Z) (evs : list event) : Z := fold_left Z.max (omap value evs) 0.
Definition outer_value (e : event) : option Z := match e with OuterBacklog n => Some n | _ => None end.
Definition device_rx_value (e : event) : option Z := match e with DeviceBacklog rx _ => Some rx | _ => None end.
Definition device_tx_value (e : event) : option Z := match e with DeviceBacklog _ tx => Some tx | _ => None end.

Lemma peak_snoc value evs e :
  peak value (evs ++ [e]) = match value e with Some v => Z.max (peak value evs) v | None => peak value evs end.
Proof. unfold peak. rewrite omap_app, fold_left_app. simpl. by destruct (value e). Qed.

Lemma bulk_keeps c d now p s : (forall f, c <> bulk_flow f) -> bulk_record d now p s c = s c.
Proof.
  intros Hc. unfold bulk_record, store. destruct d; repeat case_match; repeat (case_decide; [by edestruct Hc|]); done.
Qed.

Lemma tcp_keeps d c now p s : (forall f, c <> d f) -> tcp_record d now p s c = s c.
Proof.
  intros Hc. unfold tcp_record, add, store. cbv zeta. repeat case_match; repeat (case_decide; [by edestruct Hc|]); done.
Qed.

(** The peak cells follow the recorded backlogs and nothing else. *)
Lemma peaks_hold evs cpu : let s := (run evs (start cpu)).2 in
  s outer_backlog_peak = peak outer_value (window evs) /\
  s device_rx_backlog_peak = peak device_rx_value (window evs) /\
  s device_tx_backlog_peak = peak device_tx_value (window evs).
Proof.
  cbv zeta. induction evs as [|e evs IH] using rev_ind; [done|].
  rewrite run_snoc, window_snoc. destruct (run evs (start cpu)) as [st s]. cbn [snd] in IH. destruct IH as (H1 & H2 & H3).
  destruct e as [| | | | |now d p| | | | | | |now|]; rewrite ?peak_snoc; cbn [apply snd];
    unfold record_outer_rx, record_outer_tx, record_outer_tx_dropped, record_device_tx_dropped, record_decap,
      record_outer_backlog, record_device_backlog, record_reactor_wake_call, record_reactor_wait, record_reactor_wake,
      record_reactor_poll, record_reactor_loop, report_window, set_current_and_peak, update_peak, add, store;
    try (by simpl; rewrite ?H1, ?H2, ?H3).
  - destruct o; done.
  - unfold record_plaintext. destruct d, (tcp_packet w p); rewrite ?bulk_keeps, ?tcp_keeps by done; done.
  - destruct w0; done.
  - cbv zeta. case_match; done.
Qed.
End windows.

(** The report windows account for every recorded event exactly once: whatever
    was recorded and reported before, a report's delta of each counter is the
    total charged to it since the previous report, and the backlog peaks are the
    largest backlogs recorded since then (as long as the totals fit 64 bits). *)
Theorem report_windows_exact w cpu0 evs cpu now : Forall event_ok evs ->
  (forall c, is_counter c = true -> zsum (worth w c) evs <= U64_MAX) ->
  let '(st, s) := run w evs (start cpu0) in
  let '(_, r, _) := report_window cpu now st s in
  (forall c, is_counter c = true -> r_delta r c = zsum (worth w c) (window evs)) /\
  (r_outer_backlog r).2 = peak outer_value (window evs) /\
  (r_device_rx_backlog r).2 = peak device_rx_value (window evs) /\
  (r_device_tx_backlog r).2 = peak device_tx_value (window evs).
Proof.
  intros Hok Hmax. pose proof (peaks_hold w evs cpu0) as Hp. pose proof (fun c => run_holds w c evs cpu0) as Hh.
  pose proof (fun c => baseline w c evs cpu0) as Hb. destruct (run w evs (start cpu0)) as [st s]. cbn [fst snd] in *.
  split; [|exact Hp]. intros c Hc. cbn [r_delta]. unfold delta, snapshot. rewrite Hc, (Hh c Hc), (Hb c Hc).
  destruct (window_split evs) as [pre Hpre].
  assert (Hs : zsum (worth w c) evs = zsum (worth w c) pre + zsum (worth w c) (window evs)) by (by rewrite <-zsum_app, <-Hpre).
  rewrite Hpre in Hok. apply Forall_app in Hok as [Ho1 Ho2].
  assert (0 <= zsum (worth w c) pre) by (by apply worths_nonneg).
  assert (0 <= zsum (worth w c) (window evs)) by (by apply worths_nonneg).
  specialize (Hmax c Hc). unfold wrap64, saturating_sub, U64_MAX in *. rewrite !Z.mod_small by lia. lia.
Qed.

(** A concrete packet view: IPv4 and TCP headers without options. *)
Definition at_byte (b : bytes) (i : nat) : Z := nth i b 0.
Definition header_wire : wire := mk_wire
  (fun b => if 20 <=? zlen b
            then Some (mk_ip ((at_byte b 6 mod 32) * 256 + at_byte b 7) (at_byte b 9) (drop 20 b)) else None)
  (fun b => if 40 <=? zlen b then Some (mk_ip 0 (at_byte b 6) (drop 40 b)) else None)
  (fun b => if 20 <=? zlen b
            then Some (mk_tcp (be_val (take 2 b)) (be_val (take 2 (drop 2 b))) (be_val (take 4 (drop 4 b)))
                   (be_val (take 4 (drop 8 b))) (drop 20 b) (Z.testbit (at_byte b 13) 0) (Z.testbit (at_byte b 13) 1)
                   (Z.testbit (at_byte b 13) 2) (Z.testbit (at_byte b 13) 3) (Z.testbit (at_byte b 13) 4)
                   (Z.testbit (at_byte b 13) 5) (Z.testbit (at_byte b 13) 6) (Z.testbit (at_byte b 13) 7))
            else None).

Definition test_packet : bytes :=
  [69; 0; 0; 43; 0; 0; 0; 0; 0; 6; 0; 0; 0; 0; 0; 0; 0; 0; 0; 0] ++ to_be 2 12345 ++ to_be 2 443 ++ to_be 4 123 ++
  to_be 4 456 ++ [80; 24; 0; 0; 0; 0; 0; 0] ++ str_bytes "abc".

(** The packet of the repository's own test is recorded as it expects. *)
Example records_tcp_header_metadata :
  let s := record_plaintext header_wire 0 Rx test_packet new in
  s plain_rx_packets = 1 /\ s (tcp_rx packets) = 1 /\ s (tcp_rx payload_bytes) = 3 /\ s (tcp_rx ack_packets) = 1 /\
  s (tcp_rx ack_only_packets) = 0 /\
  last_packet tcp_rx 0 s = str_bytes "12345>443,seq:123,ack:456,flags:PA,payload:3,age_ms:0".
Proof. split_and!; vm_compute; reflexivity. Qed.

(** Two windows: the second one sees only its own packet. *)
Lemma report_windows_exact_witness :
  let '(st, s) := run header_wire [Plaintext 5 Rx test_packet; OuterBacklog 9; Report None 10; OuterBacklog 3;
                                    Plaintext 12 Rx test_packet] (start None) in
  let '(_, r, _) := report_window None 20 st s in
  r_delta r (tcp_rx payload_bytes) = 3 /\ r_delta r plain_rx_packets = 1 /\ (r_outer_backlog r).2 = 3.
Proof.
  pose proof (report_windows_exact header_wire None [Plaintext 5 Rx test_packet; OuterBacklog 9; Report None 10;
    OuterBacklog 3; Plaintext 12 Rx test_packet] None 20) as H.
  destruct (run _ _ _) as [st s] eqn:Hr. destruct (report_window None 20 st s) as [[st' r] s'] eqn:Hw.
  destruct H as (Hd & Hp & _).
  - repeat constructor; exact I.
  - clear. intros c Hc. unfold U64_MAX. apply Z.leb_le.
    destruct c as [| | | | | | | | | | | | | | |f|f| | | | | | | | | | | | | | | |];
      try destruct f; first [discriminate Hc | vm_compute; reflexivity].
  - split_and!; [rewrite Hd by done; reflexivity|rewrite Hd by done; reflexivity|exact Hp].
Defined.
End DataplaneFacts.
