(* ===== verification/Tunnel.v ===== *)
(** * The WireGuard tunnel device ([src/src/tunnel.rs])

    Everything around boringtun's state machine: the reserved bytes of outgoing
    and incoming messages, the bounded queue in front of the outer UDP socket,
    timers, decapsulation with its error reports, and the [Stream]/[Sink] that
    the network stack drives.  boringtun's [Tunn] is a class; the socket is a
    plan of outcomes, consumed call by call. *)
From S2P Require Import Prelude RustStr NetAddr Dataplane.

(** ** boringtun *)
Inductive WireGuardError :=
| DestinationBufferTooSmall | IncorrectPacketLength | UnexpectedPacket | WrongPacketType | WrongIndex | WrongKey
| InvalidTai64nTimestamp | WrongTai64nTimestamp | InvalidMac | InvalidAeadTag | InvalidCounter | DuplicateCounter
| InvalidPacket | NoCurrentSession | LockFailed | ConnectionExpired | UnderLoad.

Inductive TunnResult :=
| TunnDone | TunnErr (e : WireGuardError) | TunnWriteToNetwork (packet : bytes)
| TunnWriteToTunnelV4 (packet : bytes) | TunnWriteToTunnelV6 (packet : bytes).

Class Tunn := {
  tunn : Type;
  decapsulate : tunn -> bytes -> TunnResult * tunn;
  encapsulate : tunn -> bytes -> TunnResult * tunn;
  update_timers : tunn -> TunnResult * tunn;
  format_handshake_initiation : tunn -> TunnResult * tunn;
  (** Time since the last completed handshake, if there was one. *)
  time_since_last_handshake : tunn -> option Z;
  (** Packets waiting inside for a session. *)
  queued : tunn -> nat
}.

(** The contract of [decapsulate]: after [WriteToNetwork] it is called again with
    an empty datagram until [Done], each time flushing a queued packet. *)
Class TunnLaws (N : Tunn) : Prop := {
  decapsulate_flushes : forall t p t', decapsulate t [] = (TunnWriteToNetwork p, t') -> (queued t' < queued t)%nat
}.

Module Tunnel.
Import Dataplane.

Definition DECAP_ERROR_REPORT_INTERVAL : Z := 10000000000. (* nanoseconds *)
Definition MAX_PENDING_NETWORK_PACKETS : Z := 256.
Definition MAX_RECEIVE_BURST : nat := 64.
Definition PACKET_BUF : nat := 2048.

(** ** Error reports *)
Record DecapErrorReport := mk_decap_report { rep_total : Z; rep_since : Z }.
Record DecapErrorTracker := mk_tracker { total : Z; since_last_report : Z; last_report_at : option Z }.
Definition tracker_default : DecapErrorTracker := mk_tracker 0 0 None.

Definition observe (t : DecapErrorTracker) (now : Z) : option DecapErrorReport * DecapErrorTracker :=
  let total' := u64_saturating_add (total t) 1 in
  let since' := u64_saturating_add (since_last_report t) 1 in
  let should_report := (total' =? 1) ||
    match last_report_at t with
    | Some last => DECAP_ERROR_REPORT_INTERVAL <=? saturating_sub now last
    | None => false
    end in
  if should_report then (Some (mk_decap_report total' since'), mk_tracker total' 0 (Some now))
  else (None, mk_tracker total' since' (last_report_at t)).

Definition decap_error_class (e : WireGuardError) : bytes :=
  match e with
  | WrongIndex | WrongKey | NoCurrentSession | ConnectionExpired => str_bytes "session"
  | InvalidCounter | DuplicateCounter => str_bytes "replay"
  | InvalidMac | InvalidAeadTag => str_bytes "authentication"
  | LockFailed | UnderLoad => str_bytes "resource"
  | DestinationBufferTooSmall | IncorrectPacketLength | UnexpectedPacket | WrongPacketType
  | InvalidTai64nTimestamp | WrongTai64nTimestamp | InvalidPacket => str_bytes "malformed"
  end.

Definition decap_error_is_warning (e : WireGuardError) : bool :=
  match e with DuplicateCounter => false | _ => true end.

(** ** Reserved bytes *)
Definition wg_message (packet : bytes) : bool :=
  match packet with
  | b :: _ => (3 <? zlen packet) && (0 <? b) && (b <? 5)
  | [] => false
  end.

(** [packet[1..4].copy_from_slice(r)] *)
Definition copy_reserved (r : Z * Z * Z) (packet : bytes) : bytes :=
  let '(a, b, c) := r in <[1%nat := a]> (<[2%nat := b]> (<[3%nat := c]> packet)).

Definition patch_reserved (reserved : Z * Z * Z) (packet : bytes) : bytes :=
  if wg_message packet then copy_reserved reserved packet else packet.
Definition strip_reserved (packet : bytes) : bytes :=
  if wg_message packet then copy_reserved (0, 0, 0) packet else packet.

(** ** The device *)
Inductive send_result := Sent | Blocked | SendError (e : ErrorKind).
Inductive recv_result := Datagram_ (packet : bytes) | RecvError (e : ErrorKind).

(** The outer socket: what the next calls of [try_send], [poll_send_ready] and
    [poll_recv] will answer, and the packets it took. *)
Record Sock := mk_sock {
  sends : list send_result; readys : list (poll (option ErrorKind)); recvs : list recv_result; wire_out : list bytes
}.

Definition try_send (packet : bytes) (s : Sock) : send_result * Sock :=
  let 'mk_sock sd rd rc out := s in
  match sd with
  | [] => (Blocked, s)
  | Sent :: sd => (Sent, mk_sock sd rd rc (out ++ [packet]))
  | r :: sd => (r, mk_sock sd rd rc out)
  end.

Definition poll_send_ready (s : Sock) : poll (option ErrorKind) * Sock :=
  let 'mk_sock sd rd rc out := s in
  match rd with [] => (Pending, s) | r :: rd => (r, mk_sock sd rd rc out) end.

Definition poll_recv (s : Sock) : poll recv_result * Sock :=
  let 'mk_sock sd rd rc out := s in
  match rc with [] => (Pending, s) | r :: rc => (Ready r, mk_sock sd rd rc out) end.

Section device.
Context {N : Tunn} (w : wire).

Record WgTunnel := mk_tunnel {
  tn : tunn; sock : Sock; reserved : Z * Z * Z; observer : ObserverInner; errors : DecapErrorTracker;
  pending_network : list bytes;
  (** log lines about rejected packets: is it a warning, and the report *)
  logged : list (bool * DecapErrorReport)
}.

Definition set_tn (t : tunn) (s : WgTunnel) : WgTunnel :=
  mk_tunnel t (sock s) (reserved s) (observer s) (errors s) (pending_network s) (logged s).
Definition set_sock (k : Sock) (s : WgTunnel) : WgTunnel :=
  mk_tunnel (tn s) k (reserved s) (observer s) (errors s) (pending_network s) (logged s).
Definition observed (f : ObserverInner -> ObserverInner) (s : WgTunnel) : WgTunnel :=
  mk_tunnel (tn s) (sock s) (reserved s) (f (observer s)) (errors s) (pending_network s) (logged s).
Definition set_pending (l : list bytes) (s : WgTunnel) : WgTunnel :=
  mk_tunnel (tn s) (sock s) (reserved s) (observer s) (errors s) l (logged s).

Definition prepare_network_packet (packet : bytes) (s : WgTunnel) : bytes := patch_reserved (reserved s) packet.

Definition enqueue (packet : bytes) (s : WgTunnel) : WgTunnel :=
  if zlen (pending_network s) =? MAX_PENDING_NETWORK_PACKETS then observed record_outer_tx_dropped s
  else
    let s := set_pending (pending_network s ++ [packet]) s in
    observed (record_outer_backlog (zlen (pending_network s))) s.

Definition send_or_queue_network (packet : bytes) (s : WgTunnel) : option ErrorKind * WgTunnel :=
  match pending_network s with
  | [] =>
      let '(r, k) := try_send packet (sock s) in
      let s := set_sock k s in
      match r with
      | Sent => (None, observed (record_outer_tx (zlen packet)) s)
      | Blocked => (None, enqueue packet s)
      | SendError WouldBlock => (None, enqueue packet s)
      | SendError e => (Some e, s)
      end
  | _ => (None, enqueue packet s)
  end.

(** [poll_network_flush], by recursion on the queue. *)
Fixpoint flush_queue (queue : list bytes) (s : WgTunnel) : poll (option ErrorKind) * WgTunnel :=
  match queue with
  | [] => (Ready None, s)
  | packet :: rest =>
      let '(r, k) := poll_send_ready (sock s) in
      let s := set_sock k s in
      match r with
      | Pending => (Pending, s)
      | Ready (Some e) => (Ready (Some e), s)
      | Ready None =>
          let '(r, k) := try_send packet (sock s) in
          let s := set_sock k s in
          match r with
          | Sent =>
              let s := observed (record_outer_tx (zlen packet)) s in
              let s := set_pending rest s in
              flush_queue rest (observed (record_outer_backlog (zlen rest)) s)
          | Blocked => (Pending, s)
          | SendError WouldBlock => (Pending, s)
          | SendError e => (Ready (Some e), s)
          end
      end
  end.
Definition poll_network_flush (s : WgTunnel) : poll (option ErrorKind) * WgTunnel := flush_queue (pending_network s) s.

Definition observe_decap_error (now : Z) (e : WireGuardError) (s : WgTunnel) : WgTunnel :=
  let '(r, t) := observe (errors s) now in
  mk_tunnel (tn s) (sock s) (reserved s) (observer s) t (pending_network s)
    (match r with Some rep => logged s ++ [(decap_error_is_warning e, rep)] | None => logged s end).

(** [try_tick]: [Some] is an [io::Error]. *)
Definition try_tick (s : WgTunnel) : option ErrorKind * WgTunnel :=
  let '(r, t) := update_timers (tn s) in
  let s := set_tn t s in
  match r with
  | TunnWriteToNetwork p => send_or_queue_network (prepare_network_packet p s) s
  | TunnErr ConnectionExpired =>
      let '(r, t) := format_handshake_initiation (tn s) in
      let s := set_tn t s in
      match r with
      | TunnWriteToNetwork p => send_or_queue_network (prepare_network_packet p s) s
      | TunnDone => (None, s)
      | _ => (Some Other, s)
      end
  | TunnDone => (None, s)
  | _ => (Some Other, s)
  end.

(** The loop of [poll_recv_plaintext] on the result of a call of [decapsulate];
    [Panic]: out of fuel. *)
Fixpoint decap_loop (fuel : nat) (now_ms now : Z) (r : TunnResult) (s : WgTunnel)
    : res ErrorKind (option bytes) * WgTunnel :=
  match fuel with
  | O => (Panic, s)
  | S f =>
      match r with
      | TunnDone => (Ok None, observed (record_decap Done) s)
      | TunnErr e => (Ok None, observe_decap_error now e (observed (record_decap Error) s))
      | TunnWriteToNetwork p =>
          let s := observed (record_decap WriteToNetwork) s in
          match send_or_queue_network (prepare_network_packet p s) s with
          | (Some e, s) => (Err e, s)
          | (None, s) =>
              let '(r, t) := decapsulate (tn s) [] in
              decap_loop f now_ms now r (set_tn t s)
          end
      | TunnWriteToTunnelV4 p =>
          (Ok (Some p), observed (record_plaintext w now_ms Rx p) (observed (record_decap WriteToTunnelV4) s))
      | TunnWriteToTunnelV6 p =>
          (Ok (Some p), observed (record_plaintext w now_ms Rx p) (observed (record_decap WriteToTunnelV6) s))
      end
  end.

(** [poll_recv_plaintext]; the clock ([now_ms] of the observer, [now] of the
    tracker) stands still during a poll. *)
Definition poll_recv_plaintext (now_ms now : Z) (s : WgTunnel) : poll (res ErrorKind (option bytes)) * WgTunnel :=
  let '(r, k) := poll_recv (sock s) in
  let s := set_sock k s in
  match r with
  | Pending => (Pending, s)
  | Ready (RecvError e) => (Ready (Err e), s)
  | Ready (Datagram_ datagram) =>
      let raw := take PACKET_BUF datagram in
      let s := observed (record_outer_rx (zlen raw)) s in
      let '(r, t) := decapsulate (tn s) (strip_reserved raw) in
      let '(r, s) := decap_loop (S (S (queued t))) now_ms now r (set_tn t s) in
      (Ready r, s)
  end.

(** [poll_next]: [ticks] is how many timer ticks are due. *)
Fixpoint run_ticks (ticks : nat) (s : WgTunnel) : option ErrorKind * WgTunnel :=
  match ticks with
  | O => (None, s)
  | S n => match try_tick s with (Some e, s) => (Some e, s) | (None, s) => run_ticks n s end
  end.

Fixpoint receive_burst (n : nat) (now_ms now : Z) (s : WgTunnel) : poll (res ErrorKind bytes) * WgTunnel :=
  match n with
  | O => (Pending, s)
  | S n =>
      match poll_recv_plaintext now_ms now s with
      | (Ready (Ok (Some p)), s) => (Ready (Ok p), s)
      | (Ready (Ok None), s) => receive_burst n now_ms now s
      | (Ready (Err e), s) => (Ready (Err e), s)
      | (Ready Panic, s) => (Ready Panic, s)
      | (Pending, s) => (Pending, s)
      end
  end.

Definition poll_next (ticks : nat) (now_ms now : Z) (s : WgTunnel) : poll (res ErrorKind bytes) * WgTunnel :=
  match run_ticks ticks s with
  | (Some e, s) => (Ready (Err e), s)
  | (None, s) =>
      match poll_network_flush s with
      | (Ready (Some e), s) => (Ready (Err e), s)
      | (_, s) => receive_burst MAX_RECEIVE_BURST now_ms now s
      end
  end.

(** [start_send] *)
Definition start_send (now_ms : Z) (packet : bytes) (s : WgTunnel) : option ErrorKind * WgTunnel :=
  let s := observed (record_plaintext w now_ms Tx packet) s in
  let '(r, t) := encapsulate (tn s) packet in
  let s := set_tn t s in
  match r with
  | TunnWriteToNetwork p => send_or_queue_network (prepare_network_packet p s) s
  | TunnDone => (None, s)
  | _ => (Some Other, s)
  end.
End device.
End Tunnel.

Module TunnelFacts.
Import Dataplane Tunnel.

(** ** Reserved bytes *)
(** A message of four bytes or more carries the reserved bytes [r]. *)
Definition carries (r : Z * Z * Z) (packet : bytes) : Prop :=
  wg_message packet = true -> exists b t, packet = b :: r.1.1 :: r.1.2 :: r.2 :: t.

Lemma wg_shape packet : wg_message packet = true -> exists b x y z t, packet = b :: x :: y :: z :: t /\ 0 < b < 5.
Proof.
  unfold wg_message. destruct packet as [|b [|x [|y [|z t]]]]; try done; intros H; zbool; try zl.
  exists b, x, y, z, t. done.
Qed.

Lemma patch_shape r b x y z t : 0 < b < 5 -> patch_reserved r (b :: x :: y :: z :: t) = b :: r.1.1 :: r.1.2 :: r.2 :: t.
Proof.
  intros Hb. unfold patch_reserved. assert (Hw : wg_message (b :: x :: y :: z :: t) = true).
  { unfold wg_message. pose proof (zlen_nonneg t). rewrite !zlen_cons. do 3 ztrue. done. }
  rewrite Hw. by destruct r as [[? ?] ?].
Qed.

Lemma patch_message r packet : wg_message (patch_reserved r packet) = wg_message packet.
Proof.
  destruct (wg_message packet) eqn:H; [|unfold patch_reserved; by rewrite H].
  apply wg_shape in H as (b & x & y & z & t & -> & Hb). rewrite patch_shape by done.
  unfold wg_message. pose proof (zlen_nonneg t). rewrite !zlen_cons. do 3 ztrue. done.
Qed.

Lemma patch_carries r packet : carries r (patch_reserved r packet).
Proof.
  unfold carries. rewrite patch_message. intros (b & x & y & z & t & -> & Hb)%wg_shape. rewrite patch_shape by done. eauto.
Qed.

(** What the peer patched in is stripped: boringtun sees its own message format. *)
Lemma strip_patch r packet : carries (0, 0, 0) packet -> strip_reserved (patch_reserved r packet) = packet.
Proof.
  intros Hc. change (strip_reserved ?p) with (patch_reserved (0, 0, 0) p). destruct (wg_message packet) eqn:H.
  - destruct (Hc H) as (b & t & ->). apply wg_shape in H as (? & ? & ? & ? & ? & [= <- <- <- <- <-] & Hb).
    by rewrite !patch_shape.
  - unfold patch_reserved at 2. rewrite H. unfold patch_reserved. by rewrite H.
Qed.

(** ** The outer queue *)
(** The packets boringtun asks to put on the wire, logged. *)
Definition net (r : TunnResult) : list bytes := match r with TunnWriteToNetwork p => [p] | _ => [] end.
Definition log_result {T} (l : list bytes) (x : TunnResult * T) : TunnResult * (T * list bytes) := (x.1, (x.2, l ++ net x.1)).

Definition log_tunn (N : Tunn) : Tunn := {|
  tunn := @tunn N * list bytes;
  decapsulate := fun t p => log_result t.2 (decapsulate t.1 p);
  encapsulate := fun t p => log_result t.2 (encapsulate t.1 p);
  update_timers := fun t => log_result t.2 (update_timers t.1);
  format_handshake_initiation := fun t => log_result t.2 (format_handshake_initiation t.1);
  time_since_last_handshake := fun t => time_since_last_handshake t.1;
  queued := fun t => queued t.1
|}.

Lemma log_laws N : TunnLaws N -> TunnLaws (log_tunn N).
Proof.
  intros [H]. constructor. intros [t l] p [t' l']. cbn. unfold log_result. destruct (decapsulate t []) as [r t2] eqn:E.
  cbn. intros [= -> -> _]. eauto.
Qed.

Section queue.
Context {N : Tunn} (w : wire).

(** The queue's account of a list of produced packets: everything sent or queued
    is, in order, among them, patched, and the drop counter counts the others. *)
Definition acct {M : Tunn} (r : Z * Z * Z) (log : list bytes) (s : WgTunnel (N:=M)) : Prop :=
  reserved s = r /\ zlen (pending_network s) <= MAX_PENDING_NETWORK_PACKETS /\
  wire_out (sock s) ++ pending_network s `sublist_of` map (patch_reserved r) log /\
  observer s outer_tx_dropped = wrap64 (zlen log - zlen (wire_out (sock s) ++ pending_network s)).

(** Updates that do not touch the queue. *)
Definition quiet (f : ObserverInner -> ObserverInner) : Prop := forall o, f o outer_tx_dropped = o outer_tx_dropped.
Lemma quiet_outer_tx n : quiet (record_outer_tx n). Proof. done. Qed.
Lemma quiet_outer_rx n : quiet (record_outer_rx n). Proof. done. Qed.
Lemma quiet_backlog n : quiet (record_outer_backlog n). Proof. done. Qed.
Lemma quiet_decap o : quiet (record_decap o). Proof. by destruct o. Qed.
Lemma quiet_plain now d p : quiet (record_plaintext w now d p).
Proof.
  intros o. unfold record_plaintext. destruct d, (tcp_packet w p); rewrite ?DataplaneFacts.bulk_keeps, ?DataplaneFacts.tcp_keeps by done; done.
Qed.

Lemma acct_observed {M : Tunn} r log f (s : WgTunnel (N:=M)) : quiet f -> acct r log s -> acct r log (observed f s).
Proof. intros Hf (H1 & H2 & H3 & H4). unfold acct, observed. cbn. by rewrite Hf. Qed.

Lemma acct_set_tn {M : Tunn} r log t (s : WgTunnel (N:=M)) : acct r log s -> acct r log (set_tn t s).
Proof. done. Qed.

Lemma try_send_out p k r k' : try_send p k = (r, k') ->
  wire_out k' = wire_out k ++ match r with Sent => [p] | _ => [] end.
Proof.
  destruct k as [sd rd rc out]. cbn. destruct sd as [|[] sd]; intros [= <- <-]; by rewrite ?app_nil_r.
Qed.

Lemma poll_send_ready_out k r k' : poll_send_ready k = (r, k') -> wire_out k' = wire_out k.
Proof. destruct k as [sd [|? rd] rc out]; cbn; by intros [= <- <-]. Qed.

Lemma poll_recv_out k r k' : poll_recv k = (r, k') -> wire_out k' = wire_out k.
Proof. destruct k as [sd rd [|? rc] out]; cbn; by intros [= <- <-]. Qed.

Lemma acct_set_sock {M : Tunn} r log k (s : WgTunnel (N:=M)) : wire_out k = wire_out (sock s) ->
  acct r log s -> acct r log (set_sock k s).
Proof. intros Hk (? & ? & ? & ?). unfold acct, set_sock. cbn. by rewrite Hk. Qed.

(** The account once the packet [p] has joined those sent or queued. *)
Lemma acct_grow r log p out pend d : out ++ pend `sublist_of` map (patch_reserved r) log ->
  d = wrap64 (zlen log - zlen (out ++ pend)) -> let l := out ++ pend ++ [patch_reserved r p] in
  l `sublist_of` map (patch_reserved r) (log ++ [p]) /\ d = wrap64 (zlen (log ++ [p]) - zlen l).
Proof.
  intros H1 H2 l. subst l. rewrite map_app, app_assoc. split; [by apply sublist_app|]. rewrite H2. f_equal. zl.
Qed.

Lemma acct_enqueue {M : Tunn} r log p (s : WgTunnel (N:=M)) : acct r log s ->
  acct r (log ++ [p]) (enqueue (patch_reserved r p) s) /\ tn (enqueue (patch_reserved r p) s) = tn s.
Proof.
  intros (H1 & H2 & H3 & H4). unfold enqueue. destruct (Z.eqb_spec (zlen (pending_network s)) MAX_PENDING_NETWORK_PACKETS) as [He|He].
  - split; [|done]. unfold acct, observed. cbn [reserved pending_network sock observer]. split_and!; [done..| |].
    + rewrite map_app. by apply sublist_inserts_r.
    + change (wrap64 (observer s outer_tx_dropped + 1) = wrap64 (zlen (log ++ [p]) - zlen (wire_out (sock s) ++ pending_network s))).
      rewrite H4. unfold wrap64. rewrite Zplus_mod_idemp_l. f_equal. zl.
  - split; [|done]. apply acct_observed; [apply quiet_backlog|]. unfold acct, set_pending. cbn [reserved pending_network sock observer].
    destruct (acct_grow r log p _ _ _ H3 H4) as [Hs Hd]. split_and!; [done|zl|done|done].
Qed.

Lemma acct_send {M : Tunn} r log p (s s' : WgTunnel (N:=M)) : acct r log s ->
  send_or_queue_network (patch_reserved r p) s = (None, s') -> acct r (log ++ [p]) s' /\ tn s' = tn s.
Proof.
  intros Ha. unfold send_or_queue_network. destruct (pending_network s) as [|x l] eqn:Hp.
  - destruct (try_send _ _) as [res k] eqn:Hk. apply try_send_out in Hk. destruct res as [| |e].
    + intros [= <-]. split; [|done]. apply acct_observed; [apply quiet_outer_tx|].
      destruct Ha as (H1 & H2 & H3 & H4). unfold acct, set_sock. cbn [reserved pending_network sock observer].
      destruct (acct_grow r log p _ _ _ H3 H4) as [Hs Hd]. rewrite Hp, Hk in *. cbn [app] in *. rewrite app_nil_r in *.
      split_and!; done.
    + rewrite app_nil_r in Hk. intros [= <-]. by apply (acct_enqueue r log p (set_sock k s)), acct_set_sock.
    + rewrite app_nil_r in Hk. destruct e; try discriminate. intros [= <-].
      by apply (acct_enqueue r log p (set_sock k s)), acct_set_sock.
  - intros [= <-]. by apply acct_enqueue.
Qed.

(** Flushing moves packets from the queue to the wire, in order. *)
Lemma acct_flush {M : Tunn} r log queue (s : WgTunnel (N:=M)) : pending_network s = queue -> acct r log s ->
  acct r log (flush_queue queue s).2 /\ tn (flush_queue queue s).2 = tn s.
Proof.
  revert s. induction queue as [|p rest IH]; intros s Hp Ha; [done|]. cbn [flush_queue].
  destruct (poll_send_ready _) as [rd k] eqn:Hrd. apply poll_send_ready_out in Hrd.
  assert (Hs : acct r log (set_sock k s)) by (by apply acct_set_sock).
  destruct rd as [[e|]|]; [done| |done]. destruct (try_send _ _) as [res k'] eqn:Hk. apply try_send_out in Hk. cbn [sock set_sock] in Hk.
  destruct res as [| |e].
  - match goal with |- context [flush_queue rest ?x] => destruct (IH x) as [H1 H2]; [done| |split; [exact H1|exact H2]] end.
    apply acct_observed; [apply quiet_backlog|].
    assert (Hg : acct r log (set_pending rest (set_sock k' (set_sock k s)))).
    { destruct Hs as (H1 & H2 & H3 & H4). unfold acct, set_pending, set_sock in *. cbn [reserved pending_network sock observer] in *.
      rewrite Hk, <-app_assoc. rewrite Hp in *. split_and!; [done|zl|done|done]. }
    by apply (acct_observed r log (record_outer_tx (zlen p)) (set_pending rest (set_sock k' (set_sock k s)))).
  - rewrite app_nil_r in Hk. split; [by apply acct_set_sock|done].
  - rewrite app_nil_r in Hk. destruct e; (split; [by apply acct_set_sock|done]).
Qed.

(** The account of the packets boringtun has produced so far. *)
Definition acc (r : Z * Z * Z) (s : WgTunnel (N:=log_tunn N)) : Prop := acct r (tn s).2 s.

(** A state right after a call of boringtun that answered [res]. *)
Definition owing (r : Z * Z * Z) (res : TunnResult) (s : WgTunnel (N:=log_tunn N)) : Prop :=
  exists l, (tn s).2 = l ++ net res /\ acct r l s.

Lemma owing_call r (x : TunnResult * @tunn N) s : acc r s ->
  owing r (log_result (tn s).2 x).1 (set_tn (N:=log_tunn N) (log_result (tn s).2 x).2 s).
Proof. intros H. exists (tn s).2. split; [done|exact H]. Qed.

Lemma owing_none r res s : net res = [] -> owing r res s -> acc r s.
Proof. intros Hn (l & Hl & H). unfold acc. by rewrite Hl, Hn, app_nil_r. Qed.

Lemma owing_send r p s s' : owing r (TunnWriteToNetwork p) s ->
  send_or_queue_network (prepare_network_packet p s) s = (None, s') -> acc r s'.
Proof.
  intros (l & Hl & H) Hs. pose proof H as (Hr & _). unfold prepare_network_packet in Hs. rewrite Hr in Hs.
  destruct (acct_send r l p s s' H Hs) as [Ha Ht]. unfold acc. by rewrite Ht, Hl.
Qed.

Lemma owing_observed r res f s : quiet f -> owing r res s -> owing r res (observed f s).
Proof. intros Hf (l & Hl & H). exists l. split; [done|by apply acct_observed]. Qed.

Lemma acc_observed r f s : quiet f -> acc r s -> acc r (observed f s).
Proof. intros Hf H. by apply acct_observed. Qed.

Lemma acc_error r now e s : acc r s -> acc r (observe_decap_error now e s).
Proof. unfold observe_decap_error. by destruct (observe _ _). Qed.

Ltac call_tunn Ha s x :=
  let Ho := fresh "Ho" in pose proof (owing_call _ x s Ha) as Ho;
  destruct x as [[| | | |] ?]; cbn [log_result fst snd] in Ho |- *.

Lemma acc_tick r s s' : acc r s -> try_tick s = (None, s') -> acc r s'.
Proof.
  intros Ha. unfold try_tick. cbn [update_timers log_tunn]. call_tunn Ha s (update_timers (tn s).1); try discriminate.
  - intros [= <-]. by eapply owing_none in Ho.
  - destruct e; try discriminate. apply owing_none in Ho as Ha2; [|done].
    cbn [format_handshake_initiation log_tunn].
    match goal with |- context [log_result (tn ?s2).2 (format_handshake_initiation _)] =>
      call_tunn Ha2 s2 (format_handshake_initiation (tn s2).1) end; try discriminate.
    + intros [= <-]. by eapply owing_none in Ho0.
    + by apply owing_send.
  - by apply owing_send.
Qed.

Lemma acc_ticks r n s s' : acc r s -> run_ticks n s = (None, s') -> acc r s'.
Proof.
  revert s. induction n as [|n IH]; intros s Ha; cbn [run_ticks]; [by intros [= <-]|].
  destruct (try_tick s) as [[e|] s1] eqn:Ht; [done|]. intros H. eapply IH; [|exact H]. by eapply acc_tick.
Qed.

Lemma acc_decap r f now_ms now res s x s' : owing r res s -> decap_loop w f now_ms now res s = (Ok x, s') -> acc r s'.
Proof.
  revert res s. induction f as [|f IH]; intros res s Ho; cbn [decap_loop]; [done|]. destruct res as [|e|p|p|p].
  - intros [= _ <-]. apply acc_observed; [apply quiet_decap|]. by eapply owing_none in Ho.
  - intros [= _ <-]. apply acc_error, acc_observed; [apply quiet_decap|]. by eapply owing_none in Ho.
  - destruct (send_or_queue_network _ _) as [[e|] s1] eqn:Hs; [done|].
    assert (Ha : acc r s1) by (eapply owing_send; [|exact Hs]; apply owing_observed; [apply quiet_decap|done]).
    cbn [decapsulate log_tunn]. pose proof (owing_call r (decapsulate (tn s1).1 []) s1 Ha) as Ho1.
    destruct (log_result (tn s1).2 (decapsulate (tn s1).1 [])) as [r2 t2]. cbn [fst snd] in Ho1. by apply IH.
  - intros [= _ <-]. apply acc_observed; [apply quiet_plain|]. apply acc_observed; [apply quiet_decap|]. by eapply owing_none in Ho.
  - intros [= _ <-]. apply acc_observed; [apply quiet_plain|]. apply acc_observed; [apply quiet_decap|]. by eapply owing_none in Ho.
Qed.

(** A poll that does not end in an error. *)
Definition no_error {A} (x : poll (res ErrorKind A)) : Prop := match x with Ready (Err _) | Ready Panic => False | _ => True end.

Lemma acc_recv r now_ms now s x s' : acc r s -> poll_recv_plaintext w now_ms now s = (x, s') -> no_error x -> acc r s'.
Proof.
  intros Ha. unfold poll_recv_plaintext. destruct (poll_recv _) as [y k] eqn:Hk. apply poll_recv_out in Hk.
  assert (Hs : acc r (set_sock k s)) by (by apply acct_set_sock). destruct y as [[raw|e]|]; [|by intros [= <- <-]..].
  cbn [decapsulate log_tunn].
  match goal with |- context [log_result (tn ?s2).2 ?y] => pose proof (owing_call r y s2) as Ho;
    destruct (log_result (tn s2).2 y) as [r2 t2] end.
  cbn [fst snd] in Ho. destruct (decap_loop _ _ _ _ _ _) as [z s2] eqn:Hd. intros [= <- <-] Hx.
  destruct z as [z|e|]; [|done..]. eapply acc_decap; [|exact Hd]. apply Ho, acc_observed; [apply quiet_outer_rx|done].
Qed.

Lemma acc_burst r n now_ms now s x s' : acc r s -> receive_burst w n now_ms now s = (x, s') -> no_error x -> acc r s'.
Proof.
  revert s. induction n as [|n IH]; intros s Ha; cbn [receive_burst]; [by intros [= <- <-]|].
  destruct (poll_recv_plaintext _ _ _ _) as [y s1] eqn:Hr. pose proof (acc_recv r _ _ _ _ _ Ha Hr) as H1.
  destruct y as [[[p|]|e|]|]; [| |by intros [= <- <-]..]; cbn in H1; specialize (H1 I).
  - by intros [= <- <-] _.
  - intros H Hx. by apply (IH s1).
Qed.

Lemma acc_poll_next r ticks now_ms now s x s' : acc r s -> poll_next w ticks now_ms now s = (x, s') -> no_error x -> acc r s'.
Proof.
  intros Ha. unfold poll_next. destruct (run_ticks ticks s) as [[e|] s1] eqn:Ht; [by intros [= <- <-]|].
  pose proof (acc_ticks r _ _ _ Ha Ht) as H1. unfold poll_network_flush.
  destruct (acct_flush r (tn s1).2 (pending_network s1) s1 eq_refl H1) as [H2 H3].
  destruct (flush_queue _ s1) as [y s2]. cbn [snd] in H2, H3. assert (H4 : acc r s2) by (unfold acc; by rewrite H3).
  destruct y as [[e|]|]; [by intros [= <- <-]|..]; by apply acc_burst.
Qed.

Lemma acc_start_send r now_ms p s s' : acc r s -> start_send w now_ms p s = (None, s') -> acc r s'.
Proof.
  intros Ha. unfold start_send. cbn [encapsulate log_tunn].
  assert (H1 : acc r (observed (record_plaintext w now_ms Tx p) s)) by (apply acc_observed; [apply quiet_plain|done]).
  set (s1 := observed _ _) in *. call_tunn H1 s1 (encapsulate (tn s1).1 p); try discriminate.
  - intros [= <-]. by eapply owing_none in Ho.
  - by apply owing_send.
Qed.
End queue.

(** ** Histories of the device *)
(** A call by the network stack, or new plans for the socket. *)
Inductive op :=
| PollNext (ticks : nat) (now_ms now : Z)
| PollFlush
| StartSend (now_ms : Z) (packet : bytes)
| Plan (sd : list send_result) (rd : list (poll (option ErrorKind))) (rc : list recv_result).

(** The reactor stops at the first error. *)
Definition step {N : Tunn} (w : wire) (o : op) (s : WgTunnel) : option WgTunnel :=
  match o with
  | PollNext ticks now_ms now =>
      match poll_next w ticks now_ms now s with
      | (Ready (Err _), _) | (Ready Panic, _) => None
      | (_, s) => Some s
      end
  | PollFlush => match poll_network_flush s with (Ready (Some _), _) => None | (_, s) => Some s end
  | StartSend now_ms packet => match start_send w now_ms packet s with (Some _, _) => None | (None, s) => Some s end
  | Plan sd rd rc => Some (set_sock (mk_sock sd rd rc (wire_out (sock s))) s)
  end.
Fixpoint history {N : Tunn} (w : wire) (ops : list op) (s : WgTunnel) : option WgTunnel :=
  match ops with
  | [] => Some s
  | o :: ops => s ← step w o s; history w ops s
  end.

Definition fresh_tunnel (N : Tunn) (t : @tunn N) (r : Z * Z * Z) : WgTunnel (N:=log_tunn N) :=
  mk_tunnel (N:=log_tunn N) (t, []) (mk_sock [] [] [] []) r new tracker_default [] [].

Lemma acc_step {N : Tunn} w r o (s s' : WgTunnel (N:=log_tunn N)) : acc r s -> step w o s = Some s' -> acc r s'.
Proof.
  intros Ha. destruct o as [ticks now_ms now| |now_ms p|sd rd rc]; cbn [step].
  - destruct (poll_next w ticks now_ms now s) as [x s1] eqn:Hp. pose proof (acc_poll_next w r _ _ _ _ _ _ Ha Hp) as H.
    destruct x as [[a|e|]|]; try discriminate; intros [= <-]; exact (H I).
  - unfold poll_network_flush. destruct (acct_flush r (tn s).2 (pending_network s) s eq_refl Ha) as [H2 H3].
    destruct (flush_queue _ s) as [y s2]. cbn [snd] in H2, H3.
    destruct y as [[e|]|]; try discriminate; intros [= <-]; unfold acc; by rewrite H3.
  - destruct (start_send w now_ms p s) as [[e|] s1] eqn:Hs; [done|]. intros [= <-]. by eapply acc_start_send.
  - intros [= <-]. by apply acct_set_sock.
Qed.

Lemma acc_history {N : Tunn} w r ops (s s' : WgTunnel (N:=log_tunn N)) : acc r s -> history w ops s = Some s' -> acc r s'.
Proof.
  revert s. induction ops as [|o ops IH]; intros s Ha; cbn [history]; [by intros [= <-]|].
  destruct (step w o s) as [s1|] eqn:Hs; [|done]. cbn. apply IH. by eapply acc_step.
Qed.

(** C5. The outer queue keeps faith with boringtun: after any error-free history of
    polls, sends and socket behaviour, at most 256 packets wait; what went onto
    the wire followed by what waits is, in order, a selection of the packets
    boringtun produced, patched with the reserved bytes; the packets missing from
    it are exactly those the drop counter counts; and every WireGuard message on
    the wire carries the reserved bytes. *)
Theorem outer_queue_faithful {N : Tunn} w t r ops s : history w ops (fresh_tunnel N t r) = Some s ->
  zlen (pending_network s) <= 256 /\
  wire_out (sock s) ++ pending_network s `sublist_of` map (patch_reserved r) (tn s).2 /\
  observer s outer_tx_dropped = wrap64 (zlen (tn s).2 - zlen (wire_out (sock s) ++ pending_network s)) /\
  Forall (carries r) (wire_out (sock s)).
Proof.
  intros Hh. assert (Ha : acc r s).
  { eapply acc_history; [|exact Hh]. repeat split; try done. }
  destruct Ha as (_ & H1 & H2 & H3). split_and!; [done..|].
  apply Forall_forall. intros p Hp. assert (Hin : p ∈ map (patch_reserved r) (tn s).2).
  { assert (Hs : p ∈ wire_out (sock s) ++ pending_network s) by (apply elem_of_app; by left).
    revert Hs. by apply sublist_subseteq. }
  apply list_elem_of_fmap in Hin as (q & -> & _). apply patch_carries.
Qed.

(** A toy state machine: it produces one handshake, then encrypts by prefixing a
    data header; a datagram of type 4 decrypts to its payload. *)
Definition toy : Tunn := {|
  tunn := nat;
  decapsulate := fun t p => match p, t with
    | [], S t => (TunnWriteToNetwork [4; 0; 0; 0], t)
    | 4 :: _ :: _ :: _ :: q, _ => (TunnWriteToTunnelV4 q, t)
    | 2 :: _, _ => (TunnWriteToNetwork [4; 0; 0; 0; 9], t)
    | _, _ => (TunnDone, t) end;
  encapsulate := fun t p => (TunnWriteToNetwork (4 :: 0 :: 0 :: 0 :: p), t);
  update_timers := fun t => (TunnWriteToNetwork [1; 0; 0; 0; 7], t);
  format_handshake_initiation := fun t => (TunnDone, t);
  time_since_last_handshake := fun _ => None;
  queued := fun t => t
|}.

Definition sample_ops : list op :=
  [StartSend 0 [69]; Plan [Sent; Sent; Blocked] [Ready None; Ready None; Ready None] [Datagram_ [2; 9; 9; 9]];
   PollNext 1 5 5; PollFlush].

Lemma outer_queue_faithful_witness :
  match history (N:=log_tunn toy) DataplaneFacts.header_wire sample_ops (fresh_tunnel toy 1%nat (1, 2, 3)) with
  | Some s =>
      wire_out (sock s) = [[4; 1; 2; 3; 69]; [1; 1; 2; 3; 7]] /\ pending_network s = [[4; 1; 2; 3; 9]; [4; 1; 2; 3]] /\
      observer s outer_tx_dropped = 0 /\ Forall (carries (1, 2, 3)) (wire_out (sock s))
  | None => False
  end.
Proof.
  assert (Hv : (fun s : WgTunnel (N:=log_tunn toy) => (wire_out (sock s), pending_network s, (tn s).2)) <$>
      history (N:=log_tunn toy) DataplaneFacts.header_wire sample_ops (fresh_tunnel toy 1%nat (1, 2, 3)) =
    Some ([[4; 1; 2; 3; 69]; [1; 1; 2; 3; 7]], [[4; 1; 2; 3; 9]; [4; 1; 2; 3]],
          [[4; 0; 0; 0; 69]; [1; 0; 0; 0; 7]; [4; 0; 0; 0; 9]; [4; 0; 0; 0]])) by (vm_compute; reflexivity).
  destruct (history (N:=log_tunn toy) DataplaneFacts.header_wire sample_ops (fresh_tunnel toy 1%nat (1, 2, 3))) as [s|] eqn:Hh; [|done].
  destruct (outer_queue_faithful (N:=toy) DataplaneFacts.header_wire 1%nat (1, 2, 3) sample_ops s Hh) as (_ & _ & Hd & Hc).
  cbn [fmap option_fmap option_map] in Hv. injection Hv as H1 H2 H3. split_and!; [done|done| |done].
  match type of Hd with _ = wrap64 (?a - _) => assert (Hl : a = 4) by exact (f_equal zlen H3); rewrite Hd, Hl, H1, H2 end.
  reflexivity.
Defined.

(** ** Error reports *)
(** Errors at the given times: the reports made, each with its time. *)
Fixpoint observe_all (times : list Z) (t : DecapErrorTracker) : list (Z * DecapErrorReport) * DecapErrorTracker :=
  match times with
  | [] => ([], t)
  | now :: times =>
      let '(r, t) := observe t now in
      let '(reps, t) := observe_all times t in
      (match r with Some rep => (now, rep) :: reps | None => reps end, t)
  end.

(** Each time is at least the report interval after the one before. *)
Fixpoint spaced (last : Z) (times : list Z) : Prop :=
  match times with [] => True | x :: rest => DECAP_ERROR_REPORT_INTERVAL <= x - last /\ spaced x rest end.

Lemma observe_all_from times t last : last_report_at t = Some last -> 1 <= total t -> 0 <= since_last_report t <= total t ->
  total t + zlen times <= U64_MAX ->
  let '(reps, t') := observe_all times t in
  total t' = total t + zlen times /\
  zsum (fun r => rep_since r.2) reps + since_last_report t' = since_last_report t + zlen times /\
  spaced last (map fst reps).
Proof.
  revert t last. induction times as [|now times IH]; intros t last Hl Ht Hs Hm.
  - cbn. rewrite zlen_nil. split_and!; [lia|lia|done].
  - rewrite zlen_cons in *. pose proof (zlen_nonneg times) as H0. cbn [observe_all]. unfold observe. rewrite Hl.
    unfold u64_saturating_add. rewrite !Z.min_r by lia. rewrite (proj2 (Z.eqb_neq _ _)) by lia. cbn [orb].
    destruct (Z.leb_spec DECAP_ERROR_REPORT_INTERVAL (saturating_sub now last)) as [Hi|Hi].
    + specialize (IH (mk_tracker (total t + 1) 0 (Some now)) now eq_refl). cbn [total since_last_report last_report_at] in IH.
      destruct (observe_all times _) as [reps t']. destruct IH as (H1 & H2 & H3); [lia..|].
      cbn [zsum fold_right map fst snd spaced rep_since] in *. unfold zsum, saturating_sub, DECAP_ERROR_REPORT_INTERVAL in *.
      split_and!; [lia|lia|lia|done].
    + specialize (IH (mk_tracker (total t + 1) (since_last_report t + 1) (Some last)) last eq_refl).
      cbn [total since_last_report last_report_at] in IH. destruct (observe_all times _) as [reps t'].
      destruct IH as (H1 & H2 & H3); [lia..|]. split_and!; [lia|lia|done].
Qed.

(** Rejected packets are reported without loss or flood: the first error is
    reported at once, later reports are at least ten seconds apart, and the
    [since_last_report] counts of the reports, with what is still unreported,
    add up to the number of errors. *)
Theorem decap_reports_account now times : zlen times < U64_MAX ->
  let '(reps, t) := observe_all (now :: times) tracker_default in
  total t = 1 + zlen times /\
  zsum (fun r => rep_since r.2) reps + since_last_report t = 1 + zlen times /\
  exists rest, reps = (now, mk_decap_report 1 1) :: rest /\ spaced now (map fst rest).
Proof.
  intros Hm. cbn [observe_all]. change (observe tracker_default now) with (Some (mk_decap_report 1 1), mk_tracker 1 0 (Some now)).
  cbv beta iota. pose proof (observe_all_from times (mk_tracker 1 0 (Some now)) now eq_refl) as H.
  cbn [total since_last_report] in H. destruct (observe_all times _) as [reps t]. destruct H as (H1 & H2 & H3); [lia..|].
  split_and!; [done| |by exists reps]. cbn [zsum fold_right snd rep_since]. unfold zsum in H2. lia.
Qed.

(** The case of the repository's own test. *)
Lemma decap_reports_account_witness :
  observe_all [0; 9000000000; 10000000000] tracker_default =
    ([(0, mk_decap_report 1 1); (10000000000, mk_decap_report 3 2)], mk_tracker 3 0 (Some 10000000000)) /\
  spaced 0 [10000000000].
Proof.
  split; [reflexivity|].
  destruct (decap_reports_account 0 [9000000000; 10000000000]) as (_ & _ & rest & Hr & Hs); [reflexivity|].
  cbn in Hr. injection Hr as <-. exact Hs.
Defined.

(** ** Every poll returns *)
Section total_polls.
Context {N : Tunn} {L : TunnLaws N} (w : wire).

Lemma send_keeps_tn packet s : tn (send_or_queue_network (N:=N) packet s).2 = tn s.
Proof.
  unfold send_or_queue_network, enqueue. repeat case_match; done.
Qed.

Lemma decap_loop_returns f now_ms now r s : (S (queued (tn s)) < f)%nat -> (decap_loop w f now_ms now r s).1 <> Panic.
Proof.
  revert r s. induction f as [|f IH]; intros r s Hf; [lia|]. cbn [decap_loop]. destruct r as [|e|p|p|p]; try done.
  match goal with |- context [send_or_queue_network ?p ?x] => pose proof (send_keeps_tn p x) as Ht;
    destruct (send_or_queue_network p x) as [[e|] s1] end; [done|]. cbn [snd tn observed] in Ht.
  destruct (decapsulate (tn s1) []) as [r t] eqn:Hd. destruct r as [|e|q|q|q]; try (destruct f; [lia|done]).
  apply IH. cbn [tn set_tn]. apply decapsulate_flushes in Hd. rewrite Ht in Hd. lia.
Qed.

(** Only [poll_recv] takes datagrams. *)
Definition inbox (s : WgTunnel (N:=N)) : list recv_result := recvs (sock s).

Lemma try_send_inbox p k : recvs (try_send p k).2 = recvs k.
Proof. destruct k as [[|[] sd] rd rc out]; done. Qed.

Lemma send_inbox p s : inbox (send_or_queue_network p s).2 = inbox s.
Proof.
  unfold send_or_queue_network, enqueue, inbox. pose proof (try_send_inbox p (sock s)) as H.
  destruct (try_send p (sock s)) as [r k]. repeat case_match; done.
Qed.

Lemma flush_inbox queue s : inbox (flush_queue queue s).2 = inbox s.
Proof.
  revert s. induction queue as [|p rest IH]; intros s; cbn [flush_queue]; [done|].
  assert (Hr : recvs (poll_send_ready (sock s)).2 = inbox s) by (unfold inbox; by destruct (sock s) as [? [] ? ?]).
  destruct (poll_send_ready (sock s)) as [rd k]. cbn [snd] in Hr. destruct rd as [[e|]|]; try exact Hr.
  pose proof (try_send_inbox p (sock (set_sock k s))) as Ht. destruct (try_send p _) as [r k']. cbn [snd sock set_sock] in Ht.
  destruct r as [| |e]; [rewrite IH|..|destruct e]; unfold inbox; cbn; by rewrite Ht.
Qed.

Lemma tick_inbox s : inbox (try_tick s).2 = inbox s.
Proof.
  unfold try_tick. destruct (update_timers (tn s)) as [[|e|p|p|p] t]; try done; [|by rewrite send_inbox].
  destruct e; try done. destruct (format_handshake_initiation _) as [[|e|p|p|p] t2]; try done. by rewrite send_inbox.
Qed.

Lemma ticks_inbox n s : inbox (run_ticks n s).2 = inbox s.
Proof.
  revert s. induction n as [|n IH]; intros s; cbn [run_ticks]; [done|]. pose proof (tick_inbox s) as H.
  destruct (try_tick s) as [[e|] s1]; [exact H|]. by rewrite IH.
Qed.

Lemma decap_inbox f now_ms now r s : inbox (decap_loop w f now_ms now r s).2 = inbox s.
Proof.
  revert r s. induction f as [|f IH]; intros r s; cbn [decap_loop]; [done|]. destruct r as [|e|p|p|p]; try done.
  - unfold observe_decap_error. by destruct (observe _ _).
  - match goal with |- context [send_or_queue_network ?p ?x] => pose proof (send_inbox p x) as H;
      destruct (send_or_queue_network p x) as [[e|] s1] end; [exact H|]. destruct (decapsulate (tn s1) []) as [r t]. by rewrite IH.
Qed.

(** One receive: it returns, and takes the datagram at the head, if any. *)
Lemma recv_returns now_ms now s : let '(x, s') := poll_recv_plaintext w now_ms now s in
  x <> Ready Panic /\ inbox s' = tail (inbox s) /\ (x = Pending <-> inbox s = []).
Proof.
  unfold poll_recv_plaintext, inbox. destruct (sock s) as [sd rd [|[raw|e] rc] out] eqn:Hs; cbn [poll_recv recvs tail];
    [split_and!; done| |split_and!; done].
  destruct (decapsulate _ _) as [r t]. match goal with |- context [decap_loop w ?f ?a ?b r ?x] =>
    pose proof (decap_loop_returns f a b r x) as Hr; pose proof (decap_inbox f a b r x) as Hi;
    destruct (decap_loop w f a b r x) as [y s2] end. cbn [fst snd tn set_tn] in Hr. specialize (Hr ltac:(lia)).
  split_and!; [congruence|exact Hi|done].
Qed.

(** A burst returns, takes at most [n] datagrams, and pauses only when the socket
    is empty or [n] have been taken. *)
Lemma burst_returns n now_ms now s : let '(x, s') := receive_burst w n now_ms now s in
  x <> Ready Panic /\ exists k, (k <= n)%nat /\ inbox s' = drop k (inbox s) /\ (x = Pending -> k = n \/ inbox s' = []).
Proof.
  revert s. induction n as [|n IH]; intros s; cbn [receive_burst].
  - split; [done|]. exists 0%nat. split_and!; [lia|done|by left].
  - pose proof (recv_returns now_ms now s) as Hr. destruct (poll_recv_plaintext w now_ms now s) as [x s1].
    destruct Hr as (Hp & Hi & He). assert (Hd : inbox s1 = drop 1 (inbox s)) by (by rewrite Hi; destruct (inbox s)).
    destruct x as [[[p|]|e|]|].
    + split; [done|]. exists 1%nat. split_and!; [lia|done|done].
    + specialize (IH s1). destruct (receive_burst w n now_ms now s1) as [y s2]. destruct IH as (H1 & k & Hk & H2 & H3).
      split; [done|]. exists (S k). rewrite H2, Hd, drop_drop. split_and!; [lia|done|]. intros Hy. rewrite <-drop_drop, <-Hd, <-H2.
      destruct (H3 Hy); auto.
    + split; [done|]. exists 1%nat. split_and!; [lia|done|done].
    + done.
    + split; [done|]. exists 1%nat. split_and!; [lia|done|]. intros _. right. rewrite Hd. by rewrite (proj1 He).
Qed.
End total_polls.

(** C34. Every poll of the tunnel returns: the decapsulation loop ends, at most 64
    datagrams are taken from the socket, in order, and the poll pauses only when
    the socket is empty or the burst limit is reached. *)
Theorem poll_next_returns {N : Tunn} {L : TunnLaws N} w ticks now_ms now (s : WgTunnel (N:=N)) :
  let '(x, s') := poll_next w ticks now_ms now s in
  x <> Ready Panic /\ exists k, (k <= MAX_RECEIVE_BURST)%nat /\ recvs (sock s') = drop k (recvs (sock s)) /\
    (x = Pending -> k = MAX_RECEIVE_BURST \/ recvs (sock s') = []).
Proof.
  unfold poll_next. pose proof (ticks_inbox ticks s) as Ht. destruct (run_ticks ticks s) as [[e|] s1]; cbn [snd] in Ht.
  { split; [done|]. exists 0%nat. split_and!; [lia|exact Ht|done]. }
  unfold poll_network_flush. pose proof (flush_inbox (pending_network s1) s1) as Hf.
  destruct (flush_queue _ s1) as [y s2]. cbn [snd] in Hf. pose proof (burst_returns w MAX_RECEIVE_BURST now_ms now s2) as Hb.
  rewrite Hf, Ht in Hb. destruct y as [[e|]|]; [|exact Hb..].
  split; [done|]. exists 0%nat. split_and!; [lia| |done]. unfold inbox in *. by rewrite Hf, Ht.
Qed.

(** A poll of the toy machine with two datagrams, the second of which is data. *)
Lemma poll_next_returns_witness : TunnLaws toy /\
  let s := set_sock (mk_sock [] [] [Datagram_ [2; 9; 9; 9]; Datagram_ [4; 1; 1; 1; 69]; Datagram_ [4]] [])
             (mk_tunnel (N:=toy) 1%nat (mk_sock [] [] [] []) (1, 2, 3) new tracker_default [] []) in
  (poll_next DataplaneFacts.header_wire 0 0 0 s).1 = Ready (Ok [69]) /\
  exists k, (k <= 64)%nat /\ recvs (sock (poll_next DataplaneFacts.header_wire 0 0 0 s).2) = drop k (recvs (sock s)).
Proof.
  assert (HL : TunnLaws toy).
  { constructor. intros t p t'. cbn. destruct t; [done|]. intros [= <- <-]. lia. }
  split; [exact HL|]. intros s. split; [vm_compute; reflexivity|].
  pose proof (poll_next_returns (L:=HL) DataplaneFacts.header_wire 0 0 0 s) as H.
  destruct (poll_next _ _ _ _ s) as [x s']. destruct H as (_ & k & Hk & Hr & _). exists k. split; [exact Hk|exact Hr].
Defined.
End TunnelFacts.
