(* ===== verification/Netstack.v ===== *)
(** * The network stack adapter ([src/src/netstack.rs])

    Port allocation over the socket table; the buffer between the packet device
    and smoltcp; and the reactor that drives both.  smoltcp's interface and
    socket state machines are third party: a poll of the interface is any program
    of receive and transmit tokens, and the sockets may change state under us.
    The packet device is a type class, with the WireGuard tunnel as an instance. *)
From S2P Require Import Prelude RustStr NetAddr Dataplane Tunnel.

(** ** Ports and sockets *)
Module Ports.
Definition EPHEMERAL_PORT_FIRST : Z := 10001.
Definition EPHEMERAL_PORT_LAST : Z := 60000.

Inductive Transport := Tcp | Udp.
Inductive AddressFamily := Ipv4 | Ipv6.
#[export] Instance Transport_eq_dec : EqDecision Transport. Proof. solve_decision. Defined.
#[export] Instance AddressFamily_eq_dec : EqDecision AddressFamily. Proof. solve_decision. Defined.

Definition family_of (a : IpAddr) : AddressFamily := match a with V4 _ => Ipv4 | V6 _ => Ipv6 end.
Definition matches (f : AddressFamily) (a : IpAddr) : bool := bool_decide (f = family_of a).

(** The TCP states of smoltcp. *)
Inductive tcp_state :=
| Closed | Listen | SynSent | SynReceived | Established | FinWait1 | FinWait2 | CloseWait | Closing | LastAck | TimeWait.
#[export] Instance tcp_state_eq_dec : EqDecision tcp_state. Proof. solve_decision. Defined.

(** What the adapter sees of a socket: a TCP socket's state, local endpoint and
    queues; a UDP socket's bound endpoint (no address when it is closed). *)
Record tcp_socket := mk_tcp_socket { st : tcp_state; local : option (IpAddr * Z); recv_queue : bytes; send_queue : bytes }.
Inductive socket :=
| TcpSocket (s : tcp_socket)
| UdpSocket (addr : option IpAddr) (port : Z).

Abbreviation SocketSet := (gmap nat socket).
Record SocketTable := mk_table { sockets : SocketSet; next_port : Z }.
Definition table_new : SocketTable := mk_table ∅ EPHEMERAL_PORT_FIRST.

(** The endpoint a socket occupies. *)
Definition occupies (t : Transport) (f : AddressFamily) (port : Z) (s : socket) : bool :=
  match t, s with
  | Tcp, TcpSocket s => match local s with Some (addr, p) => (p =? port) && matches f addr | None => false end
  | Udp, UdpSocket (Some addr) p => (p =? port) && matches f addr
  | _, _ => false
  end.

Definition port_in_use (table : SocketTable) (t : Transport) (f : AddressFamily) (port : Z) : bool :=
  existsb (fun e => occupies t f port e.2) (map_to_list (sockets table)).

(** [select_port]: the scan over the ephemeral range, [n] candidates left. *)
Fixpoint scan (in_use : Z -> bool) (n : nat) (next : Z) : option Z * Z :=
  match n with
  | O => (None, next)
  | S n =>
      let candidate := next in
      let next := if EPHEMERAL_PORT_LAST <=? candidate then EPHEMERAL_PORT_FIRST else candidate + 1 in
      if in_use candidate then scan in_use n next else (Some candidate, next)
  end.
Definition port_count : nat := Z.to_nat (EPHEMERAL_PORT_LAST - EPHEMERAL_PORT_FIRST + 1).

Definition select_port (next requested : Z) (in_use : Z -> bool) : res ErrorKind Z * Z :=
  if negb (requested =? 0) then (if in_use requested then Err AddrInUse else Ok requested, next)
  else
    match scan in_use port_count next with
    | (Some port, next) => (Ok port, next)
    | (None, next) => (Err AddrNotAvailable, next)
    end.

(** [allocate_port]: the cursor moves only on success. *)
Definition allocate_port (table : SocketTable) (t : Transport) (f : AddressFamily) (requested : Z)
    : res ErrorKind Z * SocketTable :=
  match select_port (next_port table) requested (port_in_use table t f) with
  | (Ok port, next) => (Ok port, mk_table (sockets table) next)
  | (Err e, _) => (Err e, table)
  | (Panic, _) => (Panic, table)
  end.

(** [SocketSet::add]: a handle that is free. *)
Definition add_socket (table : SocketTable) (h : nat) (s : socket) : SocketTable :=
  mk_table (<[h := s]> (sockets table)) (next_port table).

(** [connect_tcp] and [new_udp]; [accepted]: smoltcp's [connect] or [bind] succeeds.
    A rejected socket is dropped with the port cursor already moved. *)
Definition connect_tcp (table : SocketTable) (accepted : bool) (h : nat) (source : IpAddr) : res ErrorKind Z * SocketTable :=
  match allocate_port table Tcp (family_of source) 0 with
  | (Ok port, table) =>
      if accepted then (Ok port, add_socket table h (TcpSocket (mk_tcp_socket SynSent (Some (source, port)) [] []))) else (Err Other, table)
  | (Err e, table) => (Err e, table)
  | (Panic, table) => (Panic, table)
  end.

Definition new_udp (table : SocketTable) (accepted : bool) (h : nat) (source : IpAddr) (requested : Z)
    : res ErrorKind Z * SocketTable :=
  match allocate_port table Udp (family_of source) requested with
  | (Ok port, table) =>
      if accepted then (Ok port, add_socket table h (UdpSocket (Some source) port)) else (Err Other, table)
  | (Err e, table) => (Err e, table)
  | (Panic, table) => (Panic, table)
  end.

(** [SocketHandle::drop] *)
Definition drop_handle (table : SocketTable) (h : nat) : SocketTable :=
  mk_table (delete h (sockets table)) (next_port table).

(** [stop_sockets]: the first reason stays; TCP sockets are aborted (the endpoint is
    kept until the reset is sent), UDP sockets unbound. *)
Definition stop_socket (s : socket) : socket :=
  match s with
  | TcpSocket s => TcpSocket (mk_tcp_socket Closed (local s) (recv_queue s) (send_queue s))
  | UdpSocket _ _ => UdpSocket None 0
  end.
Definition stop_sockets (stopped : option bytes) (reason : bytes) (table : SocketTable) : option bytes * SocketTable :=
  (match stopped with Some r => Some r | None => Some reason end,
   mk_table (stop_socket <$> sockets table) (next_port table)).

(** [socket_snapshot] *)
Record SocketSnapshot := mk_snapshot {
  tcp_total : Z; tcp_established : Z; tcp_connecting : Z; tcp_closing : Z; tcp_closed : Z;
  tcp_rx_queue : Z; tcp_tx_queue : Z; udp_total : Z
}.
Definition snapshot_socket (n : SocketSnapshot) (s : socket) : SocketSnapshot :=
  let 'mk_snapshot total est connecting closing closed rxq txq udp := n in
  match s with
  | UdpSocket _ _ => mk_snapshot total est connecting closing closed rxq txq (udp + 1)
  | TcpSocket s =>
      let rxq := rxq + zlen (recv_queue s) in
      let txq := txq + zlen (send_queue s) in
      match st s with
      | Established => mk_snapshot (total + 1) (est + 1) connecting closing closed rxq txq udp
      | SynSent | SynReceived | Listen => mk_snapshot (total + 1) est (connecting + 1) closing closed rxq txq udp
      | Closed => mk_snapshot (total + 1) est connecting closing (closed + 1) rxq txq udp
      | _ => mk_snapshot (total + 1) est connecting (closing + 1) closed rxq txq udp
      end
  end.
Definition socket_snapshot (s : SocketSet) : SocketSnapshot :=
  fold_left (fun n e => snapshot_socket n e.2) (map_to_list s) (mk_snapshot 0 0 0 0 0 0 0 0).

(** [source_for] *)
Definition source_for (source_v4 source_v6 : option IpAddr) (addr : SocketAddr) : res ErrorKind IpAddr :=
  match (if is_ipv4 addr then source_v4 else source_v6) with
  | Some ip => Ok ip
  | None => Err AddrNotAvailable
  end.
End Ports.

Module PortsFacts.
Import Ports.

Definition ephemeral (p : Z) : Prop := EPHEMERAL_PORT_FIRST <= p <= EPHEMERAL_PORT_LAST.
Definition succ_port (p : Z) : Z := if EPHEMERAL_PORT_LAST <=? p then EPHEMERAL_PORT_FIRST else p + 1.

(** The [i]-th candidate of a scan that starts at [next]. *)
Definition nth_port (next i : Z) : Z := EPHEMERAL_PORT_FIRST + (next - EPHEMERAL_PORT_FIRST + i) mod 50000.

Lemma succ_port_mod p : ephemeral p -> succ_port p = nth_port p 1 /\ ephemeral (succ_port p).
Proof.
  unfold ephemeral, succ_port, nth_port, EPHEMERAL_PORT_FIRST, EPHEMERAL_PORT_LAST. intros H.
  destruct (Z.leb_spec 60000 p); [replace p with 60000 by lia; done|]. rewrite Z.mod_small by lia. lia.
Qed.

Lemma nth_port_succ p i : ephemeral p -> nth_port (succ_port p) i = nth_port p (i + 1).
Proof.
  intros H. rewrite (proj1 (succ_port_mod p H)). unfold nth_port. f_equal.
  rewrite Z.add_simpl_l, Zplus_mod_idemp_l. f_equal. lia.
Qed.

Lemma scan_found in_use n next p next' : ephemeral next -> scan in_use n next = (Some p, next') ->
  ephemeral p /\ in_use p = false /\ next' = succ_port p.
Proof.
  revert next. induction n as [|n IH]; intros next He; cbn [scan]; [done|].
  destruct (in_use next) eqn:Hu; [apply IH, succ_port_mod, He|]. by intros [= <- <-].
Qed.

Lemma scan_exhausted in_use n next next' i : ephemeral next -> scan in_use n next = (None, next') ->
  0 <= i < Z.of_nat n -> in_use (nth_port next i) = true.
Proof.
  revert next i. induction n as [|n IH]; intros next i He Hs Hi; [lia|]. cbn [scan] in Hs.
  destruct (in_use next) eqn:Hu; [|done]. destruct (decide (i = 0)) as [->|Hn].
  - replace (nth_port next 0) with next; [done|]. unfold nth_port, ephemeral, EPHEMERAL_PORT_FIRST, EPHEMERAL_PORT_LAST in *.
    rewrite Z.mod_small by lia. lia.
  - change (if _ <=? _ then _ else _) with (succ_port next) in Hs. replace i with (i - 1 + 1) by lia.
    rewrite <-nth_port_succ by done. apply IH; [apply succ_port_mod, He|done|lia].
Qed.

(** Every ephemeral port is a candidate. *)
Lemma candidates next p : ephemeral next -> ephemeral p -> exists i, 0 <= i < Z.of_nat port_count /\ nth_port next i = p.
Proof.
  intros Hn Hp. exists ((p - next) mod 50000). change (Z.of_nat port_count) with 50000.
  split; [apply Z.mod_pos_bound; lia|]. unfold nth_port, ephemeral, EPHEMERAL_PORT_FIRST, EPHEMERAL_PORT_LAST in *.
  rewrite Zplus_mod_idemp_r. replace (next - 10001 + (p - next)) with (p - 10001) by lia. rewrite Z.mod_small by lia. lia.
Qed.

(** [select_port], whatever is in use. *)
Lemma select_port_spec next in_use : ephemeral next ->
  match select_port next 0 in_use with
  | (Ok p, next') => ephemeral p /\ in_use p = false /\ next' = succ_port p
  | (Err e, _) => e = AddrNotAvailable /\ forall p, ephemeral p -> in_use p = true
  | (Panic, _) => False
  end.
Proof.
  intros He. unfold select_port. cbn [Z.eqb negb]. destruct (scan in_use port_count next) as [[p|] next'] eqn:Hs.
  - by eapply scan_found.
  - split; [done|]. intros p Hp. destruct (candidates next p He Hp) as (i & Hi & <-). by eapply scan_exhausted.
Qed.

(** An ephemeral port is found whenever one is free: the scan returns a free port
    of 10001-60000 and leaves the cursor just after it, and it reports exhaustion
    only when all fifty thousand ports are in use, from whatever cursor position
    it started. *)
Theorem select_port_complete next in_use : ephemeral next ->
  match select_port next 0 in_use with
  | (Ok p, next') => ephemeral p /\ in_use p = false /\ next' = succ_port p
  | (Err e, _) => e = AddrNotAvailable /\ forall p, ephemeral p -> in_use p = true
  | (Panic, _) => False
  end.
Proof. apply select_port_spec. Qed.

(** The last port wraps around to the first. *)
Lemma select_port_complete_witness : ephemeral 60000 /\
  select_port 60000 0 (fun p => p =? 60000) = (Ok 10001, 10002) /\
  match select_port 60000 0 (fun p => p =? 60000) with (Ok p, _) => (p =? 60000) = false | _ => False end.
Proof.
  assert (He : ephemeral 60000) by (unfold ephemeral, EPHEMERAL_PORT_FIRST, EPHEMERAL_PORT_LAST; lia).
  split; [exact He|]. split; [vm_compute; reflexivity|].
  pose proof (select_port_complete 60000 (fun p => p =? 60000) He) as H.
  destruct (select_port 60000 0 (fun p => p =? 60000)) as [[p|e|] next'] eqn:Hs; [exact (proj1 (proj2 H))| |exact H].
  vm_compute in Hs. discriminate Hs.
Defined.

(** ** Reachable tables *)
Inductive step : SocketTable -> SocketTable -> Prop :=
| step_connect table accepted h source r table' :
    sockets table !! h = None -> connect_tcp table accepted h source = (r, table') -> step table table'
| step_bind table accepted h source requested r table' :
    sockets table !! h = None -> 0 <= requested <= U16_MAX -> new_udp table accepted h source requested = (r, table') ->
    step table table'
| step_drop table h : step table (drop_handle table h)
| step_tcp table h s s' : sockets table !! h = Some (TcpSocket s) -> (local s' = local s \/ local s' = None) ->
    step table (mk_table (<[h := TcpSocket s']> (sockets table)) (next_port table))
| step_stop table stopped reason : step table (stop_sockets stopped reason table).2.

(** Two sockets of a transport and address family never share a port. *)
Definition unique_ports (table : SocketTable) : Prop :=
  forall h1 h2 s1 s2 t f p, sockets table !! h1 = Some s1 -> sockets table !! h2 = Some s2 ->
    occupies t f p s1 = true -> occupies t f p s2 = true -> h1 = h2.
Definition table_ok (table : SocketTable) : Prop := ephemeral (next_port table) /\ unique_ports table.

Lemma port_free table t f p h s : port_in_use table t f p = false -> sockets table !! h = Some s -> occupies t f p s = false.
Proof.
  unfold port_in_use. intros Hu Hs. destruct (occupies t f p s) eqn:Ho; [|done].
  rewrite <-Hu. symmetry. apply existsb_exists. exists (h, s). split; [|done].
  by apply list_elem_of_In, elem_of_map_to_list.
Qed.

(** Replacing a socket by one that occupies no more. *)
Definition weaker (s' s : socket) : Prop := forall t f p, occupies t f p s' = true -> occupies t f p s = true.

Lemma unique_weaken (table table' : SocketTable) :
  (forall h s', sockets table' !! h = Some s' -> exists s, sockets table !! h = Some s /\ weaker s' s) ->
  unique_ports table -> unique_ports table'.
Proof.
  intros H Hu h1 h2 s1 s2 t f p H1 H2 O1 O2. destruct (H _ _ H1) as (u1 & L1 & W1). destruct (H _ _ H2) as (u2 & L2 & W2).
  eapply Hu; eauto.
Qed.

(** Adding a socket on a free endpoint. *)
Lemma unique_add table h t source p s : (forall t' f q, occupies t' f q s = true -> t' = t /\ f = family_of source /\ q = p) ->
  port_in_use table t (family_of source) p = false -> unique_ports table ->
  unique_ports (add_socket table h s).
Proof.
  intros Hs Hf Hu h1 h2 s1 s2 t' f q. cbn. rewrite !lookup_insert_Some.
  intros [[<- <-]|[N1 H1]] [[<- <-]|[N2 H2]] O1 O2; [done| | |by eapply Hu].
  - destruct (Hs _ _ _ O1) as (-> & -> & ->). by rewrite (port_free _ _ _ _ _ _ Hf H2) in O2.
  - destruct (Hs _ _ _ O2) as (-> & -> & ->). by rewrite (port_free _ _ _ _ _ _ Hf H1) in O1.
Qed.

(** A successful allocation yields a free port and keeps the table in order. *)
Lemma allocate_ok table t f requested r table' : table_ok table -> allocate_port table t f requested = (r, table') ->
  sockets table' = sockets table /\ table_ok table' /\ (forall p, r = Ok p -> port_in_use table t f p = false).
Proof.
  intros [He Hu] Ha. unfold allocate_port in Ha. destruct (Z.eqb_spec requested 0) as [->|Hr].
  - pose proof (select_port_spec (next_port table) (port_in_use table t f) He) as Hs.
    destruct (select_port _ _ _) as [[p|e|] next]; [|injection Ha as <- <-..]; [|done|done].
    injection Ha as <- <-. destruct Hs as (H1 & H2 & ->). split_and!; [done|split; [apply succ_port_mod, H1|exact Hu]|].
    by intros ? [= <-].
  - unfold select_port in Ha. rewrite (proj2 (Z.eqb_neq _ _) Hr) in Ha. cbn [negb] in Ha.
    destruct (port_in_use table t f requested) eqn:Hp; injection Ha as <- <-; split_and!; try done. by intros ? [= <-].
Qed.

Lemma step_ok table table' : step table table' -> table_ok table -> table_ok table'.
Proof.
  intros Hs Hok. destruct Hs as [table acc h source r table' Hh Hc|table acc h source q r table' Hh Hq Hc|table h|table h s s' Hl Hs|table stopped reason].
  - unfold connect_tcp in Hc. destruct (allocate_port table Tcp (family_of source) 0) as [x table1] eqn:Ha.
    destruct (allocate_ok _ _ _ _ _ _ Hok Ha) as (Hsk & [H1 H2] & Hf).
    destruct x as [p|e|]; [|by injection Hc as <- <-..]. destruct acc; injection Hc as <- <-; [|done].
    split; [done|]. apply (unique_add _ _ Tcp source p); [|unfold port_in_use; rewrite Hsk; by apply Hf|done].
    intros [] f q; cbn; [|done]. intros [H3 H4]%andb_true_iff. unfold matches in H4. apply bool_decide_eq_true in H4. zbool. naive_solver.
  - unfold new_udp in Hc. destruct (allocate_port table Udp (family_of source) q) as [x table1] eqn:Ha.
    destruct (allocate_ok _ _ _ _ _ _ Hok Ha) as (Hsk & [H1 H2] & Hf).
    destruct x as [p|e|]; [|by injection Hc as <- <-..]. destruct acc; injection Hc as <- <-; [|done].
    split; [done|]. apply (unique_add _ _ Udp source p); [|unfold port_in_use; rewrite Hsk; by apply Hf|done].
    intros [] f q'; cbn; [done|]. intros [H3 H4]%andb_true_iff. unfold matches in H4. apply bool_decide_eq_true in H4. zbool. naive_solver.
  - destruct Hok as [He Hu]. split; [done|]. revert Hu. apply unique_weaken. intros h' s'. cbn.
    rewrite lookup_delete_Some. intros [_ H]. exists s'. by split; [|intros ???].
  - destruct Hok as [He Hu]. split; [done|]. revert Hu. apply unique_weaken. intros h' x. cbn. rewrite lookup_insert_Some.
    intros [[<- <-]|[_ H]]; [|by exists x; split; [|intros ???]]. exists (TcpSocket s). split; [done|]. intros [] f p; cbn; [|done].
    destruct Hs as [->| ->]; done.
  - destruct Hok as [He Hu]. split; [done|]. revert Hu. apply unique_weaken. intros h' x. cbn. rewrite lookup_fmap_Some.
    intros (y & <- & H). exists y. split; [done|]. intros [] f p; destruct y; done.
Qed.

(** Sockets never collide: in every state the adapter can reach by connecting,
    binding (to any requested port), dropping handles, stopping, and smoltcp
    closing connections, no two sockets of the same transport and address family
    hold the same port, and the cursor stays in the ephemeral range. *)
Theorem ports_unique table : rtc step table_new table -> table_ok table.
Proof.
  intros H. assert (Hi : forall a b, rtc step a b -> table_ok a -> table_ok b).
  { intros a b Hr. induction Hr as [|a c b Hs _ IH]; [done|]. intros Ha. by apply IH, (step_ok a c). }
  apply (Hi _ _ H). split; [vm_compute; split; congruence|]. intros h1 h2 s1 s2 t f p. cbn. by rewrite lookup_empty.
Qed.

(** Two UDP sockets and a TCP socket on one address. *)
Lemma ports_unique_witness : let a := V4 [10; 0; 0; 2] in
  table_ok (new_udp (new_udp (connect_tcp table_new true 0%nat a).2 true 1%nat a 0).2 true 2%nat a 10001).2.
Proof.
  intros a. apply ports_unique.
  eapply rtc_r; [eapply rtc_r; [eapply rtc_r; [apply rtc_refl|]|]|].
  - eapply (step_connect _ true 0%nat a); [reflexivity|]. apply surjective_pairing.
  - eapply (step_bind _ true 1%nat a 0); [reflexivity|unfold U16_MAX; lia|]. apply surjective_pairing.
  - eapply (step_bind _ true 2%nat a 10001); [reflexivity|unfold U16_MAX; lia|]. apply surjective_pairing.
Defined.
End PortsFacts.

(** ** The packet device, as the reactor sees it *)
Class AsyncDevice (D : Type) := {
  (** [Ready None]: the stream has ended. *)
  dev_poll_next : D -> poll (option (res ErrorKind bytes)) * D;
  dev_poll_ready : D -> poll (option ErrorKind) * D;
  dev_start_send : bytes -> D -> option ErrorKind * D;
  dev_poll_flush : D -> poll (option ErrorKind) * D
}.

(** The WireGuard tunnel, with the clock readings and timer ticks it will meet. *)
#[export] Instance tunnel_device {N : Tunn} (w : Dataplane.wire) : AsyncDevice (Tunnel.WgTunnel * list (nat * Z * Z)) := {
  dev_poll_next := fun '(s, clock) =>
    let '(ticks, now_ms, now) := hd (0%nat, 0, 0) clock in
    let '(r, s) := Tunnel.poll_next w ticks now_ms now s in
    (match r with Ready x => Ready (Some x) | Pending => Pending end, (s, tl clock));
  dev_poll_ready := fun '(s, clock) => let '(r, s) := Tunnel.poll_network_flush s in (r, (s, clock));
  dev_start_send := fun packet '(s, clock) =>
    let '(_, now_ms, _) := hd (0%nat, 0, 0) clock in
    let '(r, s) := Tunnel.start_send w now_ms packet s in (r, (s, clock));
  dev_poll_flush := fun '(s, clock) => let '(r, s) := Tunnel.poll_network_flush s in (r, (s, clock))
}.

Module Reactor.
Definition DEFAULT_MAX_BURST_SIZE : Z := 100.

(** [BufferDevice], with the device beside it. *)
Record BufferDevice := mk_buffer {
  max_burst_size : Z; recv_queue : list bytes; send_queue : list bytes; dropped_tx : Z
}.
Definition buffer_new (burst : option Z) : BufferDevice :=
  mk_buffer (default DEFAULT_MAX_BURST_SIZE burst) [] [] 0.

(** [TxToken::consume] *)
Definition tx_consume (packet : bytes) (b : BufferDevice) : BufferDevice :=
  if zlen (send_queue b) <? max_burst_size b
  then mk_buffer (max_burst_size b) (recv_queue b) (send_queue b ++ [packet]) (dropped_tx b)
  else mk_buffer (max_burst_size b) (recv_queue b) (send_queue b) (u64_saturating_add (dropped_tx b) 1).

(** [Device::receive] and [Device::transmit] *)
Definition receive (b : BufferDevice) : option (bytes * BufferDevice) :=
  match recv_queue b with
  | [] => None
  | packet :: rest => Some (packet, mk_buffer (max_burst_size b) rest (send_queue b) (dropped_tx b))
  end.
Definition transmit (b : BufferDevice) : bool := zlen (send_queue b) <? max_burst_size b.

(** What smoltcp does with its tokens in one poll: take a packet and possibly
    answer it with the token that comes along, or ask for a transmit token. *)
Inductive phy_op := PhyReceive (answer : bytes -> option bytes) | PhyTransmit (packet : bytes).

(** The packets it took, those it emitted (each with the length of the send queue
    it found), and the buffer left. *)
Fixpoint iface_poll (ops : list phy_op) (b : BufferDevice) : list bytes * list (bytes * Z) * BufferDevice :=
  match ops with
  | [] => ([], [], b)
  | PhyReceive answer :: ops =>
      match receive b with
      | None => iface_poll ops b
      | Some (packet, b) =>
          match answer packet with
          | Some reply =>
              let '(i, o, b') := iface_poll ops (tx_consume reply b) in (packet :: i, (reply, zlen (send_queue b)) :: o, b')
          | None => let '(i, o, b) := iface_poll ops b in (packet :: i, o, b)
          end
      end
  | PhyTransmit packet :: ops =>
      if transmit b then let '(i, o, b') := iface_poll ops (tx_consume packet b) in (i, (packet, zlen (send_queue b)) :: o, b')
      else iface_poll ops b
  end.

Section reactor.
Context {D : Type} {A : AsyncDevice D}.

(** [poll_send_packets], by recursion on the queue; the packets left come back. *)
Fixpoint poll_send_packets (packets : list bytes) (d : D) : poll (option ErrorKind) * list bytes * D :=
  match packets with
  | [] => let '(r, d) := dev_poll_flush d in (r, [], d)
  | packet :: rest =>
      match dev_poll_ready d with
      | (Pending, d) => (Pending, packets, d)
      | (Ready (Some e), d) => (Ready (Some e), packets, d)
      | (Ready None, d) =>
          match dev_start_send packet d with
          | (Some e, d) => (Ready (Some e), rest, d)
          | (None, d) => poll_send_packets rest d
          end
      end
  end.

(** The receive loop: [room] packets fit.  The boolean: the stream has ended. *)
Fixpoint fill (room : nat) (queue : list bytes) (d : D) : res ErrorKind bool * list bytes * D :=
  match room with
  | O => (Ok false, queue, d)
  | S room =>
      match dev_poll_next d with
      | (Ready (Some (Ok packet)), d) => fill room (queue ++ [packet]) d
      | (Ready (Some (Err e)), d) => (Err e, queue, d)
      | (Ready (Some Panic), d) => (Panic, queue, d)
      | (Ready None, d) => (Ok true, queue, d)
      | (Pending, d) => (Ok false, queue, d)
      end
  end.

(** The closure polled by [run_reactor]: [notified] and [timer] tell whether those
    futures are ready. *)
Definition poll_io (can_transmit notified timer : bool) (b : BufferDevice) (d : D)
    : poll (res ErrorKind (Dataplane.ReactorWake * bool)) * BufferDevice * D :=
  let queued := zlen (send_queue b) in
  let '(sent, send_q, d) := poll_send_packets (send_queue b) d in
  let b := mk_buffer (max_burst_size b) (recv_queue b) send_q (dropped_tx b) in
  match sent with
  | Ready (Some e) => (Ready (Err e), b, d)
  | _ =>
      let room := Z.to_nat (max_burst_size b - zlen (recv_queue b)) in
      let '(ended, recv_q, d) := fill room (recv_queue b) d in
      let b := mk_buffer (max_burst_size b) recv_q send_q (dropped_tx b) in
      match ended with
      | Err e => (Ready (Err e), b, d)
      | Panic => (Ready Panic, b, d)
      | Ok ended =>
          if ended || negb (zlen recv_q =? 0) || negb (zlen send_q =? queued)
          then (Ready (Ok (Dataplane.Device, ended)), b, d)
          else if notified then (Ready (Ok (Dataplane.Notify, ended)), b, d)
          else if can_transmit && timer then (Ready (Ok (Dataplane.Timer, ended)), b, d)
          else (Pending, b, d)
      end
  end.

(** What one turn of the loop meets: the polls of the closure (the last of which
    decides), the time, and smoltcp's program. *)
Record turn := mk_turn { polls : list (bool * bool); now_ms : Z; program : list phy_op }.

Fixpoint await_io (can_transmit : bool) (ps : list (bool * bool)) (b : BufferDevice) (d : D)
    : poll (res ErrorKind (Dataplane.ReactorWake * bool)) * BufferDevice * D :=
  match ps with
  | [] => (Pending, b, d)
  | (notified, timer) :: ps =>
      match poll_io can_transmit notified timer b d with
      | (Pending, b, d) => await_io can_transmit ps b d
      | r => r
      end
  end.

Record reactor := mk_reactor {
  buffer : BufferDevice; device : D; observer : Dataplane.ObserverInner;
  (** packets smoltcp has taken and emitted so far, the latter with the packets
      that waited before each *)
  taken : list bytes; emitted : list (bytes * Z)
}.

(** How a turn ends: the loop goes on, ends, fails, still waits, or the device panics. *)
Inductive turn_result := Continue | Break | Failed (e : ErrorKind) | Waiting | DevicePanic.

Definition run_turn (t : turn) (r : reactor) : turn_result * reactor :=
  let o := Dataplane.record_reactor_wait (Dataplane.record_reactor_loop (now_ms t) (observer r)) in
  let can_transmit := zlen (send_queue (buffer r)) <? max_burst_size (buffer r) in
  let '(io, b, d) := await_io can_transmit (polls t) (buffer r) (device r) in
  match io with
  | Pending => (Waiting, mk_reactor b d o (taken r) (emitted r))
  | Ready (Err e) => (Failed e, mk_reactor b d o (taken r) (emitted r))
  | Ready Panic => (DevicePanic, mk_reactor b d o (taken r) (emitted r))
  | Ready (Ok (wake, ended)) =>
      let o := Dataplane.record_reactor_wake wake o in
      let o := Dataplane.record_device_backlog (zlen (recv_queue b)) (zlen (send_queue b)) o in
      let '(i, out, b) := iface_poll (program t) b in
      let dropped := dropped_tx b in
      let b := mk_buffer (max_burst_size b) (recv_queue b) (send_queue b) 0 in
      let o := Dataplane.record_reactor_poll o in
      let o := Dataplane.record_device_backlog (zlen (recv_queue b)) (zlen (send_queue b)) o in
      let o := Dataplane.record_device_tx_dropped dropped o in
      (if (ended : bool) then Break else Continue, mk_reactor b d o (taken r ++ i) (emitted r ++ out))
  end.

(** [run_reactor]: turns until the loop breaks or fails. *)
Fixpoint run_reactor (ts : list turn) (r : reactor) : turn_result * reactor :=
  match ts with
  | [] => (Continue, r)
  | t :: ts =>
      match run_turn t r with
      | (Continue, r) => run_reactor ts r
      | other => other
      end
  end.
End reactor.
End Reactor.

(** ** Nothing is lost between the device and the stack *)
Module ReactorFacts.
Import Reactor.

(** A device that remembers the packets it was sent and those it delivered. *)
Definition logged_dev (D : Type) : Type := D * (list bytes * list bytes).
#[export] Instance log_device {D} (A : AsyncDevice D) : AsyncDevice (logged_dev D) := {
  dev_poll_next := fun '(d, (sent, got)) =>
    let '(r, d) := dev_poll_next d in
    (r, (d, (sent, got ++ match r with Ready (Some (Ok p)) => [p] | _ => [] end)));
  dev_poll_ready := fun '(d, l) => let '(r, d) := dev_poll_ready d in (r, (d, l));
  dev_start_send := fun p '(d, (sent, got)) =>
    let '(r, d) := dev_start_send p d in (r, (d, (match r with None => sent ++ [p] | Some _ => sent end, got)));
  dev_poll_flush := fun '(d, l) => let '(r, d) := dev_poll_flush d in (r, (d, l))
}.
Definition sent_to {D} (d : logged_dev D) : list bytes := d.2.1.
Definition got_from {D} (d : logged_dev D) : list bytes := d.2.2.

Section conserve.
Context {D : Type} {A : AsyncDevice D}.
Implicit Types d : logged_dev D.

Lemma send_conserves packets d : let '(r, rest, d') := poll_send_packets packets d in
  got_from d' = got_from d /\ zlen rest <= zlen packets /\
  match r with Ready (Some _) => True | _ => sent_to d' ++ rest = sent_to d ++ packets end.
Proof.
  revert d. induction packets as [|p rest IH]; intros [d [sent got]]; cbn [poll_send_packets].
  - cbn [dev_poll_flush log_device]. destruct (dev_poll_flush d) as [r d']. cbn. split_and!; [done|done|].
    by destruct r as [[?|]|]; rewrite ?app_nil_r.
  - cbn [dev_poll_ready log_device]. destruct (dev_poll_ready d) as [[[e|]|] d1]; [cbn; split_and!; [done|zl|done]| |cbn; split_and!; [done|zl|done]].
    cbn [dev_start_send log_device]. destruct (dev_start_send p d1) as [[e|] d2]; [cbn; split_and!; [done|zl|done]|].
    specialize (IH (d2, (sent ++ [p], got))). destruct (poll_send_packets rest _) as [[r rest'] d']. destruct IH as (H1 & H2 & H3).
    split_and!; [done|zl|]. destruct r as [[?|]|]; [done|..]; rewrite H3; cbn; by rewrite <-app_assoc.
Qed.

Lemma fill_conserves room queue d : let '(_, queue', d') := fill room queue d in
  sent_to d' = sent_to d /\ exists new, queue' = queue ++ new /\ got_from d' = got_from d ++ new /\ zlen new <= Z.of_nat room.
Proof.
  revert queue d. induction room as [|room IH]; intros queue [d [sent got]]; cbn [fill].
  - split; [done|]. exists []. by rewrite !app_nil_r.
  - cbn [dev_poll_next log_device]. destruct (dev_poll_next d) as [r d1]. destruct r as [[[p|e|]|]|];
      try (split; [done|]; exists []; cbn; rewrite !app_nil_r; split_and!; [done|done|rewrite zlen_nil; lia]).
    specialize (IH (queue ++ [p]) (d1, (sent, got ++ [p]))). destruct (fill room _ _) as [[x q'] d']. destruct IH as (H1 & new & -> & H2 & H3).
    split; [done|]. exists (p :: new). rewrite <-app_assoc. cbn in H2. rewrite <-app_assoc in H2. split_and!; [done|done|zl].
Qed.

(** The invariant between turns: queues within the burst size, every packet of the
    device taken by the stack or waiting, in order, and every packet the stack
    emitted while there was room sent or waiting, in order, the others counted. *)
Definition queues_ok (b : BufferDevice) : Prop :=
  0 <= max_burst_size b /\ zlen (recv_queue b) <= max_burst_size b /\ zlen (send_queue b) <= max_burst_size b.

Definition flows (taken out : list bytes) (b : BufferDevice) (d : logged_dev D) : Prop :=
  got_from d = taken ++ recv_queue b /\ sent_to d ++ send_queue b = out.

(** The packets emitted while the send queue had room. *)
Definition kept (burst : Z) (em : list (bytes * Z)) : list bytes := map fst (List.filter (fun x => x.2 <? burst) em).
Lemma kept_app burst l1 l2 : kept burst (l1 ++ l2) = kept burst l1 ++ kept burst l2.
Proof. unfold kept. by rewrite List.filter_app, map_app. Qed.

Definition turn_inv (r : reactor (D:=logged_dev D)) : Prop :=
  let out := kept (max_burst_size (buffer r)) (emitted r) in
  queues_ok (buffer r) /\ dropped_tx (buffer r) = 0 /\ flows (taken r) out (buffer r) (device r) /\
  observer r Dataplane.device_tx_dropped = wrap64 (zlen (emitted r) - zlen out).

Lemma poll_io_conserves can_transmit notified timer taken out b d : queues_ok b -> flows taken out b d ->
  let '(r, b', d') := poll_io can_transmit notified timer b d in
  match r with Ready (Err _) | Ready Panic => True
  | _ => queues_ok b' /\ dropped_tx b' = dropped_tx b /\ flows taken out b' d' end.
Proof.
  intros (H0 & H1 & H2) [F1 F2]. unfold poll_io. pose proof (send_conserves (send_queue b) d) as Hs.
  destruct (poll_send_packets (send_queue b) d) as [[r rest] d1]. destruct Hs as (S1 & S2 & S3).
  cbn [max_burst_size recv_queue dropped_tx send_queue].
  pose proof (fill_conserves (Z.to_nat (max_burst_size b - zlen (recv_queue b))) (recv_queue b) d1) as Hf.
  destruct (fill _ _ d1) as [[x q'] d2]. destruct Hf as (E1 & new & -> & E2 & E3).
  destruct r as [[e|]|]; [done|..]; (destruct x as [ended|e|]; [|done..]);
  (assert (Hok : queues_ok (mk_buffer (max_burst_size b) (recv_queue b ++ new) rest (dropped_tx b)) /\
     flows taken out (mk_buffer (max_burst_size b) (recv_queue b ++ new) rest (dropped_tx b)) d2);
   [split; [split_and!; cbn; zl|split; cbn; [by rewrite E2, S1, F1, app_assoc|by rewrite E1, S3]]|]);
  destruct Hok as [Hok1 Hok2]; repeat case_match; simplify_eq; done.
Qed.

Lemma await_io_conserves can_transmit ps taken out b d : queues_ok b -> flows taken out b d ->
  let '(r, b', d') := await_io can_transmit ps b d in
  match r with Ready (Err _) | Ready Panic => True
  | _ => queues_ok b' /\ dropped_tx b' = dropped_tx b /\ flows taken out b' d' end.
Proof.
  revert b d. induction ps as [|[notified timer] ps IH]; intros b d Hq Hf; cbn [await_io]; [done|].
  pose proof (poll_io_conserves can_transmit notified timer taken out b d Hq Hf) as Hp.
  destruct (poll_io _ _ _ b d) as [[r b1] d1]. destruct r as [[x|e|]|]; [done..|].
  destruct Hp as (Q1 & Q2 & Q3). specialize (IH b1 d1 Q1 Q3). destruct (await_io _ _ b1 d1) as [[r b2] d2].
  destruct r as [[x|e|]|]; [|done..|]; rewrite <-Q2; done.
Qed.

(** A poll of the interface. *)
Lemma iface_conserves ops b : queues_ok b -> 0 <= dropped_tx b -> dropped_tx b + zlen ops <= U64_MAX ->
  let '(i, out, b') := iface_poll ops b in
  queues_ok b' /\ recv_queue b = i ++ recv_queue b' /\
  send_queue b' = send_queue b ++ kept (max_burst_size b) out /\
  dropped_tx b' = dropped_tx b + zlen out - zlen (kept (max_burst_size b) out).
Proof.
  revert b. induction ops as [|o ops IH]; intros b Hq H0 Hm; cbn [iface_poll].
  { change (kept (max_burst_size b) []) with (@nil bytes). rewrite app_nil_r. split_and!; [done|done|done|unfold zlen; cbn; lia]. }
  rewrite zlen_cons in Hm. pose proof (zlen_nonneg ops) as Hl.
  (* one packet through a transmit token *)
  assert (Htx : forall packet b1, queues_ok b1 -> dropped_tx b1 = dropped_tx b ->
    let '(i, out, b') := iface_poll ops (tx_consume packet b1) in
    let out := (packet, zlen (send_queue b1)) :: out in
    queues_ok b' /\ recv_queue b1 = i ++ recv_queue b' /\ send_queue b' = send_queue b1 ++ kept (max_burst_size b1) out /\
      dropped_tx b' = dropped_tx b + zlen out - zlen (kept (max_burst_size b1) out)).
  { intros packet b1 Q Hd. destruct Q as (Q1 & Q2 & Q3). unfold tx_consume, kept. cbn [List.filter snd].
    destruct (Z.ltb_spec (zlen (send_queue b1)) (max_burst_size b1)) as [Hr|Hr].
    - specialize (IH (mk_buffer (max_burst_size b1) (recv_queue b1) (send_queue b1 ++ [packet]) (dropped_tx b1))).
      destruct (iface_poll ops _) as [[i out] b']. destruct IH as (I1 & I2 & I3 & I4);
        [split_and!; cbn; zl|cbn; lia|cbn; lia|]. cbn in I2, I3, I4. fold (kept (max_burst_size b1) out) in *.
      rewrite I3, <-app_assoc. cbn [map fst]. split_and!; [done|done|done|].
      rewrite zlen_cons, (zlen_cons packet). fold (kept (max_burst_size b1) out). lia.
    - specialize (IH (mk_buffer (max_burst_size b1) (recv_queue b1) (send_queue b1) (u64_saturating_add (dropped_tx b1) 1))).
      assert (Hadd : u64_saturating_add (dropped_tx b1) 1 = dropped_tx b + 1) by (unfold u64_saturating_add; lia).
      rewrite Hadd in IH. rewrite Hadd. destruct (iface_poll ops _) as [[i out] b']. destruct IH as (I1 & I2 & I3 & I4);
        [done|cbn; lia|cbn; lia|]. cbn in I2, I3, I4. fold (kept (max_burst_size b1) out) in *.
      rewrite zlen_cons. split_and!; [done|done|done|lia]. }
  destruct o as [answer|packet].
  - unfold receive. destruct (recv_queue b) as [|packet rest] eqn:Hr.
    + specialize (IH b Hq H0 ltac:(lia)). destruct (iface_poll ops b) as [[i out] b']. by rewrite Hr in IH.
    + set (b1 := mk_buffer (max_burst_size b) rest (send_queue b) (dropped_tx b)).
      assert (Q1 : queues_ok b1) by (destruct Hq as (Q1 & Q2 & Q3); rewrite Hr in Q2; split_and!; cbn; zl).
      destruct (answer packet) as [reply|].
      * specialize (Htx reply b1 Q1 eq_refl). destruct (iface_poll ops _) as [[i out] b']. destruct Htx as (I1 & I2 & I3).
        cbn in I2. rewrite I2. done.
      * specialize (IH b1 Q1 H0 ltac:(cbn; lia)). destruct (iface_poll ops b1) as [[i out] b']. destruct IH as (I1 & I2 & I3).
        cbn in I2. rewrite I2. done.
  - destruct (transmit b).
    + specialize (Htx packet b Hq eq_refl). by destruct (iface_poll ops _) as [[i out] b'].
    + apply IH; [done|done|lia].
Qed.

(** The burst size never changes. *)
Lemma poll_io_burst can_transmit notified timer b d :
  max_burst_size (poll_io can_transmit notified timer b d).1.2 = max_burst_size b.
Proof.
  unfold poll_io. destruct (poll_send_packets _ d) as [[x q] d1]. destruct (fill _ _ d1) as [[y q'] d2].
  repeat case_match; simplify_eq; done.
Qed.

Lemma await_io_burst can_transmit ps b d : max_burst_size (await_io can_transmit ps b d).1.2 = max_burst_size b.
Proof.
  revert b d. induction ps as [|[n t] ps IH]; intros b d; cbn [await_io]; [done|].
  pose proof (poll_io_burst can_transmit n t b d) as Hp. destruct (poll_io _ _ _ b d) as [[x b1] d1]. cbn in Hp.
  destruct x; [done|]. by rewrite IH.
Qed.

Lemma iface_burst ops b : max_burst_size (iface_poll ops b).2 = max_burst_size b.
Proof.
  assert (Htx : forall p b, max_burst_size (tx_consume p b) = max_burst_size b) by (intros; unfold tx_consume; by case_match).
  revert b. induction ops as [|[answer|p] ops IH]; intros b; cbn [iface_poll]; [done|..].
  - unfold receive. destruct (recv_queue b) as [|packet rest]; [done|]. destruct (answer packet) as [reply|].
    + match goal with |- context [iface_poll ops ?b1] => specialize (IH b1); destruct (iface_poll ops b1) as [[i o] b2] end.
      cbn in *. by rewrite IH, Htx.
    + match goal with |- context [iface_poll ops ?b1] => specialize (IH b1); destruct (iface_poll ops b1) as [[i o] b2] end. done.
  - destruct (transmit b); [|done]. specialize (IH (tx_consume p b)). destruct (iface_poll ops _) as [[i o] b2]. cbn in *. by rewrite IH, Htx.
Qed.

Lemma run_burst ts (r : reactor (D:=logged_dev D)) : max_burst_size (buffer (run_reactor ts r).2) = max_burst_size (buffer r).
Proof.
  revert r. induction ts as [|t ts IH]; intros r; cbn [run_reactor]; [done|].
  assert (Ht : max_burst_size (buffer (run_turn t r).2) = max_burst_size (buffer r)).
  { unfold run_turn. match goal with |- context [await_io ?a ?b ?c ?d] => pose proof (await_io_burst a b c d) as Ha;
      destruct (await_io a b c d) as [[x b1] d1] end. cbn in Ha. destruct x as [[[w e]|e|]|]; try done.
    pose proof (iface_burst (program t) b1) as Hi. destruct (iface_poll (program t) b1) as [[i o] b2]. cbn in *. congruence. }
  destruct (run_turn t r) as [x r1]. destruct x; try done. by rewrite IH.
Qed.

Lemma device_dropped_wait w now o : let o1 := Dataplane.record_reactor_wake w (Dataplane.record_reactor_wait (Dataplane.record_reactor_loop now o)) in
  o1 Dataplane.device_tx_dropped = o Dataplane.device_tx_dropped.
Proof. unfold Dataplane.record_reactor_wake, Dataplane.record_reactor_loop. destruct w; cbv zeta; case_match; done. Qed.

Lemma turn_preserves t r : zlen (program t) <= U64_MAX -> turn_inv r ->
  let '(x, r') := run_turn t r in match x with Failed _ | DevicePanic => True | _ => turn_inv r' end.
Proof.
  intros Hp (Hq & Hd & Hf & Ho). unfold run_turn.
  pose proof (await_io_conserves (zlen (send_queue (buffer r)) <? max_burst_size (buffer r)) (polls t) (taken r) _
    (buffer r) (device r) Hq Hf) as Hw.
  pose proof (await_io_burst (zlen (send_queue (buffer r)) <? max_burst_size (buffer r)) (polls t) (buffer r) (device r)) as Hm.
  destruct (await_io _ _ _ _) as [[x b] d]. cbn in Hm. destruct x as [[[wake ended]|e|]|]; [|done|done|].
  - destruct Hw as (Q1 & Q2 & [F1 F2]). pose proof (iface_conserves (program t) b Q1) as Hi. pose proof (iface_burst (program t) b) as Hm2.
    destruct (iface_poll (program t) b) as [[i em] b']. cbn in Hm2. destruct Hi as (I1 & I2 & I3 & I4); [lia|lia|].
    assert (Hinv : turn_inv (mk_reactor (mk_buffer (max_burst_size b') (recv_queue b') (send_queue b') 0) d
      (Dataplane.record_device_tx_dropped (dropped_tx b')
        (Dataplane.record_device_backlog (zlen (recv_queue b')) (zlen (send_queue b'))
          (Dataplane.record_reactor_poll (Dataplane.record_device_backlog (zlen (recv_queue b)) (zlen (send_queue b))
            (Dataplane.record_reactor_wake wake (Dataplane.record_reactor_wait (Dataplane.record_reactor_loop (now_ms t) (observer r))))))))
      (taken r ++ i) (emitted r ++ em))).
    { unfold turn_inv. cbn [buffer max_burst_size emitted]. rewrite Hm in I3, I4. split; [exact I1|]. split; [done|]. rewrite kept_app, Hm2, Hm. split.
      - split; cbn [recv_queue send_queue taken buffer device]; [by rewrite <-app_assoc, <-I2|].
        by rewrite I3, app_assoc, F2.
      - cbn [observer]. unfold Dataplane.record_device_tx_dropped, Dataplane.add, Dataplane.store. rewrite decide_True by done.
        etransitivity; [|apply (f_equal wrap64); instantiate (1 := zlen (emitted r) - zlen (kept (max_burst_size (buffer r)) (emitted r)) + dropped_tx b'); zl].
        pose proof (device_dropped_wait wake (now_ms t) (observer r)) as Hdw. cbv zeta in Hdw.
        transitivity (wrap64 (observer r Dataplane.device_tx_dropped + dropped_tx b')); [by rewrite <-Hdw|].
        rewrite Ho. unfold wrap64. apply Zplus_mod_idemp_l. }
    destruct ended; exact Hinv.
  - destruct Hw as (Q1 & Q2 & F). unfold turn_inv. cbn [buffer emitted device taken observer]. rewrite Hm.
    split_and!; [done|by rewrite Q2|done|]. rewrite <-Ho. unfold Dataplane.record_reactor_loop. cbv zeta. case_match; done.
Qed.

Lemma reactor_preserves ts r : Forall (fun t => zlen (program t) <= U64_MAX) ts -> turn_inv r ->
  let '(x, r') := run_reactor ts r in match x with Failed _ | DevicePanic => True | _ => turn_inv r' end.
Proof.
  revert r. induction ts as [|t ts IH]; intros r Hp Hi; cbn [run_reactor]; [done|]. apply Forall_cons in Hp as [Hp Hps].
  pose proof (turn_preserves t r Hp Hi) as Ht. destruct (run_turn t r) as [x r1]. destruct x; try done. by apply IH.
Qed.
(** *** A device that is always ready takes everything that waits *)
Definition always_ready : Prop :=
  (forall d : D, (dev_poll_ready d).1 = Ready None) /\ (forall p (d : D), (dev_start_send p d).1 = None).

Lemma send_all_ready packets d : always_ready ->
  let '(_, rest, d') := poll_send_packets packets d in rest = [] /\ sent_to d' = sent_to d ++ packets.
Proof.
  intros [Hr Hs]. revert d. induction packets as [|p rest IH]; intros [d [sent got]]; cbn [poll_send_packets].
  - cbn [dev_poll_flush log_device]. destruct (dev_poll_flush d) as [r d']. cbn. by rewrite app_nil_r.
  - cbn [dev_poll_ready log_device]. specialize (Hr d). destruct (dev_poll_ready d) as [x d1]. cbn in Hr. subst x.
    cbn [dev_start_send log_device]. specialize (Hs p d1). destruct (dev_start_send p d1) as [x d2]. cbn in Hs. subst x.
    specialize (IH (d2, (sent ++ [p], got))). destruct (poll_send_packets rest _) as [[r rest'] d']. destruct IH as [H1 H2].
    split; [done|]. rewrite H2. cbn. by rewrite <-app_assoc.
Qed.

Lemma poll_io_ready can_transmit notified timer b d : always_ready ->
  let '(_, b', d') := poll_io can_transmit notified timer b d in send_queue b' = [] /\ sent_to d' = sent_to d ++ send_queue b.
Proof.
  intros Ha. unfold poll_io. pose proof (send_all_ready (send_queue b) d Ha) as Hs.
  destruct (poll_send_packets (send_queue b) d) as [[r rest] d1]. destruct Hs as [-> S1]. cbn [max_burst_size recv_queue dropped_tx send_queue].
  pose proof (fill_conserves (Z.to_nat (max_burst_size b - zlen (recv_queue b))) (recv_queue b) d1) as Hf.
  destruct (fill _ _ d1) as [[x q'] d2]. destruct Hf as (E1 & _). rewrite <-S1, <-?E1. repeat case_match; simplify_eq; done.
Qed.

Lemma await_io_ready can_transmit ps b d : always_ready -> ps <> [] ->
  let '(_, b', d') := await_io can_transmit ps b d in send_queue b' = [] /\ sent_to d' = sent_to d ++ send_queue b.
Proof.
  intros Ha. revert b d. induction ps as [|[n t] ps IH]; intros b d Hne; cbn [await_io]; [done|].
  pose proof (poll_io_ready can_transmit n t b d Ha) as Hp. destruct (poll_io _ _ _ b d) as [[r b1] d1]. destruct Hp as [P1 P2].
  destruct r; [done|]. destruct ps as [|p ps]; [done|]. specialize (IH b1 d1 ltac:(done)). destruct (await_io _ _ b1 d1) as [[r b2] d2].
  destruct IH as [I1 I2]. split; [done|]. by rewrite I2, P1, P2, app_nil_r.
Qed.

Lemma turn_ready t (r : reactor (D:=logged_dev D)) : always_ready -> polls t <> [] ->
  sent_to (device (run_turn t r).2) = sent_to (device r) ++ send_queue (buffer r).
Proof.
  intros Ha Hp. unfold run_turn. pose proof (await_io_ready (zlen (send_queue (buffer r)) <? max_burst_size (buffer r)) (polls t) (buffer r) (device r) Ha Hp) as Hw.
  destruct (await_io _ _ _ _) as [[x b] d]. destruct Hw as [_ Hw]. destruct x as [[[w e]|e|]|]; try exact Hw.
  by destruct (iface_poll (program t) b) as [[i em] b'].
Qed.
End conserve.

(** A reactor that starts with an empty buffer. *)
Definition start {D} (d : D) (burst : Z) : reactor (D:=logged_dev D) :=
  mk_reactor (D:=logged_dev D) (buffer_new (Some burst)) (d, ([], [])) Dataplane.new [] [].

(** C6. The reactor keeps the packet flow intact in both directions: over any turns,
    polls and smoltcp programs, with any device, until the device fails, both
    queues stay within the burst size; the packets the device delivered are, in
    order, those smoltcp has taken followed by those that wait; those handed to
    the device followed by those that wait are, in order, exactly the packets
    smoltcp emitted while fewer than a burst waited, and every other emitted packet is
    counted as dropped; and a device that is ready gets all of them in the next turn. *)
Theorem reactor_conserves {D} {A : AsyncDevice D} d burst ts x r : 0 <= burst ->
  Forall (fun t => zlen (program t) <= U64_MAX) ts ->
  run_reactor ts (start d burst) = (x, r) ->
  let out := map fst (List.filter (fun e => e.2 <? burst) (emitted r)) in
  match x with
  | Failed _ | DevicePanic => True
  | _ =>
      zlen (recv_queue (buffer r)) <= burst /\ zlen (send_queue (buffer r)) <= burst /\
      got_from (device r) = taken r ++ recv_queue (buffer r) /\
      sent_to (device r) ++ send_queue (buffer r) = out /\
      observer r Dataplane.device_tx_dropped = wrap64 (zlen (emitted r) - zlen out) /\
      ((forall d : D, (dev_poll_ready d).1 = Ready None) -> (forall p (d : D), (dev_start_send p d).1 = None) ->
        forall t, polls t <> [] -> sent_to (device (run_turn t r).2) = out)
  end.
Proof.
  intros Hb Hp Hr out. pose proof (reactor_preserves ts (start d burst) Hp) as H.
  pose proof (run_burst ts (start d burst)) as Hm.
  rewrite Hr in H, Hm. cbn in Hm.
  assert (Hi : match x with Failed _ | DevicePanic => True | _ => turn_inv r end).
  { apply H. split; [split_and!; cbn; zl|]. done. }
  destruct x; try done; destruct Hi as ((_ & Q2 & Q3) & _ & [F1 F2] & Ho); rewrite Hm in Q2, Q3, F2, Ho; fold out in F2, Ho;
    (split_and!; [done..|]; intros Hr1 Hr2 t Ht; rewrite turn_ready; [exact F2|by split|exact Ht]).
Qed.

(** A device that always has a packet and is ready for one packet per poll. *)
#[export] Instance busy_device : AsyncDevice (list bytes) := {
  dev_poll_next := fun d => match d with [] => (Pending, []) | p :: d => (Ready (Some (Ok p)), d) end;
  dev_poll_ready := fun d => (match d with [] => Pending | _ => Ready None end, d);
  dev_start_send := fun _ d => (None, d);
  dev_poll_flush := fun d => (Ready None, d)
}.
Definition busy_turns : list turn :=
  [mk_turn [(false, false)] 1 [PhyReceive (fun p => Some (9 :: p)); PhyTransmit [7]; PhyReceive (fun p => Some (9 :: p))];
   mk_turn [(true, false)] 2 [PhyTransmit [8]]].

Lemma reactor_conserves_witness :
  match run_reactor busy_turns (start [[1]; [2]; [3]] 2) with
  | (Continue, r) =>
      got_from (device r) = taken r ++ recv_queue (buffer r) /\ taken r = [[1]; [2]] /\
      emitted r = [([9; 1], 0); ([7], 1); ([9; 2], 2); ([8], 0)] /\
      sent_to (device r) ++ send_queue (buffer r) = [[9; 1]; [7]; [8]]
  | _ => False
  end.
Proof.
  assert (Hv : (fun z => (z.1, taken z.2, emitted z.2)) (run_reactor busy_turns (start [[1]; [2]; [3]] 2)) =
    (Continue, [[1]; [2]], [([9; 1], 0); ([7], 1); ([9; 2], 2); ([8], 0)])) by (vm_compute; reflexivity).
  destruct (run_reactor busy_turns (start [[1]; [2]; [3]] 2)) as [x r] eqn:Hr. injection Hv as -> Ht He.
  destruct (reactor_conserves [[1]; [2]; [3]] 2 busy_turns Continue r) as (_ & _ & H3 & H4 & _);
    [lia|repeat constructor; vm_compute; congruence|exact Hr|].
  split; [exact H3|]. split; [exact Ht|]. split; [exact He|]. rewrite He in H4. exact H4.
Defined.
End ReactorFacts.

(** ** The sockets handed to callers *)
Module Streams.
Import Ports.

(** smoltcp's TCP socket, as far as the stream uses it. *)
Class SmolTcp := {
  tcp : Type;
  state : tcp -> tcp_state;
  may_recv : tcp -> bool; can_recv : tcp -> bool; may_send : tcp -> bool; can_send : tcp -> bool; is_open : tcp -> bool;
  recv_slice : Z -> tcp -> res ErrorKind bytes * tcp;
  send_slice : bytes -> tcp -> res ErrorKind Z * tcp;
  send_queue_len : tcp -> Z;
  close : tcp -> tcp
}.

(** The outcome of a poll: its result, the socket left, whether the reactor was
    woken, and whether a waker was registered. *)
Record polled (S A : Type) := mk_polled { result : poll (res ErrorKind A); sock : S; woke : bool; registered : bool }.
Arguments mk_polled {S A}.
Arguments result {S A}.
Arguments sock {S A}.
Arguments woke {S A}.
Arguments registered {S A}.

Section stream.
Context {T : SmolTcp}.
Implicit Types (s : tcp) (stopped : option bytes).

(** [is_stopped] *)
Definition is_stopped stopped : bool := match stopped with Some _ => true | None => false end.
Definition reactor_stopped {A} s : polled tcp A := mk_polled (Ready (Err ConnectionAborted)) s false false.
Definition waits {A} s : polled tcp A := mk_polled Pending s false true.

Definition poll_connected stopped s : polled tcp unit :=
  if is_stopped stopped then reactor_stopped s
  else match state s with
       | Established => mk_polled (Ready (Ok tt)) s false false
       | Closed => mk_polled (Ready (Err ConnectionAborted)) s false false
       | _ => waits s
       end.

(** The bytes read: none at the end of the stream. *)
Definition poll_read stopped (room : Z) s : polled tcp bytes :=
  if is_stopped stopped then reactor_stopped s
  else if negb (may_recv s) then mk_polled (Ready (Ok [])) s false false
  else if can_recv s then
    match recv_slice room s with
    | (Ok bs, s) => mk_polled (Ready (Ok bs)) s true false
    | (Err _, s) => mk_polled (Ready (Err Other)) s false false
    | (Panic, s) => mk_polled (Ready Panic) s false false
    end
  else waits s.

Definition poll_write stopped (buf : bytes) s : polled tcp Z :=
  if is_stopped stopped then reactor_stopped s
  else if negb (may_send s) then mk_polled (Ready (Err BrokenPipe)) s false false
  else if can_send s then
    match send_slice buf s with
    | (Ok n, s) => mk_polled (Ready (Ok n)) s true false
    | (Err _, s) => mk_polled (Ready (Err Other)) s false false
    | (Panic, s) => mk_polled (Ready Panic) s false false
    end
  else waits s.

Definition poll_flush stopped s : polled tcp unit :=
  if is_stopped stopped then reactor_stopped s
  else if send_queue_len s =? 0 then mk_polled (Ready (Ok tt)) s false false
  else waits s.

Definition poll_shutdown stopped s : polled tcp unit :=
  if is_stopped stopped then mk_polled (Ready (Ok tt)) s false false
  else
    let '(s, woken) := if is_open s then (close s, true) else (s, false) in
    if bool_decide (state s = Closed) then mk_polled (Ready (Ok tt)) s woken false
    else mk_polled Pending s woken true.

(** [UdpSocket::send_to] and [recv_from], one poll: what the socket answers is
    [Ok], a full or empty queue, or another failure. *)
Inductive udp_answer (A : Type) := UdpOk (a : A) | UdpWait | UdpFail.
Arguments UdpOk {A}.
Arguments UdpWait {A}.
Arguments UdpFail {A}.

Definition send_limit (mtu capacity : Z) (target : SocketAddr) : Z :=
  Z.min capacity (saturating_sub mtu (if is_ipv4 target then 28 else 48)).

Definition send_to stopped (mtu capacity : Z) (send : bytes -> SocketAddr -> udp_answer unit) (buf : bytes) (target : SocketAddr)
    : poll (res ErrorKind Z) :=
  if is_stopped stopped then Ready (Err ConnectionAborted)
  else if send_limit mtu capacity target <? zlen buf then Ready (Err InvalidInput)
  else match send buf target with
       | UdpWait => Pending
       | UdpFail => Ready (Err Other)
       | UdpOk _ => Ready (Ok (zlen buf))
       end.

Definition recv_from stopped (received : udp_answer (bytes * SocketAddr)) : poll (res ErrorKind (bytes * SocketAddr)) :=
  if is_stopped stopped then Ready (Err ConnectionAborted)
  else match received with
       | UdpWait => Pending
       | UdpFail => Ready (Err Other)
       | UdpOk x => Ready (Ok x)
       end.

(** A poll that waits has registered a waker, and one that completes has not. *)
Definition no_lost_wakeup {A} (p : polled tcp A) : Prop := result p = Pending <-> registered p = true.

Lemma polls_registered stopped room buf s :
  no_lost_wakeup (poll_connected stopped s) /\ no_lost_wakeup (poll_read stopped room s) /\
  no_lost_wakeup (poll_write stopped buf s) /\ no_lost_wakeup (poll_flush stopped s) /\
  no_lost_wakeup (poll_shutdown stopped s).
Proof.
  unfold no_lost_wakeup, poll_connected, poll_read, poll_write, poll_flush, poll_shutdown, reactor_stopped, waits.
  split_and!; repeat case_match; simplify_eq; done.
Qed.
End stream.
End Streams.
