(* ===== verification/NetLife.v ===== *)
(** * The life of the network stack ([src/src/netstack.rs])

    [Net] with its reactor task, its socket table, and the calls in progress on its
    sockets, as a state machine whose events are the pieces of code that run
    without interruption: a poll of a socket first reads the stop flag and then
    locks the table, and the stop of the stack first sets the flag and then locks
    the table to close every socket, so that the two may interleave.  The polls
    under the lock are those of [Netstack.Streams], port allocation is that of
    [Netstack.Ports].  smoltcp's sockets are the class [Smol], with its documented
    behaviour as [SmolLaws]. *)
From S2P Require Import Prelude RustStr NetAddr Dataplane Tunnel Netstack.

Module NetLife.
Import Ports Streams.

(** ** smoltcp's sockets *)
Class Smol := {
  smol_tcp :: SmolTcp;
  (** A new TCP socket on which [connect] is called; [None]: it refuses. *)
  tcp_open : IpAddr -> Z -> SocketAddr -> option tcp;
  tcp_abort : tcp -> tcp;
  tcp_view : tcp -> tcp_socket;
  udp : Type;
  udp_open : IpAddr -> Z -> option udp;
  udp_close : udp -> udp;
  udp_view : udp -> option IpAddr * Z;
  udp_capacity : udp -> Z;
  udp_send : bytes -> SocketAddr -> udp -> udp_answer unit * udp;
  udp_recv : Z -> udp -> udp_answer (bytes * SocketAddr) * udp
}.

(** The local endpoint is fixed by [connect] or [bind]; [abort] and [close] take
    effect at once; a closed TCP socket has no one to wait for, and a UDP socket
    without an endpoint refuses to send. *)
Class SmolLaws (S : Smol) := {
  open_view a p r s : tcp_open a p r = Some s -> tcp_view s = mk_tcp_socket SynSent (Some (a, p)) [] [];
  view_state s : st (tcp_view s) = state s;
  abort_state s : state (tcp_abort s) = Closed;
  abort_local s : local (tcp_view (tcp_abort s)) = local (tcp_view s);
  recv_keeps n s : state (recv_slice n s).2 = state s /\ local (tcp_view (recv_slice n s).2) = local (tcp_view s);
  send_keeps bs s : state (send_slice bs s).2 = state s /\ local (tcp_view (send_slice bs s).2) = local (tcp_view s);
  close_local s : local (tcp_view (close s)) = local (tcp_view s);
  closed_recv s : state s = Closed -> may_recv s = true -> can_recv s = true;
  closed_send s : state s = Closed -> may_send s = false;
  closed_shut s : state s = Closed -> is_open s = false;
  udp_open_view a p u : udp_open a p = Some u -> udp_view u = (Some a, p);
  udp_close_view u : udp_view (udp_close u) = (None, 0);
  udp_send_view bs t u : udp_view (udp_send bs t u).2 = udp_view u;
  udp_recv_view n u : udp_view (udp_recv n u).2 = udp_view u;
  udp_unbound bs t u : udp_view u = (None, 0) -> (udp_send bs t u).1 <> UdpWait _
}.

Section life.
Context {M : Smol}.

Inductive sock := TcpSock (s : tcp) | UdpSock (u : udp).
Definition view (s : sock) : socket :=
  match s with TcpSock s => TcpSocket (tcp_view s) | UdpSock u => UdpSocket (udp_view u).1 (udp_view u).2 end.

(** ** Calls on the stack

    [Connect] is the wait inside [tcp_connect]; the others are the methods of
    [TcpStream] and [UdpSocket]. *)
Inductive op :=
| Connect | Read (room : Z) | Write (buf : bytes) | Flush | Shutdown
| SendTo (buf : bytes) (target : SocketAddr) | RecvFrom (room : Z).
Inductive answer := Nothing | Data (bs : bytes) | Count (n : Z) | Datagram (bs : bytes) (from : SocketAddr).

Definition transport_of (o : op) : Transport := match o with SendTo _ _ | RecvFrom _ => Udp | _ => Tcp end.

(** Where a call is: woken and about to poll; past the test of the stop flag; waiting,
    its waker registered with the socket; returned.  A call that waits may still be
    polled, whenever the task that holds it wakes for another reason. *)
Inductive phase := Start | Checked | Parked | Returned (r : res ErrorKind answer).
Record call := mk_call { handle : nat; what : op; at_phase : phase }.
Definition live (c : call) : bool := match at_phase c with Returned _ => false | _ => true end.

(** The background task: running, ended with the result of [run_reactor] (the text
    of its error), or done with [stop_sockets]. *)
Inductive task_state := Running | Ended (error : option bytes) | Finished.

Record net := mk_net {
  source_v4 : option IpAddr; source_v6 : option IpAddr; mtu : Z;
  observer : option Dataplane.ObserverInner;
  (** The sockets of the table and its port cursor. *)
  socks : gmap nat sock; next_port : Z;
  (** The streams and sockets in the hands of callers, and their calls. *)
  owned : gset nat; calls : gmap nat call;
  (** The watch channel; the [stop_sockets] between its flag and the table lock,
      [true] for those of [shutdown]. *)
  stopped : option bytes; passes : list bool;
  (** The permits of [notify] and [stopper]. *)
  notify : bool; stopper : bool;
  net_held : bool; task : task_state
}.

Definition with_socks (f : gmap nat sock) (n : net) : net :=
  mk_net (source_v4 n) (source_v6 n) (mtu n) (observer n) f (next_port n) (owned n) (calls n) (stopped n) (passes n)
    (notify n) (stopper n) (net_held n) (task n).
Definition with_port (p : Z) (n : net) : net :=
  mk_net (source_v4 n) (source_v6 n) (mtu n) (observer n) (socks n) p (owned n) (calls n) (stopped n) (passes n)
    (notify n) (stopper n) (net_held n) (task n).
Definition with_calls (o : gset nat) (cs : gmap nat call) (n : net) : net :=
  mk_net (source_v4 n) (source_v6 n) (mtu n) (observer n) (socks n) (next_port n) o cs (stopped n) (passes n)
    (notify n) (stopper n) (net_held n) (task n).
Definition with_stop (r : option bytes) (ps : list bool) (n : net) : net :=
  mk_net (source_v4 n) (source_v6 n) (mtu n) (observer n) (socks n) (next_port n) (owned n) (calls n) r ps
    (notify n) (stopper n) (net_held n) (task n).
Definition with_task (t : task_state) (n : net) : net :=
  mk_net (source_v4 n) (source_v6 n) (mtu n) (observer n) (socks n) (next_port n) (owned n) (calls n) (stopped n) (passes n)
    (notify n) (stopper n) (net_held n) t.
Definition with_permit (p : bool) (n : net) : net :=
  mk_net (source_v4 n) (source_v6 n) (mtu n) (observer n) (socks n) (next_port n) (owned n) (calls n) (stopped n) (passes n)
    (notify n) p (net_held n) (task n).

(** The table as port allocation sees it. *)
Definition table_of (n : net) : SocketTable := mk_table (view <$> socks n) (next_port n).

(** [Net::new_inner] after the interface is set up: an empty table, the task running. *)
Definition net_new (v4 v6 : option IpAddr) (mtu : Z) (observer : option Dataplane.ObserverInner) : net :=
  mk_net v4 v6 mtu observer ∅ (Ports.next_port table_new) ∅ ∅ None [] false false true Running.

(** [Reactor::wake] *)
Definition wake (n : net) : net :=
  mk_net (source_v4 n) (source_v6 n) (mtu n) (Dataplane.record_reactor_wake_call <$> observer n) (socks n) (next_port n)
    (owned n) (calls n) (stopped n) (passes n) true (stopper n) (net_held n) (task n).

(** The strong references to the reactor: the [Net] and every stream or socket.
    [Reactor::drop] leaves a stop permit. *)
Definition alive (n : net) : bool := net_held n || negb (bool_decide (socks n = ∅)).
Definition released (n : net) : net := if alive n then n else with_permit true n.

(** [SocketHandle::drop] with the stream or socket around it. *)
Definition drop_sock (h : nat) (n : net) : net := released (with_socks (delete h (socks n)) n).

Definition set_call (id : nat) (c : call) (n : net) : net := with_calls (owned n) (<[id := c]> (calls n)) n.

(** A call returns; [tcp_connect] hands out the stream or drops it. *)
Definition finish (id : nat) (c : call) (r : res ErrorKind answer) (n : net) : net :=
  let n := set_call id (mk_call (handle c) (what c) (Returned r)) n in
  match what c, r with
  | Connect, Ok _ => with_calls ({[handle c]} ∪ owned n) (calls n) n
  | Connect, _ => drop_sock (handle c) n
  | _, _ => n
  end.

(** Registered wakers fire: calls parked on the sockets of [who] poll again. *)
Definition rouse (who : nat -> bool) (n : net) : net :=
  with_calls (owned n)
    ((fun c => match at_phase c with Parked => if who (handle c) then mk_call (handle c) (what c) Start else c | _ => c end) <$> calls n) n.

(** ** The operations *)

(** [TcpStream::connect] up to its first poll: [h] is the handle [SocketSet::add]
    gives. *)
Definition connect_failed (id h : nat) (e : ErrorKind) (n : net) : net := set_call id (mk_call h Connect (Returned (Err e))) n.
Definition stream_connect (id h : nat) (source : IpAddr) (remote : SocketAddr) (n : net) : net :=
  match allocate_port (table_of n) Tcp (family_of source) 0 with
  | (Ok port, t) =>
      let n := with_port (Ports.next_port t) n in
      match tcp_open source port remote with
      | Some s => wake (set_call id (mk_call h Connect Start) (with_socks (<[h := TcpSock s]> (socks n)) n))
      | None => connect_failed id h Other n
      end
  | (Err e, _) => connect_failed id h e n
  | (Panic, _) => n
  end.

(** [Net::tcp_connect] *)
Definition tcp_connect (id h : nat) (target : SocketAddr) (n : net) : net :=
  match source_for (source_v4 n) (source_v6 n) target with
  | Ok source => stream_connect id h source target n
  | Err e => connect_failed id h e n
  | Panic => n
  end.

(** [UdpSocket::new]: the address is the requested one with the port that was bound. *)
Definition set_port (a : SocketAddr) (p : Z) : SocketAddr :=
  match a with SockV4 ip _ => SockV4 ip p | SockV6 ip _ x => SockV6 ip p x end.
Definition udp_new (h : nat) (source : IpAddr) (local_addr : SocketAddr) (n : net) : res ErrorKind SocketAddr * net :=
  match allocate_port (table_of n) Udp (family_of source) (sa_port local_addr) with
  | (Ok port, t) =>
      let n := with_port (Ports.next_port t) n in
      match udp_open source port with
      | Some u => (Ok (set_port local_addr port),
                   wake (with_calls ({[h]} ∪ owned n) (calls n) (with_socks (<[h := UdpSock u]> (socks n)) n)))
      | None => (Err Other, n)
      end
  | (Err e, _) => (Err e, n)
  | (Panic, _) => (Panic, n)
  end.

(** [Net::udp_bind] *)
Definition udp_bind (h : nat) (addr : SocketAddr) (n : net) : res ErrorKind SocketAddr * net :=
  match source_for (source_v4 n) (source_v6 n) addr with
  | Ok source => udp_new h source addr n
  | Err e => (Err e, n)
  | Panic => (Panic, n)
  end.

(** What a poll answers when the stack has stopped. *)
Definition when_stopped (o : op) : res ErrorKind answer :=
  match o with Shutdown => Ok Nothing | _ => Err ConnectionAborted end.

(** A poll under the table lock, the stop flag having been seen clear.  [None]: the
    table has no such socket, where [SocketSet::get_mut] panics. *)
Definition lift {S A} (g : S -> sock) (f : A -> answer) (p : polled S A) : polled sock answer :=
  mk_polled (match result p with Ready (Ok a) => Ready (Ok (f a)) | Ready (Err e) => Ready (Err e) | Ready Panic => Ready Panic | Pending => Pending end)
    (g (Streams.sock p)) (woke p) (registered p).

Definition poll_send_to (mtu : Z) (buf : bytes) (target : SocketAddr) (u : udp) : polled udp Z :=
  let r := send_to None mtu (udp_capacity u) (fun b t => (udp_send b t u).1) buf target in
  mk_polled r (if send_limit mtu (udp_capacity u) target <? zlen buf then u else (udp_send buf target u).2)
    (match r with Ready (Ok _) => true | _ => false end) (match r with Pending => true | _ => false end).
Definition poll_recv_from (room : Z) (u : udp) : polled udp (bytes * SocketAddr) :=
  let r := recv_from None (udp_recv room u).1 in
  mk_polled r (udp_recv room u).2
    (match r with Ready (Ok _) => true | _ => false end) (match r with Pending => true | _ => false end).

Definition under_lock (mtu : Z) (o : op) (s : sock) : option (polled sock answer) :=
  match o, s with
  | Connect, TcpSock s => Some (lift TcpSock (fun _ => Nothing) (poll_connected None s))
  | Read room, TcpSock s => Some (lift TcpSock Data (poll_read None room s))
  | Write buf, TcpSock s => Some (lift TcpSock Count (poll_write None buf s))
  | Flush, TcpSock s => Some (lift TcpSock (fun _ => Nothing) (poll_flush None s))
  | Shutdown, TcpSock s => Some (lift TcpSock (fun _ => Nothing) (poll_shutdown None s))
  | SendTo buf target, UdpSock u => Some (lift UdpSock Count (poll_send_to mtu buf target u))
  | RecvFrom room, UdpSock u => Some (lift UdpSock (fun x => Datagram x.1 x.2) (poll_recv_from room u))
  | _, _ => None
  end.

(** The first half of a poll, and the second.  Closing a stream changes its state,
    which wakes the calls that wait on it. *)
Definition check (id : nat) (c : call) (n : net) : net :=
  if is_stopped (stopped n) then finish id c (when_stopped (what c)) n
  else set_call id (mk_call (handle c) (what c) Checked) n.

Definition closes (o : op) (s : sock) : bool :=
  match o, s with Shutdown, TcpSock s => is_open s | _, _ => false end.

Definition locked (id : nat) (c : call) (n : net) : net :=
  match s ← socks n !! handle c; p ← under_lock (mtu n) (what c) s; Some (s, p) with
  | None => finish id c Panic n
  | Some (s, p) =>
      let n := with_socks (<[handle c := Streams.sock p]> (socks n)) n in
      let n := if closes (what c) s then rouse (fun h => bool_decide (h = handle c)) n else n in
      let n := if woke p then wake n else n in
      match result p with
      | Pending => set_call id (mk_call (handle c) (what c) Parked) n
      | Ready r => finish id c r n
      end
  end.

(** [stop_sockets] in its two halves: the first reason stays; then every socket is
    aborted or closed, which wakes every call that waits on one. *)
Definition stop_flag (reason : bytes) (from_shutdown : bool) (n : net) : net :=
  with_stop (match stopped n with Some r => Some r | None => Some reason end) (passes n ++ [from_shutdown]) n.
Definition stop_sock (s : sock) : sock :=
  match s with TcpSock s => TcpSock (tcp_abort s) | UdpSock u => UdpSock (udp_close u) end.
Definition stop_all (from_shutdown : bool) (rest : list bool) (n : net) : net :=
  let n := rouse (fun _ => true) (with_stop (stopped n) rest (with_socks (stop_sock <$> socks n) n)) in
  (* the rest of [shutdown]; [notify_waiters] only reaches the running task *)
  if from_shutdown then with_permit true n else n.

(** [terminated] *)
Definition terminated (n : net) : poll bytes := match stopped n with Some r => Ready r | None => Pending end.

(** The reasons. *)
Definition device_ended : bytes := str_bytes "IP packet device 已结束".
Definition reactor_failed (error : bytes) : bytes := str_bytes "IP netstack reactor 已停止: " ++ error.
Definition shut_down : bytes := str_bytes "IP netstack 已主动停止".

(** What the reactor's poll of smoltcp can do to a socket: the endpoint of a TCP
    socket may be cleared, and a closed one stays closed. *)
Definition evolves (s s' : sock) : bool :=
  match s, s' with
  | TcpSock s, TcpSock s' =>
      bool_decide (local (tcp_view s') = local (tcp_view s) \/ local (tcp_view s') = None) &&
      (negb (bool_decide (state s = Closed)) || bool_decide (state s' = Closed))
  | UdpSock u, UdpSock u' => bool_decide (udp_view u' = udp_view u)
  | _, _ => false
  end.

(** ** The events

    Handles and call numbers are chosen fresh.  A stream or socket has at most one
    call in progress for each of its two wakers: the methods of [TcpStream] take
    it by exclusive reference, and the users of [UdpSocket] receive in one task. *)
Definition slot (o : op) : bool := match o with Read _ | RecvFrom _ => true | _ => false end.
Definition busy (h : nat) (o : op) (n : net) : bool :=
  existsb (fun e => live e.2 && (handle e.2 =? h)%nat && Bool.eqb (slot (what e.2)) (slot o)) (map_to_list (calls n)).
Definition in_use (h : nat) (n : net) : bool := existsb (fun e => live e.2 && (handle e.2 =? h)%nat) (map_to_list (calls n)).
Definition is_kind (t : Transport) (s : sock) : bool := match t, s with Tcp, TcpSock _ | Udp, UdpSock _ => true | _, _ => false end.

Inductive event :=
| EConnect (id h : nat) (target : SocketAddr)
| EBind (h : nat) (addr : SocketAddr)
| ECall (id h : nat) (o : op)
| EPoll (id : nat)
| ESmol (h : nat) (s : sock)
| EEnd (error : option bytes)
| EStopSeen
| ETaskStop
| EStopAll
| EShutdown
| ECancel (id : nat)
| EDrop (h : nat)
| EDropNet.

(** [None]: the event cannot happen. *)
Definition apply (e : event) (n : net) : option net :=
  match e with
  | EConnect id h target =>
      if net_held n && bool_decide (socks n !! h = None) && bool_decide (calls n !! id = None) then Some (tcp_connect id h target n) else None
  | EBind h addr =>
      if net_held n && bool_decide (socks n !! h = None) && (0 <=? sa_port addr) && (sa_port addr <=? U16_MAX)
      then Some (udp_bind h addr n).2 else None
  | ECall id h o =>
      match o, socks n !! h with
      | Connect, _ | _, None => None
      | _, Some s =>
          if bool_decide (h ∈ owned n) && bool_decide (calls n !! id = None) && is_kind (transport_of o) s && negb (busy h o n)
          then Some (set_call id (mk_call h o Start) n) else None
      end
  | EPoll id =>
      c ← calls n !! id;
      match at_phase c with
      | Start | Parked => Some (check id c n)
      | Checked => Some (locked id c n)
      | Returned _ => None
      end
  | ESmol h s' =>
      match task n, socks n !! h with
      | Running, Some s => if evolves s s' then Some (rouse (fun x => bool_decide (x = h)) (with_socks (<[h := s']> (socks n)) n)) else None
      | _, _ => None
      end
  | EEnd error => match task n with Running => Some (with_task (Ended error) n) | _ => None end
  | EStopSeen => match task n with Running => if stopper n then Some (with_task (Ended None) (with_permit false n)) else None | _ => None end
  | ETaskStop =>
      match task n with
      | Ended error =>
          let n := with_task Finished n in
          Some (if alive n then stop_flag (match error with None => device_ended | Some e => reactor_failed e end) false n else n)
      | _ => None
      end
  | EStopAll => match passes n with [] => None | b :: rest => Some (stop_all b rest n) end
  | EShutdown => if net_held n then Some (stop_flag shut_down true n) else None
  | ECancel id =>
      c ← calls n !! id;
      if live c then
        let n := with_calls (owned n) (delete id (calls n)) n in
        Some (match what c with Connect => drop_sock (handle c) n | _ => n end)
      else None
  | EDrop h =>
      if bool_decide (h ∈ owned n) && negb (in_use h n) then Some (drop_sock h (with_calls (owned n ∖ {[h]}) (calls n) n)) else None
  | EDropNet =>
      if net_held n
      then Some (released (mk_net (source_v4 n) (source_v6 n) (mtu n) (observer n) (socks n) (next_port n) (owned n) (calls n)
                             (stopped n) (passes n) (notify n) (stopper n) false (task n)))
      else None
  end.

Fixpoint run (es : list event) (n : net) : option net :=
  match es with [] => Some n | e :: es => n ← apply e n; run es n end.
End life.
End NetLife.

(** ** Ownership, ports and the stop *)
Module NetLifeFacts.
Import Ports PortsFacts Streams NetLife.

Section facts.
Context {M : Smol}.

Definition kind_of (s : sock) : Transport := match s with TcpSock _ => Tcp | UdpSock _ => Udp end.
Lemma is_kind_of t s : is_kind t s = true <-> kind_of s = t.
Proof. destruct t, s; done. Qed.

(** What ownership depends on: the kinds of the sockets, and for each call its
    handle, its operation and whether it is in progress. *)
Definition shape (c : call) : nat * op * bool := (handle c, what c, live c).
Abbreviation kinds n := (kind_of <$> socks n).
Abbreviation shapes n := (shape <$> calls n).

Lemma op_eq_connect (w : op) : w = Connect \/ w <> Connect.
Proof. destruct w; auto. Qed.

Record owned_ok (k : gmap nat Transport) (o : gset nat) (sh : gmap nat (nat * op * bool)) : Prop := mk_owned_ok {
  ok_connect id h : sh !! id = Some (h, Connect, true) -> (h ∉ o) /\ k !! h = Some Tcp;
  ok_call id h w : sh !! id = Some (h, w, true) -> w <> Connect -> h ∈ o /\ k !! h = Some (transport_of w);
  ok_alone id id' h : sh !! id = Some (h, Connect, true) -> sh !! id' = Some (h, Connect, true) -> id = id';
  ok_table h t : k !! h = Some t -> h ∈ o \/ exists id, sh !! id = Some (h, Connect, true);
  ok_owned h : h ∈ o -> is_Some (k !! h)
}.

Definition wf (n : net) : Prop := owned_ok (kinds n) (owned n) (shapes n).

(** [sh'] is [sh] without the live call [id]. *)
Definition retired (id : nat) (sh sh' : gmap nat (nat * op * bool)) : Prop :=
  forall id' h w, sh' !! id' = Some (h, w, true) <-> id' <> id /\ sh !! id' = Some (h, w, true).

Lemma retired_insert id sh h w : retired id sh (<[id := (h, w, false)]> sh).
Proof. intros id' h' w'. rewrite lookup_insert_Some. naive_solver. Qed.
Lemma retired_delete id sh : retired id sh (delete id sh).
Proof. intros id' h' w'. rewrite lookup_delete_Some. naive_solver. Qed.

Section moves.
Context {k : gmap nat Transport} {o : gset nat} {sh : gmap nat (nat * op * bool)} (K : owned_ok k o sh).

Lemma owned_connect id h : k !! h = None -> sh !! id = None -> owned_ok (<[h := Tcp]> k) o (<[id := (h, Connect, true)]> sh).
Proof.
  destruct K as [K1 K2 K3 K4 K5]. intros Hh Hi. assert (Ho : h ∉ o) by (intros Hx; destruct (K5 _ Hx); simplify_eq).
  assert (Hs : forall id w, sh !! id = Some (h, w, true) -> False).
  { intros i w Hl. destruct (op_eq_connect w) as [->|Hw]; [by destruct (K1 _ _ Hl); simplify_eq|by destruct (K2 _ _ _ Hl Hw); simplify_eq]. }
  constructor.
  - intros i x. rewrite !lookup_insert_Some. intros [[<- [= <-]]|[Hn Hl]]; [by auto|]. destruct (K1 _ _ Hl). split; [done|]. right. split; [intros <-; simplify_eq|done].
  - intros i x w. rewrite !lookup_insert_Some. intros [[<- [= <- <-]]|[Hn Hl]] Hw; [done|]. destruct (K2 _ _ _ Hl Hw). split; [done|]. right. split; [intros <-; simplify_eq|done].
  - intros i j x. rewrite !lookup_insert_Some. intros [[<- [= <-]]|[Hn Hl]] [[<- [= ]]|[Hn' Hl']]; [done|naive_solver|naive_solver|by eapply K3].
  - intros x t. rewrite lookup_insert_Some. intros [[<- <-]|[Hn Hl]]; [right; exists id; by rewrite lookup_insert_eq|].
    destruct (K4 _ _ Hl) as [?|[i Hx]]; [by left|]. right. exists i. rewrite lookup_insert_ne; [done|]. intros <-; simplify_eq.
  - intros x Hx. destruct (decide (x = h)) as [->|Hn]; [by rewrite lookup_insert_eq|]. rewrite lookup_insert_ne by done. by apply K5.
Qed.

Lemma owned_bind h : k !! h = None -> owned_ok (<[h := Udp]> k) ({[h]} ∪ o) sh.
Proof.
  destruct K as [K1 K2 K3 K4 K5]. intros Hh. constructor.
  - intros i x Hl. destruct (K1 _ _ Hl) as [H1 H2]. assert (x <> h) by (intros ->; simplify_eq). rewrite lookup_insert_ne by done. set_solver.
  - intros i x w Hl Hw. destruct (K2 _ _ _ Hl Hw) as [H1 H2]. assert (x <> h) by (intros ->; simplify_eq). rewrite lookup_insert_ne by done. set_solver.
  - done.
  - intros x t. rewrite lookup_insert_Some. intros [[<- <-]|[Hn Hl]]; [set_solver|]. destruct (K4 _ _ Hl); set_solver.
  - intros x Hx. destruct (decide (x = h)) as [->|Hn]; [by rewrite lookup_insert_eq|]. rewrite lookup_insert_ne by done. apply K5. set_solver.
Qed.

Lemma owned_call id h w : sh !! id = None -> h ∈ o -> k !! h = Some (transport_of w) -> w <> Connect ->
  owned_ok k o (<[id := (h, w, true)]> sh).
Proof.
  destruct K as [K1 K2 K3 K4 K5]. intros Hi Ho Hk Hw. constructor; [..|done].
  - intros i x. rewrite lookup_insert_Some. intros [[<- [= ]]|[Hn Hl]]; [done|by eapply K1].
  - intros i x w'. rewrite lookup_insert_Some. intros [[<- [= <- <-]]|[Hn Hl]] Hw'; [done|by eapply K2].
  - intros i j x. rewrite !lookup_insert_Some. intros [[<- [= ]]|[Hn Hl]] [[<- [= ]]|[Hn' Hl']]; [done|done|done|by eapply K3].
  - intros x t Hx. destruct (K4 _ _ Hx) as [?|[i Hl]]; [by left|]. right. exists i. rewrite lookup_insert_ne; [done|]. intros <-; simplify_eq.
Qed.

(** A record of a call that has returned changes nothing. *)
Lemma owned_failed id h w : sh !! id = None -> owned_ok k o (<[id := (h, w, false)]> sh).
Proof.
  destruct K as [K1 K2 K3 K4 K5]. intros Hi.
  assert (He : forall i x v, <[id := (h, w, false)]> sh !! i = Some (x, v, true) <-> sh !! i = Some (x, v, true)).
  { intros i x v. rewrite lookup_insert_Some. split; [naive_solver|]. intros Hl. right. split; [intros <-; simplify_eq|done]. }
  constructor; [intros i x|intros i x v|intros i j x|intros x t Hx|done]; rewrite ?He; [by apply K1|by apply K2|by apply K3|].
  destruct (K4 _ _ Hx) as [?|[i Hl]]; [by left|]. right. exists i. by rewrite He.
Qed.

Lemma owned_return id h w sh' : retired id sh sh' -> sh !! id = Some (h, w, true) -> w <> Connect -> owned_ok k o sh'.
Proof.
  destruct K as [K1 K2 K3 K4 K5]. intros Hr Hi Hw. constructor; [..|done].
  - intros i x [Hn Hl]%Hr. by eapply K1.
  - intros i x v [Hn Hl]%Hr. by eapply K2.
  - intros i j x [Hn Hl]%Hr [Hm Hk]%Hr. by eapply K3.
  - intros x t Hx. destruct (K4 _ _ Hx) as [?|[i Hl]]; [by left|]. right. exists i. apply Hr. split; [|done]. intros ->. simplify_eq.
Qed.

Lemma owned_connected id h sh' : retired id sh sh' -> sh !! id = Some (h, Connect, true) -> owned_ok k ({[h]} ∪ o) sh'.
Proof.
  destruct K as [K1 K2 K3 K4 K5]. intros Hr Hi. destruct (K1 _ _ Hi) as [Ho Hk]. constructor.
  - intros i x [Hn Hl]%Hr. destruct (K1 _ _ Hl). assert (x <> h) by (intros ->; eauto). set_solver.
  - intros i x v [Hn Hl]%Hr Hv. destruct (K2 _ _ _ Hl Hv). set_solver.
  - intros i j x [Hn Hl]%Hr [Hm Hx]%Hr. by eapply K3.
  - intros x t Hx. destruct (decide (x = h)) as [->|Hn]; [set_solver|]. destruct (K4 _ _ Hx) as [?|[i Hl]]; [set_solver|].
    right. exists i. apply Hr. split; [|done]. intros ->. simplify_eq.
  - intros x Hx. destruct (decide (x = h)) as [->|Hn]; [by rewrite Hk|]. apply K5. set_solver.
Qed.

Lemma owned_dropped id h sh' : retired id sh sh' -> sh !! id = Some (h, Connect, true) -> owned_ok (delete h k) o sh'.
Proof.
  destruct K as [K1 K2 K3 K4 K5]. intros Hr Hi. destruct (K1 _ _ Hi) as [Ho Hk]. constructor.
  - intros i x [Hn Hl]%Hr. destruct (K1 _ _ Hl). split; [done|]. rewrite lookup_delete_ne; [done|]. intros <-. eauto.
  - intros i x v [Hn Hl]%Hr Hv. destruct (K2 _ _ _ Hl Hv). split; [done|]. rewrite lookup_delete_ne; [done|]. by intros <-.
  - intros i j x [Hn Hl]%Hr [Hm Hx]%Hr. by eapply K3.
  - intros x t. rewrite lookup_delete_Some. intros [Hn Hx]. destruct (K4 _ _ Hx) as [?|[i Hl]]; [by left|]. right. exists i. apply Hr. split; [|done].
    intros ->. simplify_eq.
  - intros x Hx. rewrite lookup_delete_ne; [by apply K5|]. by intros <-.
Qed.

Lemma owned_drop h : h ∈ o -> (forall id w, sh !! id <> Some (h, w, true)) -> owned_ok (delete h k) (o ∖ {[h]}) sh.
Proof.
  destruct K as [K1 K2 K3 K4 K5]. intros Ho Hn. constructor.
  - intros i x Hl. destruct (K1 _ _ Hl). split; [set_solver|]. rewrite lookup_delete_ne; [done|]. by intros <-.
  - intros i x v Hl Hv. destruct (K2 _ _ _ Hl Hv). assert (x <> h) by (intros ->; by eapply Hn). rewrite lookup_delete_ne by done. set_solver.
  - done.
  - intros x t. rewrite lookup_delete_Some. intros [Hx Hl]. destruct (K4 _ _ Hl); [left; set_solver|by right].
  - intros x Hx. rewrite lookup_delete_ne by set_solver. apply K5. set_solver.
Qed.
End moves.

(** *** Ownership is kept by every event *)
Lemma wf_new v4 v6 m o : wf (net_new v4 v6 m o).
Proof.
  unfold wf, net_new. cbn. rewrite !fmap_empty. constructor; intros *; rewrite ?lookup_empty; [done..|set_solver].
Qed.

Lemma rouse_shapes who n : shapes (rouse who n) = shapes n.
Proof.
  cbn. rewrite <-map_fmap_compose. apply map_fmap_ext. intros i c _. unfold compose, shape, live.
  destruct c as [h w []]; cbn; try done. by destruct (who h).
Qed.

Lemma released_eq n : kinds (released n) = kinds n /\ owned (released n) = owned n /\ shapes (released n) = shapes n.
Proof. unfold released. by destruct (alive n). Qed.

Lemma wf_released n : wf (released n) <-> wf n.
Proof. unfold wf. destruct (released_eq n) as (-> & -> & ->). done. Qed.

Lemma wf_finish id c r n : wf n -> calls n !! id = Some c -> live c = true -> wf (finish id c r n).
Proof.
  intros K Hc Hl. assert (Hs : shapes n !! id = Some (handle c, what c, true)) by (rewrite lookup_fmap, Hc; unfold shape; cbn; by rewrite Hl).
  unfold finish. destruct (op_eq_connect (what c)) as [Hw|Hw].
  - rewrite Hw in *. destruct r as [a|e|].
    + unfold wf. cbn. rewrite fmap_insert. eapply owned_connected; [exact K|apply retired_insert|exact Hs].
    + unfold drop_sock. apply wf_released. unfold wf. cbn. rewrite fmap_insert, fmap_delete.
      eapply owned_dropped; [exact K|apply retired_insert|exact Hs].
    + unfold drop_sock. apply wf_released. unfold wf. cbn. rewrite fmap_insert, fmap_delete.
      eapply owned_dropped; [exact K|apply retired_insert|exact Hs].
  - replace (match what c with Connect => _ | _ => _ end) with (set_call id (mk_call (handle c) (what c) (Returned r)) n) by (destruct (what c); done).
    unfold wf. cbn. rewrite fmap_insert. eapply owned_return; [exact K|apply retired_insert|exact Hs|exact Hw].
Qed.

(** A call that stays in progress. *)
Lemma wf_set_call id c ph n : wf n -> calls n !! id = Some c -> live c = true -> live (mk_call (handle c) (what c) ph) = true ->
  wf (set_call id (mk_call (handle c) (what c) ph) n).
Proof.
  intros K Hc Hl Hp. unfold wf. cbn. rewrite fmap_insert, insert_id; [exact K|]. rewrite lookup_fmap, Hc. unfold shape. cbn. by rewrite Hl, Hp.
Qed.

(** A socket replaced by one of its kind. *)
Lemma wf_write h s s' n : wf n -> socks n !! h = Some s -> kind_of s' = kind_of s -> wf (with_socks (<[h := s']> (socks n)) n).
Proof. intros K Hs Hk. unfold wf. cbn. rewrite fmap_insert, insert_id; [exact K|]. by rewrite lookup_fmap, Hs, Hk. Qed.

Lemma wf_rouse who n : wf n -> wf (rouse who n).
Proof. unfold wf. rewrite rouse_shapes. done. Qed.

Lemma under_lock_kind m o s p : under_lock m o s = Some p -> kind_of (Streams.sock p) = kind_of s /\ kind_of s = transport_of o.
Proof. destruct o, s; cbn; intros [= <-]; done. Qed.

Lemma under_lock_total m o s : kind_of s = transport_of o -> is_Some (under_lock m o s).
Proof. destruct o, s; cbn; done. Qed.

(** A live call finds its socket in the table, of its kind. *)
Lemma call_socket n id c : wf n -> calls n !! id = Some c -> live c = true ->
  exists s p, socks n !! handle c = Some s /\ under_lock (mtu n) (what c) s = Some p /\ kind_of (Streams.sock p) = kind_of s.
Proof.
  intros K Hc Hl. assert (Hs : shapes n !! id = Some (handle c, what c, true)) by (rewrite lookup_fmap, Hc; unfold shape; cbn; by rewrite Hl).
  assert (Hk : kinds n !! handle c = Some (transport_of (what c))).
  { destruct (op_eq_connect (what c)) as [Hw|Hw]; [rewrite Hw in *; apply (ok_connect _ _ _ K _ _ Hs)|apply (ok_call _ _ _ K _ _ _ Hs Hw)]. }
  rewrite lookup_fmap in Hk. destruct (socks n !! handle c) as [s|] eqn:Hx; [|done]. injection Hk as Hk.
  destruct (under_lock_total (mtu n) _ _ Hk) as [p Hp]. exists s, p. split; [done|]. split; [done|]. eapply under_lock_kind; eauto.
Qed.

Lemma locked_eq n id c s p : socks n !! handle c = Some s -> under_lock (mtu n) (what c) s = Some p ->
  exists n1, locked id c n = match result p with Pending => set_call id (mk_call (handle c) (what c) Parked) n1 | Ready r => finish id c r n1 end /\
    n1 = (fun n => if woke p then wake n else n) ((fun n => if closes (what c) s then rouse (fun h => bool_decide (h = handle c)) n else n)
      (with_socks (<[handle c := Streams.sock p]> (socks n)) n)).
Proof. intros Hs Hp. unfold locked. rewrite Hs. cbn [mbind option_bind]. rewrite Hp. cbn [mbind option_bind]. eexists. split; done. Qed.

Lemma wf_locked id c n : wf n -> calls n !! id = Some c -> at_phase c = Checked -> wf (locked id c n).
Proof.
  intros K Hc Hp. assert (Hl : live c = true) by (unfold live; by rewrite Hp).
  destruct (call_socket n id c K Hc Hl) as (s & p & Hs & Hu & Hk). destruct (locked_eq n id c s p Hs Hu) as (n1 & -> & ->).
  assert (K1 : wf (with_socks (<[handle c := Streams.sock p]> (socks n)) n)) by (eapply wf_write; eauto).
  set (n1 := with_socks _ n) in *. assert (Hc1 : calls n1 !! id = Some c) by done. clearbody n1. cbv beta.
  assert (H2 : exists n2, wf n2 /\ calls n2 !! id = Some c /\ n2 = (if closes (what c) s then rouse (fun h => bool_decide (h = handle c)) n1 else n1)).
  { eexists. split_and!; [| |reflexivity]; destruct (closes _ _); [by apply wf_rouse|done| |done].
    cbn. rewrite lookup_fmap, Hc1. cbn. by rewrite Hp. }
  destruct H2 as (n2 & K2 & Hc2 & <-).
  assert (K3 : wf (if woke p then wake n2 else n2)) by (by destruct (woke p)).
  assert (Hc3 : calls (if woke p then wake n2 else n2) !! id = Some c) by (by destruct (woke p)).
  destruct (result p); [by apply wf_finish|by apply wf_set_call].
Qed.

Lemma in_use_false h n id w : in_use h n = false -> shapes n !! id <> Some (h, w, true).
Proof.
  intros Hu. rewrite lookup_fmap. destruct (calls n !! id) as [c|] eqn:Hc; [|done]. cbn. unfold shape. intros [= Hh Hw Hl].
  assert (Ht : in_use h n = true); [|congruence]. unfold in_use. apply existsb_exists. exists (id, c).
  split; [by apply list_elem_of_In, elem_of_map_to_list|]. cbn. rewrite Hl, Hh. by apply Nat.eqb_eq.
Qed.

Lemma wf_tcp_connect id h target n : wf n -> socks n !! h = None -> calls n !! id = None -> wf (tcp_connect id h target n).
Proof.
  intros K Hh Hi. unfold tcp_connect, stream_connect, connect_failed.
  assert (Hf : forall n' e, kinds n' = kinds n -> owned n' = owned n -> calls n' = calls n -> wf (set_call id (mk_call h Connect (Returned (Err e))) n')).
  { intros n' e H1 H2 H3. unfold wf. cbn. rewrite H1, H2, H3, fmap_insert. apply owned_failed; [exact K|]. by rewrite lookup_fmap, Hi. }
  destruct (source_for _ _ _) as [source|e|]; [|by apply Hf|done]. destruct (allocate_port _ _ _ _) as [[port|e|] t]; [|by apply Hf|done].
  destruct (tcp_open source port target) as [s|]; [|by apply Hf]. unfold wf. cbn. rewrite !fmap_insert.
  apply owned_connect; [exact K|by rewrite lookup_fmap, Hh|by rewrite lookup_fmap, Hi].
Qed.

Lemma wf_udp_bind h addr n : wf n -> socks n !! h = None -> wf (udp_bind h addr n).2.
Proof.
  intros K Hh. unfold udp_bind, udp_new. destruct (source_for _ _ _) as [source|e|]; [|done|done].
  destruct (allocate_port _ _ _ _) as [[port|e|] t]; [|done|done]. destruct (udp_open source port) as [u|]; [|done].
  unfold wf. cbn. rewrite fmap_insert. apply owned_bind; [exact K|]. by rewrite lookup_fmap, Hh.
Qed.

Lemma wf_cancel id c n : wf n -> calls n !! id = Some c -> live c = true ->
  wf (let n := with_calls (owned n) (delete id (calls n)) n in match what c with Connect => drop_sock (handle c) n | _ => n end).
Proof.
  intros K Hc Hl. assert (Hs : shapes n !! id = Some (handle c, what c, true)) by (rewrite lookup_fmap, Hc; unfold shape; cbn; by rewrite Hl).
  cbv zeta. destruct (op_eq_connect (what c)) as [Hw|Hw].
  - rewrite Hw in *. unfold drop_sock. apply wf_released. unfold wf. cbn. rewrite !fmap_delete.
    eapply owned_dropped; [exact K|apply retired_delete|exact Hs].
  - match goal with |- wf ?x => replace x with (with_calls (owned n) (delete id (calls n)) n) by (destruct (what c); done) end.
    unfold wf. cbn. rewrite fmap_delete. eapply owned_return; [exact K|apply retired_delete|exact Hs|exact Hw].
Qed.

Lemma evolves_kind s s' : evolves s s' = true -> kind_of s' = kind_of s.
Proof. destruct s, s'; done. Qed.

Lemma wf_apply e n n' : wf n -> apply e n = Some n' -> wf n'.
Proof.
  intros K. destruct e as [id h target|h addr|id h o|id|h s'|err| | | | |id|h| ]; cbn [apply]; intros H.
  - destruct (_ && _) eqn:Hg; [|done]. guards. injection H as <-. by apply wf_tcp_connect.
  - destruct (_ && _) eqn:Hg; [|done]. guards. injection H as <-. by apply wf_udp_bind.
  - assert (Ho : o <> Connect) by (by intros ->). destruct (socks n !! h) as [s|] eqn:Hs; [|by destruct o].
    assert (H' : (if bool_decide (h ∈ owned n) && bool_decide (calls n !! id = None) && is_kind (transport_of o) s && negb (busy h o n)
      then Some (set_call id (mk_call h o Start) n) else None) = Some n') by (by destruct o).
    destruct (_ && _) eqn:Hg; [|done]. guards. injection H' as <-.
    assert (Hi : calls n !! id = None) by done. assert (Hk : is_kind (transport_of o) s = true) by done. unfold wf. cbn. rewrite fmap_insert.
    apply owned_call; [exact K|by rewrite lookup_fmap, Hi|done| |done].
    cbn. rewrite lookup_fmap, Hs. cbn. by rewrite (proj1 (is_kind_of _ _) Hk).
  - destruct (calls n !! id) as [c|] eqn:Hc; [|done]. cbn [mbind option_bind] in H.
    assert (Hl : live c = true) by (unfold live; by destruct (at_phase c)).
    assert (Hck : wf (check id c n)) by (unfold check; destruct (is_stopped _); [by apply wf_finish|by apply wf_set_call]).
    destruct (at_phase c) eqn:Hp; try done; injection H as <-; [done|by apply wf_locked|done].
  - destruct (task n); [|done|done]. destruct (socks n !! h) as [s|] eqn:Hs; [|done]. destruct (evolves s s') eqn:He; [|done]. injection H as <-.
    apply wf_rouse. eapply wf_write; [done|done|by apply evolves_kind].
  - destruct (task n); [|done..]. by injection H as <-.
  - destruct (task n); [|done..]. destruct (stopper n); [|done]. by injection H as <-.
  - destruct (task n); [done| |done]. injection H as <-. by destruct (alive _).
  - destruct (passes n) as [|b rest]; [done|]. injection H as <-. unfold stop_all.
    assert (K' : wf (rouse (fun _ => true) (with_stop (stopped n) rest (with_socks (stop_sock <$> socks n) n)))).
    { apply wf_rouse. unfold wf. cbn. rewrite <-map_fmap_compose.
      rewrite (map_fmap_ext _ kind_of); [exact K|]. intros i [s|u] _; done. }
    by destruct b.
  - destruct (net_held n); [|done]. by injection H as <-.
  - destruct (calls n !! id) as [c|] eqn:Hc; [|done]. cbn [mbind option_bind] in H. destruct (live c) eqn:Hl; [|done]. injection H as <-.
    by apply wf_cancel.
  - destruct (_ && _) eqn:Hg; [|done]. guards. injection H as <-. unfold drop_sock. apply wf_released. unfold wf. cbn.
    rewrite fmap_delete. apply owned_drop; [exact K|done|]. intros id w. by apply in_use_false.
  - destruct (net_held n); [|done]. injection H as <-. by apply wf_released.
Qed.

(** *** Sockets under the lock *)
Context {L : SmolLaws M}.

Definition dead (s : sock) : Prop :=
  match s with TcpSock s => state s = Closed | UdpSock u => udp_view u = (None, 0) end.
(** The operations that can wait on a dead socket. *)
Definition lingers (o : op) : bool := match o with Flush | RecvFrom _ => true | _ => false end.

(** The endpoint a socket is bound to. *)
Definition bound (s : sock) : option (IpAddr * Z) :=
  match s with
  | TcpSock s => local (tcp_view s)
  | UdpSock u => a ← (udp_view u).1; Some (a, (udp_view u).2)
  end.

(** It stays the same, or is given up. *)
Definition narrows (s s' : sock) : Prop := kind_of s' = kind_of s /\ (bound s' = bound s \/ bound s' = None).

Lemma narrows_refl s : narrows s s.
Proof. split; [done|by left]. Qed.

Lemma narrows_weaker s s' : narrows s s' -> weaker (view s') (view s).
Proof.
  intros [Hk Hb] t f p. destruct s as [s|u], s' as [s'|u']; try done; cbn in *.
  - destruct t; cbn; [|done]. by destruct Hb as [-> | ->].
  - destruct t; cbn; [done|]. destruct (udp_view u) as [a q], (udp_view u') as [a' q']; cbn in *. destruct a' as [a'|]; [|done].
    cbn in Hb. destruct a as [a|]; cbn in Hb; destruct Hb as [[= <- <-]|[=]]. done.
Qed.

Lemma narrows_tcp s s' : local (tcp_view s') = local (tcp_view s) \/ local (tcp_view s') = None -> narrows (TcpSock s) (TcpSock s').
Proof. by split. Qed.

Lemma narrows_udp u u' : udp_view u' = udp_view u -> narrows (UdpSock u) (UdpSock u').
Proof. intros H. split; [done|]. left. cbn. by rewrite H. Qed.

Lemma under_lock_narrows m o s p : under_lock m o s = Some p -> narrows s (Streams.sock p).
Proof.
  destruct o, s as [s|u]; cbn [under_lock]; intros [= <-]; cbn [lift Streams.sock];
    unfold poll_connected, poll_read, poll_write, poll_flush, poll_shutdown, poll_send_to, poll_recv_from; cbn [is_stopped].
  - apply narrows_tcp. left. by destruct (state s).
  - apply narrows_tcp. left. pose proof (recv_keeps room s) as [_ H]. destruct (negb _); [done|]. destruct (can_recv s); [|done].
    destruct (recv_slice room s) as [[]]; exact H.
  - apply narrows_tcp. left. pose proof (send_keeps buf s) as [_ H]. destruct (negb _); [done|]. destruct (can_send s); [|done].
    destruct (send_slice buf s) as [[]]; exact H.
  - apply narrows_tcp. left. by destruct (_ =? _).
  - apply narrows_tcp. left. destruct (is_open s); case_bool_decide; try done; apply close_local.
  - apply narrows_udp. cbn. destruct (_ <? _); [done|]. apply udp_send_view.
  - apply narrows_udp. apply udp_recv_view.
Qed.

(** A dead socket stays dead, and only a flush or a receive waits on it. *)
Lemma under_lock_dead m o s p : under_lock m o s = Some p -> dead s ->
  dead (Streams.sock p) /\ closes o s = false /\ (result p = Pending -> lingers o = true).
Proof.
  destruct o, s as [s|u]; cbn [under_lock]; intros [= <-] Hd; cbn [dead] in Hd; cbn [lift Streams.sock result closes lingers dead];
    unfold poll_connected, poll_read, poll_write, poll_flush, poll_shutdown, poll_send_to, poll_recv_from; cbn [is_stopped].
  - by rewrite Hd.
  - pose proof (recv_keeps room s) as [H _]. destruct (may_recv s) eqn:Hm; cbn [negb]; [|done]. rewrite (closed_recv s Hd Hm).
    destruct (recv_slice room s) as [[]]; cbn in *; split_and!; try done; congruence.
  - by rewrite (closed_send s Hd).
  - by destruct (_ =? _).
  - rewrite (closed_shut s Hd). rewrite bool_decide_eq_true_2 by done. done.
  - split_and!; [cbn; destruct (_ <? _); [done|]; by rewrite udp_send_view|done|]. unfold send_to. cbn [is_stopped result].
    destruct (_ <? _); [done|]. pose proof (udp_unbound buf target u Hd). by destruct (udp_send buf target u).1.
  - split_and!; [|done|done]. cbn. by rewrite udp_recv_view.
Qed.

Lemma stop_sock_dead s : dead (stop_sock s).
Proof. destruct s; [apply abort_state|apply udp_close_view]. Qed.

Lemma stop_sock_narrows s : narrows s (stop_sock s).
Proof.
  destruct s; [apply narrows_tcp; left; apply abort_local|]. split; [done|]. right. cbn. by rewrite udp_close_view.
Qed.

Lemma evolves_spec s s' : evolves s s' = true -> narrows s s' /\ (dead s -> dead s').
Proof.
  destruct s as [s|u], s' as [s'|u']; cbn; try done; intros H; guards.
  - split; [by apply narrows_tcp|]. intros Hd. match goal with H : _ \/ _ |- _ => destruct H as [H|H] end; guards; done.
  - split; [by apply narrows_udp|]. congruence.
Qed.

(** *** Ports stay unique *)
Definition settings (n : net) : option IpAddr * option IpAddr * Z := (source_v4 n, source_v6 n, mtu n).
Definition shrinks (n n' : net) : Prop :=
  settings n' = settings n /\ next_port n' = next_port n /\
  forall h x', socks n' !! h = Some x' -> exists x, socks n !! h = Some x /\ narrows x x'.

Lemma shrinks_refl n : shrinks n n.
Proof. split_and!; [done|done|]. intros h x Hx. exists x. split; [done|apply narrows_refl]. Qed.

Lemma shrinks_same n n' : settings n' = settings n -> next_port n' = next_port n -> socks n' = socks n -> shrinks n n'.
Proof. intros H1 H2 H3. destruct (shrinks_refl n) as (_ & _ & H). split_and!; [done|done|]. by rewrite H3. Qed.

Lemma shrinks_trans a b c : shrinks a b -> shrinks b c -> shrinks a c.
Proof.
  intros (S1 & P1 & H1) (S2 & P2 & H2). split_and!; [congruence|congruence|]. intros h x Hx. destruct (H2 _ _ Hx) as (y & Hy & K1 & W1).
  destruct (H1 _ _ Hy) as (z & Hz & K2 & W2). exists z. split; [done|]. split; [congruence|]. destruct W1 as [-> | ->]; auto.
Qed.

Lemma shrinks_table n n' : shrinks n n' -> table_ok (table_of n) -> table_ok (table_of n').
Proof.
  intros (_ & Hp & Hs) [He Hu]. split; [cbn; by rewrite Hp|]. revert Hu. apply unique_weaken. intros h v. cbn. rewrite lookup_fmap_Some.
  intros (x' & <- & Hx). destruct (Hs _ _ Hx) as (x & Hl & Hw). exists (view x). split; [by rewrite lookup_fmap, Hl|by apply narrows_weaker].
Qed.

Lemma shrinks_drop h n : shrinks n (drop_sock h n).
Proof.
  assert (H : shrinks n (with_socks (delete h (socks n)) n)).
  { split_and!; [done|done|]. intros i x. cbn. rewrite lookup_delete_Some. intros [_ Hx]. exists x. split; [done|apply narrows_refl]. }
  eapply shrinks_trans; [exact H|]. unfold drop_sock, released. destruct (alive _); by apply shrinks_same.
Qed.

Lemma shrinks_write h x x' n : socks n !! h = Some x -> narrows x x' -> shrinks n (with_socks (<[h := x']> (socks n)) n).
Proof.
  intros Hx Hw. split_and!; [done|done|]. intros i y. cbn. rewrite lookup_insert_Some. intros [[<- <-]|[_ Hy]]; [by exists x|].
  exists y. split; [done|apply narrows_refl].
Qed.

Lemma shrinks_finish id c r n : shrinks n (finish id c r n).
Proof.
  assert (H0 : shrinks n (set_call id (mk_call (handle c) (what c) (Returned r)) n)) by (by apply shrinks_same).
  unfold finish. destruct (what c), r; first [exact H0|eapply shrinks_trans; [exact H0|apply shrinks_drop]|by apply shrinks_same].
Qed.

Lemma shrinks_locked id c n : wf n -> calls n !! id = Some c -> live c = true -> shrinks n (locked id c n).
Proof.
  intros K Hc Hl. destruct (call_socket n id c K Hc Hl) as (s & p & Hs & Hu & _). destruct (locked_eq n id c s p Hs Hu) as (n1 & -> & ->).
  eapply shrinks_trans; [apply (shrinks_write (handle c) s (Streams.sock p) n Hs (under_lock_narrows _ _ _ _ Hu))|].
  eapply shrinks_trans; [|destruct (result p); [apply shrinks_finish|by apply shrinks_same]].
  destruct (woke p), (closes _ _); by apply shrinks_same.
Qed.

Lemma allocate_sockets t tr f q r t' : allocate_port t tr f q = (r, t') -> sockets t' = sockets t.
Proof. unfold allocate_port. destruct (select_port _ _ _) as [[]]; intros [= <- <-]; done. Qed.

Lemma table_tcp_connect id h target n : socks n !! h = None -> table_ok (table_of n) -> table_ok (table_of (tcp_connect id h target n)).
Proof.
  intros Hh Hok. unfold tcp_connect, stream_connect, connect_failed. destruct (source_for _ _ _) as [source|e|]; [|done|done].
  destruct (allocate_port _ _ _ _) as [r t] eqn:Ha. pose proof (allocate_sockets _ _ _ _ _ _ Ha) as Hs.
  destruct r as [port|e|]; [|done|done]. assert (Hn : sockets (table_of n) !! h = None) by (cbn; by rewrite lookup_fmap, Hh).
  destruct (tcp_open source port target) as [s|] eqn:Ho.
  - apply (step_ok (table_of n)); [|done]. eapply (step_connect _ true h source (Ok port)); [done|]. unfold connect_tcp. rewrite Ha.
    unfold table_of, add_socket. cbn. rewrite fmap_insert, Hs. cbn. by rewrite (open_view _ _ _ _ Ho).
  - apply (step_ok (table_of n)); [|done]. eapply (step_connect _ false h source (Err Other)); [done|]. unfold connect_tcp. rewrite Ha.
    destruct t as [ss np]. cbn in Hs. by subst ss.
Qed.

Lemma table_udp_bind h addr n : socks n !! h = None -> 0 <= sa_port addr <= U16_MAX -> table_ok (table_of n) -> table_ok (table_of (udp_bind h addr n).2).
Proof.
  intros Hh Hq Hok. unfold udp_bind, udp_new. destruct (source_for _ _ _) as [source|e|]; [|done|done].
  destruct (allocate_port _ _ _ _) as [r t] eqn:Ha. pose proof (allocate_sockets _ _ _ _ _ _ Ha) as Hs.
  destruct r as [port|e|]; [|done|done]. assert (Hn : sockets (table_of n) !! h = None) by (cbn; by rewrite lookup_fmap, Hh).
  destruct (udp_open source port) as [u|] eqn:Ho.
  - apply (step_ok (table_of n)); [|done]. eapply (step_bind _ true h source _ (Ok port)); [done|exact Hq|]. unfold new_udp. rewrite Ha.
    unfold table_of, add_socket. cbn. rewrite fmap_insert, Hs. cbn. by rewrite (udp_open_view _ _ _ Ho).
  - apply (step_ok (table_of n)); [|done]. eapply (step_bind _ false h source _ (Err Other)); [done|exact Hq|]. unfold new_udp. rewrite Ha.
    destruct t as [ss np]. cbn in Hs. by subst ss.
Qed.

(** The guard of a call on a socket in hand. *)
Lemma apply_call id h o n n' : apply (ECall id h o) n = Some n' ->
  o <> Connect /\ h ∈ owned n /\ calls n !! id = None /\ n' = set_call id (mk_call h o Start) n.
Proof.
  cbn [apply]. intros H. assert (Ho : o <> Connect) by (by intros ->). split; [done|].
  destruct (socks n !! h) as [s|]; [|by destruct o].
  assert (H' : (if bool_decide (h ∈ owned n) && bool_decide (calls n !! id = None) && is_kind (transport_of o) s && negb (busy h o n)
    then Some (set_call id (mk_call h o Start) n) else None) = Some n') by (by destruct o).
  destruct (_ && _) eqn:Hg; [|done]. guards. by injection H' as <-.
Qed.

Definition opens (e : event) : bool := match e with EConnect _ _ _ | EBind _ _ => true | _ => false end.

Lemma apply_shrinks e n n' : wf n -> apply e n = Some n' -> opens e = false -> shrinks n n'.
Proof.
  intros K H He. destruct e as [id h target|h addr|id h o|id|h s'|err| | | | |id|h| ]; try done.
  - apply apply_call in H as (_ & _ & _ & ->). by apply shrinks_same.
  - cbn [apply] in H. destruct (calls n !! id) as [c|] eqn:Hc; [|done]. cbn [mbind option_bind] in H.
    assert (Hck : shrinks n (check id c n)) by (unfold check; destruct (is_stopped _); [apply shrinks_finish|by apply shrinks_same]).
    destruct (at_phase c) eqn:Hp; try done; injection H as <-; [done| |done].
    apply shrinks_locked; [done|done|]. unfold live. by rewrite Hp.
  - cbn [apply] in H. destruct (task n); [|done|done]. destruct (socks n !! h) as [s|] eqn:Hs; [|done]. destruct (evolves s s') eqn:Hv; [|done].
    injection H as <-. eapply shrinks_trans; [apply (shrinks_write h s s' n Hs)|by apply shrinks_same]. by apply evolves_spec in Hv as [? _].
  - cbn [apply] in H. destruct (task n); [|done..]. injection H as <-. by apply shrinks_same.
  - cbn [apply] in H. destruct (task n); [|done..]. destruct (stopper n); [|done]. injection H as <-. by apply shrinks_same.
  - cbn [apply] in H. destruct (task n); [done| |done]. injection H as <-. destruct (alive _); by apply shrinks_same.
  - cbn [apply] in H. destruct (passes n) as [|b rest]; [done|]. injection H as <-. split_and!; [by destruct b|by destruct b|].
    assert (Hs : socks (stop_all b rest n) = stop_sock <$> socks n) by (by destruct b). rewrite Hs. intros h x. rewrite lookup_fmap_Some.
    intros (y & <- & Hy). exists y. split; [done|apply stop_sock_narrows].
  - cbn [apply] in H. destruct (net_held n); [|done]. injection H as <-. by apply shrinks_same.
  - cbn [apply] in H. destruct (calls n !! id) as [c|] eqn:Hc; [|done]. cbn [mbind option_bind] in H. destruct (live c); [|done]. injection H as <-.
    destruct (what c); try (by apply shrinks_same). eapply shrinks_trans; [|apply shrinks_drop]. by apply shrinks_same.
  - cbn [apply] in H. destruct (_ && _); [|done]. injection H as <-. eapply shrinks_trans; [|apply shrinks_drop]. by apply shrinks_same.
  - cbn [apply] in H. destruct (net_held n); [|done]. injection H as <-. unfold released. destruct (alive _); by apply shrinks_same.
Qed.

Lemma table_apply e n n' : wf n -> apply e n = Some n' -> table_ok (table_of n) -> table_ok (table_of n').
Proof.
  intros K H Hok. destruct (opens e) eqn:He; [|by eapply shrinks_table; [eapply apply_shrinks|]].
  destruct e as [id h target|h addr| | | | | | | | | | |]; try done; cbn [apply] in H; destruct (_ && _) eqn:Hg; try done; guards; injection H as <-.
  - by apply table_tcp_connect.
  - by apply table_udp_bind.
Qed.

(** *** The stop *)
Definition waits_at (c : call) : bool := match at_phase c with Checked | Parked => true | _ => false end.

(** Calls past the test of the flag find a dead socket; those that wait can linger. *)
Definition quiet (n : net) : Prop :=
  forall id c, calls n !! id = Some c -> waits_at c = true ->
    (exists x, socks n !! handle c = Some x /\ dead x) /\ (at_phase c = Parked -> lingers (what c) = true).

Definition stop_inv (n : net) : Prop :=
  (stopped n = None -> passes n = []) /\ (stopped n <> None -> passes n = [] -> quiet n).

(** What an event may do to keep the calls quiet. *)
Definition calm (n n' : net) : Prop :=
  (forall h x x', socks n !! h = Some x -> socks n' !! h = Some x' -> dead x -> dead x') /\
  (forall id c', calls n' !! id = Some c' -> waits_at c' = true ->
     exists c, calls n !! id = Some c /\ handle c = handle c' /\ what c = what c' /\ waits_at c = true /\
       (at_phase c' = Parked -> at_phase c = Parked \/ lingers (what c') = true)).

Lemma waits_live c : waits_at c = true -> live c = true.
Proof. unfold waits_at, live. by destruct (at_phase c). Qed.

Lemma quiet_calm n n' : wf n' -> calm n n' -> quiet n -> quiet n'.
Proof.
  intros K [Hs Hc] Hq id c' Hl Hw. destruct (Hc id c' Hl Hw) as (c & H1 & H2 & H3 & H4 & H5). destruct (Hq id c H1 H4) as [(x & Hx & Hd) Hp].
  destruct (call_socket n' id c' K Hl (waits_live _ Hw)) as (x' & _ & Hx' & _). split.
  - exists x'. split; [done|]. rewrite H2 in Hx. eauto.
  - intros Hp'. destruct (H5 Hp') as [?|?]; [|done]. rewrite <-H3. by apply Hp.
Qed.

(** One socket and one call change. *)
Lemma calm_change h x' id c' n n' :
  (forall i y, socks n' !! i = Some y -> (i = h /\ y = x') \/ socks n !! i = Some y) ->
  (forall x, socks n !! h = Some x -> dead x -> dead x') ->
  (forall i c, calls n' !! i = Some c -> (i = id /\ c = c') \/ calls n !! i = Some c) ->
  (waits_at c' = true -> exists c, calls n !! id = Some c /\ handle c = handle c' /\ what c = what c' /\ waits_at c = true /\
     (at_phase c' = Parked -> lingers (what c') = true)) ->
  calm n n'.
Proof.
  intros Hs Hd Hc Hw. split.
  - intros i y y' Hy Hy' Hdead. destruct (Hs i y' Hy') as [[-> ->]|H]; [by eapply Hd|by simplify_eq].
  - intros i c Hl Hwc. destruct (Hc i c Hl) as [[-> ->]|H]; [|exists c; by split_and!; auto].
    destruct (Hw Hwc) as (c0 & H1 & H2 & H3 & H4 & H5). exists c0. split_and!; auto.
Qed.

(** No socket changes but for being dropped, and one call that does not wait. *)
Lemma calm_call id c' n n' :
  (forall i y, socks n' !! i = Some y -> socks n !! i = Some y) ->
  (forall i c, calls n' !! i = Some c -> (i = id /\ c = c') \/ calls n !! i = Some c) ->
  waits_at c' = false -> calm n n'.
Proof.
  intros Hs Hc Hw. split; [intros h x x' Hx Hx'; apply Hs in Hx'; by simplify_eq|].
  intros i c Hl Hwc. destruct (Hc i c Hl) as [[-> ->]|H]; [congruence|exists c; by split_and!; auto].
Qed.

Lemma drop_sock_lookup h n i y : socks (drop_sock h n) !! i = Some y -> socks n !! i = Some y.
Proof. unfold drop_sock, released. destruct (alive _); cbn; rewrite lookup_delete_Some; by intros [_ ?]. Qed.

Lemma drop_sock_eq h n : calls (drop_sock h n) = calls n /\ stopped (drop_sock h n) = stopped n /\ passes (drop_sock h n) = passes n /\
  task (drop_sock h n) = task n.
Proof. unfold drop_sock, released. by destruct (alive _). Qed.

Lemma finish_spec id c r n : let n' := finish id c r n in
  (forall i y, socks n' !! i = Some y -> socks n !! i = Some y) /\ calls n' = <[id := mk_call (handle c) (what c) (Returned r)]> (calls n) /\
  stopped n' = stopped n /\ passes n' = passes n /\ task n' = task n.
Proof.
  cbv zeta. unfold finish. destruct (what c), r; try done;
    match goal with |- context [drop_sock ?h ?x] => destruct (drop_sock_eq h x) as (-> & -> & -> & ->); split_and!; try done;
      intros i y Hy; by apply drop_sock_lookup in Hy end.
Qed.

Lemma insert_either {A} (m : gmap nat A) id c' i c : <[id := c']> m !! i = Some c -> (i = id /\ c = c') \/ m !! i = Some c.
Proof. rewrite lookup_insert_Some. intros [[<- <-]|[_ ?]]; auto. Qed.

Lemma calm_finish id c r n : calm n (finish id c r n).
Proof.
  destruct (finish_spec id c r n) as (H1 & H2 & _). eapply (calm_call id); [exact H1|rewrite H2; apply insert_either|done].
Qed.

(** A poll under the lock in a quiet state. *)
Lemma quiet_locked id c n : wf n -> quiet n -> calls n !! id = Some c -> at_phase c = Checked -> calm n (locked id c n).
Proof.
  intros K Hq Hc Hp. assert (Hw : waits_at c = true) by (unfold waits_at; by rewrite Hp).
  destruct (call_socket n id c K Hc (waits_live _ Hw)) as (s & p & Hs & Hu & _). destruct (Hq id c Hc Hw) as [(x & Hx & Hd) _]. simplify_eq.
  destruct (under_lock_dead _ _ _ _ Hu Hd) as (Hd' & Hcl & Hpend). destruct (locked_eq n id c s p Hs Hu) as (n1 & -> & ->). rewrite Hcl. cbv beta.
  set (n1 := if woke p then wake _ else _).
  assert (Hn1 : socks n1 = <[handle c := Streams.sock p]> (socks n) /\ calls n1 = calls n) by (unfold n1; by destruct (woke p)).
  destruct Hn1 as [Hn1 Hn2]. destruct (result p) as [r|] eqn:Hr.
  - destruct (finish_spec id c r n1) as (H1 & H2 & _).
    eapply (calm_change (handle c) (Streams.sock p) id); [|by intros ???|rewrite H2, Hn2; apply insert_either|done].
    intros i y Hy. apply H1 in Hy. rewrite Hn1 in Hy. by apply insert_either.
  - eapply (calm_change (handle c) (Streams.sock p) id); cbn [set_call with_calls socks calls];
      [rewrite Hn1; apply insert_either|by intros ???|rewrite Hn2; apply insert_either|].
    intros _. exists c. split_and!; try done. intros _. by apply Hpend.
Qed.

(** Calls and sockets at most taken away. *)
Lemma calm_less n n' : (forall i y, socks n' !! i = Some y -> socks n !! i = Some y) -> (forall i c, calls n' !! i = Some c -> calls n !! i = Some c) -> calm n n'.
Proof. intros Hs Hc. eapply (calm_call 0%nat (mk_call 0%nat Connect Start)); [exact Hs|by right; apply Hc|done]. Qed.

Lemma calm_connect id h target n : socks n !! h = None -> calm n (tcp_connect id h target n).
Proof.
  intros Hh. unfold tcp_connect, stream_connect, connect_failed.
  assert (Hf : forall n' e, socks n' = socks n -> calls n' = calls n -> calm n (set_call id (mk_call h Connect (Returned (Err e))) n')).
  { intros n' e E1 E2. eapply (calm_call id); cbn; [by rewrite E1|rewrite E2; apply insert_either|done]. }
  destruct (source_for _ _ _) as [source|e|]; [|by apply Hf|by apply calm_less].
  destruct (allocate_port _ _ _ _) as [[port|e|] t]; [|by apply Hf|by apply calm_less].
  destruct (tcp_open source port target) as [s|]; [|by apply Hf].
  eapply (calm_change h (TcpSock s) id); [apply insert_either|intros x Hx; simplify_eq|apply insert_either|done].
Qed.

Lemma calm_bind h addr n : socks n !! h = None -> calm n (udp_bind h addr n).2.
Proof.
  intros Hh. unfold udp_bind, udp_new. destruct (source_for _ _ _) as [source|e|]; [|by apply calm_less..].
  destruct (allocate_port _ _ _ _) as [[port|e|] t]; [|by apply calm_less..]. destruct (udp_open source port) as [u|]; [|by apply calm_less].
  eapply (calm_change h (UdpSock u) 0%nat (mk_call h Connect Start)); [apply insert_either|intros x Hx; simplify_eq|by right|done].
Qed.

Lemma calm_smol h s s' n : socks n !! h = Some s -> evolves s s' = true ->
  calm n (rouse (fun x => bool_decide (x = h)) (with_socks (<[h := s']> (socks n)) n)).
Proof.
  intros Hs He. split.
  - intros i x x' Hx Hx'. cbn in Hx'. apply insert_either in Hx' as [[-> ->]|Hx']; simplify_eq; [|done]. by apply evolves_spec.
  - intros i c Hl Hw. cbn in Hl. rewrite lookup_fmap_Some in Hl. destruct Hl as (c0 & <- & Hl). exists c0. unfold waits_at in *.
    destruct (at_phase c0) eqn:Hp; [by rewrite Hp in Hw|by rewrite Hp; split_and!; auto| |by rewrite Hp in Hw].
    case_bool_decide; [done|]. rewrite Hp. split_and!; auto.
Qed.

Lemma quiet_apply e n n' : wf n -> quiet n -> stopped n <> None -> passes n = [] -> apply e n = Some n' -> calm n n'.
Proof.
  intros K Hq Hst Hps H. destruct e as [id h target|h addr|id h o|id|h s'|err| | | | |id|h| ]; cbn [apply] in H.
  - destruct (_ && _) eqn:Hg; [|done]. guards. injection H as <-. by apply calm_connect.
  - destruct (_ && _) eqn:Hg; [|done]. guards. injection H as <-. by apply calm_bind.
  - apply (apply_call id h o) in H as (_ & _ & Hi & ->). by eapply (calm_call id); [done|apply insert_either|].
  - destruct (calls n !! id) as [c|] eqn:Hc; [|done]. cbn [mbind option_bind] in H.
    assert (Hck : calm n (check id c n)) by (unfold check; destruct (stopped n); [apply calm_finish|done]).
    destruct (at_phase c) eqn:Hp; try done; injection H as <-; [done|by apply quiet_locked|done].
  - destruct (task n); [|done|done]. destruct (socks n !! h) as [s|] eqn:Hs; [|done]. destruct (evolves s s') eqn:He; [|done].
    injection H as <-. by eapply calm_smol.
  - destruct (task n); [|done..]. injection H as <-. by apply calm_less.
  - destruct (task n); [|done..]. destruct (stopper n); [|done]. injection H as <-. by apply calm_less.
  - destruct (task n); [done| |done]. injection H as <-. destruct (alive _); by apply calm_less.
  - by rewrite Hps in H.
  - destruct (net_held n); [|done]. injection H as <-. by apply calm_less.
  - destruct (calls n !! id) as [c|]; [|done]. cbn [mbind option_bind] in H. destruct (live c); [|done]. injection H as <-.
    assert (Hd : forall i y, delete id (calls n) !! i = Some y -> calls n !! i = Some y) by (intros i y; rewrite lookup_delete_Some; by intros [_ ?]).
    destruct (what c); try (by apply calm_less). apply calm_less; [intros i y Hy; by apply drop_sock_lookup in Hy|].
    by rewrite (proj1 (drop_sock_eq _ _)).
  - destruct (_ && _); [|done]. injection H as <-. apply calm_less; [intros i y Hy; by apply drop_sock_lookup in Hy|].
    by rewrite (proj1 (drop_sock_eq _ _)).
  - destruct (net_held n); [|done]. injection H as <-. unfold released. destruct (alive _); by apply calm_less.
Qed.

(** *** The flag *)
Definition stops (e : event) : bool := match e with EShutdown | ETaskStop | EStopAll => true | _ => false end.

Lemma locked_flag id c n : stopped (locked id c n) = stopped n /\ passes (locked id c n) = passes n /\ task (locked id c n) = task n.
Proof.
  unfold locked. destruct (_ ≫= _) as [[s p]|]; [|by destruct (finish_spec id c Panic n) as (_ & _ & ? & ? & ?)].
  set (n1 := if woke p then _ else _). assert (Hn : stopped n1 = stopped n /\ passes n1 = passes n /\ task n1 = task n).
  { unfold n1. destruct (woke p), (closes _ _); done. }
  destruct (result p); [|done]. destruct (finish_spec id c a n1) as (_ & _ & -> & -> & ->). done.
Qed.

Lemma apply_flag e n n' : apply e n = Some n' -> stops e = false -> stopped n' = stopped n /\ passes n' = passes n.
Proof.
  intros H He. destruct e as [id h target|h addr|id h o|id|h s'|err| | | | |id|h| ]; try done; cbn [apply] in H.
  - destruct (_ && _); [|done]. injection H as <-. unfold tcp_connect, stream_connect, connect_failed. repeat case_match; done.
  - destruct (_ && _); [|done]. injection H as <-. unfold udp_bind, udp_new. repeat case_match; done.
  - by apply (apply_call id h o) in H as (_ & _ & _ & ->).
  - destruct (calls n !! id) as [c|]; [|done]. cbn [mbind option_bind] in H. destruct (at_phase c); try done; injection H as <-.
    all: try by destruct (locked_flag id c n) as (-> & -> & _).
    all: unfold check; destruct (is_stopped _); [|done]; by destruct (finish_spec id c (when_stopped (what c)) n) as (_ & _ & -> & -> & _).
  - destruct (task n); [|done..]. destruct (socks n !! h); [|done]. destruct (evolves _ _); [|done]. by injection H as <-.
  - destruct (task n); [|done..]. by injection H as <-.
  - destruct (task n); [|done..]. destruct (stopper n); [|done]. by injection H as <-.
  - destruct (calls n !! id) as [c|]; [|done]. cbn [mbind option_bind] in H. destruct (live c); [|done]. injection H as <-.
    destruct (what c); try done. by destruct (drop_sock_eq (handle c) (with_calls (owned n) (delete id (calls n)) n)) as (_ & -> & -> & _).
  - destruct (_ && _); [|done]. injection H as <-.
    by destruct (drop_sock_eq h (with_calls (owned n ∖ {[h]}) (calls n) n)) as (_ & -> & -> & _).
  - destruct (net_held n); [|done]. injection H as <-. unfold released. by destruct (alive _).
Qed.

(** The first reason stays. *)
Lemma apply_reason e n n' r : apply e n = Some n' -> stopped n = Some r -> stopped n' = Some r.
Proof.
  intros H Hr. destruct (stops e) eqn:He; [|by rewrite (proj1 (apply_flag e n n' H He))].
  destruct e; try done; cbn [apply] in H.
  - destruct (task n); [done| |done]. injection H as <-. destruct (alive _); cbn; by rewrite ?Hr.
  - destruct (passes n) as [|b rest]; [done|]. injection H as <-. by destruct b.
  - destruct (net_held n); [|done]. injection H as <-. cbn. by rewrite Hr.
Qed.

(** After the last pass every socket is dead and no call waits. *)
Lemma quiet_stop_all b n : wf (stop_all b [] n) -> quiet (stop_all b [] n).
Proof.
  intros K id c Hc Hw. destruct (call_socket _ id c K Hc (waits_live _ Hw)) as (x & _ & Hx & _).
  assert (Hs : socks (stop_all b [] n) = stop_sock <$> socks n) by (by destruct b).
  assert (Hcs : calls (stop_all b [] n) = calls (rouse (fun _ => true) n)) by (by destruct b). split.
  - exists x. split; [done|]. rewrite Hs, lookup_fmap_Some in Hx. destruct Hx as (y & <- & _). apply stop_sock_dead.
  - rewrite Hcs in Hc. cbn in Hc. rewrite lookup_fmap_Some in Hc. destruct Hc as (c0 & <- & _). by destruct (at_phase c0) eqn:Hp; cbn; rewrite ?Hp.
Qed.

Lemma stop_apply e n n' : wf n -> stop_inv n -> apply e n = Some n' -> stop_inv n'.
Proof.
  intros K [H1 H2] H. pose proof (wf_apply e n n' K H) as K'. destruct (stops e) eqn:He.
  - destruct e; try done; cbn [apply] in H.
    + destruct (task n); [done| |done]. injection H as <-. destruct (alive _); [|done].
      split; cbn; [by destruct (stopped n)|]. intros _ Hp. by destruct (passes n).
    + destruct (passes n) as [|b rest] eqn:Hp; [done|]. injection H as <-. split.
      * assert (Hs : stopped (stop_all b rest n) = stopped n) by (by destruct b). rewrite Hs. by intros Hx%H1.
      * assert (Hs : passes (stop_all b rest n) = rest) by (by destruct b). rewrite Hs. intros _ ->. by apply quiet_stop_all.
    + destruct (net_held n); [|done]. injection H as <-. split; cbn; [by destruct (stopped n)|]. intros _ Hp. by destruct (passes n).
  - destruct (apply_flag e n n' H He) as [E1 E2]. split; rewrite E1, E2; [done|]. intros Hs Hp.
    pose proof (H2 Hs Hp) as Hq. exact (quiet_calm n n' K' (quiet_apply e n n' K Hq Hs Hp H) Hq).
Qed.

Lemma run_app es es' n : run (es ++ es') n = n1 ← run es n; run es' n1.
Proof. revert n. induction es as [|e es IH]; intros n; [done|]. cbn. destruct (apply e n); cbn; [apply IH|done]. Qed.

(** *** Source addresses *)
(** Every endpoint is one of the stack's own addresses. *)
Definition own_addresses (n : net) : Prop :=
  forall h x a p, socks n !! h = Some x -> bound x = Some (a, p) -> source_v4 n = Some a \/ source_v6 n = Some a.

Lemma source_own n target a : source_for (source_v4 n) (source_v6 n) target = Ok a -> source_v4 n = Some a \/ source_v6 n = Some a.
Proof. unfold source_for. destruct (is_ipv4 target); [destruct (source_v4 n)|destruct (source_v6 n)]; intros [= <-]; auto. Qed.

(** Opening a socket leaves the others as they are. *)
Lemma opens_own e n n' : apply e n = Some n' -> opens e = true -> own_addresses n -> settings n' = settings n /\ own_addresses n'.
Proof.
  intros H He Ho. destruct e as [id h target|h addr| | | | | | | | | | |]; try done; cbn [apply] in H; destruct (_ && _); try done; injection H as <-.
  - unfold tcp_connect, stream_connect, connect_failed. destruct (source_for _ _ _) as [source|e|] eqn:Hs; [|done|done].
    destruct (allocate_port _ _ _ _) as [[port|e|] t]; [|done|done]. destruct (tcp_open source port target) as [s|] eqn:Hopen; [|done].
    split; [done|]. intros i x a p. cbn. rewrite lookup_insert_Some. intros [[<- <-]|[_ Hx]] Hb; [|by eapply Ho].
    cbn in Hb. rewrite (open_view _ _ _ _ Hopen) in Hb. injection Hb as <- <-. by eapply source_own.
  - unfold udp_bind, udp_new. destruct (source_for _ _ _) as [source|e|] eqn:Hs; [|done|done].
    destruct (allocate_port _ _ _ _) as [[port|e|] t]; [|done|done]. destruct (udp_open source port) as [u|] eqn:Hopen; [|done].
    split; [done|]. intros i x a p. cbn. rewrite lookup_insert_Some. intros [[<- <-]|[_ Hx]] Hb; [|by eapply Ho].
    cbn in Hb. rewrite (udp_open_view _ _ _ Hopen) in Hb. injection Hb as <- <-. by eapply source_own.
Qed.

Lemma apply_own e n n' : wf n -> apply e n = Some n' -> own_addresses n -> settings n' = settings n /\ own_addresses n'.
Proof.
  intros K H Ho. destruct (opens e) eqn:He; [by eapply opens_own|]. destruct (apply_shrinks e n n' K H He) as (S & _ & N). split; [done|].
  intros h x' a p Hx Hb. destruct (N _ _ Hx) as (x & Hl & _ & [Hn|Hn]); [|congruence]. unfold settings in S. injection S as -> -> _.
  eapply Ho; [exact Hl|]. by rewrite <-Hn.
Qed.

Definition inv (n : net) : Prop := wf n /\ stop_inv n /\ table_ok (table_of n).

Lemma net_run_inv es n n' : inv n -> run es n = Some n' -> inv n'.
Proof.
  revert n. induction es as [|e es IH]; intros n Hi; cbn; [by intros [= <-]|]. destruct (apply e n) as [n1|] eqn:Ha; [|done]. cbn.
  apply IH. destruct Hi as (K & S & T). split; [by eapply wf_apply|]. split; [by eapply stop_apply|by eapply table_apply].
Qed.

Lemma net_new_inv v4 v6 m o : inv (net_new v4 v6 m o).
Proof.
  split; [apply wf_new|]. split; [by split; [|intros ?]|]. split; [vm_compute; split; congruence|].
  intros h1 h2 s1 s2 t f p. cbn. by rewrite fmap_empty, lookup_empty.
Qed.

Lemma net_run_own es n n' : wf n -> own_addresses n -> run es n = Some n' -> settings n' = settings n /\ own_addresses n'.
Proof.
  revert n. induction es as [|e es IH]; intros n K Ho; cbn; [by intros [= <-]|]. destruct (apply e n) as [n1|] eqn:Ha; [|done]. cbn. intros Hr.
  destruct (apply_own e n n1 K Ha Ho) as [S1 O1]. destruct (IH n1 (wf_apply e n n1 K Ha) O1 Hr) as [S2 O2]. split; [congruence|done].
Qed.

(** C4. Every socket of the stack has an owner: however calls, cancellations, drops,
    the reactor and the stop interleave, the table holds exactly the sockets of
    the streams and UDP sockets in the callers' hands and of the connects in
    progress (a connect that fails or is cancelled leaves nothing behind), every
    call in progress finds its socket in the table, of its kind, so that the
    lookup by handle never panics, and no two sockets of a transport and family
    share a port. *)
Theorem sockets_owned v4 v6 m o es n : run es (net_new v4 v6 m o) = Some n ->
  (forall h, is_Some (socks n !! h) <->
     h ∈ owned n \/ exists id c, calls n !! id = Some c /\ live c = true /\ what c = Connect /\ handle c = h) /\
  (forall id c, calls n !! id = Some c -> live c = true ->
     exists s, socks n !! handle c = Some s /\ is_Some (under_lock (mtu n) (what c) s)) /\
  table_ok (table_of n).
Proof.
  intros Hr. destruct (net_run_inv es _ n (net_new_inv v4 v6 m o) Hr) as (K & _ & T). split_and!; [|intros id c Hc Hl|exact T].
  - intros h. split.
    + intros [x Hx]. destruct (ok_table _ _ _ K h (kind_of x)) as [?|[id Hi]]; [by rewrite lookup_fmap, Hx|by left|].
      right. rewrite lookup_fmap_Some in Hi. destruct Hi as (c & [= <- Hw Hl] & Hc). by exists id, c.
    + intros [Ho|(id & c & Hc & Hl & Hw & <-)].
      * destruct (ok_owned _ _ _ K h Ho) as [t Ht]. rewrite lookup_fmap_Some in Ht. destruct Ht as (x & _ & Hx). by exists x.
      * destruct (call_socket n id c K Hc Hl) as (x & _ & Hx & _). by exists x.
  - destruct (call_socket n id c K Hc Hl) as (s & p & Hs & Hu & _). exists s. by rewrite Hu.
Qed.

(** In a quiet state a poll that tests the flag returns. *)
Lemma stopped_poll n id c r : stopped n = Some r -> calls n !! id = Some c -> at_phase c = Start \/ at_phase c = Parked ->
  exists n', run [EPoll id] n = Some n' /\ calls n' !! id = Some (mk_call (handle c) (what c) (Returned (when_stopped (what c)))).
Proof.
  intros Hs Hc Ha. cbn [run apply]. rewrite Hc. cbn [mbind option_bind].
  assert (He : forall x y : option net, match at_phase c with Start | Parked => x | Checked => y | Returned _ => None end = x) by (by destruct Ha as [-> | ->]).
  rewrite He. cbn [mbind option_bind]. unfold check. rewrite Hs. cbn [is_stopped]. eexists. split; [done|].
  destruct (finish_spec id c (when_stopped (what c)) n) as (_ & -> & _). by rewrite lookup_insert_eq.
Qed.

(** C7. A stopped stack lets its callers go: once the flag is set and the pass over
    the sockets is over, every call that is about to poll or waits, and every call
    past the test of the flag other than a flush or a UDP receive, returns at its
    next poll, with [ConnectionAborted] (a shutdown with success) when it tests the
    flag; no call but a flush or a UDP receive is left waiting without having been
    woken; and [terminated] gives the first reason. *)
Theorem stop_returns v4 v6 m o es n r id c : run es (net_new v4 v6 m o) = Some n ->
  stopped n = Some r -> passes n = [] -> calls n !! id = Some c -> live c = true ->
  terminated n = Ready r /\ (at_phase c = Parked -> lingers (what c) = true) /\
  (at_phase c = Start \/ at_phase c = Parked \/ lingers (what c) = false ->
   exists n' x, run [EPoll id] n = Some n' /\ calls n' !! id = Some (mk_call (handle c) (what c) (Returned x)) /\
     (at_phase c = Start \/ at_phase c = Parked -> x = when_stopped (what c))).
Proof.
  intros Hr Hs Hp Hc Hl. destruct (net_run_inv es _ n (net_new_inv v4 v6 m o) Hr) as (K & [_ Q] & _).
  specialize (Q ltac:(by rewrite Hs) Hp). split; [unfold terminated; by rewrite Hs|].
  split; [intros Ha; by apply (Q id c Hc ltac:(unfold waits_at; by rewrite Ha))|]. intros Hgo.
  destruct (at_phase c) eqn:Ha; [| | |unfold live in Hl; by rewrite Ha in Hl].
  - destruct (stopped_poll n id c r Hs Hc ltac:(by left)) as (n' & H1 & H2). eauto.
  - destruct Hgo as [?|[?|Hgo]]; [done..|]. assert (Hw : waits_at c = true) by (unfold waits_at; by rewrite Ha).
    cbn [run apply]. rewrite Hc. cbn [mbind option_bind]. rewrite Ha.
    destruct (call_socket n id c K Hc Hl) as (s & p & Hx & Hu & _). destruct (Q id c Hc Hw) as [(y & Hy & Hd) _]. simplify_eq.
    destruct (under_lock_dead _ _ _ _ Hu Hd) as (_ & _ & Hpend). destruct (locked_eq n id c s p Hx Hu) as (n1 & -> & _).
    destruct (result p) as [x|]; [|rewrite Hpend in Hgo; done]. cbn [mbind option_bind]. eexists _, x. split; [done|]. split; [|by intros []].
    destruct (finish_spec id c x n1) as (_ & -> & _). by rewrite lookup_insert_eq.
  - destruct (stopped_poll n id c r Hs Hc ltac:(by right)) as (n' & H1 & H2). eauto.
Qed.

(** The state in which nothing is left to wake a call. *)
Definition stranded (id : nat) (c : call) (n : net) : Prop :=
  wf n /\ stop_inv n /\ stopped n <> None /\ passes n = [] /\ task n = Finished /\ calls n !! id = Some c /\ at_phase c = Parked.

Lemma finished_apply e n n' : apply e n = Some n' -> task n = Finished -> task n' = Finished.
Proof.
  intros H Ht. destruct e as [id h target|h addr|id h o|id|h s'|err| | | | |id|h| ]; cbn [apply] in H; rewrite ?Ht in H; try done.
  - destruct (_ && _); [|done]. injection H as <-. unfold tcp_connect, stream_connect, connect_failed. repeat case_match; done.
  - destruct (_ && _); [|done]. injection H as <-. unfold udp_bind, udp_new. repeat case_match; done.
  - by apply (apply_call id h o) in H as (_ & _ & _ & ->).
  - destruct (calls n !! id) as [c|]; [|done]. cbn [mbind option_bind] in H. destruct (at_phase c); try done; injection H as <-.
    all: try by destruct (locked_flag id c n) as (_ & _ & ->).
    all: unfold check; destruct (is_stopped _); [|done]; by destruct (finish_spec id c (when_stopped (what c)) n) as (_ & _ & _ & _ & ->).
  - destruct (passes n) as [|[] rest]; [done|by injection H as <-..].
  - destruct (net_held n); [|done]. by injection H as <-.
  - destruct (calls n !! id) as [c|]; [|done]. cbn [mbind option_bind] in H. destruct (live c); [|done]. injection H as <-.
    destruct (what c); try done. by destruct (drop_sock_eq (handle c) (with_calls (owned n) (delete id (calls n)) n)) as (_ & _ & _ & ->).
  - destruct (_ && _); [|done]. injection H as <-. by destruct (drop_sock_eq h (with_calls (owned n ∖ {[h]}) (calls n) n)) as (_ & _ & _ & ->).
  - destruct (net_held n); [|done]. injection H as <-. unfold released. by destruct (alive _).
Qed.

(** In such a state no event but its own poll or cancellation or a new stop touches a call that waits. *)
Definition foreign (id : nat) (e : event) : Prop := e <> EShutdown /\ e <> ECancel id /\ e <> EPoll id.
Lemma stranded_call e id c n n' : stranded id c n -> apply e n = Some n' -> foreign id e -> calls n' !! id = Some c.
Proof.
  intros (K & [_ Q] & Hs & Hp & Ht & Hc & Ha) H (E1 & E2 & E3). specialize (Q Hs Hp).
  destruct e as [id' h target|h addr|id' h o|id'|h s'|err| | | | |id'|h| ]; cbn [apply] in H; rewrite ?Ht, ?Hp in H; try done.
  - destruct (_ && _) eqn:Hg; [|done]. guards. assert (Hn : id' <> id) by (intros ->; simplify_eq). injection H as <-. unfold tcp_connect, stream_connect, connect_failed.
    repeat case_match; cbn; rewrite ?lookup_insert_ne; done.
  - destruct (_ && _); [|done]. injection H as <-. unfold udp_bind, udp_new. repeat case_match; done.
  - apply (apply_call id' h o) in H as (_ & _ & Hi & ->). cbn. rewrite lookup_insert_ne; [done|]. intros ->. simplify_eq.
  - destruct (calls n !! id') as [c'|] eqn:Hc'; [|done]. cbn [mbind option_bind] in H.
    assert (Hn : id' <> id) by congruence.
    assert (Hck : calls (check id' c' n) !! id = Some c).
    { unfold check. destruct (stopped n); [|done]. cbn [is_stopped].
      destruct (finish_spec id' c' (when_stopped (what c')) n) as (_ & -> & _). by rewrite lookup_insert_ne. }
    destruct (at_phase c') eqn:Ha'; try done; injection H as <-; [done| |done].
    { assert (Hw : waits_at c' = true) by (unfold waits_at; by rewrite Ha').
      destruct (call_socket n id' c' K Hc' (waits_live _ Hw)) as (s & p & Hx & Hu & _). destruct (Q id' c' Hc' Hw) as [(y & Hy & Hd) _]. simplify_eq.
      destruct (under_lock_dead _ _ _ _ Hu Hd) as (_ & Hcl & _). destruct (locked_eq n id' c' s p Hx Hu) as (n1 & -> & ->). rewrite Hcl. cbv beta.
      set (n1 := if woke p then _ else _). assert (Hn1 : calls n1 = calls n) by (unfold n1; by destruct (woke p)).
      destruct (result p) as [x|]; [destruct (finish_spec id' c' x n1) as (_ & -> & _)|cbn]; by rewrite Hn1, lookup_insert_ne. }
  - destruct (calls n !! id') as [c'|] eqn:Hc'; [|done]. cbn [mbind option_bind] in H. destruct (live c'); [|done]. injection H as <-.
    assert (Hn : id' <> id) by congruence. destruct (what c'); cbn; rewrite ?lookup_delete_ne; try done.
    rewrite (proj1 (drop_sock_eq _ _)). cbn. by rewrite lookup_delete_ne.
  - destruct (_ && _); [|done]. injection H as <-. by rewrite (proj1 (drop_sock_eq _ _)).
  - destruct (net_held n); [|done]. injection H as <-. unfold released. by destruct (alive _).
Qed.

Lemma stranded_apply e id c n n' : stranded id c n -> apply e n = Some n' -> foreign id e -> stranded id c n'.
Proof.
  intros HS H E. pose proof HS as (K & S & Hs & Hp & Ht & Hc & Ha).
  split_and!; [by eapply wf_apply|by eapply stop_apply| | |by eapply finished_apply|by eapply stranded_call|done].
  - destruct (stopped n) as [r|] eqn:Hr; [|done]. by rewrite (apply_reason e n n' r H Hr).
  - destruct E as (E1 & _ & _). destruct (stops e) eqn:He; [|by rewrite (proj2 (apply_flag e n n' H He))].
    destruct e; try done; cbn [apply] in H; by rewrite ?Ht, ?Hp in H.
Qed.
Lemma stranded_run es id c n n' : stranded id c n -> Forall (foreign id) es -> run es n = Some n' -> stranded id c n'.
Proof.
  intros HS Hes. revert n HS. induction Hes as [|e es E _ IH]; intros n HS; cbn; [by intros [= <-]|].
  destruct (apply e n) as [n1|] eqn:Ha; [|done]. cbn. by apply IH, (stranded_apply e id c n n1).
Qed.

(** A further stop wakes it. *)
Lemma stranded_shutdown id c n : stranded id c n -> net_held n = true ->
  exists n', run [EShutdown; EStopAll] n = Some n' /\ calls n' !! id = Some (mk_call (handle c) (what c) Start).
Proof.
  intros (_ & _ & _ & Hp & _ & Hc & Ha) Hn. cbn [run apply]. rewrite Hn. cbn [mbind option_bind stop_flag with_stop passes]. rewrite Hp.
  cbn [app]. eexists. split; [done|]. cbn. rewrite lookup_fmap, Hc. cbn. by rewrite Ha.
Qed.

(** C31. The calls the stop does not wake: a flush or a UDP receive that tested the flag
    before the stop and locked its socket after the pass is left waiting.  Nothing of
    the stack wakes it: whatever the rest of the program does, other than calling
    [shutdown] again, the call is as it was until its own task drops it or polls it
    once more, woken for a reason of its own; that poll, whenever it comes, returns
    [ConnectionAborted]; and a further [shutdown] wakes it. *)
Theorem stranded_until_polled v4 v6 m o es n id c es' n' : run es (net_new v4 v6 m o) = Some n ->
  stopped n <> None -> passes n = [] -> task n = Finished -> calls n !! id = Some c -> at_phase c = Parked ->
  Forall (foreign id) es' -> run es' n = Some n' ->
  lingers (what c) = true /\ calls n' !! id = Some c /\
  (exists n2, run [EPoll id] n' = Some n2 /\ calls n2 !! id = Some (mk_call (handle c) (what c) (Returned (Err ConnectionAborted)))) /\
  (net_held n' = true -> exists n2, run [EShutdown; EStopAll] n' = Some n2 /\ calls n2 !! id = Some (mk_call (handle c) (what c) Start)).
Proof.
  intros Hr Hs Hp Ht Hc Ha Hes Hr'. destruct (net_run_inv es _ n (net_new_inv v4 v6 m o) Hr) as (K & S & _).
  assert (HS : stranded id c n) by (by split_and!).
  assert (Hli : lingers (what c) = true).
  { destruct S as [_ Q]. destruct (Q Hs Hp id c Hc) as [_ Hq]; [unfold waits_at; by rewrite Ha|by apply Hq]. }
  pose proof (stranded_run es' id c n n' HS Hes Hr') as HS'. pose proof HS' as (_ & _ & Hs' & _ & _ & Hc' & _).
  split_and!; [done|done| |by apply stranded_shutdown].
  destruct (stopped n') as [r|] eqn:Hst; [|done]. destruct (stopped_poll n' id c r Hst Hc' ltac:(by right)) as (n2 & H1 & H2).
  exists n2. split; [done|]. rewrite H2. by destruct (what c).
Qed.

(** The reason of the first stop is the one every waiter is told. *)
Theorem first_reason_stays es n n' r : run es n = Some n' -> terminated n = Ready r -> terminated n' = Ready r.
Proof.
  unfold terminated. intros Hr Hs. assert (H : stopped n = Some r) by (by destruct (stopped n); simplify_eq). clear Hs.
  assert (H' : stopped n' = Some r); [|by rewrite H']. revert n H Hr.
  induction es as [|e es IH]; intros n H; cbn; [by intros [= <-]|]. destruct (apply e n) as [n1|] eqn:Ha; [|done]. cbn.
  apply IH. by eapply apply_reason.
Qed.
End facts.

(** *** A smoltcp to run the stack on

    A TCP socket is what its view shows; a UDP socket has its endpoint and the
    datagrams that wait. *)
Definition toy_tcp : SmolTcp := {|
  tcp := tcp_socket; Streams.state := st;
  may_recv s := negb (bool_decide (st s = Closed)) || negb (bool_decide (recv_queue s = []));
  can_recv s := negb (bool_decide (recv_queue s = []));
  may_send s := bool_decide (st s = Established); can_send s := bool_decide (st s = Established);
  is_open s := negb (bool_decide (st s = Closed));
  recv_slice n s := (Ok (take (Z.to_nat n) (recv_queue s)), mk_tcp_socket (st s) (local s) (drop (Z.to_nat n) (recv_queue s)) (send_queue s));
  send_slice bs s := (Ok (zlen bs), mk_tcp_socket (st s) (local s) (recv_queue s) (send_queue s ++ bs));
  send_queue_len s := zlen (send_queue s);
  close s := mk_tcp_socket FinWait1 (local s) (recv_queue s) (send_queue s)
|}.
#[local] Instance toy_smol : Smol := {|
  smol_tcp := toy_tcp;
  tcp_open a p r := Some (mk_tcp_socket SynSent (Some (a, p)) [] [] : @tcp toy_tcp);
  tcp_abort s := mk_tcp_socket Closed (local s) (recv_queue s) (send_queue s);
  tcp_view s := s;
  udp := option IpAddr * Z * list (bytes * SocketAddr);
  udp_open a p := Some (Some a, p, []);
  udp_close u := (None, 0, []);
  udp_view u := u.1;
  udp_capacity _ := 1500;
  udp_send bs t u := (if bool_decide (u.1 = (None, 0)) then @UdpFail unit else UdpOk _ tt, u);
  udp_recv n u := match u.2 with [] => (@UdpWait _, u) | d :: ds => (UdpOk _ d, (u.1, ds)) end
|}.
#[local] Instance toy_laws : SmolLaws toy_smol.
Proof.
  constructor; cbn; try done.
  - by intros a p r s [= <-].
  - intros s ->. by rewrite bool_decide_eq_true_2.
  - intros s ->. done.
  - intros s ->. by rewrite bool_decide_eq_true_2.
  - by intros a p u [= <-].
  - intros n [v ds]. cbn. by destruct ds.
  - intros bs t [v ds]. cbn. intros ->. by rewrite bool_decide_eq_true_2.
Qed.

Definition toy_v4 : IpAddr := V4 [172; 16; 0; 2].
Definition toy_target : SocketAddr := SockV4 [192; 0; 2; 1] 53.
Definition toy_net : net := net_new (Some toy_v4) None 1280 None.

(** A connect that is cancelled, one in progress and a bound socket. *)
Definition toy_open : list event :=
  [EConnect 0 0 toy_target; EPoll 0; EPoll 0; ECancel 0; EConnect 1 0 toy_target; EBind 1 (SockV4 [0; 0; 0; 0] 0); ECall 2 1 (RecvFrom 512)].

Lemma sockets_owned_witness : match run toy_open toy_net with
  | Some n => (forall h, is_Some (socks n !! h) <->
      h ∈ owned n \/ exists id c, calls n !! id = Some c /\ live c = true /\ what c = Connect /\ handle c = h) /\ size (socks n) = 2%nat
  | None => False
  end.
Proof.
  assert (Hv : (fun n => size (socks n)) <$> run toy_open toy_net = Some 2%nat) by (vm_compute; reflexivity).
  destruct (run toy_open toy_net) as [n|] eqn:Hr; [|discriminate Hv]. injection Hv as Hv.
  split; [exact (proj1 (sockets_owned (Some toy_v4) None 1280 None toy_open n Hr))|exact Hv].
Defined.

(** The device fails while a connect waits and a receive is between its two halves. *)
Definition toy_race : list event :=
  [EConnect 1 0 toy_target; EPoll 1; EPoll 1; EBind 1 (SockV4 [0; 0; 0; 0] 0); ECall 2 1 (RecvFrom 512); EPoll 2;
   EEnd (Some []); ETaskStop; EStopAll; EPoll 2].

Lemma stop_returns_witness : match run toy_race toy_net with
  | Some n => exists n' x, run [EPoll 1] n = Some n' /\ calls n' !! 1%nat = Some (mk_call 0 Connect (Returned x)) /\ x = Err ConnectionAborted
  | None => False
  end.
Proof.
  assert (Hv : (fun n => (stopped n, passes n, calls n !! 1%nat)) <$> run toy_race toy_net =
    Some (Some (reactor_failed []), [], Some (mk_call 0 Connect Start))) by (vm_compute; reflexivity).
  destruct (run toy_race toy_net) as [n|] eqn:Hr; [|discriminate Hv]. injection Hv as Hs Hp Hc.
  destruct (stop_returns (Some toy_v4) None 1280 None toy_race n _ 1 _ Hr Hs Hp Hc eq_refl) as (_ & _ & H).
  destruct H as (n' & x & H1 & H2 & H3); [left; reflexivity|]. exists n', x. split; [exact H1|]. split; [exact H2|]. exact (H3 (or_introl eq_refl)).
Defined.

(** The receive of that race is stranded, until it is polled. *)
Lemma stranded_until_polled_witness : match run toy_race toy_net with
  | Some n => forall es' n', Forall (foreign 2) es' -> run es' n = Some n' ->
      calls n' !! 2%nat = Some (mk_call 1 (RecvFrom 512) Parked) /\
      exists n2, run [EPoll 2] n' = Some n2 /\ calls n2 !! 2%nat = Some (mk_call 1 (RecvFrom 512) (Returned (Err ConnectionAborted)))
  | None => False
  end.
Proof.
  assert (Hv : (fun n => (stopped n, passes n, task n, calls n !! 2%nat)) <$> run toy_race toy_net =
    Some (Some (reactor_failed []), [], Finished, Some (mk_call 1 (RecvFrom 512) Parked))) by (vm_compute; reflexivity).
  destruct (run toy_race toy_net) as [n|] eqn:Hr; [|discriminate Hv]. injection Hv as Hs Hp Ht Hc. intros es' n' He Hr'.
  destruct (stranded_until_polled (Some toy_v4) None 1280 None toy_race n 2 _ es' n' Hr ltac:(rewrite Hs; discriminate) Hp Ht Hc eq_refl He Hr')
    as (_ & H1 & H2 & _). exact (conj H1 H2).
Defined.
End NetLifeFacts.

(** ** The periodic report of an observed stack *)
Module Reporter.
Import Ports.

(** What a tick of the interval finds: the references to the observer and the table
    can be upgraded or not; the activity since the last tick, the sockets, the
    cgroup's counters and the clock. *)
Record tick := mk_tick {
  observer_alive : bool; table_alive : bool;
  activity : Dataplane.ObserverInner -> Dataplane.ObserverInner;
  table_sockets : SocketSet; cpu : option Dataplane.CpuSnapshot; now_ms : Z
}.

(** The task of [spawn_reporter] after its first tick, which reports nothing: the
    reports, and whether it ended. *)
Fixpoint reporter (ticks : list tick) (st : Dataplane.ReportState) (o : Dataplane.ObserverInner)
    : list (Dataplane.report * SocketSnapshot) * bool :=
  match ticks with
  | [] => ([], false)
  | t :: ticks =>
      if negb (observer_alive t) then ([], true)
      else if negb (table_alive t) then ([], true)
      else
        let sockets := socket_snapshot (table_sockets t) in
        let '(st, r, o) := Dataplane.report_window (cpu t) (now_ms t) st (activity t o) in
        let '(rs, ended) := reporter ticks st o in
        ((r, sockets) :: rs, ended)
  end.

Definition upgraded (t : tick) : bool := observer_alive t && table_alive t.

Fixpoint take_while_up (ticks : list tick) : list tick :=
  match ticks with [] => [] | t :: ticks => if upgraded t then t :: take_while_up ticks else [] end.

(** A snapshot accounts for every socket once. *)
Definition adds_up (n : SocketSnapshot) (sockets : Z) : Prop :=
  tcp_total n = tcp_established n + tcp_connecting n + tcp_closing n + tcp_closed n /\ tcp_total n + udp_total n = sockets.

Lemma snapshot_adds_up s : adds_up (socket_snapshot s) (Z.of_nat (size s)).
Proof.
  unfold socket_snapshot. rewrite <-length_map_to_list.
  assert (H : forall l n k, adds_up n k -> adds_up (fold_left (fun n (e : nat * socket) => snapshot_socket n e.2) l n) (k + Z.of_nat (length l))).
  { induction l as [|[h x] l IH]; intros n k Hn; cbn [fold_left length]; [by rewrite Z.add_0_r|].
    replace (k + Z.of_nat (S (length l))) with (k + 1 + Z.of_nat (length l)) by lia. apply IH. clear IH. unfold adds_up in *.
    destruct n, x as [[[] ? ? ?]|]; cbn in *; lia. }
  by apply (H _ _ 0).
Qed.

(** A report at every tick until the stack is gone, and then no more: the reports
    are those of the ticks before the first one that finds the observer or the
    table dropped, there the task ends, and each accounts for every socket of the
    table at its tick. *)
Theorem reporter_exact ticks st o : let '(rs, ended) := reporter ticks st o in
  length rs = length (take_while_up ticks) /\ (ended = true <-> exists t, t ∈ ticks /\ upgraded t = false) /\
  Forall2 (fun r t => adds_up r.2 (Z.of_nat (size (table_sockets t)))) rs (take_while_up ticks).
Proof.
  revert st o. induction ticks as [|t ticks IH]; intros st o; cbn [reporter take_while_up].
  - split_and!; [done| |done]. split; [done|]. intros (t & Ht & _). by apply elem_of_nil in Ht.
  - unfold upgraded. destruct (observer_alive t) eqn:H1; cbn [negb andb].
    2: { split_and!; [done| |done]. split; [|done]. intros _. exists t. split; [left|]. by rewrite H1. }
    destruct (table_alive t) eqn:H2; cbn [negb].
    2: { split_and!; [done| |done]. split; [|done]. intros _. exists t. split; [left|]. by rewrite H1, H2. }
    destruct (Dataplane.report_window _ _ _ _) as [[st1 r] o1]. specialize (IH st1 o1). destruct (reporter ticks st1 o1) as [rs ended].
    destruct IH as (I1 & I2 & I3). cbn [length]. split_and!; [by rewrite I1| |constructor; [apply snapshot_adds_up|done]].
    rewrite I2. split; intros (x & Hx & Hu); [exists x; split; [by right|done]|].
    apply elem_of_cons in Hx as [->|Hx]; [rewrite H1, H2 in Hu; done|eauto].
Qed.
End Reporter.
