(* ===== verification/Endpoint.v ===== *)
(** * WireGuard endpoint candidates and their history
    ([src/src/endpoint/source.rs], [src/src/endpoint/state.rs])

    Normalising, pooling and ordering candidates, and the JSON file that keeps the
    last good endpoint and the cooldowns.  serde_json is a class. *)
From S2P Require Import Prelude RustStr Fs NetAddr.

(** ** [endpoint/state.rs] *)
Module Store.
Record State := mk_state { last_good_endpoint : bytes; cooldowns : gmap bytes Z }.
Definition state_default : State := mk_state [] ∅.

Class StateCodec := { to_json : State -> bytes; from_json : bytes -> option State }.
(** serde_json reads back what it wrote. *)
Class StateCodecLaws (C : StateCodec) : Prop := { json_roundtrip : forall s, from_json (to_json s) = Some s }.

Record JsonFileEndpointStore := mk_store { path : bytes; state : State }.

(** What a call meets: the clock, the faults of the file system, the random name. *)
Record env := mk_env { now_unix : Z; read_fails : bool; mkdir_fails : bool; faults : fs_faults; rnd : Z }.
Inductive store_error := ReadError | MkdirError | SaveError (e : fs_error).

Section store.
Context {C : StateCodec}.

Definition save (e : env) (st : JsonFileEndpointStore) (s : fs) : res store_error unit * fs :=
  if mkdir_fails e then (Err MkdirError, s)
  else match write_private (faults e) (rnd e) (path st) (to_json (state st)) s with
       | (Ok _, s) => (Ok tt, s)
       | (Err x, s) => (Err (SaveError x), s)
       | (Panic, s) => (Panic, s)
       end.

Definition prune_cooldowns (e : env) (force_save : bool) (st : JsonFileEndpointStore) (s : fs)
    : res store_error JsonFileEndpointStore * fs :=
  let before := size (cooldowns (state st)) in
  let kept := filter (fun kv => now_unix e < kv.2) (cooldowns (state st)) in
  let st := mk_store (path st) (mk_state (last_good_endpoint (state st)) kept) in
  if force_save || negb (bool_decide (before = size kept)) then
    match save e st s with
    | (Ok _, s) => (Ok st, s)
    | (Err x, s) => (Err x, s)
    | (Panic, s) => (Panic, s)
    end
  else (Ok st, s).

(** A file that does not parse counts as empty. *)
Definition load (e : env) (p : bytes) (s : fs) : res store_error JsonFileEndpointStore * fs :=
  match s !! p with
  | Some data =>
      if read_fails e then (Err ReadError, s)
      else prune_cooldowns e false (mk_store p (default state_default (from_json data))) s
  | None => prune_cooldowns e true (mk_store p state_default) s
  end.

Definition last_good (st : JsonFileEndpointStore) : option bytes :=
  match last_good_endpoint (state st) with [] => None | ep => Some ep end.

(** Seconds left. *)
Definition cooldown_remaining (now : Z) (st : JsonFileEndpointStore) (endpoint : bytes) : Z :=
  match cooldowns (state st) !! endpoint with
  | None => 0
  | Some until => if until <=? now then 0 else until - now
  end.
Definition is_cooling_down (now : Z) (st : JsonFileEndpointStore) (endpoint : bytes) : bool :=
  negb (cooldown_remaining now st endpoint =? 0).

(** The mutations change the state in memory even when saving fails. *)
Definition record_success (e : env) (endpoint : bytes) (st : JsonFileEndpointStore) (s : fs)
    : res store_error unit * JsonFileEndpointStore * fs :=
  let st := mk_store (path st) (mk_state endpoint (delete endpoint (cooldowns (state st)))) in
  let '(r, s) := save e st s in (r, st, s).

Definition mark_cooldown (e : env) (endpoint : bytes) (secs : Z) (st : JsonFileEndpointStore) (s : fs)
    : res store_error unit * JsonFileEndpointStore * fs :=
  let until := wrap64 (now_unix e + secs) in
  let st := mk_store (path st) (mk_state (last_good_endpoint (state st)) (<[endpoint := until]> (cooldowns (state st)))) in
  let '(r, s) := save e st s in (r, st, s).
End store.
End Store.

(** ** [endpoint/source.rs] *)
Module Candidates.
Import Store.

Definition BUILTIN_CANDIDATES : list bytes :=
  [str_bytes "162.159.193.5:2408"; str_bytes "162.159.193.9:500"; str_bytes "162.159.193.8:1701";
   str_bytes "162.159.193.3:4500"; str_bytes "162.159.193.7:2408"; str_bytes "162.159.193.47:500";
   str_bytes "162.159.193.10:1701"; str_bytes "162.159.193.11:4500"].

Definition format_endpoint (host : bytes) (port : Z) : bytes :=
  let looks_like_ipv6 := match parse_ip host with Some (V6 _) => true | _ => false end || contains_byte 58 host in
  if looks_like_ipv6 then str_bytes "[" ++ host ++ str_bytes "]:" ++ fmt_dec port
  else host ++ str_bytes ":" ++ fmt_dec port.

Definition normalize_endpoint (raw : bytes) : option bytes :=
  let trimmed := trim raw in
  match trimmed with
  | [] => None
  | _ =>
      '(host, port) ← (match strip_prefix (str_bytes "[") trimmed with
        | Some rest =>
            '(host, after) ← split_once 93 rest;
            Some (host, default [] (strip_prefix (str_bytes ":") after))
        | None =>
            match rsplit_once 58 trimmed with
            | Some (host, port) => Some (host, port)
            | None => Some (trimmed, [])
            end
        end);
      match host with
      | [] => None
      | _ =>
          let port := match port with [] => str_bytes "2408" | _ => port end in
          match parse_uint U16_MAX port with
          | Some n => if 1 <=? n then Some (format_endpoint host n) else None
          | None => None
          end
      end
  end.

Fixpoint dedup (seen : gset bytes) (l : list bytes) : list bytes :=
  match l with
  | [] => []
  | x :: l => if decide (x ∈ seen) then dedup seen l else x :: dedup ({[x]} ∪ seen) l
  end.
Definition dedup_preserve_order (l : list bytes) : list bytes := dedup ∅ l.

Definition candidate_pool (manual_csv : bytes) : list bytes :=
  let manual := dedup_preserve_order (omap normalize_endpoint (split_on 44 manual_csv)) in
  match manual with
  | [] => dedup_preserve_order BUILTIN_CANDIDATES
  | _ => manual
  end.

Definition plan_candidates (now : Z) (pool : list bytes) (store : JsonFileEndpointStore) : list bytes :=
  let first := match last_good store with
    | Some ep => if bool_decide (ep ∈ pool) then [ep] else []
    | None => []
    end in
  let merged := dedup_preserve_order (first ++ pool) in
  List.filter (fun ep => negb (is_cooling_down now store ep)) merged ++
  List.filter (fun ep => is_cooling_down now store ep) merged.
End Candidates.

Module EndpointFacts.
Import Store Candidates.

(** ** Candidates *)
Lemma dedup_elem seen l x : x ∈ dedup seen l <-> x ∈ l /\ x ∉ seen.
Proof.
  revert seen. induction l as [|y l IH]; intros seen; cbn [dedup].
  - split; [by intros ?%elem_of_nil|by intros [?%elem_of_nil _]].
  - destruct (decide (y ∈ seen)) as [Hy|Hy]; rewrite !elem_of_cons, ?IH; [naive_solver|].
    rewrite elem_of_union, elem_of_singleton. destruct (decide (x = y)); naive_solver.
Qed.

Lemma dedup_nodup seen l : NoDup (dedup seen l).
Proof.
  revert seen. induction l as [|y l IH]; intros seen; cbn [dedup]; [constructor|].
  case_decide; [done|]. constructor; [|done]. rewrite dedup_elem, elem_of_union, elem_of_singleton. naive_solver.
Qed.

Lemma dedup_sublist seen l : dedup seen l `sublist_of` l.
Proof.
  revert seen. induction l as [|y l IH]; intros seen; cbn [dedup]; [constructor|].
  case_decide; [by apply sublist_cons|by apply sublist_skip].
Qed.

Lemma list_filter_elem {A} (f : A -> bool) l x : x ∈ List.filter f l <-> x ∈ l /\ f x = true.
Proof. rewrite !list_elem_of_In. apply filter_In. Qed.

Lemma list_filter_sublist {A} (f : A -> bool) l : List.filter f l `sublist_of` l.
Proof. induction l as [|x l IH]; simpl; [constructor|]. destruct (f x); [by apply sublist_skip|by apply sublist_cons]. Qed.

Lemma list_filter_nodup {A} (f : A -> bool) l : NoDup l -> NoDup (List.filter f l).
Proof. intros H. eapply sublist_NoDup; [exact H|apply list_filter_sublist]. Qed.

(** The plan merges the last good endpoint, if it is in the pool, with the pool. *)
Definition merged (pool : list bytes) (store : JsonFileEndpointStore) : list bytes :=
  dedup ∅ (match last_good store with Some ep => if bool_decide (ep ∈ pool) then [ep] else [] | None => [] end ++ pool).

Lemma merged_elem pool store x : x ∈ merged pool store <-> x ∈ pool.
Proof.
  unfold merged. rewrite dedup_elem, elem_of_app. pose proof (not_elem_of_empty (C:=gset bytes) x).
  destruct (last_good store) as [ep|]; [case_bool_decide|]; rewrite ?list_elem_of_singleton, ?elem_of_nil; naive_solver.
Qed.

Lemma plan_elem now pool store x : x ∈ plan_candidates now pool store <-> x ∈ pool.
Proof.
  rewrite <-(merged_elem pool store x). unfold plan_candidates, dedup_preserve_order, merged.
  rewrite elem_of_app, !list_filter_elem. destruct (is_cooling_down now store x); naive_solver.
Qed.

Lemma plan_nodup now pool store : NoDup (plan_candidates now pool store).
Proof.
  unfold plan_candidates. apply NoDup_app. split_and!; [by apply list_filter_nodup, dedup_nodup| |by apply list_filter_nodup, dedup_nodup].
  intros x. rewrite !list_filter_elem. destruct (is_cooling_down now store x); naive_solver.
Qed.

(** The candidate plan is a reordering of the pool: the same endpoints, each once,
    those that are not cooling down before those that are, each group in pool
    order but for the last good endpoint, which comes first in its group. *)
Theorem plan_candidates_spec now pool store :
  let plan := plan_candidates now pool store in
  NoDup plan /\ (forall x, x ∈ plan <-> x ∈ pool) /\
  exists ready cooling, plan = ready ++ cooling /\
    Forall (fun x => is_cooling_down now store x = false) ready /\
    Forall (fun x => is_cooling_down now store x = true) cooling /\
    (forall ep, last_good store = Some ep -> ep ∈ pool ->
       if is_cooling_down now store ep then head cooling = Some ep else head ready = Some ep) /\
    (last_good store = None -> ready `sublist_of` pool /\ cooling `sublist_of` pool).
Proof.
  cbv zeta. split_and!; [apply plan_nodup|intros x; apply plan_elem|].
  unfold plan_candidates, dedup_preserve_order.
  - eexists _, _. split; [done|]. split_and!.
    + apply Forall_forall. intros x [_ H]%list_filter_elem. by apply negb_true_iff.
    + apply Forall_forall. by intros x [_ H]%list_filter_elem.
    + intros ep Hl Hin. rewrite Hl, bool_decide_eq_true_2 by done. cbn [app dedup]. rewrite decide_False by apply not_elem_of_empty.
      cbn [List.filter]. destruct (is_cooling_down now store ep); done.
    + intros Hl. rewrite Hl. cbn [app].
      split; etransitivity; [apply list_filter_sublist|apply dedup_sublist|apply list_filter_sublist|apply dedup_sublist].
Qed.

(** ** The store *)
(** A fault-free environment at a given time. *)
Definition clean (e : env) (p : bytes) (s : fs) : Prop :=
  read_fails e = false /\ mkdir_fails e = false /\ faults e = no_faults /\ s !! temporary_path p (rnd e) = None.

Section reload.
Context {C : StateCodec} {L : StateCodecLaws C}.

Lemma save_clean e st s : clean e (path st) s -> save e st s = (Ok tt, <[path st := to_json (state st)]> s).
Proof.
  intros (_ & Hm & Hf & Hn). unfold save. rewrite Hm, Hf. unfold write_private, create_new. cbn. rewrite Hn. cbn.
  rewrite lookup_insert_eq. by rewrite insert_insert_eq, delete_insert_id by done.
Qed.

Lemma save_writes e st s s' : save e st s = (Ok tt, s') -> s' = <[path st := to_json (state st)]> s.
Proof.
  unfold save. destruct (mkdir_fails e); [done|]. pose proof (write_private_spec (faults e) (rnd e) (path st) (to_json (state st)) s) as H.
  destruct (write_private _ _ _ _ s) as [[|x|] s1]; [|done..]. intros [= <-]. exact H.
Qed.

(** What a store answers. *)
Definition answers (now : Z) (st st' : JsonFileEndpointStore) : Prop :=
  last_good st' = last_good st /\ forall ep, cooldown_remaining now st' ep = cooldown_remaining now st ep.

(** Pruning changes no answer, and the file keeps up with the state. *)
Lemma prune_answers e force st s : clean e (path st) s -> exists st' s', prune_cooldowns e force st s = (Ok st', s') /\
  path st' = path st /\ answers (now_unix e) st st'.
Proof.
  intros Hc. unfold prune_cooldowns. set (st' := mk_store _ _).
  assert (Ha : answers (now_unix e) st st').
  { split; [done|]. intros ep. unfold cooldown_remaining. cbn [state cooldowns st'].
    destruct (cooldowns (state st) !! ep) as [until|] eqn:Hl.
    - destruct (decide (now_unix e < until)).
      + rewrite (map_lookup_filter_Some_2 _ _ _ until); done.
      + rewrite map_lookup_filter_None_2 by (right; intros ? ?; simplify_eq; done). by rewrite (proj2 (Z.leb_le _ _)) by lia.
    - rewrite map_lookup_filter_None_2 by (by left). done. }
  destruct (_ || _).
  - rewrite (save_clean e st' s) by done. eexists _, _. split; [done|]. done.
  - eexists _, _. split; [done|]. done.
Qed.

(** A saved store, loaded later. *)
Lemma load_saved e st s s' e' : save e st s = (Ok tt, s') -> clean e' (path st) s' ->
  exists st' s'', load e' (path st) s' = (Ok st', s'') /\ answers (now_unix e') st st'.
Proof.
  intros Hs Hc. apply save_writes in Hs. unfold load. rewrite Hs, lookup_insert_eq, <-Hs. destruct Hc as (Hr & Hc). rewrite Hr, json_roundtrip.
  destruct st as [p st]. cbn [path state] in *. change (default state_default (Some st)) with st.
  destruct (prune_answers e' false (mk_store p st) s' (conj Hr Hc)) as (st' & s'' & -> & _ & Ha). eauto.
Qed.
End reload.

(** The endpoint history survives a restart: a store loaded after a cooldown was
    marked answers, at any time, with the time left of that cooldown and with
    what it answered before for every other endpoint; one loaded after a success
    knows the endpoint as the last good one, free of cooldown. *)
Theorem store_reload {C : StateCodec} {L : StateCodecLaws C} e ep secs st s e' : 0 <= secs -> 0 <= now_unix e ->
  now_unix e + secs <= U64_MAX ->
  (forall st1 s1, mark_cooldown e ep secs st s = (Ok tt, st1, s1) -> clean e' (path st) s1 ->
     exists st2 s2, load e' (path st) s1 = (Ok st2, s2) /\ last_good st2 = last_good st /\
       cooldown_remaining (now_unix e') st2 ep = Z.max 0 (now_unix e + secs - now_unix e') /\
       forall x, x <> ep -> cooldown_remaining (now_unix e') st2 x = cooldown_remaining (now_unix e') st x) /\
  (forall st1 s1, ep <> [] -> record_success e ep st s = (Ok tt, st1, s1) -> clean e' (path st) s1 ->
     exists st2 s2, load e' (path st) s1 = (Ok st2, s2) /\ last_good st2 = Some ep /\
       cooldown_remaining (now_unix e') st2 ep = 0 /\
       forall x, x <> ep -> cooldown_remaining (now_unix e') st2 x = cooldown_remaining (now_unix e') st x).
Proof.
  intros Hsec Hnow Hm. split.
  - intros st1 s1. unfold mark_cooldown. set (stm := mk_store _ _). destruct (save e stm s) as [r s2] eqn:Hs.
    intros [= -> <- <-] Hc. destruct (load_saved e stm s s2 e' Hs Hc) as (st2 & s3 & Hl & Hg & Ha).
    exists st2, s3. split_and!; [done|done| |].
    + rewrite Ha. unfold cooldown_remaining. cbn [state cooldowns stm]. rewrite lookup_insert_eq.
      unfold wrap64. rewrite Z.mod_small by (unfold U64_MAX in *; lia). case_match; zbool; lia.
    + intros x Hx. rewrite Ha. unfold cooldown_remaining. cbn [state cooldowns stm]. by rewrite lookup_insert_ne.
  - intros st1 s1 He. unfold record_success. set (stm := mk_store _ _). destruct (save e stm s) as [r s2] eqn:Hs.
    intros [= -> <- <-] Hc. destruct (load_saved e stm s s2 e' Hs Hc) as (st2 & s3 & Hl & Hg & Ha).
    exists st2, s3. split_and!; [done| | |].
    + rewrite Hg. unfold last_good. cbn. by destruct ep.
    + rewrite Ha. unfold cooldown_remaining. cbn [state cooldowns stm]. by rewrite lookup_delete_eq.
    + intros x Hx. rewrite Ha. unfold cooldown_remaining. cbn [state cooldowns stm]. by rewrite lookup_delete_ne.
Qed.

(** A concrete codec: any injective serialisation will do. *)
#[export] Instance positive_codec : StateCodec := {
  to_json s := [Zpos (encode (last_good_endpoint s, cooldowns s))];
  from_json b := match b with
    | [Zpos p] => '(g, c) ← decode (A:=bytes * gmap bytes Z) p; Some (mk_state g c)
    | _ => None
    end
}.
#[export] Instance positive_codec_laws : StateCodecLaws positive_codec.
Proof. constructor. intros [g c]. cbn [to_json from_json positive_codec]. by rewrite decode_encode. Qed.

(** A cooldown of 30 seconds marked at time 100, seen again at time 110. *)
Lemma store_reload_witness :
  let e := mk_env 100 false false no_faults 7 in
  let e' := mk_env 110 false false no_faults 8 in
  let p := str_bytes "/etc/warp-socks/endpoint-state.json" in
  let ep := str_bytes "162.159.193.5:2408" in
  let st := mk_store p state_default in
  exists st1 s1 st2 s2, mark_cooldown e ep 30 st ∅ = (Ok tt, st1, s1) /\ load e' p s1 = (Ok st2, s2) /\
    cooldown_remaining 110 st2 ep = 20.
Proof.
  intros e e' p ep st. destruct (store_reload e ep 30 st ∅ e') as [H _]; [lia|cbn; lia|cbn; unfold U64_MAX; lia|].
  destruct (mark_cooldown e ep 30 st ∅) as [[r st1] s1] eqn:Hm. unfold mark_cooldown in Hm.
  rewrite save_clean in Hm by (repeat split; apply lookup_empty). injection Hm as <- <- <-.
  destruct (H _ _ eq_refl) as (st2 & s2 & Hl & _ & Hr & _).
  { split_and!; try reflexivity. }
  eexists _, _, st2, s2. split; [reflexivity|]. split; [exact Hl|exact Hr].
Defined.
End EndpointFacts.
