(* ===== verification/Config.v ===== *)
(** * Configuration: [src/src/config.rs], [src/src/appconfig.rs] and the pure parts of
    [src/src/registration/teams.rs]

    The WireGuard configuration file (written and read back), the account it is
    built from, the registration token, and the environment variables.  Base64
    and name lookups are third party. *)
From S2P Require Import Prelude RustStr Fs NetAddr.

(** The standard base64 engine. *)
Class Base64 := { b64_encode : bytes -> bytes; b64_decode : bytes -> option bytes }.
Class Base64Laws (B : Base64) : Prop := {
  b64_roundtrip : forall b, bytes_ok b -> b64_decode (b64_encode b) = Some b;
  (** printable text *)
  b64_graphic : forall b, bytes_ok b -> Forall (fun c => graphic c = true) (b64_encode b);
  b64_nonempty : forall b, b <> [] -> b64_encode b <> []
}.

Module WgConf.
Record WgConfig := mk_config {
  private_key : bytes; peer_public_key : bytes; endpoint : SocketAddr; reserved : Z * Z * Z;
  address_v4 : bytes; address_v6 : bytes
}.

Inductive conf_error :=
| ReadFailed | KeyError | EndpointError | ReservedError | AddressError | Missing (field : string).

Section conf.
Context {B : Base64}.
(** The system's name lookup for [host:port]. *)
Context (lookup_host : bytes -> option (list SocketAddr)).

Definition to_socket_addrs (value : bytes) : option (list SocketAddr) :=
  match parse_socket_addr value with
  | Some a => Some [a]
  | None => lookup_host value
  end.

Definition decode_key (b64 : bytes) : res conf_error bytes :=
  match b64_decode (trim b64) with
  | Some raw => if zlen raw =? 32 then Ok raw else Err KeyError
  | None => Err KeyError
  end.

Record fields := mk_fields {
  f_private : option bytes; f_public : option bytes; f_endpoint : option SocketAddr; f_reserved : Z * Z * Z;
  f_v4 : option bytes; f_v6 : option bytes
}.
Definition no_fields : fields := mk_fields None None None (0, 0, 0) None None.

Definition parse_reserved (value : bytes) : res conf_error (Z * Z * Z) :=
  match split_on 44 value with
  | [a; b; c] =>
      match parse_uint U8_MAX (trim a), parse_uint U8_MAX (trim b), parse_uint U8_MAX (trim c) with
      | Some a, Some b, Some c => Ok (a, b, c)
      | _, _, _ => Err ReservedError
      end
  | _ => Err ReservedError
  end.

Definition parse_endpoint (value : bytes) : res conf_error SocketAddr :=
  match to_socket_addrs value with
  | Some (a :: _) => Ok a
  | _ => Err EndpointError
  end.

(** A [key = value] pair of the file. *)
Definition parse_field (key value : bytes) (f : fields) : res conf_error fields :=
  let 'mk_fields pk pub ep rs v4 v6 := f in
  if bytes_eqb key (str_bytes "PrivateKey") then k ← decode_key value; Ok (mk_fields (Some k) pub ep rs v4 v6)
  else if bytes_eqb key (str_bytes "PublicKey") then k ← decode_key value; Ok (mk_fields pk (Some k) ep rs v4 v6)
  else if bytes_eqb key (str_bytes "Endpoint") then a ← parse_endpoint value; Ok (mk_fields pk pub (Some a) rs v4 v6)
  else if bytes_eqb key (str_bytes "Reserved") then r ← parse_reserved value; Ok (mk_fields pk pub ep r v4 v6)
  else if bytes_eqb key (str_bytes "Address") then
    let ip_part := trim (hd value (split_on 47 value)) in
    match parse_ip ip_part with
    | Some (V4 o) => Ok (mk_fields pk pub ep rs (Some o) v6)
    | Some (V6 o) => Ok (mk_fields pk pub ep rs v4 (Some o))
    | None => Err AddressError
    end
  else Ok f.

(** One line of the file. *)
Definition parse_line (line : bytes) (f : fields) : res conf_error fields :=
  match split_once 61 (trim line) with
  | None => Ok f
  | Some (key, value) => parse_field (trim key) (trim value) f
  end.

Fixpoint parse_lines (ls : list bytes) (f : fields) : res conf_error fields :=
  match ls with
  | [] => Ok f
  | l :: ls => f ← parse_line l f; parse_lines ls f
  end.

(** [parse_wg_conf]; [None]: the file cannot be read. *)
Definition parse_wg_conf (text : option bytes) : res conf_error WgConfig :=
  text ← ok_or text ReadFailed;
  f ← parse_lines (lines text) no_fields;
  pk ← ok_or (f_private f) (Missing "PrivateKey");
  pub ← ok_or (f_public f) (Missing "PublicKey");
  ep ← ok_or (f_endpoint f) (Missing "Endpoint");
  v4 ← ok_or (f_v4 f) (Missing "IPv4");
  v6 ← ok_or (f_v6 f) (Missing "IPv6");
  Ok (mk_config pk pub ep (f_reserved f) v4 v6).

(** The text of [write_wg_conf]. *)
Definition line (l : bytes) : bytes := l ++ [10].
Definition kv (key : string) (value : bytes) : bytes := line (str_bytes key ++ str_bytes " = " ++ value).

Definition wg_conf_text (c : WgConfig) : bytes :=
  let '(r0, r1, r2) := reserved c in
  line (str_bytes "[Interface]") ++
  kv "PrivateKey" (b64_encode (private_key c)) ++
  kv "Address" (fmt_ip (V4 (address_v4 c)) ++ str_bytes "/32") ++
  kv "Address" (fmt_ip (V6 (address_v6 c)) ++ str_bytes "/128") ++
  line [] ++
  line (str_bytes "[Peer]") ++
  kv "PublicKey" (b64_encode (peer_public_key c)) ++
  kv "AllowedIPs" (str_bytes "0.0.0.0/0,::/0") ++
  kv "Endpoint" (fmt_socket_addr (endpoint c)) ++
  kv "Reserved" (fmt_dec r0 ++ str_bytes "," ++ fmt_dec r1 ++ str_bytes "," ++ fmt_dec r2).

Definition write_wg_conf (f : fs_faults) (rnd : Z) (c : WgConfig) (path : bytes) (s : fs) : res fs_error unit * fs :=
  write_private f rnd path (wg_conf_text c) s.

(** *** The account *)
Record WgAccountPeer := mk_peer { public_key : bytes; host : bytes }.
Record WgAccount := mk_account {
  acc_private_key : bytes; client_id : bytes; peers : list WgAccountPeer; acc_v4 : bytes; acc_v6 : bytes
}.

(** The padding loop adds at most three characters. *)
Fixpoint pad (fuel : nat) (s : bytes) : bytes :=
  match fuel with
  | O => s
  | S f => if zlen s mod 4 =? 0 then s else pad f (s ++ [61])
  end.

Definition reserved_bytes (client_id : bytes) : Z * Z * Z :=
  match client_id with
  | [] => (0, 0, 0)
  | _ =>
      match default [] (b64_decode (pad 3 client_id)) with
      | [] => (0, 0, 0)
      | [a] => (a, 0, 0)
      | [a; b] => (a, b, 0)
      | a :: b :: c :: _ => (a, b, c)
      end
  end.

Definition DEFAULT_ENDPOINT : bytes := str_bytes "engage.cloudflareclient.com:2408".

Definition build_wg_config (account : WgAccount) (endpoint_override : option bytes) : res conf_error WgConfig :=
  _ ← bail_if (bytes_eqb (acc_private_key account) []) (Missing "PrivateKey");
  peer ← ok_or (head (peers account)) (Missing "Peer");
  _ ← bail_if (bytes_eqb (public_key peer) []) (Missing "PublicKey");
  _ ← bail_if (bytes_eqb (acc_v4 account) []) (Missing "IPv4");
  _ ← bail_if (bytes_eqb (acc_v6 account) []) (Missing "IPv6");
  let endpoint_host :=
    match endpoint_override with
    | Some ((_ :: _) as ep) => ep
    | _ => match host peer with [] => DEFAULT_ENDPOINT | h => h end
    end in
  ep ← parse_endpoint endpoint_host;
  v4 ← ok_or (parse_ipv4 (hd [] (split_on 47 (acc_v4 account)))) AddressError;
  v6 ← ok_or (parse_ipv6 (hd [] (split_on 47 (acc_v6 account)))) AddressError;
  pk ← decode_key (acc_private_key account);
  pub ← decode_key (public_key peer);
  Ok (mk_config pk pub ep (reserved_bytes (client_id account)) v4 v6).
End conf.

(** *** The registration token *)
Inductive token_error := EmptyToken | SurroundingSpace | FullLink | NotJwt.

Definition is_ascii_alphanumeric (c : Z) : bool :=
  ((48 <=? c) && (c <=? 57)) || ((65 <=? c) && (c <=? 90)) || ((97 <=? c) && (c <=? 122)).
Definition valid_part (part : bytes) : bool :=
  negb (bytes_eqb part []) && forallb (fun c => is_ascii_alphanumeric c || (c =? 45) || (c =? 95)) part.

Definition parse_token (raw : bytes) : res token_error bytes :=
  if bytes_eqb raw [] then Err EmptyToken
  else if negb (bytes_eqb raw (trim raw)) then Err SurroundingSpace
  else if contains_str (str_bytes "token=") raw || starts_with (str_bytes "com.cloudflare.warp://") raw then Err FullLink
  else match split_on 46 raw with
       | [a; b; c] => if valid_part a && valid_part b && valid_part c then Ok raw else Err NotJwt
       | _ => Err NotJwt
       end.
End WgConf.

Module WgConfFacts.
Import WgConf.

Abbreviation printable := (Forall (fun c => graphic c = true)).

(** *** Text *)
Lemma lines_go_app l r cur : 10 ∉ l -> lines_go (l ++ 10 :: r) cur = strip_cr (rev cur ++ l) :: lines_go r [].
Proof.
  revert cur. induction l as [|c l IH]; intros cur Hl; [by rewrite app_nil_r|].
  apply not_elem_of_cons in Hl as [Hc Hl]. cbn [app]. specialize (IH (c :: cur) Hl). cbn [rev] in IH. rewrite <-app_assoc in IH. cbn [app] in IH.
  rewrite <-IH. cbn [lines_go]. repeat case_match; simplify_eq; done.
Qed.

Lemma strip_cr_id l : 13 ∉ l -> strip_cr l = l.
Proof.
  intros Hl. unfold strip_cr. destruct (rev l) as [|c r] eqn:Hr; [done|].
  assert (c <> 13). { intros ->. apply Hl. rewrite <-(rev_involutive l), Hr. apply list_elem_of_In. rewrite <-in_rev. by left. }
  repeat case_match; simplify_eq; done.
Qed.

Lemma lines_line l r : 10 ∉ l -> 13 ∉ l -> lines (line l ++ r) = l :: lines r.
Proof. intros H1 H2. unfold lines, line. rewrite <-app_assoc. cbn [app]. rewrite lines_go_app by done. by rewrite strip_cr_id. Qed.

Lemma trim_id s c d : head s = Some c -> last s = Some d -> graphic c = true -> graphic d = true -> trim s = s.
Proof.
  intros Hc Hd Gc Gd. unfold trim. destruct s as [|x s]; [done|]. injection Hc as ->. rewrite trim_start_graphic by done.
  unfold trim_end. apply last_Some in Hd as [l ->]. rewrite rev_app_distr. cbn [rev app]. rewrite trim_rev_graphic by done.
  cbn [rev]. by rewrite rev_involutive.
Qed.

Lemma trim_printable s : printable s -> trim s = s.
Proof.
  intros Hs. destruct s as [|c s]; [done|]. destruct (last (c :: s)) as [d|] eqn:Hd; [|by destruct s using rev_ind; [|rewrite app_comm_cons, last_snoc in Hd]].
  apply (trim_id _ c d); [done|done|by apply Forall_cons in Hs as [? _]|]. apply last_Some in Hd as [l Hl]. rewrite Hl in Hs.
  apply Forall_app in Hs as [_ Hs]. by apply Forall_cons in Hs as [? _].
Qed.

Lemma trim_space_l s : trim (32 :: s) = trim s.
Proof. done. Qed.

Lemma trim_space_r s c : head s = Some c -> graphic c = true -> trim (s ++ [32]) = trim s.
Proof.
  intros Hc Gc. destruct s as [|x s]; [done|]. injection Hc as ->. unfold trim. cbn [app].
  rewrite !trim_start_graphic by done. unfold trim_end. rewrite app_comm_cons, rev_app_distr. done.
Qed.

Lemma split_once_at c l r : c ∉ l -> split_once c (l ++ c :: r) = Some (l, r).
Proof.
  induction l as [|x l IH]; intros Hl; cbn [app split_once]; [by rewrite Z.eqb_refl|].
  apply not_elem_of_cons in Hl as [Hx Hl]. rewrite (proj2 (Z.eqb_neq _ _)) by done. by rewrite IH.
Qed.

Lemma printable_no c s : printable s -> graphic c = false -> c ∉ s.
Proof. intros Hs Hc Hin. rewrite Forall_forall in Hs. specialize (Hs _ Hin). congruence. Qed.

Section conf.
Context {B : Base64} (lookup_host : bytes -> option (list SocketAddr)).

(** A [key = value] line is dispatched on its key and value. *)
Lemma parse_kv key value f : printable key -> 61 ∉ key -> key <> [] -> printable value -> value <> [] ->
  parse_line lookup_host (key ++ str_bytes " = " ++ value) f = parse_field lookup_host key value f.
Proof.
  intros Hk Heq Hkn Hv Hvn. destruct key as [|k key]; [done|]. destruct value as [|v value] using rev_ind; [done|]. clear IHvalue Hvn.
  pose proof Hk as [Gk _]%Forall_cons. pose proof Hv as [Gvs [Gv _]%Forall_cons]%Forall_app. unfold parse_line.
  rewrite (trim_id _ k v); [|done|by rewrite !app_assoc, last_snoc|done|done].
  change (str_bytes " = ") with [32; 61; 32]. replace ((k :: key) ++ [32; 61; 32] ++ value ++ [v]) with (((k :: key) ++ [32]) ++ 61 :: 32 :: value ++ [v])
    by (by rewrite <-app_assoc).
  rewrite split_once_at; [|intros [H|H]%elem_of_app; [done|by apply list_elem_of_singleton in H]].
  rewrite trim_space_l, (trim_space_r _ k) by done. by rewrite !trim_printable.
Qed.
End conf.

(** *** Characters of printed addresses *)
Definition addr_char (c : Z) : bool :=
  ((48 <=? c) && (c <=? 58)) || ((97 <=? c) && (c <=? 102)) || ((65 <=? c) && (c <=? 70)) ||
  (c =? 46) || (c =? 91) || (c =? 93) || (c =? 37).
Abbreviation addr_text := (Forall (fun c => addr_char c = true)).

Lemma addr_printable s : addr_text s -> printable s.
Proof.
  intros H. eapply Forall_impl; [exact H|]. intros c Hc. unfold addr_char, graphic in *. simpl in Hc.
  apply andb_true_iff. rewrite !Z.leb_le. zbool. naive_solver lia.
Qed.

Lemma addr_no c s : addr_char c = false -> addr_text s -> c ∉ s.
Proof. intros Hc Hs Hin. rewrite Forall_forall in Hs. specialize (Hs _ Hin). simpl in Hs. congruence. Qed.

Lemma dec_addr z : 0 <= z -> addr_text (fmt_dec z).
Proof.
  intros Hz. eapply Forall_impl; [exact (fmt_dec_digits z Hz)|]. intros c Hc. simpl in *. unfold is_digit, addr_char in *. zbool.
  rewrite (proj2 (Z.leb_le 48 c)), (proj2 (Z.leb_le c 58)) by lia. done.
Qed.

Lemma hex_addr z : u16 z -> addr_text (fmt_hex16 z).
Proof.
  intros Hz. eapply Forall_impl; [exact (hex16_digits z Hz)|]. intros c Hc. simpl in *. unfold digit_of, addr_char in *.
  destruct (addr_char c) eqn:Ha; [unfold addr_char in Ha; exact Ha|]. exfalso. apply Hc. unfold addr_char in Ha.
  zbool. repeat case_match; zbool; try done; naive_solver lia.
Qed.

Lemma join_addr sep l : addr_text sep -> Forall (Forall (fun c => addr_char c = true)) l -> addr_text (join sep l).
Proof.
  intros Hs Hl. induction Hl as [|x l Hx Hl IH]; [constructor|]. destruct l as [|y l]; [done|].
  rewrite join_cons. by repeat apply Forall_app_2.
Qed.

Lemma ipv4_addr o : bytes_ok o -> addr_text (fmt_ipv4 o).
Proof.
  intros Ho. apply join_addr; [repeat constructor|]. apply Forall_map. eapply Forall_impl; [exact Ho|].
  intros z Hz. apply dec_addr. unfold is_byte in Hz. lia.
Qed.

Lemma subslice_addr segs : Forall u16 segs -> addr_text (fmt_subslice segs).
Proof.
  intros Hs. apply join_addr; [repeat constructor|]. apply Forall_map. eapply Forall_impl; [exact Hs|]. apply hex_addr.
Qed.

Lemma ipv6_addr o : bytes_ok o -> addr_text (fmt_ipv6 o).
Proof.
  intros Ho. pose proof (to_segments_u16 o Ho) as Hu. unfold fmt_ipv6.
  assert (H1 : addr_text (str_bytes "::ffff:" ++ fmt_ipv4 (drop 12 o))).
  { apply Forall_app_2; [by repeat constructor|]. apply ipv4_addr. by apply Forall_drop. }
  assert (H2 : addr_text (let '(start, len) := longest_zeroes (to_segments o) 0 (0%nat, 0%nat) (0%nat, 0%nat) in
      if (1 <? len)%nat
      then fmt_subslice (take start (to_segments o)) ++ str_bytes "::" ++ fmt_subslice (drop (start + len) (to_segments o))
      else fmt_subslice (to_segments o))).
  { destruct (longest_zeroes _ _ _ _) as [start len]. destruct (1 <? len)%nat; [|by apply subslice_addr].
    repeat apply Forall_app_2; [apply subslice_addr; by apply Forall_take|by repeat constructor|apply subslice_addr; by apply Forall_drop]. }
  clear Hu. revert H2. generalize (to_segments o). intros segs H2. repeat (case_match; try exact H2); exact H1.
Qed.

Lemma ip_addr a : ip_wf a -> addr_text (fmt_ip a).
Proof. destruct a as [o|o]; intros [_ Ho]; [by apply ipv4_addr|by apply ipv6_addr]. Qed.

Lemma socket_addr_addr a : sa_wf a -> addr_text (fmt_socket_addr a).
Proof.
  intros (Hi & Hp & Hs). pose proof (ip_addr _ Hi) as Ha. unfold u16 in Hp.
  assert (Hd : addr_text (fmt_dec (sa_port a))) by (apply dec_addr; lia).
  destruct a as [o p|o p sc]; cbn [sa_ip sa_port fmt_ip fmt_socket_addr] in *.
  - apply Forall_app_2; [done|]. apply Forall_app_2; [by repeat constructor|done].
  - apply Forall_app_2; [by repeat constructor|]. apply Forall_app_2; [done|].
    apply Forall_app_2; [|apply Forall_app_2; [by repeat constructor|done]].
    destruct (sc =? 0); [constructor|]. apply Forall_app_2; [by repeat constructor|]. apply dec_addr. unfold u32 in Hs. lia.
Qed.

(** *** The round trip *)
Definition config_ok (c : WgConfig) : Prop :=
  zlen (private_key c) = 32 /\ bytes_ok (private_key c) /\ zlen (peer_public_key c) = 32 /\ bytes_ok (peer_public_key c) /\
  sa_wf (endpoint c) /\ ip_wf (V4 (address_v4 c)) /\ ip_wf (V6 (address_v6 c)) /\
  is_byte (reserved c).1.1 /\ is_byte (reserved c).1.2 /\ is_byte (reserved c).2.

Section roundtrip.
Context {B : Base64} {L : Base64Laws B} (lookup_host : bytes -> option (list SocketAddr)).

Lemma kv_lines key value r : printable (str_bytes key) -> printable value ->
  lines (kv key value ++ r) = (str_bytes key ++ str_bytes " = " ++ value) :: lines r.
Proof.
  intros Hk Hv. unfold kv. apply lines_line; intros [H|[H|H]%elem_of_app]%elem_of_app;
    first [by revert H; apply printable_no | change (str_bytes " = ") with [32; 61; 32] in H; by rewrite !elem_of_cons, elem_of_nil in H; lia].
Qed.

Lemma decode_key_encode k : zlen k = 32 -> bytes_ok k -> decode_key (b64_encode k) = Ok k.
Proof.
  intros Hl Hk. unfold decode_key. rewrite trim_printable by (by apply b64_graphic). by rewrite b64_roundtrip, Hl.
Qed.

Lemma parse_ip_prefix a suffix t : ip_wf a -> suffix = 47 :: t ->
  parse_ip (trim (hd (fmt_ip a ++ suffix) (split_on 47 (fmt_ip a ++ suffix)))) = Some a.
Proof.
  intros Ha ->. pose proof (ip_addr a Ha) as Ht. rewrite split_on_app by (by apply addr_no). cbn [hd].
  rewrite trim_printable by (by apply addr_printable). by apply parse_fmt_ip.
Qed.

(** The value of an [Address] line. *)
Lemma address_value a suffix t : ip_wf a -> suffix = 47 :: t -> printable suffix ->
  printable (fmt_ip a ++ suffix) /\ fmt_ip a ++ suffix <> [].
Proof.
  intros Ha Hs Hp. split; [apply Forall_app_2; [by apply addr_printable, ip_addr|done]|]. subst suffix. by intros [??]%app_eq_nil.
Qed.

Lemma parse_reserved_fmt a b c : is_byte a -> is_byte b -> is_byte c ->
  parse_reserved (fmt_dec a ++ str_bytes "," ++ fmt_dec b ++ str_bytes "," ++ fmt_dec c) = Ok (a, b, c).
Proof.
  unfold is_byte, parse_reserved. intros Ha Hb Hc. change (str_bytes ",") with [44]. cbn [app].
  assert (Hd : forall z, 0 <= z < 256 -> (44 ∉ fmt_dec z) /\ parse_uint U8_MAX (trim (fmt_dec z)) = Some z).
  { intros z Hz. pose proof (dec_addr z ltac:(lia)) as Ht. split; [by apply addr_no|].
    rewrite trim_printable by (by apply addr_printable). apply parse_uint_fmt; unfold U8_MAX; lia. }
  destruct (Hd a Ha) as [Ha1 Ha2], (Hd b Hb) as [Hb1 Hb2], (Hd c Hc) as [Hc1 Hc2].
  rewrite split_on_app, split_on_app, split_on_none by done. by rewrite Ha2, Hb2, Hc2.
Qed.

Lemma fmt_ip_nonnil a : ip_wf a -> fmt_ip a <> [].
Proof. intros Ha Hn. pose proof (parse_fmt_ip a Ha) as H. rewrite Hn in H. discriminate H. Qed.

(** The lines of the file, one after the other. *)
Lemma wg_conf_lines c : config_ok c -> lines (wg_conf_text c) =
  [str_bytes "[Interface]"; str_bytes "PrivateKey" ++ str_bytes " = " ++ b64_encode (private_key c);
   str_bytes "Address" ++ str_bytes " = " ++ fmt_ip (V4 (address_v4 c)) ++ str_bytes "/32";
   str_bytes "Address" ++ str_bytes " = " ++ fmt_ip (V6 (address_v6 c)) ++ str_bytes "/128";
   []; str_bytes "[Peer]"; str_bytes "PublicKey" ++ str_bytes " = " ++ b64_encode (peer_public_key c);
   str_bytes "AllowedIPs" ++ str_bytes " = " ++ str_bytes "0.0.0.0/0,::/0";
   str_bytes "Endpoint" ++ str_bytes " = " ++ fmt_socket_addr (endpoint c);
   str_bytes "Reserved" ++ str_bytes " = " ++ fmt_dec (reserved c).1.1 ++ str_bytes "," ++ fmt_dec (reserved c).1.2 ++
     str_bytes "," ++ fmt_dec (reserved c).2].
Proof.
  intros (Hk & Hkb & Hp & Hpb & He & H4 & H6 & Ha & Hb & Hc). unfold wg_conf_text. destruct (reserved c) as [[r0 r1] r2]. cbn [fst snd] in *.
  unfold is_byte in *.
  rewrite lines_line by (vm_compute; set_solver). rewrite kv_lines by (first [by repeat constructor | by apply b64_graphic]).
  rewrite kv_lines by (first [by repeat constructor | by apply Forall_app_2; [apply addr_printable, ip_addr|repeat constructor]]).
  rewrite kv_lines by (first [by repeat constructor | by apply Forall_app_2; [apply addr_printable, ip_addr|repeat constructor]]).
  rewrite lines_line by set_solver. rewrite lines_line by (vm_compute; set_solver).
  rewrite kv_lines by (first [by repeat constructor | by apply b64_graphic]).
  rewrite kv_lines by (by repeat constructor).
  rewrite kv_lines by (first [by repeat constructor | by apply addr_printable, socket_addr_addr]).
  rewrite <-(app_nil_r (kv "Reserved" _)). rewrite kv_lines; [done|by repeat constructor|].
  apply Forall_app_2; [apply addr_printable, dec_addr; lia|]. apply Forall_app_2; [by repeat constructor|].
  apply Forall_app_2; [apply addr_printable, dec_addr; lia|]. apply Forall_app_2; [by repeat constructor|apply addr_printable, dec_addr; lia].
Qed.

Lemma step_line l ls f g : parse_line lookup_host l f = Ok g -> parse_lines lookup_host (l :: ls) f = parse_lines lookup_host ls g.
Proof. intros H. cbn [parse_lines]. by rewrite H. Qed.

Lemma step_kv key value ls f g : printable (str_bytes key) -> (61 ∉ str_bytes key) -> str_bytes key <> [] ->
  printable value -> value <> [] -> parse_field lookup_host (str_bytes key) value f = Ok g ->
  parse_lines lookup_host ((str_bytes key ++ str_bytes " = " ++ value) :: ls) f = parse_lines lookup_host ls g.
Proof. intros. apply step_line. by rewrite parse_kv. Qed.

Ltac key_ok := first [by repeat constructor | vm_compute; set_solver | done].

Lemma key_nonnil (k : bytes) : zlen k = 32 -> k <> [].
Proof. by destruct k. Qed.

Lemma step_private k ls pk pub ep rs v4 v6 : zlen k = 32 -> bytes_ok k ->
  parse_lines lookup_host ((str_bytes "PrivateKey" ++ str_bytes " = " ++ b64_encode k) :: ls) (mk_fields pk pub ep rs v4 v6) =
  parse_lines lookup_host ls (mk_fields (Some k) pub ep rs v4 v6).
Proof.
  intros Hk Hb. apply step_kv; [key_ok|key_ok|key_ok|by apply b64_graphic|by apply b64_nonempty, key_nonnil|].
  cbn [parse_field]. by rewrite decode_key_encode.
Qed.

Lemma step_public k ls pk pub ep rs v4 v6 : zlen k = 32 -> bytes_ok k ->
  parse_lines lookup_host ((str_bytes "PublicKey" ++ str_bytes " = " ++ b64_encode k) :: ls) (mk_fields pk pub ep rs v4 v6) =
  parse_lines lookup_host ls (mk_fields pk (Some k) ep rs v4 v6).
Proof.
  intros Hk Hb. apply step_kv; [key_ok|key_ok|key_ok|by apply b64_graphic|by apply b64_nonempty, key_nonnil|].
  cbn [parse_field]. by rewrite decode_key_encode.
Qed.

Definition set_address (a : IpAddr) (f : fields) : fields :=
  let 'mk_fields pk pub ep rs v4 v6 := f in
  match a with V4 o => mk_fields pk pub ep rs (Some o) v6 | V6 o => mk_fields pk pub ep rs v4 (Some o) end.

Lemma step_address a suffix t ls f : ip_wf a -> suffix = 47 :: t -> printable suffix ->
  parse_lines lookup_host ((str_bytes "Address" ++ str_bytes " = " ++ fmt_ip a ++ suffix) :: ls) f =
  parse_lines lookup_host ls (set_address a f).
Proof.
  intros Ha Hs Hp. destruct (address_value a suffix t Ha Hs Hp) as [P N].
  apply step_kv; [key_ok|key_ok|key_ok|done|done|]. destruct f. cbn [parse_field].
  rewrite (parse_ip_prefix a suffix t Ha Hs). by destruct a.
Qed.

Lemma step_endpoint a ls pk pub ep rs v4 v6 : sa_wf a ->
  parse_lines lookup_host ((str_bytes "Endpoint" ++ str_bytes " = " ++ fmt_socket_addr a) :: ls) (mk_fields pk pub ep rs v4 v6) =
  parse_lines lookup_host ls (mk_fields pk pub (Some a) rs v4 v6).
Proof.
  intros Ha. pose proof (parse_fmt_socket_addr a Ha) as Hf.
  apply step_kv; [key_ok|key_ok|key_ok|by apply addr_printable, socket_addr_addr|by intros Hn; rewrite Hn in Hf|].
  cbn [parse_field]. unfold parse_endpoint, to_socket_addrs. by rewrite Hf.
Qed.

Lemma step_reserved a b c ls pk pub ep rs v4 v6 : is_byte a -> is_byte b -> is_byte c ->
  parse_lines lookup_host ((str_bytes "Reserved" ++ str_bytes " = " ++ fmt_dec a ++ str_bytes "," ++ fmt_dec b ++ str_bytes "," ++ fmt_dec c) :: ls)
    (mk_fields pk pub ep rs v4 v6) = parse_lines lookup_host ls (mk_fields pk pub ep (a, b, c) v4 v6).
Proof.
  intros Ha Hb Hc. apply step_kv; [key_ok|key_ok|key_ok| | |].
  - unfold is_byte in *. apply Forall_app_2; [apply addr_printable, dec_addr; lia|]. apply Forall_app_2; [key_ok|].
    apply Forall_app_2; [apply addr_printable, dec_addr; lia|]. apply Forall_app_2; [key_ok|apply addr_printable, dec_addr; lia].
  - intros [Hn _]%app_eq_nil. by apply fmt_dec_nonnil in Hn.
  - cbn [parse_field]. by rewrite parse_reserved_fmt.
Qed.
End roundtrip.

(** C39. The configuration snapshot can be read back: parsing the file that
    [write_wg_conf] writes for a configuration gives that configuration, keys,
    endpoint, reserved bytes and both addresses, without any name lookup. *)
Theorem wg_conf_roundtrip {B : Base64} {L : Base64Laws B} lookup_host c : config_ok c ->
  parse_wg_conf lookup_host (Some (wg_conf_text c)) = Ok c.
Proof.
  intros Hok. unfold parse_wg_conf. cbn [ok_or mbind res_bind]. rewrite (wg_conf_lines c Hok).
  destruct Hok as (Hk & Hkb & Hp & Hpb & He & H4 & H6 & Ha & Hb & Hc). destruct c as [pk pub ep [[r0 r1] r2] v4 v6].
  cbn [private_key peer_public_key endpoint reserved address_v4 address_v6 fst snd] in *.
  rewrite (step_line _ (str_bytes "[Interface]") _ no_fields no_fields) by reflexivity. unfold no_fields.
  rewrite step_private by done. rewrite (step_address _ _ _ [51; 50]) by (done || by repeat constructor).
  rewrite (step_address _ _ _ [49; 50; 56]) by (done || by repeat constructor). cbn [set_address].
  match goal with |- context [parse_lines _ ([] :: _) ?f] => rewrite (step_line _ [] _ f f) by reflexivity end.
  match goal with |- context [parse_lines _ (str_bytes "[Peer]" :: _) ?f] => rewrite (step_line _ (str_bytes "[Peer]") _ f f) by reflexivity end.
  rewrite step_public by done.
  match goal with |- context [parse_lines _ (?l :: _) ?f] => rewrite (step_line _ l _ f f) by reflexivity end.
  rewrite step_endpoint, step_reserved by done. reflexivity.
Qed.

(** A concrete codec with the laws of the class: two letters per byte. *)
Fixpoint unhex (s : bytes) : option bytes :=
  match s with
  | [] => Some []
  | a :: b :: s => r ← unhex s; Some ((a - 65) * 16 + (b - 65) :: r)
  | _ => None
  end.
#[export] Instance letters : Base64 := {
  b64_encode b := concat (map (fun z => [65 + z / 16; 65 + z mod 16]) b);
  b64_decode := unhex
}.
#[export] Instance letters_laws : Base64Laws letters.
Proof.
  constructor.
  - intros b Hb. cbn [b64_encode b64_decode letters]. induction Hb as [|z b Hz Hb IH]; [done|]. cbn [map concat app unhex]. rewrite IH. cbn.
    f_equal. f_equal. pose proof (Z.div_mod z 16). lia.
  - intros b Hb. cbn. induction Hb as [|z b Hz Hb IH]; [constructor|]. cbn [map concat app]. unfold is_byte in Hz.
    assert (0 <= z / 16 < 16) by (split; [apply Z.div_pos; lia|apply Z.div_lt_upper_bound; lia]).
    pose proof (Z.mod_pos_bound z 16 ltac:(lia)). unfold graphic in *. repeat constructor; [..|done]; apply andb_true_iff; rewrite !Z.leb_le; lia.
  - intros [|z b] Hb; done.
Qed.

Definition sample_config : WgConfig :=
  mk_config (replicate 32 1) (replicate 32 2) (SockV4 [1; 2; 3; 4] 2408) (7, 8, 9) [10; 0; 0; 2] (253 :: replicate 14 0 ++ [2]).

Lemma wg_conf_roundtrip_witness : config_ok sample_config /\
  parse_wg_conf (fun _ => None) (Some (wg_conf_text sample_config)) = Ok sample_config.
Proof.
  assert (Hok : config_ok sample_config).
  { unfold config_ok, sa_wf, ip_wf, u16, U16_MAX. cbn [sample_config private_key peer_public_key endpoint address_v4 address_v6 reserved sa_ip sa_port fst snd].
    split_and!; try reflexivity; try (apply Forall_replicate; unfold is_byte; lia); try (unfold is_byte; lia); try lia; try exact I;
      repeat constructor; unfold is_byte; lia. }
  split; [exact Hok|]. apply (wg_conf_roundtrip (L:=letters_laws)), Hok.
Defined.
End WgConfFacts.

(** ** [src/src/appconfig.rs] *)
Module App.
Inductive Trick := TrickNone | T1 | T2.

Record AppConfig := mk_app {
  state_dir : bytes; wg_conf : bytes; account_json : bytes; endpoint_state_file : bytes; reg_json : bytes;
  teams_token : bytes; endpoint_candidates : bytes; enable_masque : bool; trick : Trick;
  listen_addrs : bytes; listen_port : Z; psiphon_country : bytes;
  register_retries : Z; register_retry_delay : Z; startup_probe_delay : Z; startup_probe_timeout : Z;
  startup_ready_timeout : Z; startup_endpoint_cooldown : Z; healthcheck_probe_timeout : Z;
  healthcheck_failure_threshold : Z; healthcheck_interval : Z
}.

Definition is_true (raw : bytes) : bool :=
  existsb (bytes_eqb raw) [str_bytes "1"; str_bytes "true"; str_bytes "TRUE"; str_bytes "yes"; str_bytes "YES"; str_bytes "on"; str_bytes "ON"].

Definition sanitize_positive_int (raw : bytes) (fallback : Z) : Z :=
  match parse_uint U32_MAX (trim raw) with
  | Some v => if 0 <? v then v else fallback
  | None => fallback
  end.
Definition sanitize_nonnegative_int (raw : bytes) (fallback : Z) : Z := default fallback (parse_uint U64_MAX (trim raw)).
Definition sanitize_port (raw : bytes) (fallback : Z) : Z :=
  match parse_uint U16_MAX (trim raw) with
  | Some port => if port =? 0 then fallback else port
  | None => fallback
  end.

(** [from_env]: the environment gives the value of a variable that is set to valid
    text.  Durations are in seconds. *)
Definition from_env (env : bytes -> option bytes) : AppConfig :=
  let env_var name dflt := default dflt (env (str_bytes name)) in
  let dir := env_var "WARP_SOCKS_STATE_DIR" (str_bytes "/etc/warp-socks") in
  {| state_dir := dir;
     wg_conf := path_join dir (str_bytes "wg0.conf");
     account_json := path_join dir (str_bytes "account.json");
     endpoint_state_file := path_join dir (str_bytes "endpoint-state.json");
     reg_json := path_join dir (str_bytes "reg.json");
     teams_token := env_var "TEAMS_TOKEN" [];
     endpoint_candidates := env_var "ENDPOINT_CANDIDATES" [];
     enable_masque := is_true (env_var "WARP_SOCKS_ENABLE_MASQUE" (str_bytes "1"));
     trick := (let t := env_var "WARP_RS_TRICK" (str_bytes "none") in
               if bytes_eqb t (str_bytes "t1") then T1 else if bytes_eqb t (str_bytes "t2") then T2 else TrickNone);
     listen_addrs := env_var "SOCKS_LISTEN_ADDRS" (str_bytes "auto");
     listen_port := sanitize_port (env_var "SOCKS_LISTEN_PORT" (str_bytes "1080")) 1080;
     psiphon_country := env_var "PSIPHON_COUNTRY" [];
     register_retries := sanitize_positive_int (env_var "WARP_SOCKS_REGISTER_RETRIES" (str_bytes "2")) 2;
     register_retry_delay := sanitize_nonnegative_int (env_var "WARP_SOCKS_REGISTER_RETRY_DELAY" (str_bytes "2")) 2;
     startup_probe_delay := sanitize_nonnegative_int (env_var "WARP_SOCKS_STARTUP_EGRESS_PROBE_DELAY" (str_bytes "1")) 1;
     startup_probe_timeout := sanitize_positive_int (env_var "WARP_SOCKS_STARTUP_EGRESS_PROBE_TIMEOUT" (str_bytes "5")) 5;
     startup_ready_timeout := sanitize_positive_int (env_var "WARP_SOCKS_STARTUP_SOCKS_READY_TIMEOUT" (str_bytes "20")) 20;
     startup_endpoint_cooldown := 30;
     healthcheck_probe_timeout := sanitize_positive_int (env_var "WARP_SOCKS_HEALTHCHECK_PROBE_TIMEOUT" (str_bytes "63")) 63;
     healthcheck_failure_threshold := sanitize_positive_int (env_var "WARP_SOCKS_HEALTHCHECK_FAILURE_THRESHOLD" (str_bytes "3")) 3;
     healthcheck_interval := 10 |}.

Definition between (lo z hi : Z) : Prop := lo <= z <= hi.

Lemma positive_int_range raw fallback : between 1 fallback U32_MAX -> between 1 (sanitize_positive_int raw fallback) U32_MAX.
Proof.
  unfold between, sanitize_positive_int. intros Hf. destruct (parse_uint U32_MAX (trim raw)) as [v|] eqn:Hp; [|done].
  apply parse_uint_bound in Hp; [|done]. destruct (Z.ltb_spec 0 v); lia.
Qed.

Lemma nonnegative_int_range raw fallback : between 0 fallback U64_MAX -> between 0 (sanitize_nonnegative_int raw fallback) U64_MAX.
Proof.
  unfold between, sanitize_nonnegative_int. intros Hf. destruct (parse_uint U64_MAX (trim raw)) as [v|] eqn:Hp; [|done].
  by apply parse_uint_bound in Hp.
Qed.

Lemma port_range raw fallback : between 1 fallback U16_MAX -> between 1 (sanitize_port raw fallback) U16_MAX.
Proof.
  unfold between, sanitize_port. intros Hf. destruct (parse_uint U16_MAX (trim raw)) as [v|] eqn:Hp; [|done].
  apply parse_uint_bound in Hp; [|done]. destruct (Z.eqb_spec v 0); lia.
Qed.

Lemma path_join_inj dir n1 n2 : path_join dir n1 = path_join dir n2 -> n1 = n2.
Proof.
  unfold path_join. destruct (rev dir) as [|c r]; [done|].
  destruct (decide (c = 47)) as [->|Hc]; [by intros ?%app_inv_head|].
  assert (Hm : forall (X : Type) (x y : X), match c with 47 => x | _ => y end = y) by (intros; repeat (case_match; try done)).
  rewrite !Hm. by intros [= ?]%app_inv_head.
Qed.

(** What the rest of the program takes for granted of its settings. *)
Definition config_wf (c : AppConfig) : Prop :=
  between 1 (listen_port c) U16_MAX /\ between 1 (register_retries c) U32_MAX /\
  between 0 (register_retry_delay c) U64_MAX /\ between 0 (startup_probe_delay c) U64_MAX /\
  between 1 (startup_probe_timeout c) U32_MAX /\ between 1 (startup_ready_timeout c) U32_MAX /\
  between 1 (healthcheck_probe_timeout c) U32_MAX /\ between 1 (healthcheck_failure_threshold c) U32_MAX /\
  NoDup [wg_conf c; account_json c; endpoint_state_file c; reg_json c].

(** C40. Whatever the environment holds, the settings are well formed: a port that
    can be bound, at least one registration try, positive time budgets and a
    positive failure threshold, each within the width the program stores it in,
    and four different state files. *)
Theorem from_env_wf env : config_wf (from_env env).
Proof.
  unfold config_wf. split_and!;
    try first [apply port_range | apply positive_int_range | apply nonnegative_int_range]; try (vm_compute; split; congruence).
  cbn [from_env wg_conf account_json endpoint_state_file reg_json].
  repeat constructor; rewrite ?elem_of_cons, ?elem_of_nil; intros H; decompose [or] H; try done;
    match goal with H : path_join _ _ = path_join _ _ |- _ => apply path_join_inj in H; vm_compute in H; discriminate end.
Qed.
End App.
