(* ===== verification/Rfc4648.v ===== *)
(** * base64 as RFC 4648 has it

    The standard alphabet with padding: the engine the sources use, as an instance of
    the parameter [Base64] of [Config], with its laws proved. *)
From S2P Require Import Prelude RustStr Config.

Module Rfc4648.
Definition alphabet (v : Z) : Z :=
  if v <? 26 then 65 + v else if v <? 52 then 71 + v else if v <? 62 then v - 4 else if v =? 62 then 43 else 47.
Definition value (c : Z) : option Z :=
  if (65 <=? c) && (c <=? 90) then Some (c - 65)
  else if (97 <=? c) && (c <=? 122) then Some (c - 71)
  else if (48 <=? c) && (c <=? 57) then Some (c + 4)
  else if c =? 43 then Some 62 else if c =? 47 then Some 63 else None.

Fixpoint encode (b : bytes) : bytes :=
  match b with
  | x :: y :: z :: r =>
      alphabet (x / 4) :: alphabet (x mod 4 * 16 + y / 16) :: alphabet (y mod 16 * 4 + z / 64) :: alphabet (z mod 64) :: encode r
  | [x; y] => [alphabet (x / 4); alphabet (x mod 4 * 16 + y / 16); alphabet (y mod 16 * 4); 61]
  | [x] => [alphabet (x / 4); alphabet (x mod 4 * 16); 61; 61]
  | [] => []
  end.

(** Padding only at the end, and no bits left over. *)
Fixpoint decode (s : bytes) : option bytes :=
  match s with
  | [] => Some []
  | a :: b :: c :: d :: r =>
      a ← value a; b ← value b;
      if (c =? 61) && (d =? 61) && bool_decide (r = []) then if b mod 16 =? 0 then Some [a * 4 + b / 16] else None
      else
        c ← value c;
        if (d =? 61) && bool_decide (r = []) then
          if c mod 4 =? 0 then Some [a * 4 + b / 16; b mod 16 * 16 + c / 4] else None
        else d ← value d; r ← decode r; Some (a * 4 + b / 16 :: b mod 16 * 16 + c / 4 :: c mod 4 * 64 + d :: r)
  | _ => None
  end.

Definition standard : Base64 := {| b64_encode := encode; b64_decode := decode |}.

Lemma alphabet_value v : 0 <= v < 64 -> value (alphabet v) = Some v /\ (alphabet v =? 61) = false /\ graphic (alphabet v) = true.
Proof.
  intros Hv. assert (H : forallb (fun n => let v := Z.of_nat n in
    bool_decide (value (alphabet v) = Some v) && negb (alphabet v =? 61) && graphic (alphabet v)) (seq 0 64) = true) by (vm_compute; reflexivity).
  rewrite forallb_forall in H. specialize (H (Z.to_nat v)). rewrite Z2Nat.id in H by lia.
  specialize (H ltac:(apply in_seq; lia)). cbn beta zeta in H. rewrite !andb_true_iff, negb_true_iff, bool_decide_eq_true in H. tauto.
Qed.

(** The four digits of three bytes: their ranges, and the bytes again. *)
Definition digits (x y z : Z) : Z * Z * Z * Z := (x / 4, x mod 4 * 16 + y / 16, y mod 16 * 4 + z / 64, z mod 64).
Lemma digits_spec x y z : is_byte x -> is_byte y -> is_byte z ->
  let '(a, b, c, d) := digits x y z in
  (0 <= a < 64 /\ 0 <= b < 64 /\ 0 <= c < 64 /\ 0 <= d < 64) /\
  a * 4 + b / 16 = x /\ b mod 16 * 16 + c / 4 = y /\ c mod 4 * 64 + d = z.
Proof. unfold is_byte, digits. intros Hx Hy Hz. split_and!; Z.div_mod_to_equations; lia. Qed.

Lemma bytes3_ind (P : bytes -> Prop) : P [] -> (forall x, P [x]) -> (forall x y, P [x; y]) ->
  (forall x y z r, P r -> P (x :: y :: z :: r)) -> forall b, P b.
Proof.
  intros H0 H1 H2 H3. refine (fix go b := _). destruct b as [|x [|y [|z r]]]; [done|apply H1|apply H2|apply H3, go].
Qed.

Lemma encode_graphic b : bytes_ok b -> Forall (fun c => graphic c = true) (encode b).
Proof.
  induction b as [|x|x y|x y z r IH] using bytes3_ind; intros Hb; [constructor|..];
    repeat (apply Forall_cons in Hb as [? Hb]).
  - pose proof (digits_spec x 0 0 ltac:(done) ltac:(done) ltac:(done)) as [(? & Hb2 & _) _]. rewrite Z.add_0_r in Hb2.
    cbn. repeat constructor; by apply alphabet_value.
  - pose proof (digits_spec x y 0 ltac:(done) ltac:(done) ltac:(done)) as [(? & ? & Hb2 & _) _]. rewrite Z.add_0_r in Hb2.
    cbn. repeat constructor; by apply alphabet_value.
  - pose proof (digits_spec x y z ltac:(done) ltac:(done) ltac:(done)) as [(? & ? & ? & ?) _].
    cbn. repeat constructor; try (by apply alphabet_value). by apply IH.
Qed.

Lemma decode_encode b : bytes_ok b -> decode (encode b) = Some b.
Proof.
  induction b as [|x|x y|x y z r IH] using bytes3_ind; intros Hb; [done|..]; repeat (apply Forall_cons in Hb as [? Hb]).
  - pose proof (digits_spec x 0 0 ltac:(done) ltac:(done) ltac:(done)) as [(Ha & Hb2 & _) (Hx & _)].
    change (0 / 16) with 0 in *. rewrite Z.add_0_r in *. cbn.
    rewrite (proj1 (alphabet_value _ Ha)), (proj1 (alphabet_value _ Hb2)). cbn. rewrite Z.mod_mul by done. cbn. by rewrite Hx.
  - pose proof (digits_spec x y 0 ltac:(done) ltac:(done) ltac:(done)) as [(Ha & Hb2 & Hc & _) (Hx & Hy & _)].
    change (0 / 64) with 0 in *. rewrite Z.add_0_r in Hc, Hy. cbn.
    destruct (alphabet_value _ Hc) as (Hvc & Hnc & _).
    rewrite (proj1 (alphabet_value _ Ha)), (proj1 (alphabet_value _ Hb2)). cbn. rewrite Hnc, Hvc. cbn. rewrite Z.mod_mul by done. cbn.
    by rewrite Hx, Hy.
  - pose proof (digits_spec x y z ltac:(done) ltac:(done) ltac:(done)) as [(Ha & Hb2 & Hc & Hd) (Hx & Hy & Hz)].
    cbn. destruct (alphabet_value _ Hc) as (Hvc & Hnc & _), (alphabet_value _ Hd) as (Hvd & Hnd & _).
    rewrite (proj1 (alphabet_value _ Ha)), (proj1 (alphabet_value _ Hb2)). cbn. rewrite Hnc. cbn. rewrite Hvc. cbn. rewrite Hnd. cbn. rewrite Hvd. cbn.
    rewrite IH by done. cbn. by rewrite Hx, Hy, Hz.
Qed.

#[export] Instance standard_laws : Base64Laws standard.
Proof. constructor; [exact decode_encode|exact encode_graphic|]. by intros [|x [|y [|z r]]]. Qed.
End Rfc4648.
