(* ===== verification/Handshake.v ===== *)
(** * Bringing the WireGuard tunnel up ([src/src/tunnel.rs])

    Decoy datagrams, the handshake initiation and the blocking receive loop that
    runs until boringtun reports a completed handshake or the deadline passes.
    Unlike the polled device of [Tunnel.v], sends here wait for the socket, so
    nothing is queued or dropped.  Random draws and the clock are arguments. *)
From S2P Require Import Prelude RustStr NetAddr Dataplane Tunnel Config.

Module Handshake.
Import Dataplane Tunnel App.

(** [rng.fill] on raw draws. *)
Definition fill (f : nat -> Z) (n : Z) : bytes := map (fun i => f i mod 256) (seq 0 (Z.to_nat n)).

Inductive hs_error := Io (e : ErrorKind) | BadInitiation | Timeout.

(** What an awaited call ends in: [Pending] is a call that never completes,
    [Panic] a decapsulation loop out of fuel. *)
Definition awaited : Type := poll (res hs_error unit).

Record decoy_rng := mk_rng {
  pick : Z; cid : nat -> Z; number : Z; size : nat -> Z; noise : nat -> nat -> Z
}.

Definition clist : list Z := [220; 222; 211; 217; 208; 236; 238; 227].
Definition decoy_header (trick : Trick) (g : decoy_rng) : option bytes :=
  match trick with
  | TrickNone => None
  | T1 => Some []
  | T2 =>
      let first := nth (Z.to_nat (gen_range 0 (zlen clist - 1) (pick g))) clist 0 in
      Some ([first; 0; 0; 0; 1; 8] ++ fill (cid g) 8 ++ [0; 0; 68; 208])
  end.

Definition decoy_packet (header : bytes) (g : decoy_rng) (i : nat) : bytes :=
  let max_len := zlen header + 120 in
  let packet_size := gen_range (zlen header + 10) max_len (size g i) in
  header ++ fill (noise g i) (packet_size - zlen header).

Definition decoys (trick : Trick) (g : decoy_rng) : list bytes :=
  match decoy_header trick g with
  | None => []
  | Some header => map (decoy_packet header g) (seq 0 (Z.to_nat (gen_range 20 50 (number g))))
  end.

(** [UdpSocket::send]: waits while the socket would block. *)
Fixpoint await_send (packet : bytes) (sd : list send_result) (k : Sock) : awaited * Sock :=
  match sd with
  | [] => (Pending, mk_sock [] (readys k) (recvs k) (wire_out k))
  | Sent :: sd => (Ready (Ok tt), mk_sock sd (readys k) (recvs k) (wire_out k ++ [packet]))
  | Blocked :: sd | SendError WouldBlock :: sd => await_send packet sd k
  | SendError e :: sd => (Ready (Err (Io e)), mk_sock sd (readys k) (recvs k) (wire_out k))
  end.

Section handshake.
Context {N : Tunn}.

(** [a.await?; b] *)
Definition then_ (x : awaited * WgTunnel) (k : WgTunnel -> awaited * WgTunnel) : awaited * WgTunnel :=
  match x with (Ready (Ok _), s) => k s | _ => x end.

(** [let size = self.sock.send(packet).await?; self.observer.record_outer_tx(size)] *)
Definition send (packet : bytes) (s : WgTunnel) : awaited * WgTunnel :=
  let '(r, k) := await_send packet (sends (sock s)) (sock s) in
  then_ (r, set_sock k s) (fun s => (Ready (Ok tt), observed (record_outer_tx (zlen packet)) s)).

Fixpoint send_all (packets : list bytes) (s : WgTunnel) : awaited * WgTunnel :=
  match packets with
  | [] => (Ready (Ok tt), s)
  | p :: rest => then_ (send p s) (send_all rest)
  end.
Definition send_decoy_packets (trick : Trick) (g : decoy_rng) (s : WgTunnel) : awaited * WgTunnel :=
  send_all (decoys trick g) s.

Definition tick (s : WgTunnel) : awaited * WgTunnel :=
  let '(r, t) := update_timers (tn s) in
  let s := set_tn t s in
  match r with
  | TunnWriteToNetwork p => send (patch_reserved (reserved s) p) s
  | TunnErr ConnectionExpired =>
      let '(r, t) := format_handshake_initiation (tn s) in
      let s := set_tn t s in
      match r with
      | TunnWriteToNetwork p => send (patch_reserved (reserved s) p) s
      | _ => (Ready (Ok tt), s)
      end
  | TunnDone => (Ready (Ok tt), s)
  | _ => (Ready (Err (Io Other)), s)
  end.

(** The loop of [pump_once] on the result of a call of [decapsulate]. *)
Fixpoint pump_loop (fuel : nat) (now : Z) (r : TunnResult) (s : WgTunnel) : awaited * WgTunnel :=
  match fuel with
  | O => (Ready Panic, s)
  | S f =>
      match r with
      | TunnDone => (Ready (Ok tt), observed (record_decap Done) s)
      | TunnErr e => (Ready (Ok tt), observe_decap_error now e (observed (record_decap Error) s))
      | TunnWriteToNetwork p =>
          let s := observed (record_decap WriteToNetwork) s in
          then_ (send (patch_reserved (reserved s) p) s) (fun s =>
            let '(r, t) := decapsulate (tn s) [] in
            pump_loop f now r (set_tn t s))
      | TunnWriteToTunnelV4 _ => (Ready (Ok tt), observed (record_decap WriteToTunnelV4) s)
      | TunnWriteToTunnelV6 _ => (Ready (Ok tt), observed (record_decap WriteToTunnelV6) s)
      end
  end.

(** One turn of the handshake loop: the clock at its test and what the 500 ms
    wait for a datagram gives; [None]: nothing arrived. *)
Record turn := mk_turn { at_ : Z; got : option recv_result }.

Definition pump_once (t : turn) (s : WgTunnel) : awaited * WgTunnel :=
  match got t with
  | Some (Datagram_ datagram) =>
      let raw := take PACKET_BUF datagram in
      let s := observed (record_outer_rx (zlen raw)) s in
      let '(r, tn') := decapsulate (tn s) (strip_reserved raw) in
      then_ (pump_loop (S (S (queued tn'))) (at_ t) r (set_tn tn' s)) tick
  | Some (RecvError e) => (Ready (Err (Io e)), s)
  | None => tick s
  end.

Definition shaken (s : WgTunnel) : bool :=
  match time_since_last_handshake (tn s) with Some _ => true | None => false end.

(** The loop of [handshake]; [Pending] when the turns given are used up. *)
Fixpoint handshake_loop (deadline : Z) (ts : list turn) (s : WgTunnel) : awaited * WgTunnel :=
  match ts with
  | [] => (Pending, s)
  | t :: ts =>
      if at_ t <? deadline then
        if shaken s then (Ready (Ok tt), s)
        else then_ (pump_once t s) (handshake_loop deadline ts)
      else (Ready (Err Timeout), s)
  end.

(** Decoys, then the handshake initiation. *)
Definition initiate (trick : Trick) (g : decoy_rng) (s : WgTunnel) : awaited * WgTunnel :=
  then_ (send_decoy_packets trick g s) (fun s =>
    let '(r, t) := format_handshake_initiation (tn s) in
    let s := set_tn t s in
    match r with
    | TunnWriteToNetwork p => send (patch_reserved (reserved s) p) s
    | _ => (Ready (Err BadInitiation), s)
    end).

(** [handshake]: [started] is the clock when the initiation has been sent. *)
Definition handshake (trick : Trick) (g : decoy_rng) (started timeout : Z) (ts : list turn) (s : WgTunnel) : awaited * WgTunnel :=
  then_ (initiate trick g s) (handshake_loop (started + timeout) ts).
End handshake.
End Handshake.

Module HandshakeFacts.
Import Dataplane Tunnel App TunnelFacts Handshake.

(** ** Decoys *)
Lemma fill_zlen f n : 0 <= n -> zlen (fill f n) = n.
Proof. intros H. unfold zlen, fill. rewrite length_map, length_seq. lia. Qed.

Lemma decoy_zlen header g i : zlen header + 10 <= zlen (decoy_packet header g i) <= zlen header + 120.
Proof.
  unfold decoy_packet. pose proof (gen_range_in (zlen header + 10) (zlen header + 120) (size g i) ltac:(lia)).
  rewrite zlen_app, fill_zlen by lia. lia.
Qed.

Lemma decoys_shape trick g : let l := decoys trick g in
  match trick with TrickNone => l = [] | _ => 20 <= zlen l <= 50 end /\
  Forall (fun p => exists h, decoy_header trick g = Some h /\ h `prefix_of` p /\ 10 <= zlen p - zlen h <= 120) l.
Proof.
  cbn zeta. unfold decoys. pose proof (gen_range_in 20 50 (number g) ltac:(lia)) as Hn. split.
  - destruct trick; cbn [decoy_header]; [done|..]; unfold zlen; rewrite length_map, length_seq; lia.
  - destruct (decoy_header trick g) as [h|]; [|done]. apply Forall_forall. intros p Hp.
    apply list_elem_of_fmap in Hp as (i & -> & _). exists h. split; [done|]. split; [by eexists|].
    pose proof (decoy_zlen h g i). lia.
Qed.

(** ** What goes onto the wire *)
Section sent.
Context {N : Tunn} (r : Z * Z * Z) (D : list bytes).
Abbreviation dev := (WgTunnel (N:=log_tunn N)).

(** The wire holds the packets [D] and then all that boringtun produced, patched. *)
Definition exact (s : dev) : Prop := reserved s = r /\ wire_out (sock s) = D ++ map (patch_reserved r) (tn s).2.
Definition behind (s : dev) : Prop := wire_out (sock s) `prefix_of` D ++ map (patch_reserved r) (tn s).2.

Definition settled (x : awaited) : Prop := x = Ready (Ok tt) \/ x = Ready (Err Timeout).
Definition post (x : awaited * dev) : Prop := behind x.2 /\ (settled x.1 -> exact x.2).

Lemma post_ret x s : exact s -> post (x, s).
Proof. intros H. split; [|done]. destruct H as [_ H]. unfold behind. cbn. by rewrite H. Qed.

Lemma post_then x k : post x -> (forall s, exact s -> post (k s)) -> post (then_ x k).
Proof.
  intros [Hb He] Hk. destruct x as [[[[]|e|]|] s]; cbn [then_]; try done. apply Hk, He. by left.
Qed.

Lemma await_send_out p sd k x k' : await_send p sd k = (x, k') ->
  wire_out k' = wire_out k ++ match x with Ready (Ok _) => [p] | _ => [] end /\ x <> Ready Panic /\ x <> Ready (Err Timeout).
Proof.
  revert k. induction sd as [|[| |[]] sd IH]; intros k; cbn [await_send]; try (by intros [= <- <-]; cbn; rewrite ?app_nil_r); apply IH.
Qed.

Lemma send_post p l (s : dev) : reserved s = r -> (tn s).2 = l ++ [p] -> wire_out (sock s) = D ++ map (patch_reserved r) l ->
  post (send (patch_reserved (reserved s) p) s).
Proof.
  intros Hr Hl Hw. unfold send. rewrite Hr. destruct (await_send _ _ _) as [x k] eqn:Hk. apply await_send_out in Hk as (Ho & Hp & Ht).
  assert (Hn : behind (set_sock (mk_sock [] [] [] (wire_out (sock s))) s)).
  { unfold behind. cbn. rewrite Hl, Hw, map_app, app_assoc. by eexists. }
  destruct x as [[[]|e|]|]; cbn [then_].
  - apply post_ret. split; [done|]. cbn. rewrite Ho, Hw, Hl, map_app, app_assoc. done.
  - split; [|by intros [?|?]; cbn in *]. unfold behind in *. cbn in *. by rewrite Ho, app_nil_r.
  - done.
  - split; [|by intros [?|?]; cbn in *]. unfold behind in *. cbn in *. by rewrite Ho, app_nil_r.
Qed.

(** Right after a call of boringtun that answered [x]. *)
Lemma call_post (x : TunnResult * @tunn N) (s : dev) : exact s ->
  let s' := set_tn (N:=log_tunn N) (log_result (tn s).2 x).2 s in
  match x.1 with
  | TunnWriteToNetwork p => post (send (patch_reserved (reserved s') p) s')
  | _ => exact s'
  end.
Proof.
  intros [Hr Hw]. cbn zeta. destruct x as [[|e|p|p|p] t]; cbn [fst snd log_result net]; try (split; [done|]; cbn; by rewrite app_nil_r).
  apply (send_post p (tn s).2); done.
Qed.

(** The same, with an update of the observer before the packet is sent. *)
Lemma exact_observed f s : exact s -> exact (observed f s).
Proof. done. Qed.

Lemma tick_post s : exact s -> post (tick s).
Proof.
  intros H. unfold tick. cbn [update_timers log_tunn]. pose proof (call_post (update_timers (tn s).1) s H) as Hc. cbn zeta in Hc.
  destruct (update_timers (tn s).1) as [[|e|p|p|p] t]; cbn [fst snd log_result] in Hc |- *; try (by apply post_ret); [|done].
  destruct e; try (by apply post_ret). set (s1 := set_tn _ s) in *. cbn [format_handshake_initiation log_tunn].
  pose proof (call_post (format_handshake_initiation (tn s1).1) s1 Hc) as Hd. cbn zeta in Hd.
  destruct (format_handshake_initiation (tn s1).1) as [[|e|p|p|p] t2]; cbn [fst snd log_result] in Hd |- *; try (by apply post_ret). done.
Qed.

Lemma pump_loop_post f now x (s : dev) : match x with
    | TunnWriteToNetwork p => exists l, reserved s = r /\ (tn s).2 = l ++ [p] /\ wire_out (sock s) = D ++ map (patch_reserved r) l
    | _ => exact s end -> post (pump_loop f now x s).
Proof.
  revert x s. induction f as [|f IH]; intros x s H; cbn [pump_loop].
  { destruct x; try (by apply post_ret). destruct H as (l & Hr & Hl & Hw). split; [|by intros [?|?]].
    unfold behind. cbn. rewrite Hl, Hw, map_app, app_assoc. by eexists. }
  destruct x as [|e|p|p|p]; try (by apply post_ret).
  - unfold observe_decap_error. destruct (observe _ _). by apply post_ret.
  - destruct H as (l & Hr & Hl & Hw). apply post_then; [by apply (send_post p l)|]. intros s1 H1.
    cbn [decapsulate log_tunn]. destruct (decapsulate (tn s1).1 []) as [y t]. cbn [log_result fst snd]. apply IH.
    destruct H1 as [H1 H2]. destruct y; cbn [net]; try (split; [done|]; cbn; by rewrite app_nil_r). by exists (tn s1).2.
Qed.

Lemma pump_once_post t s : exact s -> post (pump_once t s).
Proof.
  intros H. unfold pump_once. destruct (got t) as [[d|e]|]; [|by apply post_ret|by apply tick_post].
  cbn [decapsulate log_tunn]. cbn [tn observed]. destruct (decapsulate (tn s).1 _) as [y tt_]. cbn [log_result fst snd].
  apply post_then; [|apply tick_post]. apply pump_loop_post. destruct H as [H1 H2].
  destruct y; cbn [net]; try (split; [done|]; cbn; by rewrite app_nil_r). by exists (tn s).2.
Qed.

Lemma loop_post deadline ts s : exact s -> post (handshake_loop deadline ts s).
Proof.
  revert s. induction ts as [|t ts IH]; intros s H; cbn [handshake_loop]; [by apply post_ret|].
  destruct (_ <? _); [|by apply post_ret]. destruct (shaken s); [by apply post_ret|].
  apply post_then; [by apply pump_once_post|apply IH].
Qed.

Lemma send_all_post l (s : dev) : reserved s = r -> (tn s).2 = [] -> wire_out (sock s) ++ l = D ->
  wire_out (sock (send_all l s).2) `prefix_of` D /\ (tn (send_all l s).2).2 = [] /\
  ((send_all l s).1 = Ready (Ok tt) -> exact (send_all l s).2) /\ (send_all l s).1 <> Ready (Err Timeout).
Proof.
  revert s. induction l as [|p l IH]; intros s Hr Hl Hd; cbn [send_all].
  - rewrite app_nil_r in Hd. split_and!; [by rewrite <-Hd|done| |done]. intros _. split; [done|]. cbn. by rewrite Hl, app_nil_r.
  - unfold send. destruct (await_send _ _ _) as [x k] eqn:Hk. apply await_send_out in Hk as (Ho & Hp & Ht).
    destruct x as [[[]|e|]|]; cbn [then_]; [|rewrite app_nil_r in Ho; cbn; split_and!; [rewrite Ho, <-Hd; by eexists|done..]|done|
      rewrite app_nil_r in Ho; cbn; split_and!; [rewrite Ho, <-Hd; by eexists|done..]].
    apply IH; [done|done|]. cbn. by rewrite Ho, <-app_assoc.
Qed.
End sent.

Lemma initiate_post {N : Tunn} r trick g (s : WgTunnel (N:=log_tunn N)) :
  reserved s = r -> (tn s).2 = [] -> wire_out (sock s) = [] -> post r (decoys trick g) (initiate trick g s).
Proof.
  intros Hr Hl Hw. unfold initiate, send_decoy_packets.
  destruct (send_all_post r (decoys trick g) (decoys trick g) s Hr Hl ltac:(by rewrite Hw)) as (H1 & H2 & H3 & H4).
  apply post_then.
  - split.
    + unfold behind. rewrite H2. by rewrite app_nil_r.
    + intros [H|H]; [by apply H3|done].
  - intros s1 H. cbn [format_handshake_initiation log_tunn].
    pose proof (call_post r _ (format_handshake_initiation (tn s1).1) s1 H) as Hc. cbn zeta in Hc.
    destruct (format_handshake_initiation (tn s1).1) as [[|e|p|p|p] t]; cbn [fst snd log_result] in Hc |- *; [by apply post_ret..|exact Hc|by apply post_ret|by apply post_ret].
Qed.

(** ** How it ends *)
Section ends.
Context {N : Tunn}.

Lemma then_cases (x : awaited * WgTunnel (N:=N)) k : (exists s, x = (Ready (Ok tt), s) /\ then_ x k = k s) \/ (x.1 <> Ready (Ok tt) /\ then_ x k = x).
Proof. destruct x as [[[[]|e|]|] s]; [left; eauto|right; done..]. Qed.

Lemma send_no_panic p (s : WgTunnel (N:=N)) : (send p s).1 <> Ready Panic /\ (send p s).1 <> Ready (Err Timeout) /\ tn (send p s).2 = tn s.
Proof.
  unfold send. destruct (await_send _ _ _) as [x k] eqn:Hk. apply await_send_out in Hk as (_ & Hp & Ht).
  by destruct x as [[[]|e|]|].
Qed.

Lemma tick_ends (s : WgTunnel (N:=N)) : (tick s).1 <> Ready Panic /\ (tick s).1 <> Ready (Err Timeout).
Proof.
  unfold tick. destruct (update_timers (tn s)) as [[|e|p|p|p] t]; try done; [|split; by apply send_no_panic].
  destruct e; try done. destruct (format_handshake_initiation _) as [[|e|p|p|p] t2]; try done. split; by apply send_no_panic.
Qed.

Lemma pump_loop_ends {L : TunnLaws N} f now x (s : WgTunnel (N:=N)) : (S (queued (tn s)) < f)%nat ->
  (pump_loop f now x s).1 <> Ready Panic /\ (pump_loop f now x s).1 <> Ready (Err Timeout).
Proof.
  revert x s. induction f as [|f IH]; intros x s Hf; [lia|]. cbn [pump_loop]. destruct x as [|e|p|p|p]; try done.
  match goal with |- context [send ?p ?y] => destruct (send_no_panic p y) as (H1 & H2 & H3);
    destruct (then_cases (send p y) (fun s => let '(r, t) := decapsulate (tn s) [] in pump_loop f now r (set_tn t s))) as [(s1 & Hs & ->)|[_ ->]] end;
    [|done].
  rewrite Hs in H3. cbn [snd tn observed] in H3. destruct (decapsulate (tn s1) []) as [y t] eqn:Hd.
  destruct y as [|e|q|q|q]; try (destruct f; [lia|done]). apply IH. apply decapsulate_flushes in Hd. rewrite H3 in Hd. cbn. lia.
Qed.

Lemma pump_once_ends {L : TunnLaws N} t (s : WgTunnel (N:=N)) : (pump_once t s).1 <> Ready Panic /\ (pump_once t s).1 <> Ready (Err Timeout).
Proof.
  unfold pump_once. destruct (got t) as [[d|e]|]; [|done|apply tick_ends]. destruct (decapsulate _ _) as [y t'].
  match goal with |- context [then_ (pump_loop ?f ?n y ?z) tick] => pose proof (pump_loop_ends f n y z ltac:(cbn; lia)) as H;
    destruct (then_cases (pump_loop f n y z) tick) as [(s1 & _ & ->)|[_ ->]] end; [apply tick_ends|done].
Qed.

Lemma loop_ends {L : TunnLaws N} deadline ts (s : WgTunnel (N:=N)) : let '(x, s') := handshake_loop deadline ts s in
  x <> Ready Panic /\ (x = Ready (Ok tt) -> shaken s' = true) /\
  (x = Ready (Err Timeout) -> Exists (fun t => deadline <= at_ t) ts).
Proof.
  revert s. induction ts as [|t ts IH]; intros s; cbn [handshake_loop]; [done|].
  destruct (Z.ltb_spec (at_ t) deadline) as [Ht|Ht]; [|split_and!; [done..|]; intros _; by left].
  destruct (shaken s) eqn:Hs; [done|]. destruct (pump_once_ends t s) as [H1 H2].
  destruct (then_cases (pump_once t s) (handshake_loop deadline ts)) as [(s1 & _ & ->)|[H3 ->]].
  - specialize (IH s1). destruct (handshake_loop deadline ts s1) as [x s']. destruct IH as (Ha & Hb & Hc).
    split_and!; [done..|]. intros Hx. right. by apply Hc.
  - destruct (pump_once t s) as [x s']. cbn in H1, H2, H3. done.
Qed.

Lemma send_all_ends l (s : WgTunnel (N:=N)) : (send_all l s).1 <> Ready Panic /\ (send_all l s).1 <> Ready (Err Timeout).
Proof.
  revert s. induction l as [|p l IH]; intros s; cbn [send_all]; [done|]. destruct (send_no_panic p s) as (H1 & H2 & _).
  by destruct (then_cases (send p s) (send_all l)) as [(s1 & _ & ->)|[_ ->]].
Qed.

Lemma initiate_ends trick g (s : WgTunnel (N:=N)) : (initiate trick g s).1 <> Ready Panic /\ (initiate trick g s).1 <> Ready (Err Timeout).
Proof.
  unfold initiate. match goal with |- context [then_ ?x ?k] => destruct (then_cases x k) as [(s1 & _ & ->)|[_ ->]] end;
    [|apply send_all_ends].
  destruct (format_handshake_initiation _) as [[|e|p|p|p] t]; try done. split; by apply send_no_panic.
Qed.

(** *** Only a send can keep the call waiting: its socket takes nothing any more. *)
Definition waits_for_socket (x : awaited * WgTunnel (N:=N)) : Prop := x.1 = Pending -> sends (sock x.2) = [].

Lemma waits_then x k : waits_for_socket x -> (forall s, waits_for_socket (k s)) -> waits_for_socket (then_ x k).
Proof. intros Hx Hk. destruct (then_cases x k) as [(s & _ & ->)|[_ ->]]; [apply Hk|exact Hx]. Qed.

Lemma send_waits p s : waits_for_socket (send p s).
Proof.
  unfold send. destruct (await_send p (sends (sock s)) (sock s)) as [x k] eqn:Hk. apply waits_then; [|done]. unfold waits_for_socket. cbn. intros ->.
  revert Hk. generalize (sends (sock s)). intros sd.
  induction sd as [|[| |[]] sd IH]; cbn [await_send]; try (intros H; discriminate H); try apply IH. intros H. by injection H as <-.
Qed.

Lemma send_all_waits l s : waits_for_socket (send_all l s).
Proof. revert s. induction l as [|p l IH]; intros s; cbn [send_all]; [done|]. apply waits_then; [apply send_waits|apply IH]. Qed.

Lemma tick_waits s : waits_for_socket (tick s).
Proof.
  unfold tick. destruct (update_timers (tn s)) as [[|[]|p|p|p] t]; try done; [|apply send_waits].
  destruct (format_handshake_initiation _) as [[|e|p|p|p] t2]; try done. apply send_waits.
Qed.

Lemma pump_loop_waits f now x s : waits_for_socket (pump_loop f now x s).
Proof.
  revert x s. induction f as [|f IH]; intros x s; cbn [pump_loop]; [done|]. destruct x as [|e|p|p|p]; try done.
  apply waits_then; [apply send_waits|]. intros s1. destruct (decapsulate (tn s1) []). apply IH.
Qed.

Lemma pump_once_waits t s : waits_for_socket (pump_once t s).
Proof.
  unfold pump_once. destruct (got t) as [[d|e]|]; [|done|apply tick_waits]. destruct (decapsulate _ _) as [y t'].
  apply waits_then; [apply pump_loop_waits|apply tick_waits].
Qed.

Lemma loop_waits deadline ts s : (handshake_loop deadline ts s).1 = Pending ->
  sends (sock (handshake_loop deadline ts s).2) = [] \/ Forall (fun t => at_ t < deadline) ts.
Proof.
  revert s. induction ts as [|t ts IH]; intros s; cbn [handshake_loop]; [by right|]. destruct (Z.ltb_spec (at_ t) deadline); [|done].
  destruct (shaken s); [done|]. pose proof (pump_once_waits t s) as Hw.
  destruct (then_cases (pump_once t s) (handshake_loop deadline ts)) as [(s1 & _ & ->)|[_ ->]]; [|left; by apply Hw].
  intros [Hs|Hf]%IH; [by left|right; by constructor].
Qed.

Lemma initiate_waits trick g s : waits_for_socket (initiate trick g s).
Proof.
  unfold initiate. apply waits_then; [apply send_all_waits|]. intros s1.
  destruct (format_handshake_initiation _) as [[|e|p|p|p] t]; try done. apply send_waits.
Qed.

(** A handshake that succeeds has a session. *)
Lemma handshake_shaken {L : TunnLaws N} trick g started timeout ts (s s' : WgTunnel (N:=N)) :
  handshake trick g started timeout ts s = (Ready (Ok tt), s') -> shaken s' = true.
Proof.
  unfold handshake. destruct (then_cases (initiate trick g s) (handshake_loop (started + timeout) ts)) as [(s1 & _ & ->)|[Hn ->]]; [|intros H; by rewrite H in Hn].
  pose proof (loop_ends (started + timeout) ts s1) as H. destruct (handshake_loop _ ts s1) as [x s2]. destruct H as (_ & H & _). intros [= -> ->]. by apply H.
Qed.

(** The state after pumping through the given turns without an error. *)
Fixpoint pumps (ts : list turn) (s : WgTunnel (N:=N)) : option WgTunnel :=
  match ts with
  | [] => Some s
  | t :: ts => match pump_once t s with (Ready (Ok _), s) => pumps ts s | _ => None end
  end.

Lemma loop_live deadline ts k (s s2 : WgTunnel (N:=N)) : (k < length ts)%nat -> Forall (fun t => at_ t < deadline) (take (S k) ts) ->
  pumps (take k ts) s = Some s2 -> shaken s2 = true -> (handshake_loop deadline ts s).1 = Ready (Ok tt).
Proof.
  revert ts s. induction k as [|k IH]; intros [|t ts] s Hk Hf Hp Hs; cbn [length] in Hk; try lia; cbn [handshake_loop take pumps] in *.
  - injection Hp as ->. apply Forall_inv in Hf. rewrite (proj2 (Z.ltb_lt _ _)) by done. by rewrite Hs.
  - apply Forall_cons in Hf as [Ht Hf]. rewrite (proj2 (Z.ltb_lt _ _)) by done. destruct (shaken s); [done|].
    destruct (pump_once t s) as [[[[]|e|]|] s1]; try done. cbn [then_]. apply (IH ts s1); [lia|done..].
Qed.
End ends.

(** A tunnel before its handshake, on a socket that will take sends as [sd] says. *)
Definition cold (N : Tunn) (t : @tunn N) (r : Z * Z * Z) (sd : list send_result) : WgTunnel (N:=log_tunn N) :=
  mk_tunnel (N:=log_tunn N) (t, []) (mk_sock sd [] [] []) r new tracker_default [] [].


(** A machine that initiates, and completes the handshake on a response. *)
Definition shaker : Tunn := {|
  tunn := bool;
  decapsulate := fun t p => match p with 2 :: _ => (TunnWriteToNetwork [4; 0; 0; 0], true) | _ => (TunnDone, t) end;
  encapsulate := fun t _ => (TunnDone, t);
  update_timers := fun t => (TunnDone, t);
  format_handshake_initiation := fun t => (TunnWriteToNetwork [1; 0; 0; 0; 7], t);
  time_since_last_handshake := fun t : bool => if t then Some 0 else None;
  queued := fun _ => 0%nat
|}.
Definition rng0 : decoy_rng := mk_rng 3 (fun _ => 1) 0 (fun _ => 0) (fun i j => Z.of_nat (i + j)).
Definition turns : list turn := [mk_turn 0 None; mk_turn 500 (Some (Datagram_ [2; 9; 9; 9])); mk_turn 600 None].

End HandshakeFacts.
