(* ===== verification/Registration.v ===== *)
(** * Registration with the WARP service: [src/src/registration/teams.rs],
    [src/src/registration/masque.rs], and the commands of [src/src/bin/warp-socks.rs]

    HTTP exchanges are scripted, one reply per request, and the requests made are
    returned.  JSON, P-256 and X.509 are third party: classes with the round
    trips the code relies on. *)
From S2P Require Import Prelude RustStr Fs NetAddr Health Config.

(** ** HTTP *)
Inductive jval := JStr (s : bytes) | JBool (b : bool).
Record request := mk_request {
  method : string; url : bytes; headers : list (string * bytes); body : list (string * jval)
}.

(** What a request meets: [HttpFailed] when sending fails; the text of the body
    is [None] when reading it fails. *)
Inductive reply := HttpFailed (message : bytes) | Reply (status : Z) (retry_after : option bytes) (text : option bytes).
Definition is_success (status : Z) : bool := (200 <=? status) && (status <=? 299).

(** ** Teams *)
Class AccountCodec := {
  account_to_json : WgConf.WgAccount -> bytes;
  account_from_json : bytes -> option WgConf.WgAccount;
  (** the text is a JSON object with an [account] that is not null *)
  json_has_account : bytes -> bool
}.
Class AccountCodecLaws (C : AccountCodec) : Prop := {
  account_roundtrip : forall a, account_from_json (account_to_json a) = Some a
}.

Module Teams.
Import WgConf.

Definition CF_CLIENT_VERSION : bytes := str_bytes "a-6.10-2158".
Definition REGISTER_URL : bytes := str_bytes "https://api.cloudflareclient.com/v0a2158/reg".

(** Durations in nanoseconds. *)
Definition SEC : Z := 1000000000.
Definition DURATION_MAX : Z := U64_MAX * SEC + 999999999.
Definition duration_saturating_mul (d n : Z) : Z := Z.min DURATION_MAX (d * n).

Definition CHARSET : bytes := str_bytes "ABCDEFGHIJKLMNOPQRSTUVWXYZabcdefghijklmnopqrstuvwxyz0123456789".
Definition random_alnum (len : nat) (draw : nat -> Z) : bytes :=
  map (fun i => nth (Z.to_nat (gen_range 0 (zlen CHARSET - 1) (draw i))) CHARSET 0) (seq 0 len).

(** [{:0width}] of a number that is not negative. *)
Definition fmt_pad (width : nat) (z : Z) : bytes :=
  let d := fmt_dec z in repeat 48 (width - length d) ++ d.
Record clock := mk_clock { year : Z; month : Z; day : Z; hour : Z; minute : Z; second : Z }.
Definition current_tos (c : clock) : bytes :=
  fmt_pad 4 (year c) ++ str_bytes "-" ++ fmt_pad 2 (month c) ++ str_bytes "-" ++ fmt_pad 2 (day c) ++ str_bytes "T" ++
  fmt_pad 2 (hour c) ++ str_bytes ":" ++ fmt_pad 2 (minute c) ++ str_bytes ":" ++ fmt_pad 2 (second c) ++ str_bytes ".000Z".

(** [HeaderValue::to_str] *)
Definition header_to_str (v : bytes) : option bytes :=
  if forallb (fun c => ((32 <=? c) && (c <? 127)) || (c =? 9)) v then Some v else None.
Definition parse_retry_after (h : option bytes) : option Z :=
  v ← h; v ← header_to_str v; parse_uint U64_MAX (trim v).

Section teams.
Context {B : Base64} {C : AccountCodec}.
(** the X25519 public key of a secret *)
Context (public_of : bytes -> bytes).

Definition save (f : fs_faults) (rnd : Z) (a : WgAccount) (path : bytes) (s : fs) : res fs_error unit * fs :=
  write_private f rnd path (account_to_json a) s.
Definition load (path : bytes) (s : fs) : option WgAccount :=
  data ← s !! path; account_from_json data.

Record TeamsRegistrar := mk_registrar { token : bytes; account_path : bytes; retries : Z; retry_delay : Z }.
Definition new (token account_path : bytes) : TeamsRegistrar := mk_registrar token account_path 2 (2 * SEC).

(** The randomness of one registration. *)
Record keygen := mk_keygen { secret : bytes; install : nat -> Z; fcm : nat -> Z }.
Definition install_id (k : keygen) : bytes := random_alnum 22 (install k).
Definition fcm_token (k : keygen) : bytes := install_id k ++ str_bytes ":APA91b" ++ random_alnum 134 (fcm k).

(** The body of the request, serialised field by field. *)
Record TeamsRegisterRequest := mk_teams_request {
  tq_key : bytes; tq_install_id : bytes; tq_fcm_token : bytes; tq_tos : bytes; tq_model : bytes; tq_serial_number : bytes; tq_locale : bytes
}.
Definition teams_json (r : TeamsRegisterRequest) : list (string * jval) :=
  [("key", JStr (tq_key r)); ("install_id", JStr (tq_install_id r)); ("fcm_token", JStr (tq_fcm_token r)); ("tos", JStr (tq_tos r));
   ("model", JStr (tq_model r)); ("serial_number", JStr (tq_serial_number r)); ("locale", JStr (tq_locale r))]%string.

Definition register_request (raw_token : bytes) (k : keygen) (now : clock) : request :=
  mk_request "POST" REGISTER_URL
    [("User-Agent", str_bytes "okhttp/3.12.1"); ("CF-Client-Version", CF_CLIENT_VERSION);
     ("Cf-Access-Jwt-Assertion", raw_token)]%string
    (teams_json (mk_teams_request (b64_encode (public_of (secret k))) (install_id k) (fcm_token k) (current_tos now) (str_bytes "PC")
       (install_id k) (str_bytes "zh_CN"))).

(** One attempt: the clock, the reply, and how writing the account would go. *)
Record exchange := mk_exchange { now : clock; rep : reply; save_faults : fs_faults; save_rnd : Z }.

Inductive reg_error := BadToken (e : token_error) | ClientFailed | TokenExpired | BadResponse | SaveFailed (e : fs_error) | Exhausted.
Inductive event := Sent (r : request) | Slept (ns : Z).

Definition outcome (r : reply) : option Z * option Z * bytes :=
  match r with
  | Reply status retry_after text => (Some status, parse_retry_after retry_after, default [] text)
  | HttpFailed m => (None, None, m)
  end.

(** The wait before the next attempt. *)
Definition pause (c : TeamsRegistrar) (attempt : Z) (retry_after : option Z) : Z :=
  let delay := duration_saturating_mul (retry_delay c) attempt in
  match retry_after with Some ra => Z.max delay (ra * SEC) | None => delay end.

(** The loop of [register]; [None] as a result: the script is used up. *)
Fixpoint register_loop (c : TeamsRegistrar) (raw_token : bytes) (k : keygen) (attempt : Z) (xs : list exchange) (s : fs)
    : option (res reg_error WgAccount) * list event * fs :=
  match xs with
  | [] => (None, [], s)
  | x :: xs =>
      let sent := Sent (register_request raw_token k (now x)) in
      let '(status, retry_after, text) := outcome (rep x) in
      if bool_decide (status = Some 200) && json_has_account text then
        match account_from_json text with
        | None => (Some (Err BadResponse), [sent], s)
        | Some a =>
            let a := mk_account (b64_encode (secret k)) (client_id a) (peers a) (acc_v4 a) (acc_v6 a) in
            match save (save_faults x) (save_rnd x) a (account_path c) s with
            | (Ok _, s) => (Some (Ok a), [sent], s)
            | (Err e, s) => (Some (Err (SaveFailed e)), [sent], s)
            | (Panic, s) => (Some Panic, [sent], s)
            end
        end
      else if bool_decide (status = Some 401) && contains_str (str_bytes "token is expired") text then
        (Some (Err TokenExpired), [sent], s)
      else if Z.max (retries c) 1 <=? attempt then (Some (Err Exhausted), [sent], s)
      else
        let '(r, evs, s) := register_loop c raw_token k (attempt + 1) xs s in
        (r, sent :: Slept (pause c attempt retry_after) :: evs, s)
  end.

(** [client]: whether [http_client] could build its client. *)
Definition register (c : TeamsRegistrar) (k : keygen) (client : bool) (xs : list exchange) (s : fs)
    : option (res reg_error WgAccount) * list event * fs :=
  match parse_token (token c) with
  | Ok raw_token => if client then register_loop c raw_token k 1 xs s else (Some (Err ClientFailed), [], s)
  | Err e => (Some (Err (BadToken e)), [], s)
  | Panic => (Some Panic, [], s)
  end.
End teams.
End Teams.

Module TeamsFacts.
Import WgConf Teams.

Section spec.
Context {B : Base64} {C : AccountCodec} (public_of : bytes -> bytes).

(** ** What a reply decides *)
Inductive verdict := Accept (a : WgAccount) | Unreadable | Expired | Again.
Definition judge (r : reply) : verdict :=
  match r with
  | Reply 200 _ text =>
      let text := default [] text in
      if json_has_account text then match account_from_json text with Some a => Accept a | None => Unreadable end else Again
  | Reply 401 _ text => if contains_str (str_bytes "token is expired") (default [] text) then Expired else Again
  | _ => Again
  end.

(** The account kept: the service's answer with the key made here. *)
Definition with_key (k : keygen) (a : WgAccount) : WgAccount :=
  mk_account (b64_encode (secret k)) (client_id a) (peers a) (acc_v4 a) (acc_v6 a).

(** The attempts made: up to the first reply that decides. *)
Fixpoint until_decided (xs : list exchange) : list exchange :=
  match xs with
  | [] => []
  | x :: xs => match judge (rep x) with Again => x :: until_decided xs | _ => [x] end
  end.

Definition retry_after_of (r : reply) : option Z :=
  match r with Reply _ h _ => parse_retry_after h | HttpFailed _ => None end.

Definition requests (evs : list event) : list request := omap (fun e => match e with Sent r => Some r | _ => None end) evs.
Definition waits (evs : list event) : list Z := omap (fun e => match e with Slept d => Some d | _ => None end) evs.

(** How the last attempt ends the registration. *)
Definition concludes (c : TeamsRegistrar) (k : keygen) (x : exchange) (s : fs) : res reg_error WgAccount * fs :=
  match judge (rep x) with
  | Accept a =>
      match save (save_faults x) (save_rnd x) (with_key k a) (account_path c) s with
      | (Ok _, s) => (Ok (with_key k a), s)
      | (Err e, s) => (Err (SaveFailed e), s)
      | (Panic, s) => (Panic, s)
      end
  | Unreadable => (Err BadResponse, s)
  | Expired => (Err TokenExpired, s)
  | Again => (Err Exhausted, s)
  end.

Lemma loop_step c raw k attempt x xs s : register_loop public_of c raw k attempt (x :: xs) s =
  let sent := Sent (register_request public_of raw k (now x)) in
  match judge (rep x) with
  | Again =>
      if Z.max (retries c) 1 <=? attempt then (Some (Err Exhausted), [sent], s)
      else let '(r, evs, s) := register_loop public_of c raw k (attempt + 1) xs s in
           (r, sent :: Slept (pause c attempt (retry_after_of (rep x))) :: evs, s)
  | _ => let '(r, s) := concludes c k x s in (Some r, [sent], s)
  end.
Proof.
  cbn [register_loop]. unfold concludes, judge, outcome. destruct (rep x) as [m|st h text]; [done|].
  destruct (decide (st = 200)) as [->|H2].
  { rewrite (bool_decide_eq_true_2 (Some 200 = Some 200)) by done. rewrite (bool_decide_eq_false_2 (Some 200 = Some 401)) by done. cbn [andb].
    destruct (json_has_account _); [|done]. destruct (account_from_json _) as [a|]; [|done]. unfold with_key. by repeat case_match. }
  rewrite (bool_decide_eq_false_2 (Some st = Some 200)) by congruence. cbn [andb].
  destruct (decide (st = 401)) as [->|H4].
  { rewrite (bool_decide_eq_true_2 (Some 401 = Some 401)) by done. cbn [andb]. by destruct (contains_str _ _). }
  rewrite (bool_decide_eq_false_2 (Some st = Some 401)) by congruence. cbn [andb].
  assert (Hj : forall (X : Type) (a b d : X), match st with 200 => a | 401 => b | _ => d end = d).
  { intros X a b d. repeat (case_match; try done). }
  rewrite Hj. done.
Qed.

(** The pauses taken after the attempts [xs], the first of which is the [attempt]-th. *)
Fixpoint pauses (c : TeamsRegistrar) (attempt : Z) (xs : list exchange) : list Z :=
  match xs with
  | [] | [_] => []
  | x :: xs => pause c attempt (retry_after_of (rep x)) :: pauses c (attempt + 1) xs
  end.

Lemma until_decided_nonnil x xs : until_decided (x :: xs) <> [].
Proof. cbn. by destruct (judge _). Qed.

Lemma pauses_cons c attempt x xs : xs <> [] ->
  pauses c attempt (x :: xs) = pause c attempt (retry_after_of (rep x)) :: pauses c (attempt + 1) xs.
Proof. by destruct xs. Qed.

Lemma loop_spec c raw k attempt xs s : let n := Z.max (retries c) 1 in 1 <= attempt <= n -> n - attempt < zlen xs ->
  let tried := until_decided (take (Z.to_nat (n - attempt + 1)) xs) in
  let '(r, evs, s') := register_loop public_of c raw k attempt xs s in
  requests evs = map (fun x => register_request public_of raw k (now x)) tried /\ waits evs = pauses c attempt tried /\
  exists x, last tried = Some x /\ concludes c k x s = (default Panic r, s') /\ is_Some r.
Proof.
  cbn zeta. revert attempt. induction xs as [|x xs IH]; intros attempt Ha Hl; [rewrite zlen_nil in Hl; lia|].
  rewrite zlen_cons in Hl. rewrite loop_step. replace (Z.to_nat _) with (S (Z.to_nat (Z.max (retries c) 1 - attempt))) by lia.
  cbn [take until_decided]. cbn zeta.
  assert (Hend : forall y, (let '(r, s') := y in concludes c k x s = (r, s')) ->
    let '(r, evs, s') := (let '(r, s) := y in (Some r, [Sent (register_request public_of raw k (now x))], s)) in
    requests evs = map (fun x => register_request public_of raw k (now x)) [x] /\ waits evs = pauses c attempt [x] /\
    exists z, last [x] = Some z /\ concludes c k z s = (default Panic r, s') /\ is_Some r).
  { intros [r s'] Hc. split_and!; [done..|]. by exists x. }
  destruct (judge (rep x)) as [a| | |] eqn:Hj; try (apply Hend; by destruct (concludes c k x s)).
  destruct (Z.leb_spec (Z.max (retries c) 1) attempt) as [Hn|Hn].
  - replace (Z.to_nat _) with 0%nat by lia. cbn [take until_decided]. apply (Hend (Err Exhausted, s)).
    unfold concludes. by rewrite Hj.
  - specialize (IH (attempt + 1) ltac:(lia) ltac:(lia)). replace (_ - (attempt + 1) + 1) with (Z.max (retries c) 1 - attempt) in IH by lia.
    destruct (register_loop _ c raw k (attempt + 1) xs s) as [[r evs] s'] eqn:He. destruct IH as (H1 & H2 & z & Hz & Hc & Hr).
    assert (Hne : until_decided (take (Z.to_nat (Z.max (retries c) 1 - attempt)) xs) <> []) by (intros Hne; by rewrite Hne in Hz).
    split_and!.
    + cbn [requests omap list_omap map]. f_equal. exact H1.
    + cbn [waits omap list_omap]. rewrite pauses_cons by done. f_equal. exact H2.
    + exists z. split_and!; [|done..]. rewrite last_cons, Hz. done.
Qed.
End spec.

(** The pauses between the attempts, one by one. *)
Lemma pauses_nth {B : Base64} {C : AccountCodec} c attempt xs i d : pauses c attempt xs !! i = Some d ->
  exists x, xs !! i = Some x /\ d = pause c (attempt + Z.of_nat i) (retry_after_of (rep x)).
Proof.
  revert attempt i. induction xs as [|x xs IH]; intros attempt i; [done|]. destruct xs as [|y xs]; [done|].
  rewrite pauses_cons by done. destruct i as [|i]; cbn [lookup list_lookup].
  - intros [= <-]. exists x. split; [done|]. f_equal. lia.
  - intros (z & Hz & ->)%IH. exists z. split; [done|]. f_equal. lia.
Qed.

Lemma pauses_length {B : Base64} {C : AccountCodec} c attempt xs : length (pauses c attempt xs) = pred (length xs).
Proof. revert attempt. induction xs as [|x [|y xs] IH]; intros attempt; [done..|]. rewrite pauses_cons by done. cbn [length]. by rewrite IH. Qed.

Lemma retry_after_dec st secs text : u64 secs -> retry_after_of (Reply st (Some (fmt_dec secs)) text) = Some secs.
Proof.
  intros [H1 H2]. unfold retry_after_of, parse_retry_after. cbn [mbind option_bind]. unfold header_to_str. pose proof (fmt_dec_digits secs H1) as Hd.
  assert (Hg : forallb (fun c => ((32 <=? c) && (c <? 127)) || (c =? 9)) (fmt_dec secs) = true).
  { apply forallb_forall. intros c Hc%list_elem_of_In. rewrite Forall_forall in Hd. specialize (Hd c Hc). unfold is_digit in Hd. zbool.
    apply orb_true_iff. left. apply andb_true_iff. split; [apply Z.leb_le|apply Z.ltb_lt]; lia. }
  rewrite Hg. cbn [mbind option_bind]. rewrite WgConfFacts.trim_printable.
  - apply parse_uint_fmt; [done|]. unfold U64_MAX in H2. lia.
  - eapply Forall_impl; [exact Hd|]. intros c Hc. unfold is_digit in Hc. unfold graphic. zbool. apply andb_true_iff. split; [apply Z.leb_le|apply Z.leb_le]; lia.
Qed.

(** The length of what was tried, and when it is all there is. *)
Lemma until_decided_length {B : Base64} {C : AccountCodec} xs : (length (until_decided xs) <= length xs)%nat /\
  forall x, last (until_decided xs) = Some x -> judge (rep x) = Again -> length (until_decided xs) = length xs.
Proof.
  induction xs as [|y xs [IH1 IH2]]; [done|]. cbn [until_decided]. destruct (judge (rep y)) eqn:Hj;
    try (cbn; split; [lia|]; intros x [= <-] Ha; congruence).
  cbn [length]. split; [lia|]. intros x Hx Ha. f_equal. destruct xs as [|z xs]; [done|]. apply (IH2 x); [|done].
  rewrite last_cons in Hx. destruct (last (until_decided (z :: xs))) eqn:Hl; [done|]. apply last_None in Hl. by apply until_decided_nonnil in Hl.
Qed.

(** C29. Registration with Teams terminates, persists and is polite.  Given a
    well-formed token it posts at most [max(retries, 1)] requests, each with the token
    and the same key; the first reply that decides (an account, an expired token, an
    unreadable account) is the last.  Between attempt [i] and the next it waits exactly
    [i] times the delay, or the server's [Retry-After] in seconds where that is longer.  The
    outcome is the one that last reply asks for: an account that is accepted is
    written, with the key made here, and returned unless the write fails; giving up
    happens only when every attempt has been made; no other file changes. *)
Theorem teams_register_spec {B : Base64} {C : AccountCodec} {L : AccountCodecLaws C} public_of c raw k xs s :
  parse_token (token c) = Ok raw -> Z.max (retries c) 1 <= zlen xs ->
  let tried := until_decided (take (Z.to_nat (Z.max (retries c) 1)) xs) in
  let '(r, evs, s') := register public_of c k true xs s in
  1 <= zlen tried <= Z.max (retries c) 1 /\
  zlen (requests evs) = zlen tried /\
  Forall (fun q => method q = "POST"%string /\ url q = str_bytes "https://api.cloudflareclient.com/v0a2158/reg" /\
      ("Cf-Access-Jwt-Assertion"%string, raw) ∈ headers q /\ ("key"%string, JStr (b64_encode (public_of (secret k)))) ∈ body q) (requests evs) /\
  zlen (waits evs) = zlen tried - 1 /\
  (forall i x d, tried !! i = Some x -> waits evs !! i = Some d ->
     let delay := Z.min DURATION_MAX (retry_delay c * (Z.of_nat i + 1)) in
     delay <= d /\
     match rep x with
     | HttpFailed _ | Reply _ None _ => d = delay
     | Reply _ (Some h) _ => forall secs, u64 secs -> h = fmt_dec secs -> d = Z.max delay (secs * 1000000000)
     end) /\
  exists x, last tried = Some x /\
    match judge (rep x) with
    | Accept a0 =>
        let a := mk_account (b64_encode (secret k)) (client_id a0) (peers a0) (acc_v4 a0) (acc_v6 a0) in
        (r = Some (Ok a) /\ s' = <[account_path c := account_to_json a]> s /\ load (account_path c) s' = Some a) \/
        (save_faults x <> no_faults \/ is_Some (s !! temporary_path (account_path c) (save_rnd x))) /\
          (exists e, r = Some (Err (SaveFailed e))) /\ forall p, p <> temporary_path (account_path c) (save_rnd x) -> s' !! p = s !! p
    | Unreadable => r = Some (Err BadResponse) /\ s' = s
    | Expired => r = Some (Err TokenExpired) /\ s' = s
    | Again => r = Some (Err Exhausted) /\ s' = s /\ zlen tried = Z.max (retries c) 1
    end.
Proof.
  intros Ht Hl. cbn zeta. unfold register. rewrite Ht. pose proof (loop_spec public_of c raw k 1 xs s ltac:(lia) ltac:(lia)) as H.
  replace (_ - 1 + 1) with (Z.max (retries c) 1) in H by lia.
  destruct (until_decided_length (take (Z.to_nat (Z.max (retries c) 1)) xs)) as [Hlen Hall].
  assert (Htk : length (take (Z.to_nat (Z.max (retries c) 1)) xs) = Z.to_nat (Z.max (retries c) 1)) by (rewrite length_take; unfold zlen in Hl; lia).
  rewrite Htk in Hlen, Hall. set (tried := until_decided _) in *.
  destruct (register_loop _ c raw k 1 xs s) as [[r evs] s']. destruct H as (H1 & H2 & x & Hx & Hc & [r' ->]).
  assert (Hpos : (1 <= length tried)%nat) by (destruct tried; [done|cbn; lia]).
  rewrite H1, H2. split_and!.
  - unfold zlen. lia.
  - unfold zlen. lia.
  - unfold zlen. by rewrite length_map.
  - apply Forall_forall. intros q Hq. apply list_elem_of_fmap in Hq as (y & -> & _).
    split; [reflexivity|]. split; [reflexivity|]. split; [do 2 right; left|left].
  - unfold zlen. rewrite pauses_length. lia.
  - intros i y d Hy (z & Hz & ->)%pauses_nth. rewrite Hy in Hz. injection Hz as <-. unfold pause, duration_saturating_mul.
    replace (1 + Z.of_nat i) with (Z.of_nat i + 1) by lia. split; [destruct (retry_after_of _); lia|].
    destruct (rep y) as [m|st [h|] text]; [done| |done]. intros secs Hs ->. by rewrite retry_after_dec.
  - exists x. split; [done|]. cbn [default] in Hc. unfold concludes in Hc.
    destruct (judge (rep x)) as [a0| | |] eqn:Hj; try (injection Hc as <- <-; done).
    2: { injection Hc as <- <-. split_and!; [done..|]. specialize (Hall x Hx Hj). unfold zlen. lia. }
    unfold save in Hc. fold (with_key k a0).
    pose proof (write_private_spec (save_faults x) (save_rnd x) (account_path c) (account_to_json (with_key k a0)) s) as Hw.
    destruct (write_private _ _ _ _ _) as [[[]|e|] s2] eqn:Hwr; injection Hc as <- <-; [| |done].
    + left. rewrite Hw. split_and!; [done..|]. unfold load. rewrite lookup_insert_eq. apply account_roundtrip.
    + right. split_and!; [|by exists e|apply Hw]. destruct (s !! temporary_path (account_path c) (save_rnd x)) eqn:Htmp; [by right; eexists|].
      left. intros Hno. rewrite Hno, write_private_works in Hwr by done. done.
Qed.

(** A concrete codec. *)
Definition account_tuple (a : WgAccount) : bytes * bytes * list (bytes * bytes) * bytes * bytes :=
  (acc_private_key a, client_id a, map (fun p => (public_key p, host p)) (peers a), acc_v4 a, acc_v6 a).
#[export] Instance account_codec : AccountCodec := {
  account_to_json a := [Zpos (encode (account_tuple a))];
  account_from_json b := match b with
    | [Zpos p] => '(k, c, l, a4, a6) ← decode (A:=bytes * bytes * list (bytes * bytes) * bytes * bytes) p;
                  Some (mk_account k c (map (fun x => mk_peer x.1 x.2) l) a4 a6)
    | _ => None
    end;
  json_has_account b := match b with [Zpos _] => true | _ => false end
}.
#[export] Instance account_codec_laws : AccountCodecLaws account_codec.
Proof.
  constructor. intros [k c l a4 a6]. cbn [account_to_json account_from_json account_codec]. rewrite decode_encode.
  cbn [account_tuple mbind option_bind acc_private_key client_id peers acc_v4 acc_v6]. f_equal. f_equal.
  induction l as [|[pk h] l IH]; [done|]. cbn [map fst snd public_key host]. by rewrite IH.
Qed.

#[local] Existing Instance WgConfFacts.letters.

(** A server that asks to come back in seven seconds, then answers. *)
Definition sample_registrar : TeamsRegistrar := mk_registrar (str_bytes "a.b.c") (str_bytes "/s/account.json") 3 (2 * SEC).
Definition sample_clock : clock := mk_clock 2026 7 1 9 5 30.
Definition sample_exchanges : list exchange :=
  [mk_exchange sample_clock (Reply 429 (Some (str_bytes "7")) None) no_faults 1;
   mk_exchange sample_clock (Reply 200 None (Some (account_to_json (mk_account [] [65] [] [49] [50])))) no_faults 2;
   mk_exchange sample_clock (HttpFailed []) no_faults 3].

Lemma teams_register_spec_witness :
  current_tos sample_clock = str_bytes "2026-07-01T09:05:30.000Z" /\
  let '(r, evs, s') := register (fun b => b) sample_registrar (mk_keygen [1] (fun _ => 0) (fun _ => 0)) true sample_exchanges ∅ in
  zlen (requests evs) = 2 /\ waits evs = [7 * SEC] /\
  exists a, r = Some (Ok a) /\ load (str_bytes "/s/account.json") s' = Some a /\ acc_v4 a = [49].
Proof.
  split; [vm_compute; reflexivity|].
  pose proof (teams_register_spec (fun b => b) sample_registrar (str_bytes "a.b.c") (mk_keygen [1] (fun _ => 0) (fun _ => 0)) sample_exchanges ∅) as H.
  specialize (H ltac:(vm_compute; reflexivity) ltac:(vm_compute; discriminate)). cbv zeta in H.
  assert (Ht : until_decided (take (Z.to_nat (Z.max (retries sample_registrar) 1)) sample_exchanges) = take 2 sample_exchanges)
    by (vm_compute; reflexivity).
  rewrite Ht in H. destruct (register _ _ _ _ _ _) as [[r evs] s']. destruct H as (_ & Hq & _ & Hl & Hw & x & Hx & Hm).
  split; [exact Hq|]. destruct (waits evs) as [|d [|d2 ds]] eqn:Hws; unfold zlen in Hl; cbn in Hl; try lia.
  destruct (Hw 0%nat _ d eq_refl eq_refl) as [_ Hd]. cbn [rep] in Hd.
  specialize (Hd 7 ltac:(vm_compute; split; discriminate) ltac:(vm_compute; reflexivity)). split; [rewrite Hd; vm_compute; reflexivity|].
  injection Hx as <-. destruct Hm as [(Hr & _ & Hload)|[[Hf|[? Hf]] _]]; [|done|by vm_compute in Hf].
  eexists. split; [exact Hr|]. split; [exact Hload|]. reflexivity.
Defined.
End TeamsFacts.

(** ** MASQUE *)
Module MasqueReg.
Definition API_BASE : bytes := str_bytes "https://api.cloudflareclient.com/v0".
Definition CLIENT_VERSION : bytes := str_bytes "linux-2026.6.880.0".

Record Registration := mk_registration {
  id : bytes; token : bytes; account : bytes; key_type : bytes; tunnel_type : bytes; private_key : bytes;
  endpoint_v4 : bytes; endpoint_v6 : bytes; endpoint_ports : list Z; peer_public_key : bytes;
  assigned_ipv4 : bytes; assigned_ipv6 : bytes
}.
Record RegCredentials := mk_creds {
  registration : Registration; client_cert_der : bytes; client_key_der : bytes; pinned_spki_der : bytes
}.

(** The service's answer; missing fields have serde's defaults. *)
Record Peer := mk_peer { public_key : bytes; v4 : bytes; v6 : bytes; ports : list Z }.
Record EnrollConfig := mk_enroll { peers : list Peer; addr_v4 : bytes; addr_v6 : bytes }.
Record RegResult := mk_result {
  res_id : bytes; res_token : bytes; res_account : bytes; res_key_type : bytes; res_tunnel_type : bytes; config : option EnrollConfig
}.

(** [*p as u16] of an [i64]. *)
Definition as_u16 (p : Z) : Z := p mod 65536.

(** [s.find(c)] and the text before it. *)
Definition strip_host (raw : bytes) : bytes :=
  let s := trim raw in
  match s with
  | [] => []
  | _ =>
      let first := hd [] (split_on 58 s) in
      match strip_prefix (str_bytes "[") s with
      | Some rest => match split_once 93 rest with Some (h, _) => h | None => first end
      | None => first
      end
  end.
End MasqueReg.

(** serde_json on the types above; [ident_from_json] reads the [id] and [token]. *)
Class RegCodec := {
  reg_to_json : MasqueReg.Registration -> bytes;
  reg_from_json : bytes -> option MasqueReg.Registration;
  ident_from_json : bytes -> option (bytes * bytes);
  result_from_json : bytes -> option MasqueReg.RegResult
}.
Class RegCodecLaws (C : RegCodec) : Prop := {
  reg_roundtrip : forall r, reg_from_json (reg_to_json r) = Some r;
  reg_ident : forall r, ident_from_json (reg_to_json r) = Some (MasqueReg.id r, MasqueReg.token r)
}.

(** p256 and rcgen. *)
Class P256 := {
  signing_key : Type;
  to_pkcs8_der : signing_key -> option bytes;
  from_pkcs8_der : bytes -> option signing_key;
  (** the public key of a signing key, as SPKI DER *)
  public_key_der : signing_key -> option bytes;
  (** a PEM public key re-encoded as SPKI DER *)
  pem_to_der : bytes -> option bytes;
  (** [params.self_signed(&kp)]: common name, key (PKCS8), validity, serial *)
  self_signed : bytes -> bytes -> Z -> Z -> Z -> option bytes
}.
Class P256Laws (P : P256) : Prop := {
  pkcs8_roundtrip : forall k d, to_pkcs8_der k = Some d -> from_pkcs8_der d = Some k;
  pkcs8_bytes : forall k d, to_pkcs8_der k = Some d -> bytes_ok d;
  pem_bytes : forall pem d, pem_to_der pem = Some d -> bytes_ok d /\ d <> []
}.

Module MasqueRegister.
Import MasqueReg.

Inductive mq_error :=
| ClientFailed | RequestFailed | BodyFailed | BadStatus (status : Z) | ParseFailed | KeyFailed | CertFailed | ReadFailed
| NoIdentity | SaveFailed (e : fs_error) | RemoveFailed.

Section masque.
Context {B : Base64} {C : RegCodec} {P : P256}.

(** [send().await?], [status()], [text().await?], the status check. *)
Definition answer (r : reply) : res mq_error bytes :=
  match r with
  | HttpFailed _ => Err RequestFailed
  | Reply status _ text =>
      body ← ok_or text BodyFailed;
      _ ← bail_if (negb (is_success status)) (BadStatus status);
      Ok body
  end.

(** The bodies of the two requests, serialised field by field. *)
Record RegisterRequest := mk_register_request {
  rq_key : bytes; rq_install_id : bytes; rq_fcm_token : bytes; rq_tos : bytes; rq_model : bytes; rq_serial_number : bytes;
  rq_os_version : bytes; rq_key_type : bytes; rq_tunnel_type : bytes; rq_locale : bytes; rq_warp_enabled : bool
}.
Definition register_json (r : RegisterRequest) : list (string * jval) :=
  [("key", JStr (rq_key r)); ("install_id", JStr (rq_install_id r)); ("fcm_token", JStr (rq_fcm_token r)); ("tos", JStr (rq_tos r));
   ("model", JStr (rq_model r)); ("serial_number", JStr (rq_serial_number r)); ("os_version", JStr (rq_os_version r));
   ("key_type", JStr (rq_key_type r)); ("tunnel_type", JStr (rq_tunnel_type r)); ("locale", JStr (rq_locale r));
   ("warp_enabled", JBool (rq_warp_enabled r))]%string.
Record EnrollRequest := mk_enroll_request { eq_key : bytes; eq_key_type : bytes; eq_tunnel_type : bytes }.
Definition enroll_json (r : EnrollRequest) : list (string * jval) :=
  [("key", JStr (eq_key r)); ("key_type", JStr (eq_key_type r)); ("tunnel_type", JStr (eq_tunnel_type r))]%string.

Definition register_request (wg_key serial tos : bytes) : request :=
  mk_request "POST" (API_BASE ++ str_bytes "/reg") [("CF-Client-Version"%string, CLIENT_VERSION)]
    (register_json (mk_register_request wg_key [] [] tos (str_bytes "PC") serial [] (str_bytes "curve25519") (str_bytes "wireguard")
       (str_bytes "en_US") true)).
Definition enroll_request (step1 : RegResult) (pub_b64 : bytes) : request :=
  mk_request "PATCH" (API_BASE ++ str_bytes "/reg/" ++ res_id step1)
    [("CF-Client-Version"%string, CLIENT_VERSION); ("Authorization"%string, str_bytes "Bearer " ++ res_token step1)]
    (enroll_json (mk_enroll_request pub_b64 (str_bytes "secp256r1") (str_bytes "masque"))).
Definition delete_request (ident : bytes * bytes) : request :=
  mk_request "DELETE" (API_BASE ++ str_bytes "/reg/" ++ ident.1)
    [("Authorization"%string, str_bytes "Bearer " ++ ident.2); ("CF-Client-Version"%string, CLIENT_VERSION)] [].

Definition build_client_cert (reg_id : bytes) (k : signing_key) (now : Z) : res mq_error bytes :=
  pkcs8 ← ok_or (to_pkcs8_der k) KeyFailed;
  ok_or (self_signed (reg_id ++ str_bytes ".masque2.cloudflareclient.com") pkcs8 now (now + 86400) (wrap64 now)) CertFailed.

Definition build_credentials (reg : Registration) (k : signing_key) (now : Z) : res mq_error RegCredentials :=
  cert ← build_client_cert (id reg) k now;
  pinned ← match peer_public_key reg with [] => Ok [] | b64 => ok_or (b64_decode b64) KeyFailed end;
  key ← ok_or (to_pkcs8_der k) KeyFailed;
  Ok (mk_creds reg cert key pinned).

(** The fields of the record taken from [config] of the second answer. *)
Definition edge_key (peer : Peer) : res mq_error bytes :=
  match public_key peer with
  | [] => Ok []
  | pem => der ← ok_or (pem_to_der pem) KeyFailed; Ok (b64_encode der)
  end.
Definition fill_config (cfg : option EnrollConfig) (reg : Registration) : res mq_error Registration :=
  let 'mk_registration i t a kt tt_ pk _ _ _ _ _ _ := reg in
  match cfg with
  | None => Ok reg
  | Some cfg =>
      match peers cfg with
      | peer :: _ =>
          key ← edge_key peer;
          Ok (mk_registration i t a kt tt_ pk (strip_host (v4 peer)) (strip_host (v6 peer)) (map as_u16 (ports peer)) key
                (addr_v4 cfg) (addr_v6 cfg))
      | [] => Ok (mk_registration i t a kt tt_ pk [] [] [] [] (addr_v4 cfg) (addr_v6 cfg))
      end
  end.

(** [random_wg_pubkey] of a drawn secret, [x25519_public] being the curve's, and
    [random_serial] of eight drawn bytes. *)
Definition random_wg_pubkey (x25519_public : bytes -> bytes) (secret : bytes) : bytes := b64_encode (x25519_public secret).
Definition random_serial (draw : nat -> Z) : bytes := b64_encode (map (fun i => draw i mod 256) (seq 0 8)).

(** [pkcs8_der] *)
Definition pkcs8_der (k : signing_key) : res mq_error bytes := ok_or (to_pkcs8_der k) KeyFailed.

(** The draws and the clock of one registration. *)
Record reg_input := mk_input {
  x25519_public : bytes -> bytes; wg_secret : bytes; serial_draw : nat -> Z; tos : bytes; key : signing_key; now : Z;
  client : bool                      (** [http_client] could build its client *)
}.
Definition wg_key (i : reg_input) : bytes := random_wg_pubkey (x25519_public i) (wg_secret i).
Definition serial (i : reg_input) : bytes := random_serial (serial_draw i).

(** [register], with the requests made. *)
Definition register (i : reg_input) (reply1 reply2 : reply) : res mq_error RegCredentials * list request :=
  if negb (client i) then (Err ClientFailed, []) else
  let req1 := register_request (wg_key i) (serial i) (tos i) in
  match (body ← answer reply1; ok_or (result_from_json body) ParseFailed) with
  | Err e => (Err e, [req1])
  | Panic => (Panic, [req1])
  | Ok step1 =>
      match public_key_der (key i) with
      | None => (Err KeyFailed, [req1])
      | Some spki =>
          let req2 := enroll_request step1 (b64_encode spki) in
          ((body ← answer reply2;
            step2 ← ok_or (result_from_json body) ParseFailed;
            pkcs8 ← pkcs8_der (key i);
            reg ← fill_config (config step2)
                    (mk_registration (res_id step2) (res_token step1) (res_account step2) (res_key_type step2)
                       (res_tunnel_type step2) (b64_encode pkcs8) [] [] [] [] [] []);
            build_credentials reg (key i) (now i)), [req1; req2])
      end
  end.

Definition save (f : fs_faults) (rnd : Z) (r : Registration) (path : bytes) (s : fs) : res fs_error unit * fs :=
  write_private f rnd path (reg_to_json r) s.

Definition load (now : Z) (path : bytes) (s : fs) : res mq_error RegCredentials :=
  data ← ok_or (s !! path) ReadFailed;
  reg ← ok_or (reg_from_json data) ParseFailed;
  pkcs8 ← ok_or (b64_decode (private_key reg)) KeyFailed;
  k ← ok_or (from_pkcs8_der pkcs8) KeyFailed;
  build_credentials reg k now.

Definition refresh_credentials (now : Z) (creds : RegCredentials) : res mq_error RegCredentials :=
  k ← ok_or (from_pkcs8_der (client_key_der creds)) KeyFailed;
  build_credentials (registration creds) k now.

(** [delete]: the file goes only after the service confirmed; [remove_fails] of
    the faults says whether removing it works. *)
Definition delete (client : bool) (f : fs_faults) (r : reply) (path : bytes) (s : fs) : res mq_error unit * list request * fs :=
  match s !! path with
  | None => (Err ReadFailed, [], s)
  | Some data =>
      match ident_from_json data with
      | None => (Err ParseFailed, [], s)
      | Some ident =>
          if bytes_eqb ident.1 [] || bytes_eqb ident.2 [] then (Err NoIdentity, [], s)
          else if negb client then (Err ClientFailed, [], s)
          else
            let req := delete_request ident in
            match r with
            | HttpFailed _ => (Err RequestFailed, [req], s)
            | Reply status _ _ =>
                if negb (is_success status) then (Err (BadStatus status), [req], s)
                else if remove_fails f then (Err RemoveFailed, [req], s)
                else (Ok tt, [req], base.delete path s)
            end
      end
  end.

(** ** The commands *)
Inductive cli_error := Usage | UnknownCommand | RegisterFailed (e : mq_error).
Record world := mk_world {
  input : reg_input; reply1 : reply; reply2 : reply; reply_delete : reply; faults : fs_faults; rnd : Z
}.

(** [run_register] of [src/src/bin/warp-socks.rs] on the arguments after [register]. *)
Definition run_register (w : world) (args : list bytes) (s : fs) : res cli_error unit * list request * fs :=
  match args with
  | command :: path :: _ =>
      if bytes_eqb command (str_bytes "reg") then
        match s !! path with
        | Some _ => (Ok tt, [], s)
        | None =>
            match register (input w) (reply1 w) (reply2 w) with
            | (Ok creds, reqs) =>
                match save (faults w) (rnd w) (registration creds) path s with
                | (Ok _, s) => (Ok tt, reqs, s)
                | (Err e, s) => (Err (RegisterFailed (SaveFailed e)), reqs, s)
                | (Panic, s) => (Panic, reqs, s)
                end
            | (Err e, reqs) => (Err (RegisterFailed e), reqs, s)
            | (Panic, reqs) => (Panic, reqs, s)
            end
        end
      else if bytes_eqb command (str_bytes "del") then
        match delete (client (input w)) (faults w) (reply_delete w) path s with
        | (Ok _, reqs, s) => (Ok tt, reqs, s)
        | (Err e, reqs, s) => (Err (RegisterFailed e), reqs, s)
        | (Panic, reqs, s) => (Panic, reqs, s)
        end
      else (Err UnknownCommand, [], s)
  | _ => (Err Usage, [], s)
  end.

(** [main] chooses the command by the first argument; [ensure_masque_credentials]
    is how the supervisor gets its credentials. *)
Inductive command := Serve | Register (args : list bytes) | Healthcheck | Unknown (name : bytes).
Definition main_command (args : list bytes) : command :=
  match args with
  | _ :: name :: rest =>
      if bytes_eqb name (str_bytes "serve") then Serve
      else if bytes_eqb name (str_bytes "register") then Register rest
      else if bytes_eqb name (str_bytes "healthcheck") then Healthcheck
      else Unknown name
  | _ => Serve
  end.

Definition ensure_masque_credentials (w : world) (now : Z) (path : bytes) (s : fs) : res mq_error RegCredentials * list request * fs :=
  match s !! path with
  | Some _ => (load now path s, [], s)
  | None =>
      match register (input w) (reply1 w) (reply2 w) with
      | (Ok creds, reqs) =>
          match save (faults w) (rnd w) (registration creds) path s with
          | (Ok _, s) => (load now path s, reqs, s)
          | (Err e, s) => (Err (SaveFailed e), reqs, s)
          | (Panic, s) => (Panic, reqs, s)
          end
      | (Err e, reqs) => (Err e, reqs, s)
      | (Panic, reqs) => (Panic, reqs, s)
      end
  end.
End masque.
End MasqueRegister.

Module MasqueRegisterFacts.
Import MasqueReg MasqueRegister.

(** ** Host names *)
Definition host_text (h : bytes) : Prop := Forall (fun c => graphic c = true) h.

Lemma strip_host_bracketed h rest : host_text h -> 93 ∉ h -> host_text rest ->
  strip_host (str_bytes "[" ++ h ++ str_bytes "]" ++ rest) = h.
Proof.
  intros Hh Hn Hr. unfold strip_host. change (str_bytes "[") with [91]. change (str_bytes "]") with [93].
  rewrite WgConfFacts.trim_printable.
  - cbn [app strip_prefix]. rewrite Z.eqb_refl. by rewrite WgConfFacts.split_once_at.
  - apply Forall_cons. split; [done|]. apply Forall_app. split; [done|]. by apply Forall_cons.
Qed.

Lemma strip_host_port h rest : host_text h -> h <> [] -> 58 ∉ h -> 91 ∉ h -> host_text rest -> strip_host (h ++ 58 :: rest) = h.
Proof.
  intros Hh Hne Hn Hb Hr. unfold strip_host. rewrite WgConfFacts.trim_printable.
  - rewrite split_on_app by done. destruct h as [|c h]; [done|]. cbn [app strip_prefix hd].
    change (str_bytes "[") with [91]. cbn [strip_prefix]. apply not_elem_of_cons in Hb as [Hb _].
    by rewrite (proj2 (Z.eqb_neq 91 c)).
  - apply Forall_app. split; [done|]. by apply Forall_cons.
Qed.

(** An IPv6 address outside brackets keeps only its first group. *)
Example strip_host_bare_v6 : strip_host (str_bytes "2606:4700:d0::1") = str_bytes "2606".
Proof. reflexivity. Qed.

(** ** Credentials *)
Section creds.
Context {B : Base64} {BL : Base64Laws B} {C : RegCodec} {CL : RegCodecLaws C} {P : P256} {PL : P256Laws P}.

(** The edge's key as the service sent it. *)
Definition edge_pem (cfg : option EnrollConfig) : bytes :=
  match cfg with Some c => match peers c with p :: _ => public_key p | [] => [] end | None => [] end.
Definition pin_of (cfg : option EnrollConfig) : option bytes :=
  match edge_pem cfg with [] => Some [] | pem => pem_to_der pem end.

Definition reg_addresses (cfg : option EnrollConfig) : bytes * bytes * list Z * bytes * bytes :=
  match cfg with
  | None => ([], [], [], [], [])
  | Some c => let '(a, b, l) := match peers c with p :: _ => (strip_host (v4 p), strip_host (v6 p), map as_u16 (ports p)) | [] => ([], [], []) end in
              (a, b, l, addr_v4 c, addr_v6 c)
  end.

Lemma b64_nil_iff d : d <> [] -> exists c l, b64_encode d = c :: l.
Proof. intros Hd. destruct (b64_encode d) eqn:H; [by apply b64_nonempty in H|eauto]. Qed.

Lemma fill_config_spec cfg reg reg' : fill_config cfg reg = Ok reg' -> endpoint_v4 reg = [] -> endpoint_v6 reg = [] ->
  endpoint_ports reg = [] -> peer_public_key reg = [] -> assigned_ipv4 reg = [] -> assigned_ipv6 reg = [] ->
  id reg' = id reg /\ token reg' = token reg /\ private_key reg' = private_key reg /\
  (endpoint_v4 reg', endpoint_v6 reg', endpoint_ports reg', assigned_ipv4 reg', assigned_ipv6 reg') = reg_addresses cfg /\
  exists d, pin_of cfg = Some d /\ peer_public_key reg' = match d with [] => [] | _ => b64_encode d end /\ bytes_ok d.
Proof.
  destruct reg as [i t a kt tt_ pk e4 e6 ep pp a4 a6]. cbn. intros H -> -> -> -> -> ->. destruct cfg as [[[|p ps] c4 c6]|]; cbn in H.
  - injection H as <-. split_and!; try done. by exists [].
  - unfold edge_key in H. destruct (public_key p) as [|c pem] eqn:Hp.
    + cbn in H. injection H as <-. split_and!; try done. exists []. unfold pin_of. cbn. by rewrite Hp.
    + destruct (pem_to_der (c :: pem)) as [d|] eqn:Hd; [|done]. cbn in H. injection H as <-. split_and!; try done.
      exists d. unfold pin_of. cbn. rewrite Hp. apply pem_bytes in Hd as Hb. destruct Hb as [Hb Hn]. split_and!; [done| |done]. by destruct d.
  - injection H as <-. split_and!; try done. by exists [].
Qed.

(** Rebuilding credentials: everything but the certificate is a function of the
    registration and the key. *)
Lemma build_credentials_ok reg k now d der : to_pkcs8_der k = Some der ->
  peer_public_key reg = match d with [] => [] | _ => b64_encode d end -> bytes_ok d ->
  build_credentials reg k now = cert ← build_client_cert (id reg) k now; Ok (mk_creds reg cert der d).
Proof.
  intros Hk Hp Hd. unfold build_credentials. destruct (build_client_cert (id reg) k now) as [cert|e|]; try done.
  cbn. rewrite Hp, Hk. destruct d as [|x d]; [done|]. destruct (b64_nil_iff (x :: d)) as (c & l & He); [done|].
  rewrite He, <-He, b64_roundtrip by done. done.
Qed.

Lemma register_inv i r1 r2 creds reqs : register i r1 r2 = (Ok creds, reqs) ->
  exists body1 step1 body2 step2 spki der d,
    answer r1 = Ok body1 /\ result_from_json body1 = Some step1 /\ answer r2 = Ok body2 /\ result_from_json body2 = Some step2 /\
    public_key_der (key i) = Some spki /\ to_pkcs8_der (key i) = Some der /\ pin_of (config step2) = Some d /\ bytes_ok d /\
    reqs = [register_request (wg_key i) (serial i) (tos i); enroll_request step1 (b64_encode spki)] /\
    let reg := registration creds in
    id reg = res_id step2 /\ token reg = res_token step1 /\ private_key reg = b64_encode der /\
    (endpoint_v4 reg, endpoint_v6 reg, endpoint_ports reg, assigned_ipv4 reg, assigned_ipv6 reg) = reg_addresses (config step2) /\
    peer_public_key reg = match d with [] => [] | _ => b64_encode d end /\
    client_key_der creds = der /\ pinned_spki_der creds = d.
Proof.
  unfold register, pkcs8_der. destruct (client i); [|done]. cbn [negb]. destruct (answer r1) as [body1|e|]; try done. cbn [mbind res_bind]. destruct (result_from_json body1) as [step1|] eqn:H1; [|done].
  cbn [ok_or]. destruct (public_key_der (key i)) as [spki|]; [|done]. intros [H <-]%pair_equal_spec.
  destruct (answer r2) as [body2|e|]; try done. cbn [mbind res_bind ok_or] in H. destruct (result_from_json body2) as [step2|] eqn:H2; [|done].
  cbn [mbind res_bind ok_or] in H. destruct (to_pkcs8_der (key i)) as [der|] eqn:Hk; [|done]. cbn [mbind res_bind ok_or] in H.
  destruct (fill_config _ _) as [reg|e|] eqn:Hf; try done. cbn [mbind res_bind ok_or] in H. apply fill_config_spec in Hf as (Hi & Ht & Hp & Ha & d & Hd & Hpp & Hb); [|done..].
  rewrite (build_credentials_ok reg (key i) _ d der) in H by done. destruct (build_client_cert _ _ _) as [cert|e|]; try done. injection H as <-.
  exists body1, step1, body2, step2, spki, der, d. split_and!; done.
Qed.
End creds.

(** C30. MASQUE credentials survive on disk.  After a registration whose record was
    saved, loading the file at any later time, like refreshing the credentials in
    memory, gives the same registration, client key and pinned edge key with a
    certificate for that time; the pin is the key the service sent, and the
    enrolment was authorised by the token the record keeps. *)
Theorem masque_reload {B : Base64} {BL : Base64Laws B} {C : RegCodec} {CL : RegCodecLaws C} {P : P256} {PL : P256Laws P}
    i r1 r2 creds reqs f rnd path s s' later :
  register i r1 r2 = (Ok creds, reqs) -> save f rnd (registration creds) path s = (Ok tt, s') ->
  let again := cert ← build_client_cert (id (registration creds)) (key i) later;
               Ok (mk_creds (registration creds) cert (client_key_der creds) (pinned_spki_der creds)) in
  load later path s' = again /\ refresh_credentials later creds = again /\
  exists step1 step2 spki,
    pin_of (config step2) = Some (pinned_spki_der creds) /\
    reqs = [register_request (wg_key i) (serial i) (tos i); enroll_request step1 (b64_encode spki)] /\
    token (registration creds) = res_token step1 /\ public_key_der (key i) = Some spki.
Proof.
  intros Hr Hs. apply register_inv in Hr as (b1 & step1 & b2 & step2 & spki & der & d & Ha & H1 & Hb & H2 & Hsp & Hk & Hd & Hdb & -> & Hreg).
  destruct Hreg as (Hid & Ht & Hp & _ & Hpp & <- & <-). apply write_private_ok in Hs as [_ ->]. cbn zeta.
  pose proof (pkcs8_roundtrip _ _ Hk) as Hf. split_and!; [| |by exists step1, step2, spki].
  - unfold load. rewrite lookup_insert_eq. cbn [ok_or mbind res_bind]. rewrite reg_roundtrip. cbn [ok_or mbind res_bind].
    rewrite Hp, b64_roundtrip by (by eapply pkcs8_bytes). cbn [ok_or mbind res_bind]. rewrite Hf. cbn [ok_or mbind res_bind].
    by apply build_credentials_ok.
  - unfold refresh_credentials. rewrite Hf. cbn [ok_or mbind res_bind]. by apply build_credentials_ok.
Qed.

(** Registrations are not lost: whatever the command line, an existing file
    keeps its contents, except that [del] removes the named file, and that only
    after the service confirmed the removal of exactly the registration stored in
    it; [reg] on an existing file makes no request at all. *)
Theorem register_command_safe {B : Base64} {C : RegCodec} {P : P256} w args s path data : s !! path = Some data ->
  let '(r, reqs, s') := run_register w args s in
  (head args = Some (str_bytes "reg") -> args !! 1%nat = Some path -> r = Ok tt /\ reqs = [] /\ s' = s) /\
  (s' !! path = Some data \/
   (exists rest ident status h t, args = str_bytes "del" :: path :: rest /\ ident_from_json data = Some ident /\
      reqs = [delete_request ident] /\ reply_delete w = Reply status h t /\ is_success status = true /\
      r = Ok tt /\ s' = base.delete path s)).
Proof.
  intros Hp. destruct args as [|command [|target rest]]; cbn [run_register]; [split; [done|by left]..|].
  unfold bytes_eqb. destruct (decide (command = str_bytes "reg")) as [->|Hc].
  { rewrite bool_decide_eq_true_2 by done. destruct (s !! target) as [c|] eqn:Ht; [split; [done|by left]|].
    assert (Hn : path <> target) by congruence. destruct (register _ _ _) as [[creds|e|] reqs]; [|(split; [by intros _ [= ->]|by left])..].
    pose proof (write_private_keeps (faults w) (rnd w) target (reg_to_json (registration creds)) s path data Hp Hn) as Hk.
    unfold save. destruct (write_private _ _ _ _ _) as [[[]|e|] s']; (split; [|by left]); cbn; congruence. }
  rewrite bool_decide_eq_false_2 by done. destruct (decide (command = str_bytes "del")) as [->|Hd].
  2: { rewrite bool_decide_eq_false_2 by done. split; [by intros [= ->]|by left]. }
  rewrite bool_decide_eq_true_2 by done. unfold delete. destruct (s !! target) as [c|] eqn:Ht; [|split; [done|by left]].
  destruct (ident_from_json c) as [ident|] eqn:Hi; [|split; [done|by left]]. destruct (_ || _); [split; [done|by left]|].
  destruct (client _); [|split; [done|by left]]. cbn [negb]. destruct (reply_delete w) as [m|status h t] eqn:Hr; [split; [done|by left]|]. destruct (is_success status) eqn:Hst; cbn [negb]; [|split; [done|by left]].
  destruct (remove_fails _); [split; [done|by left]|]. split; [done|]. destruct (decide (target = path)) as [->|Hn].
  - right. rewrite Hp in Ht. injection Ht as <-. by exists rest, ident, status, h, t.
  - left. by rewrite lookup_delete_ne.
Qed.

(** Concrete codecs and keys. *)
Definition reg_tuple : Type := bytes * bytes * bytes * bytes * bytes * bytes * (bytes * bytes * list Z * bytes * bytes * bytes).
Definition to_tuple (r : Registration) : reg_tuple :=
  (id r, token r, account r, key_type r, tunnel_type r, private_key r,
   (endpoint_v4 r, endpoint_v6 r, endpoint_ports r, peer_public_key r, assigned_ipv4 r, assigned_ipv6 r)).
Definition of_tuple (t : reg_tuple) : Registration :=
  let '(i, tk, a, kt, tt_, pk, (e4, e6, ep, pp, a4, a6)) := t in mk_registration i tk a kt tt_ pk e4 e6 ep pp a4 a6.
Definition decode_reg (b : bytes) : option Registration :=
  match b with [Zpos p] => of_tuple <$> decode (A:=reg_tuple) p | _ => None end.
#[export] Instance reg_codec : RegCodec := {
  reg_to_json r := [Zpos (encode (to_tuple r))];
  reg_from_json := decode_reg;
  ident_from_json b := r ← decode_reg b; Some (id r, token r);
  result_from_json b := match b with
    | [1] => Some (mk_result [97] [116] [] [] [] None)
    | [2] => Some (mk_result [97] [] [98] [] [] (Some (mk_enroll [mk_peer [80] (str_bytes "162.159.198.1:0") (str_bytes "[2606::1]:0") [443; 65979]] [49] [50])))
    | _ => None
    end
}.
Lemma decode_reg_encode r : decode_reg [Zpos (encode (to_tuple r))] = Some r.
Proof. unfold decode_reg. rewrite decode_encode. by destruct r. Qed.
#[export] Instance reg_codec_laws : RegCodecLaws reg_codec.
Proof. constructor; intros r; cbn [reg_to_json reg_from_json ident_from_json reg_codec]; by rewrite decode_reg_encode. Qed.
#[export] Instance toy_p256 : P256 := {
  signing_key := bool;
  to_pkcs8_der k := Some [if k then 1 else 0];
  from_pkcs8_der b := match b with [1] => Some true | [0] => Some false | _ => None end;
  public_key_der _ := Some [7];
  pem_to_der _ := Some [9];
  self_signed cn k nb na serial := Some (cn ++ k ++ [serial])
}.
#[export] Instance toy_p256_laws : P256Laws toy_p256.
Proof.
  constructor.
  - by intros [] d [= <-].
  - intros [] d [= <-]; repeat constructor; done.
  - intros pem d [= <-]. split; [|done]. repeat constructor; done.
Qed.
#[local] Existing Instances WgConfFacts.letters WgConfFacts.letters_laws.

Definition sample_input : reg_input := mk_input (fun b => b) [1] (fun _ => 2) [3] true 1000 true.
Definition sample_world : world :=
  mk_world sample_input (Reply 200 None (Some [1])) (Reply 200 None (Some [2])) (Reply 204 None None) no_faults 5.

Lemma masque_reload_witness : exists creds reqs s',
  register sample_input (Reply 200 None (Some [1])) (Reply 200 None (Some [2])) = (Ok creds, reqs) /\
  save no_faults 5 (registration creds) [47] ∅ = (Ok tt, s') /\ endpoint_ports (registration creds) = [443; 443] /\
  endpoint_v6 (registration creds) = str_bytes "2606::1" /\
  exists cert, load 9000 [47] s' = Ok (mk_creds (registration creds) cert [1] [9]).
Proof.
  destruct (register sample_input (Reply 200 None (Some [1])) (Reply 200 None (Some [2]))) as [r reqs] eqn:Hr.
  assert (H : r = (register sample_input (Reply 200 None (Some [1])) (Reply 200 None (Some [2]))).1) by (by rewrite Hr).
  vm_compute in H. destruct r as [creds|e|]; try discriminate. injection H as H.
  destruct (save no_faults 5 (registration creds) [47] ∅) as [w s'] eqn:Hs.
  pose proof Hs as Hw. unfold save, write_private, create_new in Hw. cbn [open_fails no_faults] in Hw. rewrite lookup_empty in Hw.
  unfold write_all_file, rename_file in Hw. cbn [write_stops rename_fails no_faults] in Hw. rewrite lookup_insert_eq in Hw. injection Hw as <- _.
  exists creds, reqs, s'. split_and!; [done|done|by rewrite H|by rewrite H|].
  destruct (masque_reload sample_input _ _ creds reqs no_faults 5 [47] ∅ s' 9000 Hr Hs) as [Hl _].
  rewrite Hl, H. eexists. vm_compute. reflexivity.
Defined.

Lemma register_command_safe_witness :
  let data := reg_to_json (mk_registration [97] [116] [] [] [] [] [] [] [] [] [] []) in
  let s : fs := {[ [47] := data ]} in
  let '(r, reqs, s') := run_register sample_world [str_bytes "reg"; [47]] s in
  (r = Ok tt /\ reqs = [] /\ s' = s) /\
  (run_register sample_world [str_bytes "del"; [47]] s).1.2 = [delete_request ([97], [116])].
Proof.
  intros data s. pose proof (register_command_safe sample_world [str_bytes "reg"; [47]] s [47] data) as H.
  destruct (run_register sample_world [str_bytes "reg"; [47]] s) as [[r reqs] s']. split; [|vm_compute; reflexivity].
  apply H; [apply lookup_singleton_eq|reflexivity|reflexivity].
Defined.
End MasqueRegisterFacts.
