(* ===== verification/Masque.v ===== *)
(** * The MASQUE outlet over HTTP/3 ([src/src/outbound/masque/mod.rs])

    The CONNECT exchange, the DATA framing in both directions and the candidate
    edge addresses.  A QUIC stream (quinn) is a byte stream whose reads return as
    many bytes as the network chooses; quinn's integer codec enters through the
    class [VarInt].  [MasqueLink] has the connection and the framed stream,
    [MasqueOutlet] the outlet itself. *)
From S2P Require Import Prelude RustStr NetAddr Conn Huffman Varint Qpack Config Registration.

Module Masque.
Definition RELAY_BUF : Z := 64 * 1024.
Definition MAX_HEADERS_FRAME_SIZE : Z := 64 * 1024.
Definition MAX_SKIPPED_FRAMES : nat := 8.

(** A receive stream: the bytes still to come and how it ends. *)
Record rstream := mk_rs { r_data : bytes; r_end : stream_end }.

(** A read on an exhausted stream. *)
Definition at_end {A} (eof : out ErrorKind A) (s : rstream) : out ErrorKind A :=
  match r_end s with Closed => eof | Broken k => Fail k | Silent => Hang end.

(** [read_exact] *)
Definition rs_read_exact (n : Z) (s : rstream) : out ErrorKind (bytes * rstream) :=
  if n <=? zlen (r_data s)
  then Ret (take (Z.to_nat n) (r_data s), mk_rs (drop (Z.to_nat n) (r_data s)) (r_end s))
  else at_end (Fail UnexpectedEof) s.

Section framing.
Context {V : VarInt}.

Definition read_varint_or_eof (s : rstream) : out ErrorKind (option Z * rstream) :=
  match r_data s with
  | [] => at_end (Ret (None, s)) s
  | b :: rest =>
      let len := Z.shiftl 1 (Z.shiftr b 6) in
      match rs_read_exact (len - 1) (mk_rs rest (r_end s)) with
      | Ret (more, s') => Ret (fst <$> varint_read (b :: more), s')
      | Fail k => Fail k
      | Hang => Hang
      end
  end.

Definition read_varint (s : rstream) : out ErrorKind (Z * rstream) :=
  match read_varint_or_eof s with
  | Ret (Some v, s') => Ret (v, s')
  | Ret (None, _) => Fail UnexpectedEof
  | Fail k => Fail k
  | Hang => Hang
  end.

(** The [while remaining > 0] loop of [drain_download].  [cut k] is how many bytes
    the [k]-th read returns, between 1 and what was asked for and is there;
    [w] collects what is written to the local end. *)
Fixpoint copy_payload (fuel : nat) (cut : nat -> Z) (is_data : bool) (remaining : Z) (s : rstream) (w : bytes)
    : out ErrorKind rstream * bytes :=
  match fuel with
  | O => (Hang, w)
  | S f =>
      if remaining <=? 0 then (Ret s, w)
      else match r_data s with
           | [] => (at_end (Fail UnexpectedEof) s, w)
           | _ =>
               let chunk := Z.min remaining RELAY_BUF in
               let size := Z.max 1 (Z.min (cut (length (r_data s))) (Z.min chunk (zlen (r_data s)))) in
               let got := take (Z.to_nat size) (r_data s) in
               copy_payload f cut is_data (remaining - size) (mk_rs (drop (Z.to_nat size) (r_data s)) (r_end s))
                 (if is_data then w ++ got else w)
           end
  end.

(** [drain_download]: the outer loop over frames. *)
Fixpoint drain_download (fuel : nat) (cut : nat -> Z) (s : rstream) (w : bytes) : out ErrorKind unit * bytes :=
  match fuel with
  | O => (Hang, w)
  | S f =>
      match read_varint_or_eof s with
      | Ret (None, _) => (Ret tt, w)
      | Ret (Some frame_type, s1) =>
          match read_varint s1 with
          | Ret (remaining, s2) =>
              match copy_payload (S (length (r_data s2))) cut (frame_type =? 0) remaining s2 w with
              | (Ret s3, w') => drain_download f cut s3 w'
              | (Fail k, w') => (Fail k, w')
              | (Hang, w') => (Hang, w')
              end
          | Fail k => (Fail k, w)
          | Hang => (Hang, w)
          end
      | Fail k => (Fail k, w)
      | Hang => (Hang, w)
      end
  end.

Definition download (cut : nat -> Z) (s : rstream) : out ErrorKind unit * bytes :=
  drain_download (S (length (r_data s))) cut s [].

(** [drain_upload]: one DATA frame per read of the local end. *)
Fixpoint drain_upload (reads : list bytes) : res ErrorKind bytes :=
  match reads with
  | [] => Ok []
  | [] :: _ => Ok []
  | r :: rest => frame ← Qpack.data_frame [] r; more ← drain_upload rest; Ok (frame ++ more)
  end.

(** [discard_frame] *)
Definition discard_frame (remaining : Z) (s : rstream) : out ErrorKind rstream :=
  if remaining <=? zlen (r_data s) then Ret (mk_rs (drop (Z.to_nat remaining) (r_data s)) (r_end s))
  else at_end (Fail UnexpectedEof) s.

Inductive masque_error :=
| StreamError (k : ErrorKind) | HeadersTooLarge (len : Z) | NoHeaders
| BadHeaders (e : Qpack.qpack_error) | Refused (status : Z) | Panicked.

Definition checked_headers_len (len : Z) : masque_error + Z :=
  if MAX_HEADERS_FRAME_SIZE <? len then inl (HeadersTooLarge len) else inr len.

Definition io {A} (o : out ErrorKind A) : out masque_error A :=
  match o with Ret a => Ret a | Fail k => Fail (StreamError k) | Hang => Hang end.

(** The frame loop of [exchange], the HEADERS payload. *)
Fixpoint find_headers (n : nat) (s : rstream) : out masque_error (bytes * rstream) :=
  match n with
  | O => Fail NoHeaders
  | S n' =>
      '(frame_type, s) ← io (read_varint s);
      '(len, s) ← io (read_varint s);
      if frame_type =? 1 then
        match checked_headers_len len with
        | inl e => Fail e
        | inr len => io (rs_read_exact len s)
        end
      else s ← io (discard_frame len s); find_headers n' s
  end.

(** [exchange]: what is sent, and the answer. *)
Definition exchange_request (authority token : bytes) : res ErrorKind bytes :=
  Qpack.headers_frame (Qpack.encode_connect_request authority token).

Definition exchange_response (s : rstream) : out masque_error (option bytes * rstream) :=
  '(payload, s) ← find_headers MAX_SKIPPED_FRAMES s;
  match Qpack.decode_headers payload with
  | Ok h => if Qpack.status h =? 200 then Ret (Qpack.colo h, s) else Fail (Refused (Qpack.status h))
  | Err e => Fail (BadHeaders e)
  | Panic => Fail Panicked
  end.
End framing.

(** ** [edge_addrs] *)
Definition edge_ports (reg : MasqueReg.Registration) : list Z :=
  let ports := match MasqueReg.endpoint_ports reg with [] => [443] | ps => ps end in
  List.filter (fun p => negb (p =? 443)) ports ++ (if contains_byte 443 ports then [443] else []).

Definition edge_addrs (reg : MasqueReg.Registration) : list SocketAddr :=
  concat (map (fun host => match parse_ip host with
                           | Some ip => map (socket_addr_new ip) (edge_ports reg)
                           | None => []
                           end) [MasqueReg.endpoint_v4 reg; MasqueReg.endpoint_v6 reg]).

End Masque.

Module MasqueFacts.
Import Masque.

Section facts.
Context {V : VarInt} {L : VarIntLaws V}.

(** *** Reading encoded integers *)
Lemma rs_read_exact_app n p r e : n = zlen p -> rs_read_exact n (mk_rs (p ++ r) e) = Ret (p, mk_rs r e).
Proof.
  intros ->. unfold rs_read_exact. cbn [r_data r_end]. rewrite (proj2 (Z.leb_le _ _)) by zl.
  replace (Z.to_nat (zlen p)) with (length p) by (unfold zlen; lia). by rewrite take_app_length, drop_app_length.
Qed.

Lemma rs_read_exact_short n p : zlen p < n -> rs_read_exact n (mk_rs p Closed) = Fail UnexpectedEof.
Proof. intros H. unfold rs_read_exact. cbn [r_data]. by rewrite (proj2 (Z.leb_gt _ _)). Qed.

Lemma read_varint_enc v r e : 0 <= v < VARINT_BOUND ->
  read_varint_or_eof (mk_rs (vi_encode v ++ r) e) = Ret (Some v, mk_rs r e).
Proof.
  intros Hv. destruct (vi_shape v Hv) as (_ & b & t & He & Hl). pose proof (vi_roundtrip v [] Hv) as Hd.
  rewrite app_nil_r, He in Hd. rewrite He in *. unfold read_varint_or_eof. cbn [app r_data r_end].
  fold (vi_len b). rewrite (rs_read_exact_app (vi_len b - 1) t) by zl. unfold varint_read. by rewrite Hd.
Qed.

Lemma read_varint_enc' v r e : 0 <= v < VARINT_BOUND -> read_varint (mk_rs (vi_encode v ++ r) e) = Ret (v, mk_rs r e).
Proof. intros Hv. unfold read_varint. by rewrite read_varint_enc. Qed.

(** A stream that ends inside an integer. *)
Lemma read_varint_cut v p : 0 <= v < VARINT_BOUND -> p `prefix_of` vi_encode v -> zlen p < zlen (vi_encode v) ->
  read_varint (mk_rs p Closed) = Fail UnexpectedEof /\ (p <> [] -> read_varint_or_eof (mk_rs p Closed) = Fail UnexpectedEof).
Proof.
  intros Hv [k Hk] Hlt. destruct (vi_shape v Hv) as (_ & b & t & He & Hl). unfold read_varint, read_varint_or_eof.
  destruct p as [|x p]; [done|]. rewrite He in Hk. injection Hk as <- ->. cbn [r_data r_end].
  fold (vi_len b). rewrite rs_read_exact_short by zl. done.
Qed.

(** *** Payloads *)
Lemma copy_payload_all fuel cut d p r e w : (length p < fuel)%nat ->
  copy_payload fuel cut d (zlen p) (mk_rs (p ++ r) e) w = (Ret (mk_rs r e), if d then w ++ p else w).
Proof.
  revert p w. induction fuel as [|f IH]; intros p w Hf; [lia|]. cbn [copy_payload].
  destruct (Z.leb_spec (zlen p) 0) as [Hz|Hpos].
  - destruct p as [|x p]; [|pose proof (zlen_nonneg p); zl]. cbn [app]. destruct d; by rewrite ?app_nil_r.
  - cbn [r_data r_end]. set (size := Z.max 1 _).
    assert (Hs : 1 <= size <= zlen p).
    { subst size. unfold RELAY_BUF. pose proof (zlen_nonneg r). rewrite zlen_app. lia. }
    destruct (p ++ r) as [|x l] eqn:E; [apply (f_equal zlen) in E; rewrite zlen_app in E; pose proof (zlen_nonneg r); change (zlen (@nil Z)) with 0 in E; lia|].
    rewrite <-E. clear E.
    assert (Hn : (Z.to_nat size <= length p)%nat) by (unfold zlen in Hs; lia).
    rewrite take_app_le, drop_app_le by done.
    assert (Hd : zlen p - size = zlen (drop (Z.to_nat size) p)) by (rewrite zlen_drop; lia). rewrite Hd.
    rewrite IH by (rewrite length_drop; lia). destruct d; [|done]. by rewrite <-app_assoc, take_drop.
Qed.

Lemma copy_payload_cut fuel cut d n p w : (length p < fuel)%nat -> zlen p < n ->
  copy_payload fuel cut d n (mk_rs p Closed) w = (Fail UnexpectedEof, if d then w ++ p else w).
Proof.
  revert n p w. induction fuel as [|f IH]; intros n p w Hf Hn; [lia|]. cbn [copy_payload r_data r_end].
  pose proof (zlen_nonneg p). rewrite (proj2 (Z.leb_gt _ _)) by lia.
  destruct p as [|x l]; [destruct d; by rewrite ?app_nil_r|]. set (p := x :: l) in *.
  assert (Hp : 1 <= zlen p) by (subst p; zl). clearbody p. set (size := Z.max 1 _).
  assert (Hs : 1 <= size <= zlen p) by (subst size; unfold RELAY_BUF; lia).
  assert (Hd : zlen p - size = zlen (drop (Z.to_nat size) p)) by (rewrite zlen_drop; lia).
  rewrite IH by (rewrite ?length_drop; unfold zlen in *; lia). destruct d; [|done]. by rewrite <-app_assoc, take_drop.
Qed.

(** *** Frames *)
Definition frame : Type := Z * bytes.
Definition enc_frame (f : frame) : bytes := vi_encode f.1 ++ vi_encode (zlen f.2) ++ f.2.
Definition frame_ok (f : frame) : Prop := 0 <= f.1 < VARINT_BOUND /\ zlen f.2 < VARINT_BOUND.
Definition data_of (fs : list frame) : bytes := concat (map (fun f => if f.1 =? 0 then f.2 else []) fs).

Lemma len_ok (p : bytes) : zlen p < VARINT_BOUND -> 0 <= zlen p < VARINT_BOUND.
Proof. pose proof (zlen_nonneg p). lia. Qed.

Lemma drain_download_frames fs fuel cut tail e w : Forall frame_ok fs ->
  drain_download (length fs + fuel) cut (mk_rs (concat (map enc_frame fs) ++ tail) e) w
  = drain_download fuel cut (mk_rs tail e) (w ++ data_of fs).
Proof.
  intros Hf. revert w. induction Hf as [|[t p] fs [Ht Hp] Hf IH]; intros w; cbn [length map concat app Nat.add].
  - unfold data_of. cbn [map concat]. by rewrite app_nil_r.
  - cbn [fst snd] in *. cbn [drain_download]. unfold enc_frame at 1. cbn [fst snd]. rewrite <-!app_assoc.
    rewrite read_varint_enc by done. rewrite read_varint_enc' by (by apply len_ok). cbn [r_data].
    rewrite copy_payload_all by (rewrite length_app; lia).
    rewrite IH. f_equal. unfold data_of. cbn [map concat fst snd].
    destruct (t =? 0); cbn [app]; by rewrite ?app_assoc.
Qed.

Lemma enc_frame_len f : frame_ok f -> (0 < length (enc_frame f))%nat.
Proof.
  intros [Ht _]. unfold enc_frame. rewrite !length_app. destruct (vi_shape f.1 Ht) as (_ & b & t & -> & _). simpl. lia.
Qed.

Lemma frames_len fs : Forall frame_ok fs -> (length fs <= length (concat (map enc_frame fs)))%nat.
Proof.
  induction 1 as [|f fs Hf _ IH]; simpl; [lia|]. rewrite length_app. pose proof (enc_frame_len f Hf). lia.
Qed.

Lemma download_frames fs cut tail e : Forall frame_ok fs ->
  exists fuel, download cut (mk_rs (concat (map enc_frame fs) ++ tail) e)
    = drain_download fuel cut (mk_rs tail e) (data_of fs) /\ (length tail < fuel)%nat.
Proof.
  intros Hf. pose proof (frames_len fs Hf). unfold download. cbn [r_data]. rewrite length_app.
  exists (S (length (concat (map enc_frame fs)) + length tail) - length fs)%nat. split; [|lia].
  replace (S (length (concat (map enc_frame fs)) + length tail))
    with (length fs + (S (length (concat (map enc_frame fs)) + length tail) - length fs))%nat at 1 by lia.
  by rewrite drain_download_frames.
Qed.

Lemma drain_upload_frames reads : Forall (fun r => r <> [] /\ zlen r <= RELAY_BUF) reads ->
  drain_upload reads = Ok (concat (map (fun r => enc_frame (0, r)) reads)).
Proof.
  induction 1 as [|r rs [Hne Hl] _ IH]; cbn [drain_upload map concat]; [done|]. destruct r as [|x r]; [done|].
  unfold Qpack.data_frame, Qpack.write_frame, varint_write.
  unfold RELAY_BUF in Hl. pose proof (zlen_nonneg (x :: r)).
  assert (Hb : (0 <=? zlen (x :: r)) && (zlen (x :: r) <? VARINT_BOUND) = true)
    by (apply andb_true_iff; rewrite Z.leb_le, Z.ltb_lt; unfold VARINT_BOUND; lia).
  rewrite Hb, IH. change ((0 <=? 0) && (0 <? VARINT_BOUND)) with true. cbn [mbind res_bind app].
  unfold enc_frame. cbn [fst snd]. by rewrite <-!app_assoc.
Qed.

(** A frame cut short. *)
Lemma drain_download_cut fuel cut f part w :
  frame_ok f -> part `prefix_of` enc_frame f -> part <> [] -> zlen part < zlen (enc_frame f) ->
  drain_download (S fuel) cut (mk_rs part Closed) w
  = (Fail UnexpectedEof, w ++ if f.1 =? 0 then drop (length (vi_encode f.1 ++ vi_encode (zlen f.2))) part else []).
Proof.
  intros [Ht Hp] Hpre Hne Hlt. destruct f as [t p]. unfold enc_frame in *. cbn [fst snd] in *. cbn [drain_download].
  set (a := vi_encode t) in *. set (b := vi_encode (zlen p)) in *.
  assert (Hnil : (length part <= length (a ++ b))%nat -> (if t =? 0 then drop (length (a ++ b)) part else []) = []).
  { intros Hle. destruct (t =? 0); [|done]. by apply drop_ge. }
  destruct (decide (zlen part < zlen a)) as [Ha|Ha].
  - assert (Hpa : part `prefix_of` a).
    { apply (prefix_weak_total part a) in Hpre as [|[k ->]]; [done|zl|by apply prefix_app_r]. }
    destruct (read_varint_cut t part Ht Hpa Ha) as [_ Hr]. rewrite (Hr Hne). f_equal.
    rewrite Hnil, app_nil_r; [done|]. rewrite length_app. unfold zlen in Ha. lia.
  - assert (Hpart : exists q, part = a ++ q /\ q `prefix_of` b ++ p).
    { destruct Hpre as [k Hk]. destruct (app_eq_inv _ _ _ _ Hk) as [(l & -> & Hl)|(l & Ha' & ->)].
      - assert (l = []) as -> by (destruct l; [done|]; rewrite zlen_app in Ha; zl). rewrite app_nil_r in *.
        exists []. rewrite app_nil_r. split; [done|apply prefix_nil].
      - exists l. split; [done|]. by exists k. }
    destruct Hpart as (q & -> & Hq). unfold a at 1. rewrite read_varint_enc by done.
    assert (Hlq : zlen q < zlen b + zlen p) by zl.
    destruct (decide (zlen q < zlen b)) as [Hb|Hb].
    + assert (Hqb : q `prefix_of` b).
      { apply (prefix_weak_total q b) in Hq as [|[k ->]]; [done|zl|by apply prefix_app_r]. }
      destruct (read_varint_cut (zlen p) q (len_ok p Hp) Hqb Hb) as [Hr _]. rewrite Hr. f_equal.
      rewrite Hnil, app_nil_r; [done|]. rewrite !length_app. unfold zlen in Hb. lia.
    + destruct Hq as [k Hk]. assert (Hqq : exists c, q = b ++ c).
      { destruct (app_eq_inv _ _ _ _ Hk) as [(l & -> & Hl)|(l & Hb' & ->)]; [|eauto].
        exists []. rewrite app_nil_r. destruct l; [by rewrite app_nil_r|]. rewrite zlen_app in Hb. zl. }
      destruct Hqq as [c ->]. unfold b at 1. rewrite read_varint_enc' by (by apply len_ok). cbn [r_data].
      rewrite copy_payload_cut by (try lia; zl). f_equal.
      rewrite app_assoc, drop_app_length. by destruct (t =? 0); rewrite ?app_nil_r.
Qed.

(** C23. DATA framing is transparent: whatever the local side writes, in pieces of at
    most 64 KiB, is what the other side's reader delivers, for every way the
    network cuts the stream and with unknown frames of any size in between; a
    stream that ends between frames ends normally, and one that ends inside a
    frame (header or payload) is reported as [UnexpectedEof] after everything
    received of it has been delivered. *)
Theorem framing_transparent reads fs cut :
  Forall (fun r => r <> [] /\ zlen r <= RELAY_BUF) reads -> Forall frame_ok fs ->
  (exists sent, drain_upload reads = Ok sent /\ download cut (mk_rs sent Closed) = (Ret tt, concat reads))
  /\ download cut (mk_rs (concat (map enc_frame fs)) Closed) = (Ret tt, data_of fs)
  /\ (forall f part, frame_ok f -> part `prefix_of` enc_frame f -> part <> [] -> zlen part < zlen (enc_frame f) ->
        exists got, download cut (mk_rs (concat (map enc_frame fs) ++ part) Closed) = (Fail UnexpectedEof, data_of fs ++ got)
          /\ got = if f.1 =? 0 then drop (length (vi_encode f.1 ++ vi_encode (zlen f.2))) part else []).
Proof.
  intros Hr Hf.
  assert (Hdl : forall fs, Forall frame_ok fs -> download cut (mk_rs (concat (map enc_frame fs)) Closed) = (Ret tt, data_of fs)).
  { intros fs' Hf'. destruct (download_frames fs' cut [] Closed Hf') as (fuel & Hd & Hl). rewrite app_nil_r in Hd. rewrite Hd.
    destruct fuel; [simpl in Hl; lia|]. done. }
  split_and!.
  - eexists. split; [by apply drain_upload_frames|].
    assert (Hm : map (fun r => enc_frame (0, r)) reads = map enc_frame (map (fun r => (0, r)) reads)) by by rewrite map_map.
    rewrite Hm, Hdl.
    + f_equal. unfold data_of. rewrite map_map. cbn [fst snd Z.eqb]. by rewrite map_id.
    + apply Forall_map. eapply Forall_impl; [exact Hr|]. intros r [_ Hl]. split; cbn [fst snd]; unfold RELAY_BUF, VARINT_BOUND in *; lia.
  - by apply Hdl.
  - intros f part Hok Hpre Hne Hlt. eexists. split; [|reflexivity].
    destruct (download_frames fs cut part Closed Hf) as (fuel & -> & Hl). destruct fuel as [|fuel]; [lia|].
    by apply drain_download_cut.
Qed.

(** *** The CONNECT exchange *)
Lemma find_headers_skip fs n tail e : Forall frame_ok fs -> Forall (fun f => f.1 <> 1) fs ->
  find_headers (length fs + n) (mk_rs (concat (map enc_frame fs) ++ tail) e) = find_headers n (mk_rs tail e).
Proof.
  intros Hf. induction Hf as [|[t p] fs [Ht Hp] Hf IH]; intros Hne; cbn [length map concat app Nat.add]; [done|].
  apply Forall_cons in Hne as [Ht1 Hne]. cbn [fst snd] in *. cbn [find_headers]. unfold enc_frame at 1. cbn [fst snd].
  rewrite <-!app_assoc. rewrite read_varint_enc' by done. cbn [io mbind out_bind].
  rewrite read_varint_enc' by (by apply len_ok). cbn [io mbind out_bind].
  rewrite (proj2 (Z.eqb_neq _ _) Ht1). unfold discard_frame. cbn [r_data r_end].
  rewrite (proj2 (Z.leb_le _ _)) by zl. cbn [io mbind out_bind].
  replace (Z.to_nat (zlen p)) with (length p) by (unfold zlen; lia). rewrite drop_app_length. by apply IH.
Qed.

(** The CONNECT exchange: up to seven frames of other types are skipped, then
    the HEADERS frame decides (success only for status 200, with the colo), and
    the stream behind it is left untouched for the tunnel; a HEADERS frame that
    announces more than 64 KiB is refused before anything of it is read; eight
    other frames in a row are an error. *)
Theorem exchange_response_spec fs tail e :
  Forall frame_ok fs -> Forall (fun f => f.1 <> 1) fs ->
  ((length fs <= 7)%nat -> forall payload, zlen payload <= MAX_HEADERS_FRAME_SIZE ->
     exchange_response (mk_rs (concat (map enc_frame fs) ++ enc_frame (1, payload) ++ tail) e)
     = match Qpack.decode_headers payload with
       | Ok h => if Qpack.status h =? 200 then Ret (Qpack.colo h, mk_rs tail e) else Fail (Refused (Qpack.status h))
       | Err q => Fail (BadHeaders q)
       | Panic => Fail Panicked
       end)
  /\ ((length fs <= 7)%nat -> forall len, MAX_HEADERS_FRAME_SIZE < len < VARINT_BOUND ->
     exchange_response (mk_rs (concat (map enc_frame fs) ++ vi_encode 1 ++ vi_encode len ++ tail) e) = Fail (HeadersTooLarge len))
  /\ ((length fs = 8)%nat -> exchange_response (mk_rs (concat (map enc_frame fs) ++ tail) e) = Fail NoHeaders).
Proof.
  intros Hf Hne.
  assert (Hskip : (length fs <= 7)%nat -> forall t, find_headers MAX_SKIPPED_FRAMES (mk_rs (concat (map enc_frame fs) ++ t) e)
            = find_headers (S (7 - length fs)) (mk_rs t e)).
  { intros Hl t. rewrite <-(find_headers_skip fs (S (7 - length fs)) t e) by done. f_equal. unfold MAX_SKIPPED_FRAMES. lia. }
  assert (H1 : 0 <= 1 < VARINT_BOUND) by (unfold VARINT_BOUND; lia).
  unfold exchange_response. split_and!.
  - intros Hl payload Hp. rewrite Hskip by done. cbn [find_headers]. unfold enc_frame. cbn [fst snd]. rewrite <-!app_assoc.
    rewrite read_varint_enc' by done. cbn [io mbind out_bind].
    rewrite read_varint_enc' by (apply len_ok; unfold MAX_HEADERS_FRAME_SIZE, VARINT_BOUND in *; lia). cbn [io mbind out_bind Z.eqb Pos.eqb].
    unfold checked_headers_len. rewrite (proj2 (Z.ltb_ge _ _)) by done.
    rewrite rs_read_exact_app by done. done.
  - intros Hl len Hlen. rewrite Hskip by done. cbn [find_headers].
    rewrite read_varint_enc' by done. cbn [io mbind out_bind].
    rewrite read_varint_enc' by (unfold MAX_HEADERS_FRAME_SIZE in *; lia). cbn [io mbind out_bind Z.eqb Pos.eqb].
    unfold checked_headers_len. by rewrite (proj2 (Z.ltb_lt _ _)) by lia.
  - intros Hl. replace MAX_SKIPPED_FRAMES with (length fs + 0)%nat by (unfold MAX_SKIPPED_FRAMES; lia).
    rewrite find_headers_skip by done. done.
Qed.
End facts.

Lemma framing_transparent_witness :
  exists sent, drain_upload (V:=Rfc9000.codec) [[1; 2]; [3]] = Ok sent
    /\ download (V:=Rfc9000.codec) (fun _ => 1) (mk_rs sent Closed) = (Ret tt, [1; 2; 3]).
Proof.
  refine (proj1 (framing_transparent (V:=Rfc9000.codec) (L:=Rfc9000.laws) [[1; 2]; [3]] [] (fun _ => 1) _ _)); [|constructor].
  repeat (constructor; [split; [discriminate|vm_compute; discriminate]|]). constructor.
Defined.

Lemma exchange_response_spec_witness :
  exchange_response (V:=Rfc9000.codec) (mk_rs (enc_frame (V:=Rfc9000.codec) (33, [1; 2; 3]) ++ enc_frame (V:=Rfc9000.codec) (1, [0; 0; 217]) ++ [9]) Silent)
  = Ret (None, mk_rs [9] Silent).
Proof.
  pose proof (proj1 (exchange_response_spec (V:=Rfc9000.codec) (L:=Rfc9000.laws) [(33, [1; 2; 3])] [9] Silent
    ltac:(constructor; [split; [split; vm_compute; [discriminate|reflexivity]|vm_compute; reflexivity]|constructor])
    ltac:(constructor; [discriminate|constructor])) ltac:(simpl; lia) [0; 0; 217] ltac:(vm_compute; discriminate)) as H.
  cbn [map concat] in H. rewrite app_nil_r in H. rewrite H. vm_compute. reflexivity.
Defined.

(** *** Candidate edges *)
Lemma edge_ports_spec reg : exists ps, edge_ports reg = List.filter (fun p => negb (p =? 443)) ps ++ (if contains_byte 443 ps then [443] else [])
  /\ forall p, p ∈ edge_ports reg <-> p ∈ ps.
Proof.
  exists (match MasqueReg.endpoint_ports reg with [] => [443] | ps => ps end). split; [done|]. intros p. unfold edge_ports.
  set (ps := match MasqueReg.endpoint_ports reg with [] => [443] | ps => ps end). cbn zeta.
  rewrite elem_of_app, !list_elem_of_In, filter_In, negb_true_iff, Z.eqb_neq. unfold contains_byte.
  destruct (existsb (Z.eqb 443) ps) eqn:E.
  - apply existsb_exists in E as (x & Hx & <-%Z.eqb_eq). simpl. split; [naive_solver|]. intros Hp.
    destruct (Z.eq_dec p 443) as [->|]; auto.
  - simpl. split; [tauto|]. intros Hp. left. split; [done|]. intros ->.
    assert (existsb (Z.eqb 443) ps = true) by (apply existsb_exists; exists 443; by split). congruence.
Qed.

End MasqueFacts.
