(* ===== verification/MasqueLink.v ===== *)
(** * The MASQUE connection ([src/src/outbound/masque/mod.rs], [.../tls.rs])

    Module [Edge]: the TLS configuration with its pinned edge key, the dialling
    race and the control stream.  Module [Reconnect]: [Masque::open], called
    concurrently, as a state machine over the shared link and the reconnect lock.
    Module [Framed]: the stream handed to the relay, with the pump task behind it.

    rustls, quinn and x509-parser are third party: what they answer is a class or an
    argument of the step, with what is relied on as a hypothesis. *)
From S2P Require Import Prelude RustStr NetAddr Conn Varint Qpack Config Registration Masque.

(** x509-parser: the SPKI of a certificate. *)
Class X509 := spki_of : bytes -> option bytes.

Module Edge.
Import MasqueReg.

Definition SNI : bytes := str_bytes "consumer-masque-proxy.cloudflareclient.com".

Inductive tls_error := BadCertificate | KeyMismatch | OnlyTls13.
Inductive kx_group := SECP256R1 | SECP384R1.
(** What the code sets of a [rustls::ClientConfig] and a quinn [TransportConfig]. *)
Record ClientConfig := mk_config {
  kx_groups : list kx_group; pinned : bytes; auth_chain : list bytes; auth_key : bytes; alpn_protocols : list bytes
}.
Record TransportConfig := mk_transport {
  keep_alive_interval : Z; max_idle_timeout : Z; receive_window : Z; stream_receive_window : Z;
  max_concurrent_bidi_streams : Z; initial_mtu : Z
}.
Record Connection := mk_connection { stable_id : Z; remote : SocketAddr; peer_cert : bytes }.

#[export] Instance Connection_eq_dec : EqDecision Connection.
Proof. solve_decision. Defined.

(** How an attempt to connect ends. *)
Inductive dial_event := NotStarted | Handshook (c : Connection) | Unreachable | TimedOutDial.
(** The control stream: opened and written, or where it failed. *)
Inductive control_event := ControlUp | OpenUniFailed | SettingsFailed | ControlTimeout.

Inductive edge_error :=
| NoVersions | BadClientAuth | NotQuic | BindFailed | NoDohTls | NoCandidates
| DialNotStarted (a : SocketAddr) | DialFailed (a : SocketAddr) | DialTimedOut (a : SocketAddr)
| ControlFailed | ControlTimedOut | RefreshFailed (e : MasqueRegister.mq_error).

(** What rustls and quinn say of a configuration. *)
Class Rustls := {
  default_versions_ok : list kx_group -> bool;
  client_auth_ok : list bytes -> bytes -> bool;
  quic_ok : ClientConfig -> bool
}.

Section edge.
Context {X : X509} {R : Rustls} {V : VarInt} {B : Base64} {P : P256}.

(** [PinnedEdge] *)
Definition verify_server_cert (pin cert : bytes) : res tls_error unit :=
  match spki_of cert with
  | None => Err BadCertificate
  | Some spki => if bytes_eqb spki pin then Ok tt else Err KeyMismatch
  end.
Definition verify_tls12_signature : res tls_error unit := Err OnlyTls13.

Definition client_identity (creds : RegCredentials) (alpn : bytes) : res edge_error ClientConfig :=
  let groups := [SECP256R1; SECP384R1] in
  let chain := [client_cert_der creds] in
  _ ← bail_if (negb (default_versions_ok groups)) NoVersions;
  _ ← bail_if (negb (client_auth_ok chain (client_key_der creds))) BadClientAuth;
  Ok (mk_config groups (pinned_spki_der creds) chain (client_key_der creds) [alpn]).

Definition transport : TransportConfig := mk_transport 10 60 10000000 1000000 100 1350.
Definition client_config (creds : RegCredentials) : res edge_error (ClientConfig * TransportConfig) :=
  tls ← client_identity creds (str_bytes "h3");
  _ ← bail_if (negb (quic_ok tls)) NotQuic;
  Ok (tls, transport).
Definition h2_client_config (creds : RegCredentials) : res edge_error ClientConfig := client_identity creds (str_bytes "h2").

(** What one call of [connect] meets: quinn's answer for each candidate, the order
    in which the attempts end, the control stream. *)
Record dial_world := mk_dials {
  handshake : ClientConfig -> SocketAddr -> bytes -> dial_event;
  ends : list SocketAddr -> list SocketAddr;
  control_stream : control_event
}.

Definition dial_one (w : dial_world) (cfg : ClientConfig) (addr : SocketAddr) : res edge_error Connection :=
  match handshake w cfg addr SNI with
  | NotStarted => Err (DialNotStarted addr)
  | Handshook c => Ok c
  | Unreachable => Err (DialFailed addr)
  | TimedOutDial => Err (DialTimedOut addr)
  end.

(** [futures::future::select_ok] on the results in the order they arrive: the
    first success, else the last error. *)
Fixpoint select_ok {E A} (rs : list (res E A)) (last : res E A) : res E A :=
  match rs with
  | [] => last
  | Ok a :: _ => Ok a
  | r :: rest => select_ok rest r
  end.

(** A link keeps its control stream; [prelude] is what was sent on it. *)
Record Link := mk_link { conn : Connection; prelude : bytes }.

Definition connect (w : dial_world) (cfg : ClientConfig) (addrs : list SocketAddr) : res edge_error Link :=
  match addrs with
  | [] => Err NoCandidates
  | _ =>
      c ← select_ok (map (dial_one w cfg) (ends w addrs)) (Err NoCandidates);
      match control_stream w with
      | ControlUp => p ← Qpack.control_stream_prelude; Ok (mk_link c p)
      | OpenUniFailed | SettingsFailed => Err ControlFailed
      | ControlTimeout => Err ControlTimedOut
      end
  end.

(** [Masque::new]: the credentials, candidates and first link; [bind] and [doh]:
    whether the socket and the DoH TLS configuration could be made. *)
Definition new (bind doh : bool) (w : dial_world) (creds : RegCredentials) : res edge_error (RegCredentials * list SocketAddr * Link) :=
  '(cfg, _) ← client_config creds;
  _ ← bail_if (negb bind) BindFailed;
  let addrs := Masque.edge_addrs (registration creds) in
  link ← connect w cfg addrs;
  _ ← bail_if (negb doh) NoDohTls;
  Ok (creds, addrs, link).

(** The dialling part of [open], with the client certificate made anew. *)
Definition reconnect (now : Z) (w : dial_world) (creds : RegCredentials) (addrs : list SocketAddr) : res edge_error Link :=
  creds ← map_err RefreshFailed (MasqueRegister.refresh_credentials now creds);
  '(cfg, _) ← client_config creds;
  connect w cfg addrs.
End edge.
End Edge.

Module Reconnect.
Import MasqueReg Edge.

(** [conn.open_bi()] under its timeout. *)
Inductive open_bi := BiOpened | BiFailed | BiTimeout.
Inductive open_error := OpenBiFailed | OpenBiTimedOut.
Definition open_bi_bounded (r : open_bi) : res open_error unit :=
  match r with BiOpened => Ok tt | BiFailed => Err OpenBiFailed | BiTimeout => Err OpenBiTimedOut end.

(** Where a call of [open] is: in the first [open_bi], waiting for the reconnect
    lock, holding it and dialling, past it, in the last [open_bi], done. *)
Inductive caller :=
| Trying (seen : Connection) | Waiting (seen : Connection) | Dialling (seen : Connection) | Released
| Reopening (on : Connection) | Opened (on : Connection) | Failed.

Record state := mk_state {
  creds : RegCredentials; addrs : list SocketAddr; link : Link; holder : option nat; callers : gmap nat caller
}.
Definition set_caller (i : nat) (k : caller) (s : state) : state :=
  mk_state (creds s) (addrs s) (link s) (holder s) (<[i := k]> (callers s)).
Definition set_holder (h : option nat) (s : state) : state :=
  mk_state (creds s) (addrs s) (link s) h (callers s).
Definition set_link (l : Link) (s : state) : state :=
  mk_state (creds s) (addrs s) l (holder s) (callers s).

Section steps.
Context {X : X509} {R : Rustls} {V : VarInt} {B : Base64} {P : P256}.

(** The await points of a call; [alive]: [close_reason()] is none.  [Cancel]: the
    caller's future is dropped (its own budget ran out). *)
Inductive event :=
| Begin (i : nat) (alive : bool)
| Tried (i : nat) (r : open_bi) (alive : bool)
| Lock (i : nat)
| Dialled (i : nat) (now : Z) (w : dial_world)
| Reclone (i : nat)
| Reopened (i : nat) (r : open_bi)
| Cancel (i : nat).

Definition step (e : event) (s : state) : state :=
  match e with
  | Begin i alive =>
      match callers s !! i with
      | None => let c := conn (link s) in set_caller i (if alive then Trying c else Waiting c) s
      | Some _ => s
      end
  | Tried i r alive =>
      match callers s !! i with
      | Some (Trying seen) =>
          match open_bi_bounded r with
          | Ok _ => set_caller i (Opened seen) s
          | _ => set_caller i (if alive then Failed else Waiting seen) s
          end
      | _ => s
      end
  | Lock i =>
      match callers s !! i, holder s with
      | Some (Waiting seen), None =>
          if stable_id (conn (link s)) =? stable_id seen
          then set_holder (Some i) (set_caller i (Dialling seen) s)
          else set_caller i Released s
      | _, _ => s
      end
  | Dialled i now w =>
      match callers s !! i with
      | Some (Dialling _) =>
          match reconnect now w (creds s) (addrs s) with
          | Ok fresh => set_holder None (set_caller i Released (set_link fresh s))
          | _ => set_holder None (set_caller i Failed s)
          end
      | _ => s
      end
  | Reclone i =>
      match callers s !! i with
      | Some Released => set_caller i (Reopening (conn (link s))) s
      | _ => s
      end
  | Reopened i r =>
      match callers s !! i with
      | Some (Reopening c) => set_caller i (match open_bi_bounded r with Ok _ => Opened c | _ => Failed end) s
      | _ => s
      end
  | Cancel i =>
      match callers s !! i with
      | None | Some (Opened _) | Some Failed => s
      | Some (Dialling _) => set_holder None (set_caller i Failed s)
      | Some _ => set_caller i Failed s
      end
  end.
End steps.
End Reconnect.

Module LinkFacts.
Import MasqueReg Edge Reconnect.

Section facts.
Context {X : X509} {R : Rustls} {V : VarInt} {B : Base64} {P : P256}.

(** *** The pinned key *)
Definition key_of (c : Connection) : option bytes := spki_of (peer_cert c).
(** The key the registration names. *)
Definition registered_pin (r : Registration) : option bytes :=
  match peer_public_key r with [] => Some [] | b64 => b64_decode b64 end.
Definition coherent (c : RegCredentials) : Prop := registered_pin (registration c) = Some (pinned_spki_der c).

Lemma verify_pin pin cert : verify_server_cert pin cert = Ok tt <-> spki_of cert = Some pin.
Proof.
  unfold verify_server_cert. destruct (spki_of cert) as [k|]; [|done]. unfold bytes_eqb. case_bool_decide; naive_solver.
Qed.

Lemma build_credentials_pin r k now c : MasqueRegister.build_credentials r k now = Ok c -> registration c = r /\ coherent c.
Proof.
  unfold MasqueRegister.build_credentials, coherent, registered_pin.
  destruct (MasqueRegister.build_client_cert _ _ _) as [cert|e|]; [|done..]. cbn [mbind res_bind].
  destruct (peer_public_key r) as [|x l] eqn:Hp.
  - destruct (to_pkcs8_der k); [|done]. intros [= <-]. cbn. by rewrite Hp.
  - destruct (b64_decode (x :: l)) as [d|] eqn:Hd; [|done]. cbn [ok_or]. destruct (to_pkcs8_der k); [|done]. intros [= <-]. cbn. by rewrite Hp.
Qed.

Lemma refresh_pin now c c' : coherent c -> MasqueRegister.refresh_credentials now c = Ok c' ->
  registration c' = registration c /\ pinned_spki_der c' = pinned_spki_der c.
Proof.
  unfold MasqueRegister.refresh_credentials. destruct (from_pkcs8_der _) as [k|]; [|done]. cbn [ok_or mbind res_bind].
  intros Hc [Hr Hp]%build_credentials_pin. split; [done|]. unfold coherent in *. rewrite Hr in Hp. congruence.
Qed.

Lemma client_config_pin c cfg t : client_config c = Ok (cfg, t) -> pinned cfg = pinned_spki_der c.
Proof.
  unfold client_config, client_identity. destruct (default_versions_ok _); [|done]. destruct (client_auth_ok _ _); [|done].
  cbn [negb bail_if mbind res_bind]. by destruct (quic_ok _); intros [= <- <-].
Qed.

(** *** Dialling *)
(** rustls asks the verifier before a handshake completes; every attempt ends. *)
Record world_ok (w : dial_world) : Prop := {
  handshake_verified : forall cfg a sni c, handshake w cfg a sni = Handshook c ->
    verify_server_cert (pinned cfg) (peer_cert c) = Ok tt /\ remote c = a;
  all_end : forall l, ends w l ≡ₚ l
}.

Lemma select_ok_spec {E A} (rs : list (res E A)) last a : select_ok rs last = Ok a ->
  Ok a ∈ rs \/ (last = Ok a /\ Forall (fun r => is_ok r = false) rs).
Proof.
  revert last. induction rs as [|r rs IH]; intros last; cbn [select_ok]; [by right|].
  destruct r as [x|e|]; [intros [= ->]; left; by left|intros [?|[? _]]%IH; [left; by right|done]..].
Qed.
Lemma select_ok_first {E A} (rs : list (res E A)) last : Exists (fun r => is_ok r = true) rs -> exists a, select_ok rs last = Ok a.
Proof.
  intros H. revert last. induction H as [r rs Hr|r rs _ IH]; intros last; cbn [select_ok]; destruct r; try done; eauto.
Qed.

Lemma dial_one_ok w cfg a c : world_ok w -> dial_one w cfg a = Ok c -> key_of c = Some (pinned cfg) /\ remote c = a.
Proof.
  intros Hw. unfold dial_one. destruct (handshake w cfg a SNI) eqn:Hh; try done. intros [= ->].
  destruct (handshake_verified w Hw _ _ _ _ Hh) as [Hv ?]. by apply verify_pin in Hv.
Qed.

Lemma connect_sound w cfg addrs l : world_ok w -> connect w cfg addrs = Ok l ->
  key_of (conn l) = Some (pinned cfg) /\ remote (conn l) ∈ addrs /\ Qpack.control_stream_prelude (E:=edge_error) = Ok (prelude l).
Proof.
  intros Hw. unfold connect. destruct addrs as [|a0 rest]; [done|]. set (addrs := a0 :: rest).
  destruct (select_ok _ _) as [c|e|] eqn:Hs; [|done..]. cbn [mbind res_bind].
  destruct (control_stream w); [|done..]. destruct Qpack.control_stream_prelude as [p|e|]; [|done..]. intros [= <-].
  apply select_ok_spec in Hs as [Hin|[? _]]; [|done]. apply list_elem_of_In, in_map_iff in Hin as (a & Ha & Hin).
  apply (dial_one_ok w) in Ha as [Hk <-]; [|done]. split_and!; [done| |done].
  apply list_elem_of_In in Hin. by rewrite (all_end w Hw) in Hin.
Qed.

(** One reachable candidate is enough, whichever attempts fail and in whatever
    order they end; without one, or without a control stream, there is no link. *)
Theorem connect_any_edge w cfg addrs : world_ok w ->
  (exists l, connect w cfg addrs = Ok l) <->
  control_stream w = ControlUp /\ exists a c, a ∈ addrs /\ handshake w cfg a SNI = Handshook c.
Proof.
  intros Hw. split.
  - intros [l Hl]. pose proof Hl as Hs. unfold connect in Hl. destruct addrs as [|a0 rest]; [done|].
    destruct (select_ok _ _) as [c|e|] eqn:Ho; [|done..]. cbn [mbind res_bind] in Hl. split; [by destruct (control_stream w)|].
    apply select_ok_spec in Ho as [Hin|[? _]]; [|done]. apply list_elem_of_In, in_map_iff in Hin as (a & Ha & Hin).
    exists a. apply list_elem_of_In in Hin. rewrite (all_end w Hw) in Hin. unfold dial_one in Ha.
    destruct (handshake w cfg a SNI) as [|c'| |]; try done. by exists c'.
  - intros (Hc & a & c & Hin & Hh). unfold connect. destruct addrs as [|a0 rest]; [by apply elem_of_nil in Hin|].
    destruct (select_ok_first (map (dial_one w cfg) (ends w (a0 :: rest))) (Err NoCandidates)) as [c' ->].
    { apply Exists_exists. exists (Ok c). split; [|done]. apply list_elem_of_In, in_map_iff. exists a. unfold dial_one. rewrite Hh.
      split; [done|]. apply list_elem_of_In. by rewrite (all_end w Hw). }
    cbn [mbind res_bind]. rewrite Hc. by eexists.
Qed.

(** A registration without an edge key gives a pin no certificate carries: such an
    outlet never connects. *)
Theorem no_pin_no_link bind doh w c : world_ok w -> (forall cert, spki_of cert <> Some []) ->
  coherent c -> peer_public_key (registration c) = [] -> is_ok (new bind doh w c) = false.
Proof.
  intros Hw Hx Hc Hp. unfold new. destruct (client_config c) as [[cfg t]|e|] eqn:Hcfg; [|done..]. cbn [mbind res_bind].
  destruct bind; [|done]. cbn [negb bail_if mbind res_bind]. destruct (connect _ _ _) as [l|e|] eqn:Hl; [|done..].
  apply connect_sound in Hl as [Hk _]; [|done]. rewrite (client_config_pin _ _ _ Hcfg) in Hk.
  unfold coherent, registered_pin in Hc. rewrite Hp in Hc. injection Hc as Hc. rewrite <-Hc in Hk. by apply Hx in Hk.
Qed.

Lemma reconnect_sound now w c addrs l : world_ok w -> coherent c -> reconnect now w c addrs = Ok l ->
  key_of (conn l) = registered_pin (registration c) /\ remote (conn l) ∈ addrs.
Proof.
  intros Hw Hc. unfold reconnect. destruct (MasqueRegister.refresh_credentials now c) as [c'|e|] eqn:Hr; [|done..]. cbn [map_err mbind res_bind].
  destruct (client_config c') as [[cfg t]|e|] eqn:Hcfg; [|done..]. cbn [mbind res_bind].
  intros (Hk & Hin & _)%connect_sound; [|done]. split; [|done].
  apply (refresh_pin now c c' Hc) in Hr as [_ Hr]. rewrite Hk, (client_config_pin _ _ _ Hcfg), Hr. by rewrite Hc.
Qed.

(** *** Concurrent callers *)
Definition holds (k : caller) : option Connection :=
  match k with Trying c | Waiting c | Dialling c | Reopening c => Some c | _ => None end.
Definition uses (k : caller) : option Connection := match k with Opened c => Some c | _ => holds k end.
(** Connections that cannot have been freed: the link's and those callers hold. *)
Definition live (s : state) (c : Connection) : Prop :=
  c = conn (link s) \/ exists i k, callers s !! i = Some k /\ holds k = Some c.

(** What was seen on the way: connections found closed, and links replaced. *)
Record log := mk_log { found_dead : list Connection; replaced : list (Connection * Connection) }.
Definition dead_seen (e : event) (s : state) : list Connection :=
  match e with
  | Begin i false => match callers s !! i with None => [conn (link s)] | _ => [] end
  | Tried i r false =>
      match callers s !! i with Some (Trying c) => if is_ok (open_bi_bounded r) then [] else [c] | _ => [] end
  | _ => []
  end.
Definition swap (e : event) (s : state) : list (Connection * Connection) :=
  match e with
  | Dialled i now w =>
      match callers s !! i with
      | Some (Dialling _) =>
          match reconnect now w (creds s) (addrs s) with Ok l => [(conn (link s), conn l)] | _ => [] end
      | _ => []
      end
  | _ => []
  end.
Definition record (e : event) (s : state) (g : log) : log :=
  mk_log (found_dead g ++ dead_seen e s) (replaced g ++ swap e s).

(** quinn's [stable_id] tells live connections apart. *)
Definition admissible (e : event) (s : state) : Prop :=
  match e with
  | Dialled _ now w =>
      world_ok w /\ forall l, reconnect now w (creds s) (addrs s) = Ok l -> forall d, live s d -> stable_id (conn l) <> stable_id d
  | _ => True
  end.

Inductive reachable (s0 : state) : state -> log -> Prop :=
| reach_init : reachable s0 s0 (mk_log [] [])
| reach_step s g e : reachable s0 s g -> admissible e s -> reachable s0 (step e s) (record e s g).

Definition started (c : RegCredentials) (a : list SocketAddr) (l : Link) : state := mk_state c a l None ∅.

Fixpoint chain (c : Connection) (l : list (Connection * Connection)) (d : Connection) : Prop :=
  match l with [] => c = d | (a, b) :: r => a = c /\ chain b r d end.
Lemma chain_snoc c l a b : chain c l a -> chain c (l ++ [(a, b)]) b.
Proof. revert c. induction l as [|[x y] l IH]; intros c; cbn; [by intros ->|]. intros [-> H]. auto. Qed.

Record inv (s0 s : state) (g : log) : Prop := {
  inv_fixed : creds s = creds s0 /\ addrs s = addrs s0;
  inv_lock : forall i, holder s = Some i <-> exists c, callers s !! i = Some (Dialling c);
  inv_ids : forall c d, live s c -> live s d -> stable_id c = stable_id d -> c = d;
  inv_dial : forall i c, callers s !! i = Some (Dialling c) -> c = conn (link s);
  inv_dead : forall i c, callers s !! i = Some (Waiting c) \/ callers s !! i = Some (Dialling c) -> c ∈ found_dead g;
  inv_pin : key_of (conn (link s)) = registered_pin (registration (creds s0));
  inv_use : forall i k c, callers s !! i = Some k -> uses k = Some c -> key_of c = registered_pin (registration (creds s0));
  inv_chain : chain (conn (link s0)) (replaced g) (conn (link s));
  inv_swap : forall a b, (a, b) ∈ replaced g -> a ∈ found_dead g
}.

(** A caller moves on, keeping or dropping the connection it had or taking the
    link's; the lock and the link stay. *)
Lemma move_inv s0 s g i k extra : inv s0 s g ->
  (forall c, callers s !! i <> Some (Dialling c)) -> (forall c, k <> Dialling c) ->
  (forall c, uses k = Some c -> c = conn (link s) \/ exists k0, callers s !! i = Some k0 /\ holds k0 = Some c) ->
  (forall c, k = Waiting c -> c ∈ found_dead g ++ extra) ->
  inv s0 (set_caller i k s) (mk_log (found_dead g ++ extra) (replaced g)).
Proof.
  intros Hi Hold Hk Huse Hdead. destruct Hi as [Hf Hl Hids Hd Hdd Hp Hu Hc Hs].
  assert (Hhu : forall c, holds k = Some c -> uses k = Some c) by (by destruct k).
  assert (Hlive : forall c, live (set_caller i k s) c -> live s c).
  { intros c [->|(j & k' & Hj & Hh)]; [by left|]. cbn in Hj. apply lookup_insert_Some in Hj as [[<- <-]|[_ Hj]]; [|right; eauto].
    destruct (Huse c (Hhu c Hh)) as [->|(k0 & H0 & H1)]; [by left|right; eauto]. }
  constructor; cbn.
  - done.
  - intros j. rewrite Hl. destruct (decide (i = j)) as [->|Hn].
    + rewrite lookup_insert_eq. split; intros [c Hx]; [by apply Hold in Hx|]. injection Hx as ->. by destruct (Hk c).
    + by rewrite lookup_insert_ne.
  - intros c d Hcl Hdl. apply Hids; auto.
  - intros j c Hj. apply lookup_insert_Some in Hj as [[_ ->]|[_ Hj]]; [by destruct (Hk c)|by apply Hd in Hj].
  - intros j c [Hj|Hj]; apply lookup_insert_Some in Hj as [[_ ->]|[_ Hj]]; try by auto.
    + apply elem_of_app. left. eauto.
    + by destruct (Hk c).
    + apply elem_of_app. left. eauto.
  - done.
  - intros j k' c Hj Hh. apply lookup_insert_Some in Hj as [[_ <-]|[_ Hj]]; [|eauto].
    destruct (Huse c Hh) as [->|(k0 & H0 & H1)]; [done|]. apply (Hu i k0 c H0). by destruct k0.
  - done.
  - intros a b Hab. apply elem_of_app. left. eauto.
Qed.

(** Giving the lock up, with or without a new link. *)
Lemma release_inv s0 s g i k l sw : inv s0 s g -> (exists c, callers s !! i = Some (Dialling c)) -> holds k = None -> uses k = None ->
  (l = link s /\ sw = [] \/
   sw = [(conn (link s), conn l)] /\ key_of (conn l) = registered_pin (registration (creds s0)) /\
   (forall d, live s d -> stable_id (conn l) <> stable_id d)) ->
  inv s0 (set_holder None (set_caller i k (set_link l s))) (mk_log (found_dead g ++ []) (replaced g ++ sw)).
Proof.
  intros [Hf Hl Hids Hd Hdd Hp Hu Hc Hs] [c0 Hi] Hh Hus Hlink. pose proof (proj2 (Hl i) (ex_intro _ c0 Hi)) as Hho.
  assert (Hone : forall j c, callers s !! j = Some (Dialling c) -> j = i).
  { intros j c Hj. assert (holder s = Some j) by (apply Hl; eauto). congruence. }
  assert (Hlive : forall c, live (set_holder None (set_caller i k (set_link l s))) c -> c = conn l \/ live s c).
  { intros c [->|(j & k' & Hj & Hh')]; [by left|]. right. cbn in Hj. apply lookup_insert_Some in Hj as [[_ <-]|[_ Hj]]; [congruence|right; eauto]. }
  constructor; cbn.
  - done.
  - intros j. split; [done|]. intros [c Hj]. apply lookup_insert_Some in Hj as [[_ ->]|[Hn Hj]]; [done|]. by destruct Hn; symmetry; eapply Hone.
  - intros c d [->|Hcl]%Hlive [->|Hdl]%Hlive Heq; [done| | |by apply Hids].
    + destruct Hlink as [[-> _]|(_ & _ & Hfr)]; [apply Hids; [by left|done..]|by apply Hfr in Heq].
    + destruct Hlink as [[-> _]|(_ & _ & Hfr)]; [apply Hids; [done|by left|done]|symmetry in Heq; by apply Hfr in Heq].
  - intros j c Hj. apply lookup_insert_Some in Hj as [[_ ->]|[Hn Hj]]; [done|]. by destruct Hn; symmetry; eapply Hone.
  - intros j c Hj. rewrite app_nil_r. destruct Hj as [Hj|Hj]; apply lookup_insert_Some in Hj as [[_ ->]|[_ Hj]]; try done; eauto.
  - by destruct Hlink as [[-> _]|(_ & Hk & _)].
  - intros j k' c Hj Hu'. apply lookup_insert_Some in Hj as [[_ <-]|[_ Hj]]; [congruence|eauto].
  - destruct Hlink as [[-> ->]|(-> & _)]; [by rewrite app_nil_r|by apply chain_snoc].
  - intros a b Hab. rewrite app_nil_r. destruct Hlink as [[_ ->]|(-> & _)]; [rewrite app_nil_r in Hab; eauto|].
    apply elem_of_app in Hab as [Hab|Hab%list_elem_of_singleton]; [eauto|]. injection Hab as -> _.
    rewrite <-(Hd i c0 Hi). eauto.
Qed.

(** Taking the free lock while the link is the connection that failed. *)
Lemma lock_inv s0 s g i c : inv s0 s g -> holder s = None -> callers s !! i = Some (Waiting c) ->
  stable_id (conn (link s)) = stable_id c -> inv s0 (set_holder (Some i) (set_caller i (Dialling c) s)) g.
Proof.
  intros [Hf Hl Hids Hd Hdd Hp Hu Hc Hs] Hh Hi Hid.
  assert (Hno : forall j d, callers s !! j <> Some (Dialling d)).
  { intros j d Hj. assert (holder s = Some j) by (apply Hl; eauto). congruence. }
  assert (Hcl : c = conn (link s)) by (symmetry; apply Hids; [by left|right; by exists i, (Waiting c)|done]).
  assert (Hlive : forall d, live (set_holder (Some i) (set_caller i (Dialling c) s)) d -> live s d).
  { intros d [->|(j & k' & Hj & Hh')]; [by left|]. cbn in Hj. apply lookup_insert_Some in Hj as [[_ <-]|[_ Hj]]; [injection Hh' as <-; by left|right; eauto]. }
  constructor; cbn; try done.
  - intros j. split.
    + intros [= <-]. exists c. apply lookup_insert_eq.
    + intros [d Hj]. apply lookup_insert_Some in Hj as [[-> _]|[_ Hj]]; [done|by apply Hno in Hj].
  - intros d d' H1 H2. apply Hids; auto.
  - intros j d Hj. apply lookup_insert_Some in Hj as [[_ Hj]|[_ Hj]]; [by injection Hj as <-|by apply Hno in Hj].
  - intros j d Hj. destruct Hj as [Hj|Hj]; apply lookup_insert_Some in Hj as [[_ Hj]|[_ Hj]]; try done; [|injection Hj as <-|]; eauto.
  - intros j k' d Hj Hu'. apply lookup_insert_Some in Hj as [[_ <-]|[_ Hj]]; [|eauto]. injection Hu' as <-. by rewrite Hcl.
Qed.

Lemma log_same g : mk_log (found_dead g ++ []) (replaced g ++ []) = g.
Proof. destruct g. by rewrite !app_nil_r. Qed.
Lemma log_dead g d : mk_log (found_dead g ++ d) (replaced g ++ []) = mk_log (found_dead g ++ d) (replaced g).
Proof. by rewrite app_nil_r. Qed.

Ltac move_on :=
  rewrite ?log_dead;
  lazymatch goal with
  | |- inv _ _ (mk_log _ _) => idtac
  | |- inv _ _ ?g => rewrite <-(log_same g), log_dead
  end;
  apply move_inv; cbn in *; [done|try naive_solver set_solver..].

Lemma open_step_inv s0 s g e : coherent (creds s0) -> inv s0 s g -> admissible e s -> inv s0 (step e s) (record e s g).
Proof.
  intros Hco Hi Ha. unfold record. destruct e as [i alive|i r alive|i|i now w|i|i r|i]; cbn [step swap dead_seen].
  - destruct (callers s !! i) as [k|] eqn:Hc; destruct alive; rewrite ?log_same; try done; move_on.
  - destruct (callers s !! i) as [[c|c|c| |c|c|]|] eqn:Hc; destruct alive; rewrite ?log_same; try done;
      destruct r; cbn [open_bi_bounded is_ok]; rewrite ?log_same; move_on.
  - rewrite log_same. destruct (callers s !! i) as [[c|c|c| |c|c|]|] eqn:Hc; try done. destruct (holder s) eqn:Hh; [done|].
    destruct (Z.eqb_spec (stable_id (conn (link s))) (stable_id c)); [by apply lock_inv|].
    move_on.
  - destruct (callers s !! i) as [[c|c|c| |c|c|]|] eqn:Hc; rewrite ?log_same; try done. destruct Ha as [Hw Hfr].
    pose proof (inv_fixed _ _ _ Hi) as [Hcr _]. destruct (reconnect now w (creds s) (addrs s)) as [l|er|] eqn:Hr.
    + apply release_inv; eauto. right. split_and!; [done| |by apply Hfr].
      rewrite <-Hcr. eapply reconnect_sound; [done|by rewrite Hcr|done].
    + apply (release_inv s0 s g i Failed (link s)); eauto.
    + apply (release_inv s0 s g i Failed (link s)); eauto.
  - rewrite log_same. destruct (callers s !! i) as [[c|c|c| |c|c|]|] eqn:Hc; try done. move_on.
  - rewrite log_same. destruct (callers s !! i) as [[c|c|c| |c|c|]|] eqn:Hc; try done.
    destruct r; cbn [open_bi_bounded]; move_on.
  - rewrite log_same. destruct (callers s !! i) as [[c|c|c| |c|c|]|] eqn:Hc; try done; rewrite <-(log_same g); try move_on.
    apply (release_inv s0 s g i Failed (link s)); eauto.
Qed.

Lemma reachable_inv c a l s g : coherent c -> key_of (conn l) = registered_pin (registration c) ->
  reachable (started c a l) s g -> inv (started c a l) s g.
Proof.
  intros Hc Hk. induction 1 as [|s g e _ IH Ha]; [|by apply open_step_inv]. constructor; cbn; try done.
  - intros i. split; [done|]. intros [d Hd]. by rewrite lookup_empty in Hd.
  - intros d d' [->|(i & k & Hi & _)] [->|(j & k' & Hj & _)]; cbn in *; by rewrite ?lookup_empty in *.
  - intros i d [Hd|Hd]; by rewrite lookup_empty in Hd.
  - intros d b Hd. by apply elem_of_nil in Hd.
Qed.

Lemma new_sound bind doh w c c' a l : world_ok w -> coherent c -> new bind doh w c = Ok (c', a, l) ->
  c' = c /\ a = Masque.edge_addrs (registration c) /\ key_of (conn l) = registered_pin (registration c).
Proof.
  intros Hw Hc. unfold new. destruct (client_config c) as [[cfg t]|e|] eqn:Hcfg; [|done..]. cbn [mbind res_bind].
  destruct bind; [|done]. cbn [negb bail_if mbind res_bind]. destruct (connect _ _ _) as [l'|e|] eqn:Hl; [|done..]. cbn [mbind res_bind].
  destruct doh; [|done]. intros [= <- <- <-]. split_and!; [done..|]. apply connect_sound in Hl as [Hk _]; [|done].
  rewrite Hk, (client_config_pin _ _ _ Hcfg). by rewrite Hc.
Qed.

(** C21. Reconnection is shared, and never leaves the registered edge.  For every
    interleaving of any number of callers of [open], cancelled at any point: at
    most one of them dials at a time, it holds the lock, and what it replaces is
    the very connection it found closed; the lock is never left behind.  A caller
    that gets the lock dials exactly when nobody has replaced its connection
    meanwhile.  The links form one chain from the first to the current, each
    replaced only after being found closed, and every connection a caller holds or
    was given a stream on belongs to an edge whose certificate carries the key of
    the registration. *)
Theorem reconnect_single_flight bind doh w0 c c' a l s g :
  world_ok w0 -> coherent c -> new bind doh w0 c = Ok (c', a, l) -> reachable (started c' a l) s g ->
  (holder s = None \/ exists i, holder s = Some i /\ callers s !! i = Some (Dialling (conn (link s)))) /\
  (forall i d, callers s !! i = Some (Dialling d) -> holder s = Some i /\ d ∈ found_dead g) /\
  (forall i d, callers s !! i = Some (Waiting d) -> holder s = None ->
     link (step (Lock i) s) = link s /\
     callers (step (Lock i) s) !! i = Some (if bool_decide (d = conn (link s)) then Dialling d else Released)) /\
  chain (conn l) (replaced g) (conn (link s)) /\ (forall d d', (d, d') ∈ replaced g -> d ∈ found_dead g) /\
  key_of (conn (link s)) = registered_pin (registration c) /\
  (forall i k d, callers s !! i = Some k -> uses k = Some d -> key_of d = registered_pin (registration c)).
Proof.
  intros Hw Hc (-> & _ & Hk)%new_sound Hr; [|done..]. destruct (reachable_inv _ _ _ _ _ Hc Hk Hr) as [Hf Hl Hids Hd Hdd Hp Hu Hch Hs].
  split_and!; try done.
  - destruct (holder s) as [i|] eqn:Hh; [right|by left]. exists i. split; [done|].
    destruct (proj1 (Hl i) eq_refl) as [d Hi]. by rewrite Hi, (Hd i d Hi).
  - intros i d Hi. split; [apply Hl; eauto|eauto].
  - intros i d Hi Hh. cbn [step]. rewrite Hi, Hh. destruct (Z.eqb_spec (stable_id (conn (link s))) (stable_id d)) as [He|He].
    + rewrite bool_decide_eq_true_2; [|symmetry; apply Hids; [by left|right; by exists i, (Waiting d)|done]].
      split; [done|]. apply lookup_insert_eq.
    + rewrite bool_decide_eq_false_2 by congruence. split; [done|]. apply lookup_insert_eq.
Qed.
End facts.

(** *** A concrete edge: a certificate is its key. *)
#[local] Existing Instances WgConfFacts.letters MasqueRegisterFacts.toy_p256 Rfc9000.codec.
Definition raw_x509 : X509 := Some.
Definition any_rustls : Rustls := {| default_versions_ok _ := true; client_auth_ok _ _ := true; quic_ok _ := true |}.
#[local] Existing Instances raw_x509 any_rustls.

(** Only the second candidate answers, as connection [n], with the pinned key. *)
Definition sample_dials (n : Z) : dial_world :=
  mk_dials (fun cfg a _ => if sa_port a =? 443 then Handshook (mk_connection n a (pinned cfg)) else Unreachable) (@rev _) ControlUp.
Definition sample_creds : RegCredentials :=
  mk_creds (mk_registration [97] [116] [] [] [] [] (str_bytes "1.2.3.4") [] [443; 500] (str_bytes "AJ") [] []) [7] [1] [9].
Definition sample_addrs : list SocketAddr := [SockV4 [1; 2; 3; 4] 500; SockV4 [1; 2; 3; 4] 443].
Definition sample_conn (n : Z) : Connection := mk_connection n (SockV4 [1; 2; 3; 4] 443) [9].
Lemma sample_dials_ok n : world_ok (sample_dials n).
Proof.
  split.
  - intros cfg a sni c. cbn [handshake sample_dials]. destruct (sa_port a =? 443); [|done]. intros [= <-]. split; [|done]. by apply verify_pin.
  - intros l0. symmetry. apply Permutation_rev.
Qed.

Lemma sample_coherent : coherent sample_creds.
Proof. done. Qed.

(** Two callers find connection 1 closed; the first to get the lock dials 2, the
    second gets its stream on 2 without dialling. *)
Definition sample_run : list event := [Begin 0 false; Begin 1 false; Lock 0; Dialled 0 50 (sample_dials 2); Lock 1; Reclone 1; Reopened 1 BiOpened].
Lemma reconnect_single_flight_witness : exists l s g,
  new true true (sample_dials 1) sample_creds = Ok (sample_creds, sample_addrs, l) /\
  reachable (started sample_creds sample_addrs l) s g /\
  callers s !! 1%nat = Some (Opened (sample_conn 2)) /\ replaced g = [(sample_conn 1, sample_conn 2)] /\
  key_of (sample_conn 2) = Some [9].
Proof.
  set (l := mk_link (sample_conn 1) [0; 4; 0]).
  set (s0 := started sample_creds sample_addrs l).
  set (s := fold_left (fun s e => step e s) sample_run s0).
  set (g := snd (fold_left (fun '(s, g) e => (step e s, record e s g)) sample_run (s0, mk_log [] []))).
  assert (Hn : new true true (sample_dials 1) sample_creds = Ok (sample_creds, sample_addrs, l))
    by (vm_compute; reflexivity).
  assert (Hr : reachable s0 s g).
  { subst s g. unfold sample_run. cbn [fold_left snd]. repeat (apply reach_step; [|exact I || (split; [apply sample_dials_ok|])]); [apply reach_init|].
    intros l' Hl' d Hd. assert (Hs : stable_id (conn l') = 2) by (vm_compute in Hl'; injection Hl' as <-; reflexivity). rewrite Hs.
    destruct Hd as [->|(i & k & Hi & Hk)]; [intros H2; vm_compute in H2; discriminate H2|].
    match type of Hi with ?m !! _ = _ =>
      assert (Hm : m = <[0%nat := Dialling (sample_conn 1)]> {[1%nat := Waiting (sample_conn 1)]}) by (vm_compute; reflexivity) end.
    rewrite Hm in Hi. apply lookup_insert_Some in Hi as [[_ <-]|[_ [_ <-]%lookup_singleton_Some]]; injection Hk as <-; discriminate. }
  assert (Hp : key_of (conn (link s)) = registered_pin (registration sample_creds)).
  { apply (reconnect_single_flight true true (sample_dials 1) sample_creds sample_creds _ l s g (sample_dials_ok 1) sample_coherent Hn Hr). }
  exists l, s, g. split_and!; [exact Hn|exact Hr|vm_compute; reflexivity..|vm_compute in Hp; exact Hp].
Defined.
End LinkFacts.

(** ** The stream handed to the relay *)
Module Framed.
Import Masque.

(** The pump's download half: what it has yet to write, and the duplex pipe to the
    stream.  The upload half: the pipe from the stream, whether that side was shut
    down, the frame being written, what quinn has taken, whether the stream was
    finished or reset. *)
Record down := mk_down { todo : bytes; pipe : bytes }.
Record up := mk_up { input : bytes; shut : bool; cur : bytes; sent : bytes; finished : bool; was_reset : bool }.
(** [fin]: how [drain_download] ends; [ret]: the pump's return value, its end of the
    duplex being dropped then; [joined]: the task's handle is ready; [handle]: the
    field [task] is [Some]. *)
Record stream := mk_stream {
  dn : down; upl : up; fin : out ErrorKind unit; ret : option (res ErrorKind unit); joined : bool; handle : bool
}.

Section pump.
Context {V : VarInt}.

(** [wrap_data_framing] on a stream whose frames arrive as [recv]. *)
Definition wrap_data_framing (cut : nat -> Z) (recv : rstream) : stream :=
  let '(r, w) := download cut recv in mk_stream (mk_down w []) (mk_up [] false [] [] false false) r None false true.

Definition running (s : stream) : bool := match ret s with None => true | Some _ => false end.
Definition pump_return (r : res ErrorKind unit) (s : stream) : stream :=
  mk_stream (mk_down [] (pipe (dn s))) (upl s) (fin s) (Some r) (joined s) (handle s).
Definition set_up (u : up) (s : stream) : stream := mk_stream (dn s) u (fin s) (ret s) (joined s) (handle s).

(** [out.write_all] of the download half gets [n] more bytes into the pipe. *)
Definition on_download (n : nat) (s : stream) : stream :=
  if running s then
    let n := Nat.min n (Z.to_nat (RELAY_BUF - zlen (pipe (dn s)))) in
    mk_stream (mk_down (drop n (todo (dn s))) (pipe (dn s) ++ take n (todo (dn s)))) (upl s) (fin s) (ret s) (joined s) (handle s)
  else s.
(** [drain_download] returns, and with it the pump. *)
Definition on_download_end (s : stream) : stream :=
  match running s, todo (dn s), fin s with
  | true, [], Ret _ => pump_return (Ok tt) s
  | true, [], Fail k => pump_return (Err k) s
  | _, _, _ => s
  end.

(** [input.read] of the upload half returns [n] bytes, or the end. *)
Definition on_upload_read (n : nat) (s : stream) : stream :=
  let u := upl s in
  match running s && negb (finished u), cur u, input u with
  | true, [], _ :: _ =>
      let n := Nat.max 1 (Nat.min n (Z.to_nat RELAY_BUF)) in
      match Qpack.data_frame (E:=ErrorKind) [] (take n (input u)) with
      | Ok f => set_up (mk_up (drop n (input u)) (shut u) f (sent u) false (was_reset u)) s
      | _ => pump_return Panic s
      end
  | _, _, _ => s
  end.
(** quinn takes [n] more bytes of the frame, or the stream is broken: it is reset
    and the pump fails. *)
Definition on_upload_write (n : nat) (s : stream) : stream :=
  let u := upl s in
  if running s then set_up (mk_up (input u) (shut u) (drop n (cur u)) (sent u ++ take n (cur u)) (finished u) (was_reset u)) s else s.
Definition on_upload_error (s : stream) : stream :=
  let u := upl s in
  if running s && negb (finished u)
  then pump_return (Err Other) (set_up (mk_up (input u) (shut u) (cur u) (sent u) false true) s) else s.
(** The end of the input: [send.finish()]. *)
Definition on_upload_end (ok : bool) (s : stream) : stream :=
  let u := upl s in
  match running s && negb (finished u) && shut u, cur u, input u with
  | true, [], [] => if ok then set_up (mk_up [] true [] (sent u) true (was_reset u)) s else pump_return (Err Other) s
  | _, _, _ => s
  end.
(** The finished task's result reaches its handle. *)
Definition on_join (s : stream) : stream :=
  if running s then s else mk_stream (dn s) (upl s) (fin s) (ret s) true (handle s).

(** [poll_read] with [room] free bytes in the caller's buffer. *)
Definition poll_read (room : nat) (s : stream) : poll (res ErrorKind bytes) * stream :=
  match pipe (dn s) with
  | _ :: _ =>
      (Ready (Ok (take room (pipe (dn s)))),
       mk_stream (mk_down (todo (dn s)) (drop room (pipe (dn s)))) (upl s) (fin s) (ret s) (joined s) (handle s))
  | [] =>
      match ret s with
      | None => (Pending, s)
      | Some r =>
          if (room =? 0)%nat then (Ready (Ok []), s)
          else if negb (handle s) then (Ready (Ok []), s)
          else if negb (joined s) then (Pending, s)
          else (Ready (match r with Ok _ => Ok [] | Err e => Err e | Panic => Err Other end),
                mk_stream (dn s) (upl s) (fin s) (ret s) true false)
      end
  end.
Definition poll_write (buf : bytes) (s : stream) : poll (res ErrorKind Z) * stream :=
  let u := upl s in
  if negb (running s) || shut u then (Ready (Err BrokenPipe), s)
  else
    let n := Z.to_nat (RELAY_BUF - zlen (input u)) in
    if (n =? 0)%nat then (Pending, s)
    else
      let d := take n buf in
      (Ready (Ok (zlen d)), set_up (mk_up (input u ++ d) (shut u) (cur u) (sent u) (finished u) (was_reset u)) s).
Definition poll_shutdown (s : stream) : stream :=
  let u := upl s in set_up (mk_up (input u) true (cur u) (sent u) (finished u) (was_reset u)) s.

(** Dropping the stream aborts the task. *)
Definition drop_stream (s : stream) : stream := if handle s && running s then pump_return Panic s else s.
End pump.
End Framed.

Module FramedFacts.
Import Masque MasqueFacts Framed.

Section facts.
Context {V : VarInt} {L : VarIntLaws V}.

(** *** Every interleaving of the pump, the network and the relay *)
Inductive op :=
| Down (n : nat) | DownEnd | UpRead (n : nat) | UpWrite (n : nat) | UpError | UpEnd (ok : bool) | Join
| Read (room : nat) | Write (buf : bytes) | Shutdown.

(** What crossed the stream: the bytes read, the bytes accepted, whether a read failed. *)
Record log := mk_log { delivered : bytes; written : bytes; failed : bool }.

Definition step (o : op) (x : stream * log) : stream * log :=
  let '(s, g) := x in
  match o with
  | Down n => (on_download n s, g)
  | DownEnd => (on_download_end s, g)
  | UpRead n => (on_upload_read n s, g)
  | UpWrite n => (on_upload_write n s, g)
  | UpError => (on_upload_error s, g)
  | UpEnd ok => (on_upload_end ok s, g)
  | Join => (on_join s, g)
  | Read room =>
      let '(r, s) := poll_read room s in
      (s, match r with
          | Ready (Ok d) => mk_log (delivered g ++ d) (written g) (failed g)
          | Ready _ => mk_log (delivered g) (written g) true
          | Pending => g
          end)
  | Write buf =>
      let '(r, s) := poll_write buf s in
      (s, match r with Ready (Ok n) => mk_log (delivered g) (written g ++ take (Z.to_nat n) buf) (failed g) | _ => g end)
  | Shutdown => (poll_shutdown s, g)
  end.
Definition run (cut : nat -> Z) (recv : rstream) (ops : list op) : stream * log :=
  fold_left (fun x o => step o x) ops (wrap_data_framing cut recv, mk_log [] [] false).

(** The frames of uploaded chunks. *)
Definition frames (chunks : list bytes) : bytes := concat (map (fun c => enc_frame (0, c)) chunks).
Definition chunk_ok (c : bytes) : Prop := c <> [] /\ zlen c <= RELAY_BUF.

Definition down_ok (r : out ErrorKind unit) (w : bytes) (s : stream) (g : log) : Prop :=
  fin s = r /\
  (exists lost, w = delivered g ++ pipe (dn s) ++ todo (dn s) ++ lost /\ (ret s = None \/ ret s = Some (Ok tt) -> lost = [])) /\
  (ret s = Some (Ok tt) -> r = Ret tt) /\ (ret s <> None -> todo (dn s) = []) /\
  (handle s = false -> ret s = Some (Ok tt) \/ failed g = true) /\ (handle s = false -> ret s <> None) /\
  zlen (pipe (dn s)) <= RELAY_BUF.
Definition up_ok (s : stream) (g : log) : Prop := exists chunks,
  Forall chunk_ok chunks /\ written g = concat chunks ++ input (upl s) /\ frames chunks = sent (upl s) ++ cur (upl s) /\
  (finished (upl s) = true -> input (upl s) = [] /\ cur (upl s) = [] /\ shut (upl s) = true /\ was_reset (upl s) = false) /\
  (was_reset (upl s) = true -> ret s <> None) /\ zlen (input (upl s)) <= RELAY_BUF.
Definition inv r w (x : stream * log) : Prop := down_ok r w x.1 x.2 /\ up_ok x.1 x.2.

Lemma running_none s : running s = true <-> ret s = None.
Proof. unfold running. by destruct (ret s). Qed.

(** The pump ends: what it had not delivered is lost, and the result says so. *)
Lemma return_inv r w v s g : inv r w (s, g) -> running s = true -> (v = Ok tt -> r = Ret tt /\ todo (dn s) = []) ->
  inv r w (pump_return v s, g).
Proof.
  intros [(Hf & (lost & Hw & Hl) & Ho & Ht & Hh & Hh' & Hc) (ch & Hch & Hwr & Hfr & Hfi & Hrs & Hcap)] Hr Hv. rewrite running_none in Hr. cbn [fst snd] in *.
  split; unfold down_ok, up_ok; cbn.
  - split_and!; try done.
    + exists (todo (dn s) ++ lost). split; [done|]. intros [?|Hv']; [done|]. injection Hv' as ->. destruct (Hv eq_refl) as [_ ->]. by rewrite Hl by auto.
    + intros [= ->]. by apply Hv.
    + intros Hx. destruct (Hh' Hx Hr).
  - exists ch. by split_and!.
Qed.

(** Only the upload half changes. *)
Lemma set_up_inv r w u s g g' : inv r w (s, g) -> delivered g' = delivered g -> failed g' = failed g ->
  up_ok (set_up u s) g' -> inv r w (set_up u s, g').
Proof. intros [Hd _] H1 H2 Hu. split; [|exact Hu]. unfold down_ok in *. cbn in *. by rewrite H1, H2. Qed.

Lemma framed_down_inv r w n s g : inv r w (s, g) -> inv r w (step (Down n) (s, g)).
Proof.
  intros Hi. cbn [step]. unfold on_download. destruct (running s) eqn:Hr; [|done]. rewrite running_none in Hr.
  destruct Hi as [(Hf & (lost & Hw & Hl) & Ho & Ht & Hh & Hh' & Hc) Hu]. cbn [fst snd] in *. split; [|exact Hu].
  unfold down_ok. cbn. set (m := Nat.min _ _). split_and!; try done.
  - exists lost. split; [|done]. rewrite Hw. by rewrite <-!app_assoc, (app_assoc (take m _)), take_drop.
  - subst m. unfold zlen in *. rewrite length_app, length_take. lia.
Qed.

Lemma down_end_inv r w s g : inv r w (s, g) -> inv r w (step DownEnd (s, g)).
Proof.
  intros Hi. cbn [step]. unfold on_download_end. destruct (running s) eqn:Hr; [|done]. destruct (todo (dn s)) eqn:Ht; [|done].
  pose proof Hi as [(Hf & _) _]. cbn in Hf. destruct (fin s) as [[]|k|]; [|by apply return_inv|done].
  by apply return_inv.
Qed.

Lemma data_frame_ok c : chunk_ok c -> Qpack.data_frame (E:=ErrorKind) [] c = Ok (enc_frame (0, c)).
Proof.
  intros Hc. pose proof (drain_upload_frames [c] ltac:(by constructor)) as H. cbn [drain_upload map concat] in H.
  destruct c as [|x c]; [by destruct Hc|]. destruct (Qpack.data_frame [] (x :: c)) as [f|e|]; [|done..]. cbn [mbind res_bind] in H.
  by rewrite !app_nil_r in H.
Qed.

Lemma framed_up_read_inv r w n s g : inv r w (s, g) -> inv r w (step (UpRead n) (s, g)).
Proof.
  intros Hi. cbn [step]. unfold on_upload_read. destruct (running s && negb (finished (upl s))) eqn:Hr; [|done].
  destruct (cur (upl s)) eqn:Hcur; [|done]. destruct (input (upl s)) as [|x i] eqn:Hin; [done|]. rewrite <-Hin. set (m := Nat.max 1 _).
  assert (Hc : chunk_ok (take m (input (upl s)))).
  { split; [rewrite Hin; assert (1 <= m)%nat by lia; by destruct m; [lia|]|]. subst m. unfold zlen. rewrite length_take. unfold RELAY_BUF. lia. }
  rewrite (data_frame_ok _ Hc). apply andb_true_iff in Hr as [Hr Hfin]. pose proof Hi as [_ (ch & Hch & Hwr & Hfr & Hfi & Hrs & Hcap)]. cbn [fst snd] in *.
  apply (set_up_inv r w _ s g g); try done. exists (ch ++ [take m (input (upl s))]). cbn. split_and!.
  - apply Forall_app. by split; [|constructor].
  - rewrite Hwr, concat_app. cbn [concat]. by rewrite app_nil_r, <-app_assoc, take_drop.
  - unfold frames. rewrite map_app, concat_app. cbn [map concat]. fold (frames ch). by rewrite Hfr, Hcur, !app_nil_r.
  - done.
  - exact Hrs.
  - unfold zlen in *. rewrite length_drop. lia.
Qed.

Lemma framed_up_write_inv r w n s g : inv r w (s, g) -> inv r w (step (UpWrite n) (s, g)).
Proof.
  intros Hi. cbn [step]. unfold on_upload_write. destruct (running s); [|done]. pose proof Hi as [_ (ch & Hch & Hwr & Hfr & Hfi & Hrs & Hcap)]. cbn [fst snd] in *.
  apply (set_up_inv r w _ s g g); try done. exists ch. cbn. split_and!; try done.
  - by rewrite <-app_assoc, take_drop.
  - intros H. destruct (Hfi H) as (? & -> & ? & ?). by rewrite drop_nil.
Qed.

Lemma up_error_inv r w s g : inv r w (s, g) -> inv r w (step UpError (s, g)).
Proof.
  intros Hi. cbn [step]. unfold on_upload_error. destruct (running s) eqn:Hr; [|done]. destruct (finished (upl s)) eqn:Hfn; [done|]. cbn [andb negb].
  pose proof (return_inv r w (Err Other) s g Hi Hr ltac:(done)) as [Hd (ch & Hch & Hwr & Hfr & Hfi & Hrs & Hcap)]. cbn [fst snd] in *.
  split; [exact Hd|]. exists ch. cbn in *. by split_and!.
Qed.

Lemma up_end_inv r w ok s g : inv r w (s, g) -> inv r w (step (UpEnd ok) (s, g)).
Proof.
  intros Hi. cbn [step]. unfold on_upload_end. destruct (_ && _ && _) eqn:Hr; [|done].
  apply andb_true_iff in Hr as [[Hr _]%andb_true_iff Hsh]. destruct (cur (upl s)) eqn:Hcur; [|done].
  destruct (input (upl s)) eqn:Hin; [|done]. destruct ok; [|by apply return_inv].
  pose proof Hi as [_ (ch & Hch & Hwr & Hfr & Hfi & Hrs & Hcap)]. cbn [fst snd] in *.
  apply (set_up_inv r w _ s g g); try done. exists ch. cbn. rewrite Hin, Hcur in *. split_and!; try done.
  intros _. split_and!; try done. destruct (was_reset (upl s)); [|done]. apply running_none in Hr. by destruct Hrs.
Qed.

Lemma framed_join_inv r w s g : inv r w (s, g) -> inv r w (step Join (s, g)).
Proof. intros Hi. cbn [step]. unfold on_join. by destruct (running s). Qed.

Lemma framed_read_inv r w room s g : inv r w (s, g) -> inv r w (step (Read room) (s, g)).
Proof.
  intros Hi. cbn [step]. unfold poll_read. pose proof Hi as [(Hf & (lost & Hw & Hl) & Ho & Ht & Hh & Hh' & Hc) Hu]. cbn [fst snd] in *.
  assert (Hsame : inv r w (s, mk_log (delivered g ++ []) (written g) (failed g))).
  { rewrite app_nil_r. split; [|done]. exact (proj1 Hi). }
  destruct (pipe (dn s)) as [|b p] eqn:Hp.
  - destruct (ret s) as [v|] eqn:Hv; [|done]. destruct (room =? 0)%nat; [exact Hsame|]. destruct (handle s) eqn:Hha; [|exact Hsame].
    destruct (joined s) eqn:Hj; [|done]. cbn [negb].
    assert (Hgen : forall g', delivered g' = delivered g -> written g' = written g -> (Some v = Some (Ok tt) \/ failed g' = true) ->
       inv r w (mk_stream (dn s) (upl s) (fin s) (Some v) true false, g')).
    { intros g' Hg1 Hg2 Hg3. split; unfold down_ok, up_ok in *; cbn; rewrite ?Hg1, ?Hg2, ?Hp, ?Hv in *; [|exact Hu]. split_and!; try done. exists lost. by rewrite app_nil_l in *. }
    destruct v as [[]|e|]; apply Hgen; cbn; rewrite ?app_nil_r; auto.
  - split; [|exact Hu]. unfold down_ok. cbn [fst snd dn fin ret handle pipe todo delivered failed]. split_and!; try done.
    + exists lost. split; [|done]. rewrite Hw. by rewrite <-!app_assoc, (app_assoc (take room _)), take_drop.
    + unfold zlen in *. rewrite length_drop. lia.
Qed.

Lemma framed_write_inv r w buf s g : inv r w (s, g) -> inv r w (step (Write buf) (s, g)).
Proof.
  intros Hi. cbn [step]. unfold poll_write. destruct (negb (running s) || shut (upl s)) eqn:Hb; [done|]. apply orb_false_iff in Hb as [_ Hsh].
  destruct (_ =? 0)%nat; [done|]. pose proof Hi as [_ (ch & Hch & Hwr & Hfr & Hfi & Hrs & Hcap)]. cbn [fst snd] in *.
  apply (set_up_inv r w _ s g); try done. exists ch. cbn. split_and!; try done.
  - by rewrite take_zlen_take, Hwr, <-app_assoc.
  - intros H. destruct (Hfi H) as (_ & _ & ? & _). congruence.
  - unfold zlen in *. rewrite length_app, length_take. lia.
Qed.

Lemma framed_step_inv r w o x : inv r w x -> inv r w (step o x).
Proof.
  destruct x as [s g]. destruct o; [apply framed_down_inv|apply down_end_inv|apply framed_up_read_inv|apply framed_up_write_inv|apply up_error_inv|apply up_end_inv
    |apply framed_join_inv|apply framed_read_inv|apply framed_write_inv|].
  intros Hi. pose proof Hi as [_ (ch & Hch & Hwr & Hfr & Hfi & Hrs & Hcap)]. apply (set_up_inv r w _ s g g); try done. exists ch. cbn in *.
  split_and!; try done. intros H. by destruct (Hfi H) as (? & ? & _ & ?).
Qed.

Lemma framed_run_inv cut recv ops : inv (download cut recv).1 (download cut recv).2 (run cut recv ops).
Proof.
  unfold run. assert (H0 : inv (download cut recv).1 (download cut recv).2 (wrap_data_framing cut recv, mk_log [] [] false)).
  { unfold wrap_data_framing. destruct (download cut recv) as [r w]. split; unfold down_ok, up_ok; cbn.
    - split_and!; try done. exists []. by rewrite app_nil_r.
    - exists []. by split_and!. }
  revert H0. generalize (wrap_data_framing cut recv, mk_log [] [] false). induction ops as [|o ops IH]; intros x Hx; [done|]. cbn [fold_left]. by apply IH, framed_step_inv.
Qed.

(** What the peer's reader makes of the frames. *)
Lemma download_chunks chunks cut : Forall chunk_ok chunks -> download cut (mk_rs (frames chunks) Closed) = (Ret tt, concat chunks).
Proof.
  intros Hc. set (fs := map (fun c => (0, c)) chunks).
  assert (Hf : frames chunks = concat (map enc_frame fs)) by (unfold frames; subst fs; by rewrite map_map).
  assert (Hok : Forall frame_ok fs).
  { apply Forall_map. eapply Forall_impl; [exact Hc|]. intros c [_ Hl]. split; cbn; unfold RELAY_BUF, VARINT_BOUND in *; lia. }
  destruct (download_frames fs cut [] Closed Hok) as (fuel & Hd & Hl). rewrite app_nil_r in Hd. rewrite Hf, Hd.
  destruct fuel; [simpl in Hl; lia|]. cbn. f_equal. unfold data_of. subst fs. rewrite map_map. cbn. by rewrite map_id.
Qed.

(** C22. The stream of a MASQUE tunnel tells the truth about its end.  For every
    stream of the edge and every interleaving of the pump's halves, its completion
    and the relay's polls: what is read is a prefix of the DATA payloads, and both
    pipes stay within 64 KiB.  Until a read has failed, an empty read means that
    the edge ended its stream between frames and every payload byte was delivered;
    a stream cut inside a frame, a broken connection or a failed upload makes the
    read fail with that error once the pipe is drained.  The bytes handed to quinn
    are always a prefix of DATA frames of what the relay wrote, and once the send
    side is finished, the edge's reader gets exactly what was written. *)
Theorem framed_truthful cut recv ops : let '(s, g) := run cut recv ops in let '(r, w) := download cut recv in
  delivered g `prefix_of` w /\ zlen (pipe (dn s)) <= RELAY_BUF /\ zlen (input (upl s)) <= RELAY_BUF /\
  (forall room s', (0 < room)%nat -> failed g = false -> poll_read room s = (Ready (Ok []), s') -> r = Ret tt /\ delivered g = w) /\
  (forall room e, (0 < room)%nat -> ret s = Some (Err e) -> joined s = true -> handle s = true -> pipe (dn s) = [] ->
     (poll_read room s).1 = Ready (Err e)) /\
  (exists chunks, Forall chunk_ok chunks /\ concat chunks `prefix_of` written g /\ sent (upl s) `prefix_of` frames chunks) /\
  (finished (upl s) = true -> forall cut', download cut' (mk_rs (sent (upl s)) Closed) = (Ret tt, written g)).
Proof.
  pose proof (framed_run_inv cut recv ops) as Hi. destruct (run cut recv ops) as [s g]. destruct (download cut recv) as [r w].
  destruct Hi as [(Hf & (lost & Hw & Hl) & Ho & Ht & Hh & Hh' & Hc) (ch & Hch & Hwr & Hfr & Hfi & Hrs & Hcap)]. cbn [fst snd] in *. split_and!; try done.
  - rewrite Hw. by eexists.
  - intros room s' Hroom Hfail. unfold poll_read. destruct (pipe (dn s)) as [|b p] eqn:Hp; [|by destruct room; [lia|]].
    assert (Hend : ret s = Some (Ok tt) -> r = Ret tt /\ delivered g = w).
    { intros Hok. split; [by apply Ho|]. rewrite Hw, Ht, Hl by (auto; congruence). by rewrite !app_nil_r. }
    destruct (ret s) as [v|] eqn:Hv; [|done]. destruct (Nat.eqb_spec room 0); [lia|]. destruct (handle s) eqn:Hha; cbn [negb].
    + destruct (joined s); [|done]. destruct v as [[]|e|]; [|done..]. intros _. by apply Hend.
    + intros _. destruct (Hh eq_refl) as [Hok|]; [by apply Hend|congruence].
  - intros room e Hroom Hv Hj Hha Hp. unfold poll_read. rewrite Hp, Hv, Hha, Hj. by destruct (Nat.eqb_spec room 0); [lia|].
  - exists ch. split_and!; [done|rewrite Hwr; by eexists|rewrite Hfr; by eexists].
  - intros H cut'. destruct (Hfi H) as (Hin & Hcu & _). rewrite Hin, app_nil_r in Hwr. rewrite Hcu, app_nil_r in Hfr.
    rewrite <-Hfr, Hwr. by apply download_chunks.
Qed.

(** A dropped stream's pump does nothing any more. *)
Theorem dropped_pump_stops s o : handle s = true ->
  running (drop_stream s) = false /\
  match o with
  | Down _ | DownEnd | UpRead _ | UpWrite _ | UpError | UpEnd _ => forall g, step o (drop_stream s, g) = (drop_stream s, g)
  | _ => True
  end.
Proof.
  intros Hh. unfold drop_stream. rewrite Hh. cbn [andb].
  assert (Hr : running (if running s then pump_return Panic s else s) = false) by (by destruct (running s) eqn:?).
  split; [done|]. destruct o; try done; intros g; cbn [step]; f_equal;
    unfold on_download, on_download_end, on_upload_read, on_upload_write, on_upload_error, on_upload_end; by rewrite Hr.
Qed.
End facts.

(** A stream cut inside its second frame: the data, then the error, after which the
    stream is at its end. *)
Definition sample_recv : rstream := mk_rs (enc_frame (V:=Rfc9000.codec) (0, [1; 2]) ++ [0; 3; 7]) Closed.
Definition sample_ops : list op := [Write [5; 6]; Shutdown; UpRead 9; UpWrite 9; UpEnd true; Down 5; DownEnd; Read 8; Join].
Lemma framed_truthful_witness :
  let '(s, g) := run (V:=Rfc9000.codec) (fun _ => 1) sample_recv sample_ops in
  delivered g = [1; 2; 7] /\ (poll_read 8 s).1 = Ready (Err UnexpectedEof) /\ (poll_read 8 (poll_read 8 s).2).1 = Ready (Ok []) /\
  download (V:=Rfc9000.codec) (fun _ => 1) (mk_rs (sent (upl s)) Closed) = (Ret tt, [5; 6]).
Proof.
  pose proof (framed_truthful (V:=Rfc9000.codec) (L:=Rfc9000.laws) (fun _ => 1) sample_recv sample_ops) as H.
  assert (Hr : exists s g, run (V:=Rfc9000.codec) (fun _ => 1) sample_recv sample_ops = (s, g) /\ delivered g = [1; 2; 7] /\ written g = [5; 6] /\
     finished (upl s) = true /\ ret s = Some (Err UnexpectedEof) /\ joined s = true /\ handle s = true /\ pipe (dn s) = [] /\
     (poll_read 8 (poll_read 8 s).2).1 = Ready (Ok []))
    by (eexists _, _; split_and!; vm_compute; reflexivity).
  destruct Hr as (s & g & Hr & Hd & Hw & Hf & Hret & Hj & Hh & Hp & Hend). rewrite Hr in *.
  destruct (download (V:=Rfc9000.codec) (fun _ => 1) sample_recv) as [r w]. destruct H as (_ & _ & _ & _ & He & _ & Hfin).
  split_and!; [exact Hd|apply (He 8%nat UnexpectedEof); [lia|assumption..]|exact Hend|]. rewrite <-Hw. by apply Hfin.
Defined.
End FramedFacts.
