(* ===== verification/MasqueOutlet.v ===== *)
(** * The MASQUE outlet ([src/src/outbound/masque/mod.rs], [.../doh.rs])

    [connect_stream], the DoH query over a tunnel stream, resolution over both record
    types and both resolvers, and [connect_tcp] under its overall budget.  A call
    meets a script of legs, one per tunnel stream it opens; [Masque::open] itself is
    the state machine of [MasqueLink], and what it returned is part of the leg.  The
    model's branches for a panic of the QPACK and DNS decoders are never taken on a
    reply made of bytes ([leg_no_panic]). *)
From S2P Require Import Prelude RustStr NetAddr Conn Outbound Dns Doh Varint Qpack Config Registration Masque MasqueLink.

Module MasqueOutlet.
Import Masque.

Definition DOH_ADDRS : list bytes := [str_bytes "162.159.36.1:443"; str_bytes "162.159.46.1:443"].

Inductive outlet_error :=
| OpenFailed | ExchangeTimeout | ExchangeFailed (e : masque_error)
| TlsTimeout | TlsFailed (k : ErrorKind) | QueryInvalid (e : Dns.dns_error) | SendTimeout | SendFailed (k : ErrorKind)
| ReadTimeout | ResponseFailed (e : Doh.doh_error) | AnswerInvalid (e : Dns.dns_error) | NoAddress | NothingToTry | QueryPanicked.

(** What one tunnel stream meets: the result of [open], of writing the CONNECT head,
    what the edge sends; inside it, for DoH, the TLS handshake, writing and
    flushing the request, the decrypted answer and the time. *)
Record leg := mk_leg {
  opened : bool; head_write : out ErrorKind unit; edge_reply : rstream;
  tls : out ErrorKind unit; request_write : out ErrorKind unit; request_flush : out ErrorKind unit;
  answer : list bytes; answer_end : stream_end; now : Z
}.
(** The overall budget may run out in a leg, before or after the head was sent. *)
Inductive turn := Leg (l : leg) | Expired (head_sent : bool).

(** What becomes of a stream: released by [stop] and [reset], used for a query and
    dropped, dropped by cancellation, or handed to the caller. *)
Inductive fate := WasReleased | WasUsed | WasDropped | WasKept.
Record net := mk_net {
  cache : Doh.DnsCache; turns : list turn;
  asked : list (bytes * fate);     (** the authority of every CONNECT sent *)
  posted : list bytes              (** the DoH requests sent *)
}.

Section outlet.
Context {V : VarInt} (httparse : bytes -> option Doh.response_head)
  (iter : Doh.DnsCache -> list (bytes * Doh.CacheEntry)) (token : bytes).

Definition exchange (l : leg) (authority : bytes) : out masque_error (option bytes * rstream) :=
  match exchange_request authority token with
  | Ok _ =>
      match head_write l with
      | Ret _ => exchange_response (edge_reply l)
      | Fail k => Fail (StreamError k)
      | Hang => Hang
      end
  | _ => Fail Panicked
  end.

(** [connect_stream] on a leg: the result, and the log entry of the stream. *)
Definition connect_stream (l : leg) (authority : bytes) (kept : fate) : out outlet_error (option bytes * rstream) * list (bytes * fate) :=
  if opened l then
    match exchange l authority with
    | Ret r => (Ret r, [(authority, kept)])
    | Fail e => (Fail (ExchangeFailed e), [(authority, WasReleased)])
    | Hang => (Fail ExchangeTimeout, [(authority, WasReleased)])
    end
  else (Fail OpenFailed, []).

(** [resolve_over], up to the cache: the address with its TTL, and the request. *)
Definition resolve_over (l : leg) (domain : bytes) (rt : Dns.RecordType) : out outlet_error (IpAddr * Z) * list bytes :=
  match tls l with
  | Hang => (Fail TlsTimeout, [])
  | Fail k => (Fail (TlsFailed k), [])
  | Ret _ =>
      match Dns.encode_dns_query 0 domain rt with
      | Err e => (Fail (QueryInvalid e), [])
      | Panic => (Fail QueryPanicked, [])
      | Ok query =>
          let request := Doh.build_http_request query in
          match request_write l with
          | Hang => (Fail SendTimeout, [request])
          | Fail k => (Fail (SendFailed k), [request])
          | Ret _ =>
              match request_flush l with
              | Hang => (Fail SendTimeout, [request])
              | Fail k => (Fail (SendFailed k), [request])
              | Ret _ =>
                  match Doh.read_http_response httparse (answer l) (answer_end l) with
                  | Hang => (Fail ReadTimeout, [request])
                  | Fail e => (Fail (ResponseFailed e), [request])
                  | Ret body =>
                      match Dns.parse_dns_response body 0 rt with
                      | Err e => (Fail (AnswerInvalid e), [request])
                      | Panic => (Fail QueryPanicked, [request])
                      | Ok ([], _) => (Fail NoAddress, [request])
                      | Ok (ip :: _, ttl) => (Ret (ip, ttl), [request])
                      end
                  end
              end
          end
      end
  end.

(** The next leg, unless the budget runs out in it. *)
Definition on_leg {B} (authority : bytes) (f : leg -> net -> out outlet_error B * net) (st : net) : out outlet_error B * net :=
  match turns st with
  | [] => (Hang, st)
  | Expired sent :: rest =>
      (Hang, mk_net (cache st) rest (asked st ++ if sent then [(authority, WasDropped)] else []) (posted st))
  | Leg l :: rest => f l (mk_net (cache st) rest (asked st) (posted st))
  end.

Definition doh_query_via (domain : bytes) (rt : Dns.RecordType) (doh_addr : bytes) : net -> out outlet_error IpAddr * net :=
  on_leg doh_addr (fun l st =>
    match connect_stream l doh_addr WasUsed with
    | (Ret _, entry) =>
        let st := mk_net (cache st) (turns st) (asked st ++ entry) (posted st) in
        match resolve_over l domain rt with
        | (Ret (ip, ttl), req) =>
            (Ret ip, mk_net (Doh.store iter domain ip ttl (now l) (cache st)) (turns st) (asked st) (posted st ++ req))
        | (Fail e, req) => (Fail e, mk_net (cache st) (turns st) (asked st) (posted st ++ req))
        | (Hang, req) => (Hang, mk_net (cache st) (turns st) (asked st) (posted st ++ req))
        end
    | (Fail e, entry) => (Fail e, mk_net (cache st) (turns st) (asked st ++ entry) (posted st))
    | (Hang, entry) => (Hang, mk_net (cache st) (turns st) (asked st ++ entry) (posted st))
    end).

(** A [for] loop that returns the first success and remembers the last error. *)
Fixpoint try_each {A B} (f : A -> net -> out outlet_error B * net) (l : list A) (last : outlet_error) (st : net)
    : out outlet_error B * net :=
  match l with
  | [] => (Fail last, st)
  | a :: r => match f a st with (Fail e, st') => try_each f r e st' | x => x end
  end.

Definition doh_query (domain : bytes) (rt : Dns.RecordType) : net -> out outlet_error IpAddr * net :=
  try_each (doh_query_via domain rt) DOH_ADDRS NothingToTry.

(** [clock]: the time of the cache lookup. *)
Definition resolve_domain (clock : Z) (domain : bytes) (st : net) : out outlet_error IpAddr * net :=
  match Doh.cached domain clock (cache st) with
  | (Some ip, c) => (Ret ip, mk_net c (turns st) (asked st) (posted st))
  | (None, c) => try_each (doh_query domain) [Dns.A; Dns.Aaaa] NothingToTry (mk_net c (turns st) (asked st) (posted st))
  end.

Definition resolve_host (clock : Z) (host : Host) (st : net) : out outlet_error IpAddr * net :=
  match host with Domain d => resolve_domain clock d st | Ip ip => (Ret ip, st) end.

Definition connect_tcp (clock : Z) (host : Host) (port : Z) (st : net) : out ErrorKind Connected * net :=
  match resolve_host clock host st with
  | (Hang, st) => (Fail TimedOut, st)
  | (Fail _, st) => (Fail Other, st)
  | (Ret ip, st) =>
      let authority := fmt_socket_addr (socket_addr_new ip port) in
      match on_leg authority (fun l st =>
              let '(r, entry) := connect_stream l authority WasKept in
              (r, mk_net (cache st) (turns st) (asked st ++ entry) (posted st))) st with
      | (Hang, st) => (Fail TimedOut, st)
      | (Fail _, st) => (Fail Other, st)
      | (Ret (colo, _), st) => (Ret (mk_connected 0 ((fun c => str_bytes "colo=" ++ c) <$> colo)), st)
      end
  end.

(** The outlet as the front end sees it: no UDP. *)
Definition outbound (clock : Z) (st : net) : Outbound :=
  mk_outbound (str_bytes "MASQUE") false (fun host port => fst (connect_tcp clock host port st)) connect_udp_default.
#[export] Instance masque_lawful clock st : LawfulOutbound (outbound clock st).
Proof. done. Qed.
End outlet.
End MasqueOutlet.

Module OutletFacts.
Import Masque MasqueOutlet.

Section facts.
Context {V : VarInt} (httparse : bytes -> option Doh.response_head)
  (iter : Doh.DnsCache -> list (bytes * Doh.CacheEntry)) (token : bytes).

(** The legs of a list of turns. *)
Definition has_leg (st : net) (l : leg) : Prop := Leg l ∈ turns st.
(** [l] answered the query for [d] with [ip]: an HTTP 200 body that is a DNS response
    of type [rt] whose first address is [ip]. *)
Definition answered (l : leg) (d : bytes) (rt : Dns.RecordType) (ip : IpAddr) (ttl : Z) : Prop :=
  exists body more query, Doh.read_http_response httparse (answer l) (answer_end l) = Ret body /\
    Dns.parse_dns_response body 0 rt = Ok (ip :: more, ttl) /\ Dns.encode_dns_query 0 d rt = Ok query.

Lemma resolve_over_ret l d rt ip ttl req : resolve_over httparse l d rt = (Ret (ip, ttl), req) -> answered l d rt ip ttl.
Proof.
  unfold resolve_over, answered. destruct (tls l); [|done..]. destruct (Dns.encode_dns_query 0 d rt) as [q|e|]; [|done..]. cbv zeta.
  destruct (request_write l); [|done..]. destruct (request_flush l); [|done..].
  destruct (Doh.read_http_response httparse (answer l) (answer_end l)) as [body|e|]; [|done..].
  destruct (Dns.parse_dns_response body 0 rt) as [[[|ip' more] t]|e|] eqn:Hp; try done. intros [= -> -> _]. eauto 10.
Qed.

(** *** What a call leaves behind *)
(** The edge accepted the CONNECT to [a]: the head was written, and the first HEADERS
    frame of the reply decodes to [h], whose status is 200. *)
Definition accepted (l : leg) (a : bytes) (h : Qpack.ResponseHeaders) : Prop :=
  (exists m, exchange_request a token = Ok m) /\ head_write l = Ret tt /\
  exists payload rest, find_headers MAX_SKIPPED_FRAMES (edge_reply l) = Ret (payload, rest) /\
    Qpack.decode_headers payload = Ok h /\ Qpack.status h = 200.
(** What one turn leaves of a stream opened to [a]: nothing if none could be opened, a
    released stream if the CONNECT was not accepted, the [accept]ed fate if it was, and
    a dropped stream only where the overall budget ran out under it. *)
Inductive stream_of (accept : fate) (a : bytes) : turn -> list (bytes * fate) -> Prop :=
| SUnopened l : opened l = false -> stream_of accept a (Leg l) []
| SRefused l : opened l = true -> (forall h, ~ accepted l a h) -> stream_of accept a (Leg l) [(a, WasReleased)]
| SAccepted l h : opened l = true -> accepted l a h -> stream_of accept a (Leg l) [(a, accept)]
| SCut (sent : bool) : stream_of accept a (Expired sent) (if sent then [(a, WasDropped)] else []).

(** A use of a turn: the turn, the authority asked for in it, what it left. *)
Definition use : Type := turn * bytes * list (bytes * fate).
Definition doh_use (u : use) : Prop :=
  let '(t, a, es) := u in
  (a = str_bytes "162.159.36.1:443" \/ a = str_bytes "162.159.46.1:443") /\ stream_of WasUsed a t es.
Definition asks (st st' : net) : Prop :=
  exists us : list use, turns st = map (fun u => u.1.1) us ++ turns st' /\
    asked st' = asked st ++ concat (map snd us) /\ Forall doh_use us.
Definition quiet (st st' : net) : Prop := asks st st' /\ cache st' = cache st.
Definition found (d : bytes) (st : net) (ip : IpAddr) (st' : net) : Prop :=
  asks st st' /\ exists l rt ttl, has_leg st l /\ answered l d rt ip ttl /\ cache st' = Doh.store iter d ip ttl (now l) (cache st).

Lemma asks_refl st : asks st st.
Proof. exists []. by rewrite app_nil_r. Qed.
Lemma asks_trans st1 st2 st3 : asks st1 st2 -> asks st2 st3 -> asks st1 st3.
Proof.
  intros (u1 & T1 & H1 & F1) (u2 & T2 & H2 & F2). exists (u1 ++ u2).
  rewrite T1, T2, H2, H1, !map_app, concat_app, <-!app_assoc. split_and!; [done..|]. by apply Forall_app.
Qed.
Lemma asks_legs st st' l : asks st st' -> has_leg st' l -> has_leg st l.
Proof. intros (us & Ht & _). unfold has_leg. rewrite Ht. intros ?. apply elem_of_app. by right. Qed.
Lemma asks_one st t rest a es c p : turns st = t :: rest -> a ∈ DOH_ADDRS -> stream_of WasUsed a t es -> asks st (mk_net c rest (asked st ++ es) p).
Proof.
  intros Ht Ha Hs. exists [(t, a, es)]. cbn. rewrite app_nil_r. split_and!; [done..|]. constructor; [|constructor]. split; [|done].
  unfold DOH_ADDRS in Ha. rewrite !elem_of_cons, elem_of_nil in Ha. tauto.
Qed.

(** A search either finds an answer or leaves the cache alone. *)
Definition searches (d : bytes) (f : net -> out outlet_error IpAddr * net) : Prop := forall st,
  match f st with (Ret ip, st') => found d st ip st' | (_, st') => quiet st st' end.

Lemma try_each_searches {A} d (f : A -> net -> out outlet_error IpAddr * net) l last :
  (forall a, a ∈ l -> searches d (f a)) -> searches d (try_each f l last).
Proof.
  revert last. induction l as [|a l IH]; intros last Hf st; cbn [try_each]; [split; [apply asks_refl|done]|].
  pose proof (Hf a ltac:(by left) st) as Ha. destruct (f a st) as [[ip|e|] st1]; [exact Ha| |exact Ha]. destruct Ha as [Ha Hc].
  pose proof (IH e ltac:(intros b Hb; apply Hf; by right) st1) as Hr.
  destruct (try_each f l e st1) as [[ip|e'|] st2].
  - destruct Hr as (Hr & l0 & rt & ttl & Hl & Han & Hst). split; [by eapply asks_trans|]. exists l0, rt, ttl. rewrite <-Hc. split_and!; try done. by eapply asks_legs.
  - destruct Hr as [Hr Hc']. split; [by eapply asks_trans|congruence].
  - destruct Hr as [Hr Hc']. split; [by eapply asks_trans|congruence].
Qed.

(** The exchange succeeds exactly on an accepted CONNECT. *)
Lemma exchange_accepted l a : match exchange token l a with
  | Ret (colo, _) => exists h, accepted l a h /\ colo = Qpack.colo h
  | _ => forall h, ~ accepted l a h
  end.
Proof.
  unfold exchange, accepted. destruct (exchange_request a token) as [m|e|]; [|by intros h [[? [=]] _]..].
  destruct (head_write l) as [[]|k|]; [|by intros h (_ & [=] & _)..]. unfold exchange_response.
  destruct (find_headers _ _) as [[payload s]|e|]; cbn [mbind out_bind]; [|by intros h (_ & _ & ? & ? & [=] & _)..].
  destruct (Qpack.decode_headers payload) as [h|e|] eqn:Hd; [|by intros h (_ & _ & ? & ? & [= <- _] & Hx & _); rewrite Hd in Hx..].
  destruct (Z.eqb_spec (Qpack.status h) 200) as [H2|H2]; [by eauto 10|].
  intros h' (_ & _ & ? & ? & [= <- _] & Hx & H3). rewrite Hd in Hx. by injection Hx as ->.
Qed.

(** The entry a tunnel stream leaves. *)
Lemma connect_stream_entry l a kept r entry : connect_stream token l a kept = (r, entry) ->
  stream_of kept a (Leg l) entry /\ r <> Hang /\
  match r with
  | Ret x => opened l = true /\ exists h, accepted l a h /\ x.1 = Qpack.colo h
  | _ => opened l = false \/ forall h, ~ accepted l a h
  end.
Proof.
  unfold connect_stream. destruct (opened l) eqn:Ho; [|by intros [= <- <-]; split_and!; [constructor|done|left]].
  pose proof (exchange_accepted l a) as Ha. destruct (exchange token l a) as [[colo s]|e|]; intros [= <- <-].
  - destruct Ha as (h & Ha & ->). split_and!; [by econstructor|done..|by exists h].
  - split_and!; [by constructor|done|by right].
  - split_and!; [by constructor|done|by right].
Qed.

Lemma via_searches d rt a : a ∈ DOH_ADDRS -> searches d (doh_query_via httparse iter token d rt a).
Proof.
  intros Ha st. unfold doh_query_via, on_leg. destruct (turns st) as [|[l|sent] rest] eqn:Ht.
  - split; [apply asks_refl|done].
  - destruct (connect_stream token l a WasUsed) as [r entry] eqn:Hc. apply connect_stream_entry in Hc as (Hs & Hnh & _).
    assert (Hask : forall c p, asks st (mk_net c rest (asked st ++ entry) p)) by (intros; by eapply asks_one).
    destruct r as [x|e|]; [|split; [apply Hask|done]|done]. cbn [cache turns asked posted].
    destruct (resolve_over httparse l d rt) as [[[ip ttl]|e|] req] eqn:Hr; [|split; [apply Hask|done]..].
    split; [apply Hask|]. exists l, rt, ttl. cbn [cache]. split_and!; [unfold has_leg; rewrite Ht; by left|by eapply resolve_over_ret|done].
  - split; [|done]. eapply asks_one; [exact Ht|done|constructor].
Qed.

Lemma uncached_searches d last : searches d (try_each (doh_query httparse iter token d) [Dns.A; Dns.Aaaa] last).
Proof. apply try_each_searches. intros rt _. apply try_each_searches. intros a Ha. by apply via_searches. Qed.

(** Where an address came from, and what the cache holds then. *)
Definition resolved (clock : Z) (host : Host) (st : net) (ip : IpAddr) (st' : net) : Prop :=
  match host with
  | Ip h => ip = h /\ cache st' = cache st
  | Domain d =>
      (exists e, cache st !! d = Some e /\ clock < Doh.expires_at e /\ ip = Doh.ip e /\ cache st' = cache st) \/
      (exists l rt ttl, has_leg st l /\ answered l d rt ip ttl /\
         forall t, (Doh.cached d t (cache st')).1 = if t <? now l + Dns.clamp 5 300 ttl then Some ip else None)
  end.

Lemma resolve_host_spec clock host st : match resolve_host httparse iter token clock host st with
  | (Ret ip, st') => asks st st' /\ resolved clock host st ip st'
  | (_, st') => asks st st'
  end.
Proof.
  unfold resolve_host. destruct host as [d|ip]; [|by split; [apply asks_refl|]]. unfold resolve_domain.
  pose proof (uncached_searches d NothingToTry) as Hs. destruct (Doh.cached d clock (cache st)) as [[ip|] c] eqn:Hc.
  - split; [apply (asks_refl st)|]. left. unfold Doh.cached in Hc. destruct (cache st !! d) as [e|] eqn:Hd; [|done].
    destruct (Z.ltb_spec clock (Doh.expires_at e)); [|done]. injection Hc as <- <-. by exists e.
  - specialize (Hs (mk_net c (turns st) (asked st) (posted st))).
    destruct (try_each _ _ _ _) as [[ip|e|] st']; [|exact (proj1 Hs)..]. destruct Hs as (Ha & l & rt & ttl & Hl & Han & Hst).
    split; [exact Ha|]. right. exists l, rt, ttl. split_and!; [done..|]. intros t. rewrite Hst. unfold Doh.store. cbn zeta.
    unfold Doh.cached. rewrite lookup_insert_eq. cbn [Doh.expires_at Doh.ip].
    change (Dns.clamp 5 300 ttl) with (Dns.clamp Doh.MIN_TTL Doh.MAX_TTL ttl). by destruct (t <? _).
Qed.

(** *** Well-formed addresses *)
Definition net_wf (st : net) (host : Host) : Prop :=
  (forall d e, cache st !! d = Some e -> ip_wf (Doh.ip e)) /\ (forall l, has_leg st l -> Forall bytes_ok (answer l)) /\
  match host with Ip ip => ip_wf ip | Domain _ => True end.

Lemma read_head_bytes chunks buf e n b rest : bytes_ok buf -> Forall bytes_ok chunks ->
  Doh.read_head buf chunks e = Ret (n, b, rest) -> bytes_ok b /\ Forall bytes_ok rest.
Proof.
  revert buf. induction chunks as [|[|x c] chunks IH]; intros buf Hb Hc; cbn [Doh.read_head]; [by destruct e|done|].
  apply Forall_cons in Hc as [Hx Hc]. assert (Hbx : bytes_ok (buf ++ x :: c)) by (by apply Forall_app).
  destruct (Doh.position_blank _); [by intros [= <- <- <-]|]. destruct (_ <? _); [done|by apply IH].
Qed.
Lemma read_rest_bytes chunks n body e b : bytes_ok body -> Forall bytes_ok chunks -> Doh.read_rest n body chunks e = Ret b -> bytes_ok b.
Proof.
  revert body. induction chunks as [|[|x c] chunks IH]; intros body Hb Hc; cbn [Doh.read_rest]; destruct (_ <=? _); try (by intros [= <-]); [by destruct e|].
  apply Forall_cons in Hc as [Hx Hc]. apply IH; [by apply Forall_app|done].
Qed.
Lemma response_bytes chunks e body : Forall bytes_ok chunks -> Doh.read_http_response httparse chunks e = Ret body -> bytes_ok body.
Proof.
  intros Hc. unfold Doh.read_http_response. destruct (Doh.read_head [] chunks e) as [[[n b] rest]|er|] eqn:Hh; [|done..].
  apply read_head_bytes in Hh as [Hb Hr]; [|constructor|done]. destruct (httparse _) as [h|]; [|done]. destruct (negb _); [done|].
  destruct (Doh.content_length_of _) as [cl|]; [|done]. destruct (Doh.read_rest _ _ _ _) as [b'|er|] eqn:Hrest; [|done..].
  intros [= <-]. apply Forall_take. eapply read_rest_bytes; [|exact Hr|exact Hrest]. by apply Forall_drop.
Qed.

(** *** No reply makes a decoder panic *)
Lemma rs_read_exact_bytes n rs bs rs' : bytes_ok (r_data rs) -> rs_read_exact n rs = Ret (bs, rs') -> bytes_ok bs /\ bytes_ok (r_data rs').
Proof.
  unfold rs_read_exact, at_end. intros Hb. destruct (_ <=? _); [|by destruct (r_end rs)]. intros [= <- <-].
  split; [by apply Forall_take|by apply Forall_drop].
Qed.
Lemma read_varint_bytes rs v rs' : bytes_ok (r_data rs) -> read_varint rs = Ret (v, rs') -> bytes_ok (r_data rs').
Proof.
  unfold read_varint, read_varint_or_eof, at_end. intros Hb. destruct (r_data rs) as [|b rest] eqn:Hd; [by destruct (r_end rs)|].
  apply Forall_cons in Hb as [_ Hb]. cbv zeta. destruct (rs_read_exact _ (mk_rs rest (r_end rs))) as [[more s1]|k|] eqn:Hr; [|done..].
  apply rs_read_exact_bytes in Hr as [_ Hr]; [|done]. destruct (fst <$> _); [|done]. by intros [= _ <-].
Qed.
Lemma find_headers_bytes n rs payload rest : bytes_ok (r_data rs) -> find_headers n rs = Ret (payload, rest) -> bytes_ok payload.
Proof.
  revert rs. induction n as [|n IH]; intros rs Hb; cbn [find_headers]; [done|]. unfold io.
  destruct (read_varint rs) as [[ft s1]|k|] eqn:H1; cbn [mbind out_bind]; [|done..]. apply read_varint_bytes in H1; [|done].
  destruct (read_varint s1) as [[len s2]|k|] eqn:H2; cbn [mbind out_bind]; [|done..]. apply read_varint_bytes in H2; [|done].
  destruct (ft =? 1).
  - unfold checked_headers_len. destruct (_ <? _); [done|]. destruct (rs_read_exact len s2) as [[p s3]|k|] eqn:H3; [|done..].
    apply rs_read_exact_bytes in H3 as [H3 _]; [|done]. by intros [= <- _].
  - unfold discard_frame, at_end. destruct (_ <=? _); cbn [mbind out_bind]; [apply IH; by apply Forall_drop|by destruct (r_end s2)].
Qed.
(** The branches of the model for a panic of the decoders are never taken. *)
Lemma leg_no_panic l d rt a : bytes_ok (r_data (edge_reply l)) -> Forall bytes_ok (answer l) -> (exists m, exchange_request a token = Ok m) ->
  exchange token l a <> Fail Panicked /\ (resolve_over httparse l d rt).1 <> Fail QueryPanicked.
Proof.
  intros He Ha [m Hm]. split.
  - unfold exchange. rewrite Hm. destruct (head_write l) as [[]| |]; [|done..]. unfold exchange_response.
    destruct (find_headers _ _) as [[payload s1]|e|] eqn:Hf; cbn [mbind out_bind]; [|intros [= ->]|done].
    + apply find_headers_bytes in Hf; [|done]. pose proof (QpackFacts.decode_headers_safe payload Hf) as Hn.
      destruct (Qpack.decode_headers payload) as [h|e|]; [by destruct (_ =? _)|done|done].
    + revert Hf. generalize (edge_reply l). generalize MAX_SKIPPED_FRAMES as n. clear. induction n as [|n IH]; intros rs; cbn [find_headers]; [done|]. unfold io.
      destruct (read_varint rs) as [[ft s1]|k|]; cbn [mbind out_bind]; [|done..].
      destruct (read_varint s1) as [[len s2]|k|]; cbn [mbind out_bind]; [|done..]. destruct (ft =? 1).
      * unfold checked_headers_len. destruct (_ <? _); [done|]. by destruct (rs_read_exact len s2).
      * destruct (discard_frame len s2); cbn [mbind out_bind]; [apply IH|done..].
  - unfold resolve_over. destruct (tls l); [|done..]. pose proof (DnsFacts.encode_no_panic 0 d rt) as Hq.
    destruct (Dns.encode_dns_query 0 d rt) as [q|e|]; [|done|done]. cbv zeta. destruct (request_write l); [|done..]. destruct (request_flush l); [|done..].
    destruct (Doh.read_http_response httparse (answer l) (answer_end l)) as [body|e|] eqn:Hb; [|done..]. apply response_bytes in Hb; [|done].
    pose proof (DnsFacts.parse_no_panic body 0 rt Hb) as Hp. by destruct (Dns.parse_dns_response body 0 rt) as [[[|ip more] t]|e|].
Qed.

Lemma resolved_wf clock host st ip st' : net_wf st host -> resolved clock host st ip st' -> ip_wf ip.
Proof.
  intros (Hc & Hl & Hh). destruct host as [d|h]; cbn; [|by intros [-> _]].
  intros [(e & He & _ & -> & _)|(l & rt & ttl & Hleg & (body & more & q & Hb & Hp & _) & _)]; [eauto|].
  apply response_bytes in Hb; [|eauto]. destruct (DnsFacts.parse_total body 0 rt Hb) as [_ Ht]. destruct (Ht _ _ Hp) as [Hi _].
  apply Forall_cons in Hi as [[? _] _]. done.
Qed.

(** An account of a call: the queries of the resolution, then either nothing more, and
    the call fails, or one turn with a CONNECT to the resolved address, and the call
    succeeds exactly when the edge accepts it. *)
Definition ip_authority (port : Z) (authority : bytes) : Prop := exists a, authority = fmt_socket_addr a /\ parse_socket_addr authority = Some a /\ sa_port a = port.
Definition accounted (clock : Z) (host : Host) (port : Z) (st : net) (r : out ErrorKind Connected) (st' : net) : Prop :=
  exists mid, asks st mid /\
    ((turns st' = turns mid /\ asked st' = asked mid /\ exists k, r = Fail k) \/
     (exists t ip es, let authority := fmt_socket_addr (socket_addr_new ip port) in
        turns mid = t :: turns st' /\ asked st' = asked mid ++ es /\ stream_of WasKept authority t es /\ ip_authority port authority /\
        resolved clock host st ip mid /\ cache st' = cache mid /\
        match r with
        | Ret c => exists l h, t = Leg l /\ opened l = true /\ accepted l authority h /\ note c = (fun colo => str_bytes "colo=" ++ colo) <$> Qpack.colo h
        | Fail _ => forall l, t = Leg l -> opened l = false \/ forall h, ~ accepted l authority h
        | Hang => False
        end)).

Lemma authority_ok ip port : ip_wf ip -> u16 port -> ip_authority port (fmt_socket_addr (socket_addr_new ip port)).
Proof. intros Hi Hp. exists (socket_addr_new ip port). split_and!; [done|by apply parse_fmt_socket_addr, socket_addr_new_wf|by destruct ip]. Qed.

Lemma accounted_unresolved clock host port st mid k : asks st mid -> accounted clock host port st (Fail k) mid.
Proof. intros Hr. exists mid. split; [done|]. left. eauto. Qed.

(** The last CONNECT, with the name resolved. *)
Lemma last_leg_accounted clock host port st ip mid : net_wf st host -> u16 port -> asks st mid -> resolved clock host st ip mid ->
  let authority := fmt_socket_addr (socket_addr_new ip port) in
  let '(r, st') :=
    match on_leg authority (fun l st =>
            let '(r, entry) := connect_stream token l authority WasKept in
            (r, mk_net (cache st) (turns st) (asked st ++ entry) (posted st))) mid with
    | (Hang, st) => (Fail TimedOut, st)
    | (Fail _, st) => (Fail Other, st)
    | (Ret (colo, _), st) => (Ret (mk_connected 0 ((fun c => str_bytes "colo=" ++ c) <$> colo)), st)
    end in accounted clock host port st r st'.
Proof.
  intros Hwf Hp Hask Hres authority. pose proof (authority_ok ip port (resolved_wf _ _ _ _ _ Hwf Hres) Hp) as Hau. fold authority in Hau.
  assert (Heq : authority = fmt_socket_addr (socket_addr_new ip port)) by done. clearbody authority.
  unfold on_leg. destruct (turns mid) as [|[l|sent] rest] eqn:Ht; [by apply accounted_unresolved| |].
  - destruct (connect_stream token l authority WasKept) as [r entry] eqn:Hc. apply connect_stream_entry in Hc as (Hs & Hnh & Hx).
    destruct r as [[colo rs]|e|]; [| |done]; exists mid; (split; [done|]); right; exists (Leg l), ip, entry; rewrite <-Heq;
      cbn [turns asked cache]; (split_and!; [done..|]).
    + destruct Hx as (Ho & h & Ha & Hcolo). cbn in Hcolo. subst colo. by exists l, h.
    + by intros l' [= <-].
  - exists mid. split; [done|]. right. exists (Expired sent), ip, (if sent then [(authority, WasDropped)] else []). rewrite <-Heq.
    cbn [turns asked cache]. split_and!; [done..|constructor|done|done|done|done].
Qed.


(** *** Either record type at either resolver is enough *)
Definition plan : list (Dns.RecordType * bytes) :=
  concat (map (fun rt => map (fun a => (rt, a)) DOH_ADDRS) [Dns.A; Dns.Aaaa]).
Definition leg_result (l : leg) (d : bytes) (k : Dns.RecordType * bytes) : out outlet_error (IpAddr * Z) :=
  match (connect_stream token l k.2 WasUsed).1 with
  | Ret _ => (resolve_over httparse l d k.1).1
  | Fail e => Fail e
  | Hang => Hang
  end.

Lemma via_leg d k st l rest : turns st = Leg l :: rest ->
  exists ks ps, doh_query_via httparse iter token d k.1 k.2 st =
    match leg_result l d k with
    | Ret (ip, ttl) => (Ret ip, mk_net (Doh.store iter d ip ttl (now l) (cache st)) rest ks ps)
    | Fail e => (Fail e, mk_net (cache st) rest ks ps)
    | Hang => (Hang, mk_net (cache st) rest ks ps)
    end.
Proof.
  intros Ht. unfold doh_query_via, on_leg, leg_result. rewrite Ht. cbn [cache turns asked posted].
  destruct (connect_stream token l k.2 WasUsed) as [[x|e|] entry]; cbn [fst]; [|by eexists _, _..].
  destruct (resolve_over httparse l d k.1) as [[[ip ttl]|e|] req]; cbn [fst]; by eexists _, _.
Qed.

(** The legs that fail before the first that answers. *)
Fixpoint all_fail (bad : list leg) (ks : list (Dns.RecordType * bytes)) (d : bytes) : Prop :=
  match bad, ks with
  | [], _ => True
  | l :: bad, k :: ks => (exists e, leg_result l d k = Fail e) /\ all_fail bad ks d
  | _ :: _, [] => False
  end.

Lemma try_each_app {A B} (f : A -> net -> out outlet_error B * net) l1 l2 last st :
  try_each f (l1 ++ l2) last st = match try_each f l1 last st with (Fail e, st') => try_each f l2 e st' | x => x end.
Proof. revert last st. induction l1 as [|a l1 IH]; intros last st; cbn [try_each app]; [done|]. by destruct (f a st) as [[?|?|] ?]. Qed.
Lemma try_each_pairs d rt l last st :
  try_each (doh_query_via httparse iter token d rt) l last st
  = try_each (fun k => doh_query_via httparse iter token d k.1 k.2) (map (fun a => (rt, a)) l) last st.
Proof. revert last st. induction l as [|a l IH]; intros last st; cbn [try_each map fst snd]; [done|]. by destruct (doh_query_via _ _ _ _ _ _ _) as [[?|?|] ?]. Qed.

(** The two loops are one over the plan. *)
Lemma resolve_plan d last st :
  try_each (doh_query httparse iter token d) [Dns.A; Dns.Aaaa] last st
  = try_each (fun k => doh_query_via httparse iter token d k.1 k.2) plan last st.
Proof.
  unfold plan. cbn [map concat]. rewrite app_nil_r, try_each_app. cbn [try_each]. unfold doh_query. rewrite !try_each_pairs.
  change (try_each ?f (map (fun a => (Dns.A, a)) DOH_ADDRS) NothingToTry st) with (try_each f (map (fun a => (Dns.A, a)) DOH_ADDRS) last st).
  destruct (try_each _ _ _ st) as [[ip|e|] st1]; [done| |done]. rewrite try_each_pairs.
  change (try_each ?f (map (fun a => (Dns.Aaaa, a)) DOH_ADDRS) NothingToTry st1) with (try_each f (map (fun a => (Dns.Aaaa, a)) DOH_ADDRS) e st1).
  by destruct (try_each _ _ _ st1) as [[?|?|] ?].
Qed.

Lemma plan_runs d ks bad good ip ttl rest last st k : turns st = map Leg bad ++ Leg good :: rest -> all_fail bad ks d ->
  ks !! length bad = Some k -> leg_result good d k = Ret (ip, ttl) ->
  exists st', try_each (fun k => doh_query_via httparse iter token d k.1 k.2) ks last st = (Ret ip, st') /\ turns st' = rest.
Proof.
  revert ks last st. induction bad as [|l bad IH]; intros [|k0 ks] last st Ht Hb Hk Hg; try done; cbn [map app] in Ht; cbn [try_each].
  - injection Hk as ->. destruct (via_leg d k st good rest Ht) as (? & ? & ->). rewrite Hg. by eexists.
  - destruct Hb as [[e He] Hb]. destruct (via_leg d k0 st l _ Ht) as (? & ? & ->). rewrite He. by apply IH.
Qed.

(** A name is resolved, and its connection made, whenever one of the four queries
    (two record types at two resolvers) is answered, however the ones before it
    fail, and the edge then accepts the CONNECT. *)
Theorem masque_connect_complete clock d port st bad good final rest k ip ttl colo rs :
  (Doh.cached d clock (cache st)).1 = None -> turns st = map Leg bad ++ Leg good :: Leg final :: rest ->
  all_fail bad plan d -> plan !! length bad = Some k -> leg_result good d k = Ret (ip, ttl) ->
  opened final = true -> exchange token final (fmt_socket_addr (socket_addr_new ip port)) = Ret (colo, rs) ->
  (connect_tcp httparse iter token clock (Domain d) port st).1 = Ret (mk_connected 0 ((fun c => str_bytes "colo=" ++ c) <$> colo)).
Proof.
  intros Hc Ht Hb Hk Hg Ho Hx. unfold connect_tcp, resolve_host, resolve_domain.
  destruct (Doh.cached d clock (cache st)) as [[?|] c]; [done|]. rewrite resolve_plan.
  destruct (plan_runs d plan bad good ip ttl (Leg final :: rest) NothingToTry (mk_net c (turns st) (asked st) (posted st)) k Ht Hb Hk Hg) as (mid & -> & Hm).
  cbv zeta. unfold on_leg. rewrite Hm. unfold connect_stream. by rewrite Ho, Hx.
Qed.
End facts.

(** *** A concrete call: the first resolver refuses the stream, the second answers,
    the edge accepts. *)
#[local] Existing Instance Rfc9000.codec.
Definition sample_head : bytes -> option Doh.response_head :=
  fun _ => Some (Doh.mk_head (Some 200) [(str_bytes "content-length", str_bytes "27")]).
Definition sample_answer : bytes := [13; 10; 13; 10; 0; 0; 129; 128; 0; 0; 0; 1; 0; 0; 0; 0; 0; 0; 1; 0; 1; 0; 0; 0; 60; 0; 4; 9; 9; 9; 9].
Definition refused_leg : leg := mk_leg true (Ret tt) (mk_rs [] (Broken ConnectionReset)) Hang Hang Hang [] Silent 0.
Definition good_leg : leg :=
  mk_leg true (Ret tt) (mk_rs (MasqueFacts.enc_frame (1, [0; 0; 217])) Silent) (Ret tt) (Ret tt) (Ret tt) [sample_answer] Silent 100.
Definition sample_net : net := mk_net ∅ [Leg refused_leg; Leg good_leg; Leg good_leg] [] [].


Lemma masque_connect_complete_witness :
  (connect_tcp sample_head map_to_list [116] 100 (Domain [97]) 80 sample_net).1 = Ret (mk_connected 0 None).
Proof.
  refine (masque_connect_complete sample_head map_to_list [116] 100 [97] 80 sample_net [refused_leg] good_leg good_leg []
    (Dns.A, str_bytes "162.159.46.1:443") (V4 [9; 9; 9; 9]) 60 None (mk_rs [] Silent) _ _ _ _ _ _ _); try (vm_compute; reflexivity).
  split; [|exact I]. eexists. vm_compute. reflexivity.
Defined.
End OutletFacts.
