(* ===== verification/H2Dev.v ===== *)
(** * The MASQUE-H2 device ([src/src/outbound/masque/h2.rs])

    Setting up the CONNECT-IP stream, and the packet device over it as an
    [AsyncDevice] of the reactor: two bounded queues and the carrier tasks, whose end
    must end the device.  The tasks' own work is in [H2]. *)
From S2P Require Import Prelude RustStr NetAddr Conn Outbound Varint Config Registration H2 Masque MasqueLink Dataplane Tunnel Netstack.

Module H2Dev.
Import H2.

(** Capacity of [futures::channel::mpsc::channel(64)] with its one sender, and of
    [tokio::sync::mpsc::channel(64)]. *)
Definition OUTGOING : Z := 64 + 1.
Definition INCOMING : Z := 64.

(** How a carrier task ended: its own result, or a panic. *)
Inductive task_end := TaskOk | TaskErr | TaskPanic.

Record H2Device := mk_device {
  outgoing : list bytes; rx_dropped : bool; closed : bool;
  incoming : list bytes; tx_dropped : bool;
  running : nat; finished : list task_end          (** the [JoinSet] *)
}.
(** The device as [dial_one] leaves it: connection, sender and receiver tasks. *)
Definition device_new : H2Device := mk_device [] false false [] false 3 [].

Definition with_tasks (n : nat) (f : list task_end) (d : H2Device) : H2Device :=
  mk_device (outgoing d) (rx_dropped d) (closed d) (incoming d) (tx_dropped d) n f.

Definition poll_termination (d : H2Device) : poll ErrorKind * H2Device :=
  match finished d with
  | TaskErr :: rest | TaskPanic :: rest => (Ready Other, with_tasks (running d) rest d)
  | TaskOk :: rest => (Ready UnexpectedEof, with_tasks (running d) rest d)
  | [] => (match running d with O => Ready UnexpectedEof | S _ => Pending end, d)
  end.

Definition poll_next (d : H2Device) : poll (option (res ErrorKind bytes)) * H2Device :=
  match poll_termination d with
  | (Ready e, d) => (Ready (Some (Err e)), d)
  | (Pending, d) =>
      match incoming d with
      | p :: rest => (Ready (Some (Ok p)), mk_device (outgoing d) (rx_dropped d) (closed d) rest (tx_dropped d) (running d) (finished d))
      | [] => (if tx_dropped d then Ready None else Pending, d)
      end
  end.

(** The sender's [poll_ready] and [poll_flush]: an error when the receiver is gone,
    or the sender closed; pending while over the buffer.  [None] is [Ok]. *)
Definition sender_ready (d : H2Device) : poll (option ErrorKind) :=
  if rx_dropped d || closed d then Ready (Some BrokenPipe)
  else if OUTGOING <=? zlen (outgoing d) then Pending else Ready None.
Definition sender_flush (d : H2Device) : poll (option ErrorKind) :=
  if rx_dropped d || closed d then Ready None else if OUTGOING <=? zlen (outgoing d) then Pending else Ready None.

Definition guarded (f : H2Device -> poll (option ErrorKind)) (d : H2Device) : poll (option ErrorKind) * H2Device :=
  match poll_termination d with
  | (Ready e, d) => (Ready (Some e), d)
  | (Pending, d) => (f d, d)
  end.
Definition poll_ready : H2Device -> poll (option ErrorKind) * H2Device := guarded sender_ready.
Definition poll_flush : H2Device -> poll (option ErrorKind) * H2Device := guarded sender_flush.
Definition poll_close (d : H2Device) : poll (option ErrorKind) * H2Device :=
  match poll_termination d with
  | (Ready e, d) => (Ready (Some e), d)
  | (Pending, d) => (Ready None, mk_device (outgoing d) (rx_dropped d) true (incoming d) (tx_dropped d) (running d) (finished d))
  end.
Definition start_send (item : bytes) (d : H2Device) : option ErrorKind * H2Device :=
  match H2.start_send item with
  | Ok p =>
      if rx_dropped d || closed d || (OUTGOING <=? zlen (outgoing d)) then (Some BrokenPipe, d)
      else (None, mk_device (outgoing d ++ [p]) (rx_dropped d) (closed d) (incoming d) (tx_dropped d) (running d) (finished d))
  | Err e => (Some e, d)
  | Panic => (Some Other, d)
  end.

#[export] Instance h2_device : AsyncDevice H2Device := {
  dev_poll_next := poll_next; dev_poll_ready := poll_ready; dev_start_send := start_send; dev_poll_flush := poll_flush
}.

(** The other ends, moved by the carrier tasks. *)
Definition take_outgoing (d : H2Device) : option bytes * H2Device :=
  match outgoing d with
  | p :: rest => (Some p, mk_device rest (rx_dropped d) (closed d) (incoming d) (tx_dropped d) (running d) (finished d))
  | [] => (None, d)
  end.
(** [sender.try_send]: a full queue drops the packet. *)
Definition offer_incoming (p : bytes) (d : H2Device) : H2Device :=
  if tx_dropped d || (INCOMING <=? zlen (incoming d)) then d
  else mk_device (outgoing d) (rx_dropped d) (closed d) (incoming d ++ [p]) (tx_dropped d) (running d) (finished d).
(** A task ends, dropping its end of a queue. *)
Inductive task := Connection | Sender | Receiver.
Definition task_ends (t : task) (r : task_end) (d : H2Device) : H2Device :=
  match running d with
  | O => d
  | S n =>
      mk_device (outgoing d) (rx_dropped d || match t with Sender => true | _ => false end) (closed d)
        (incoming d) (tx_dropped d || match t with Receiver => true | _ => false end) n (finished d ++ [r])
  end.

(** ** [dial_one] *)
Definition SNI : bytes := Edge.SNI.
Definition CONNECT_URI : bytes := str_bytes "https://cloudflareaccess.com:443".
Definition CONNECT_HEADERS : list (bytes * bytes) :=
  [(str_bytes "cf-connect-proto", str_bytes "cf-connect-ip"); (str_bytes "pq-enabled", str_bytes "false"); (str_bytes "user-agent", [])].

Inductive dial_error :=
| TlsTimeout | TlsFailed | H2Timeout | H2Failed | ReadyTimeout | NotReady | RequestFailed | ResponseTimeout | ResponseFailed | Rejected (status : Z).

(** What the attempt meets: the TLS handshake with the peer's certificate, the h2
    handshake, readiness, sending the request, the response's status and headers. *)
Record dial_world := mk_world {
  tls : Edge.ClientConfig -> bytes -> out ErrorKind bytes; h2_handshake : out ErrorKind unit; ready : out ErrorKind unit;
  send_request : bool; response : out ErrorKind (Z * list (bytes * bytes))
}.
Definition under {E A} (timeout failed : E) (o : out ErrorKind A) : res E A :=
  match o with Ret a => Ok a | Fail _ => Err failed | Hang => Err timeout end.

(** The device, the peer's certificate and the colo that is logged. *)
Definition dial_one (cfg : Edge.ClientConfig) (w : dial_world) : res dial_error (H2Device * bytes * bytes) :=
  cert ← under TlsTimeout TlsFailed (tls w cfg SNI);
  _ ← under H2Timeout H2Failed (h2_handshake w);
  _ ← under ReadyTimeout NotReady (ready w);
  _ ← bail_if (negb (send_request w)) RequestFailed;
  '(status, headers) ← under ResponseTimeout ResponseFailed (response w);
  _ ← bail_if (negb (status =? 200)) (Rejected status);
  let colo := h ← List.find (fun h => bytes_eqb h.1 (str_bytes "cf-warp-colo")) headers; Teams.header_to_str h.2 in
  Ok (device_new, cert, default (str_bytes "unknown") colo).

(** [connect] with the attempts as [dial_one] makes them. *)
Definition connect_device {X : X509} {R : Edge.Rustls} (creds : MasqueReg.RegCredentials) (upstream : Outbound) (w : SocketAddr -> dial_world)
    : res Edge.edge_error h2_connect :=
  cfg ← Edge.h2_client_config creds;
  Ok (H2.connect upstream (fun a => is_ok (dial_one cfg (w a))) (Masque.edge_addrs (MasqueReg.registration creds))).
End H2Dev.

Module H2DevFacts.
Import H2 H2Dev.

Section facts.
Context {V : VarInt}.

Inductive op := Next | IsReady | Send (p : bytes) | Flush | Close | Take | Offer (p : bytes) | Ends (t : task) (r : task_end).
(** Packets taken in by the device, handed to the sending task, offered by the
    receiving task, delivered; the packets dropped at the full queue; whether an
    error was reported. *)
Record log := mk_log { accepted : list bytes; popped : list bytes; offered : list bytes; delivered : list bytes; dropped : Z; reported : bool }.

Definition report (r : poll (option ErrorKind)) (g : log) : log :=
  match r with Ready (Some _) => mk_log (accepted g) (popped g) (offered g) (delivered g) (dropped g) true | _ => g end.
Definition step (o : op) (x : H2Device * log) : H2Device * log :=
  let '(d, g) := x in
  match o with
  | Next =>
      let '(r, d) := poll_next d in
      (d, match r with
          | Ready (Some (Ok p)) => mk_log (accepted g) (popped g) (offered g) (delivered g ++ [p]) (dropped g) (reported g)
          | Ready (Some _) => mk_log (accepted g) (popped g) (offered g) (delivered g) (dropped g) true
          | _ => g
          end)
  | IsReady => let '(r, d) := poll_ready d in (d, report r g)
  | Flush => let '(r, d) := poll_flush d in (d, report r g)
  | Close => let '(r, d) := poll_close d in (d, report r g)
  | Send p =>
      let '(r, d) := start_send p d in
      (d, match r with None => mk_log (accepted g ++ [p]) (popped g) (offered g) (delivered g) (dropped g) (reported g) | _ => g end)
  | Take =>
      let '(p, d) := take_outgoing d in
      (d, match p with Some p => mk_log (accepted g) (popped g ++ [p]) (offered g) (delivered g) (dropped g) (reported g) | None => g end)
  | Offer p =>
      (offer_incoming p d,
       if tx_dropped d then g
       else mk_log (accepted g) (popped g) (offered g ++ [p]) (delivered g)
              (if INCOMING <=? zlen (incoming d) then dropped g + 1 else dropped g) (reported g))
  | Ends t r => (task_ends t r d, g)
  end.
Definition run (ops : list op) : H2Device * log := fold_left (fun x o => step o x) ops (device_new, mk_log [] [] [] [] 0 false).

Definition inv (x : H2Device * log) : Prop :=
  let '(d, g) := x in
  accepted g = popped g ++ outgoing d /\ zlen (outgoing d) <= OUTGOING /\ Forall (fun p => zlen p <= PACKET_MTU) (accepted g) /\
  delivered g ++ incoming d `sublist_of` offered g /\ zlen (incoming d) <= INCOMING /\
  zlen (offered g) = zlen (delivered g ++ incoming d) + dropped g /\
  (rx_dropped d = true \/ tx_dropped d = true -> finished d <> [] \/ reported g = true) /\
  (finished d = [] -> (running d < 3)%nat -> reported g = true).

(** [poll_termination] takes at most one result off the set. *)
Lemma termination_cases d :
  (poll_termination d = (Pending, d) /\ finished d = [] /\ running d <> O) \/
  (exists e f, poll_termination d = (Ready e, with_tasks (running d) f d) /\ (finished d = [] /\ running d = O /\ f = [] \/ exists r, finished d = r :: f)).
Proof.
  unfold poll_termination. destruct d as [og rxd cl ic txd n f]. cbn. destruct f as [|r f].
  - destruct n as [|n]; [right|by left]. eexists _, []. split; [done|by left].
  - right. destruct r; (eexists _, f; split; [done|right; eauto]).
Qed.

(** Reporting the end of a task. *)
Lemma reported_inv d g f : inv (d, g) -> inv (with_tasks (running d) f d, mk_log (accepted g) (popped g) (offered g) (delivered g) (dropped g) true).
Proof. intros (H1 & H2 & H3 & H4 & H5 & H6 & H7 & H8). cbn. split_and!; auto. Qed.

Lemma guarded_inv f d g : inv (d, g) -> let '(r, d') := guarded f d in inv (d', report r g).
Proof.
  intros Hi. unfold guarded. destruct (termination_cases d) as [(-> & _)|(e & f' & -> & _)].
  - destruct (f d) as [[e|]|]; cbn [report]; [|done..]. destruct Hi as (H1 & H2 & H3 & H4 & H5 & H6 & H7 & H8). by split_and!; auto.
  - by apply reported_inv.
Qed.

Lemma device_next_inv d g : inv (d, g) -> inv (step Next (d, g)).
Proof.
  intros Hi. cbn [step]. unfold poll_next. destruct (termination_cases d) as [(-> & _)|(e & f' & -> & _)]; [|by apply reported_inv].
  destruct (incoming d) as [|p rest] eqn:Hin; [by destruct (tx_dropped d)|]. destruct Hi as (H1 & H2 & H3 & H4 & H5 & H6 & H7 & H8). cbn. rewrite Hin in *.
  split_and!; try done.
  - by rewrite <-app_assoc.
  - zl.
  - rewrite H6. zl.
Qed.

Lemma device_send_inv p d g : inv (d, g) -> inv (step (Send p) (d, g)).
Proof.
  intros Hi. cbn [step]. unfold start_send, H2.start_send. destruct (Z.ltb_spec PACKET_MTU (zlen p)) as [|Hmtu]; [done|].
  destruct (rx_dropped d || closed d) eqn:Hg; [done|]. cbn [orb]. destruct (Z.leb_spec OUTGOING (zlen (outgoing d))) as [|Hfull]; [done|].
  destruct Hi as (H1 & H2 & H3 & H4 & H5 & H6 & H7 & H8). cbn. split_and!; try done.
  - by rewrite H1, <-app_assoc.
  - zl.
  - apply Forall_app. by split; [|constructor].
Qed.

Lemma offer_inv p d g : inv (d, g) -> inv (step (Offer p) (d, g)).
Proof.
  intros Hi. cbn [step]. unfold offer_incoming. destruct (tx_dropped d) eqn:Ht; cbn [orb]; [done|].
  destruct Hi as (H1 & H2 & H3 & H4 & H5 & H6 & H7 & H8). destruct (Z.leb_spec INCOMING (zlen (incoming d))) as [Hfull|Hroom]; cbn; split_and!; try done.
  - by apply sublist_inserts_r.
  - zl.
  - rewrite app_assoc. by apply sublist_app.
  - zl.
  - zl.
  - rewrite Ht in H7. exact H7.
Qed.

Lemma device_step_inv o x : inv x -> inv (step o x).
Proof.
  destruct x as [d g]. intros Hi. destruct o as [| |p| | | |p|t r]; [by apply device_next_inv| |by apply device_send_inv| | | |by apply offer_inv|].
  - cbn [step]. pose proof (guarded_inv sender_ready d g Hi) as H. fold poll_ready in H. by destruct (poll_ready d).
  - cbn [step]. pose proof (guarded_inv sender_flush d g Hi) as H. fold poll_flush in H. by destruct (poll_flush d).
  - cbn [step]. unfold poll_close. destruct (termination_cases d) as [(-> & _)|(e & f' & -> & _)]; [done|by apply reported_inv].
  - cbn [step]. unfold take_outgoing. destruct Hi as (H1 & H2 & H3 & H4 & H5 & H6 & H7 & H8). destruct (outgoing d) as [|p rest] eqn:Ho; cbn; rewrite ?Ho; split_and!; try done.
    + by rewrite H1, <-app_assoc.
    + zl.
  - cbn [step]. unfold task_ends. destruct (running d) as [|n] eqn:Hn; [done|]. destruct Hi as (H1 & H2 & H3 & H4 & H5 & H6 & H7 & H8). cbn. split_and!; try done.
    + intros _. left. by destruct (finished d).
    + by destruct (finished d).
Qed.

Lemma device_run_inv ops : inv (run ops).
Proof.
  unfold run. assert (H0 : inv (device_new, mk_log [] [] [] [] 0 false)).
  { cbn. split_and!; try done; try (by intros []); try (intros; lia). }
  revert H0. generalize (device_new, mk_log [] [] [] [] 0 false). induction ops as [|o ops IH]; intros x Hx; [done|]. cbn [fold_left]. by apply IH, device_step_inv.
Qed.

(** The CONNECT-IP device, under every interleaving with its carrier tasks.  Packets
    reach the sending task once, in order and small enough for a capsule, at most
    65 waiting; the stack gets the offered packets in order, less exactly those
    dropped while 64 were waiting.  The end of any carrier task is reported as an
    error by the next poll, of either direction and even under back-pressure, and
    the device never just ends: the stream's end comes after such an error. *)
Theorem h2_device_faithful ops : let '(d, g) := run ops in
  accepted g = popped g ++ outgoing d /\ zlen (outgoing d) <= OUTGOING /\
  Forall (fun p => exists c, H2.capsule p = Ok c) (popped g) /\
  delivered g ++ incoming d `sublist_of` offered g /\ zlen (incoming d) <= INCOMING /\
  dropped g = zlen (offered g) - zlen (delivered g ++ incoming d) /\
  ((finished d <> [] \/ running d = O) -> exists e,
     (poll_next d).1 = Ready (Some (Err e)) /\ (poll_ready d).1 = Ready (Some e) /\ (poll_flush d).1 = Ready (Some e)) /\
  ((running d < 3)%nat -> finished d <> [] \/ reported g = true) /\
  ((poll_next d).1 = Ready None -> reported g = true).
Proof.
  pose proof (device_run_inv ops) as Hi. destruct (run ops) as [d g]. destruct Hi as (H1 & H2 & H3 & H4 & H5 & H6 & H7 & H8). split_and!; try done.
  - rewrite H1 in H3. apply Forall_app in H3 as [H3 _]. eapply Forall_impl; [exact H3|]. cbn. intros p Hp. unfold capsule.
    rewrite (proj2 (Z.ltb_ge _ _)) by done. unfold varint_write. pose proof (zlen_nonneg p).
    assert (Hb : (0 <=? zlen p) && (zlen p <? VARINT_BOUND) = true) by (apply andb_true_iff; rewrite Z.leb_le, Z.ltb_lt; unfold PACKET_MTU, VARINT_BOUND in *; lia).
    rewrite Hb. by eexists.
  - lia.
  - intros Hf. unfold poll_next, poll_ready, poll_flush, guarded. destruct (termination_cases d) as [(_ & ? & ?)|(e & f & -> & _)]; [by destruct Hf|eauto].
  - intros Hn. destruct (finished d) eqn:Hf; [right; by apply H8|by left].
  - unfold poll_next. destruct (termination_cases d) as [(-> & Hf & _)|(e & f & -> & _)]; [|done].
    destruct (incoming d); [|done]. destruct (tx_dropped d) eqn:Ht; [|done]. intros _. rewrite Hf in H7. by destruct H7; auto.
Qed.
End facts.

(** An attempt gives a device only on a 200, over TLS with the pinned edge key. *)
Theorem dial_one_pinned {X : X509} cfg w d cert colo :
  (forall sni c, tls w cfg sni = Ret c -> Edge.verify_server_cert (Edge.pinned cfg) c = Ok tt) ->
  dial_one cfg w = Ok (d, cert, colo) ->
  spki_of cert = Some (Edge.pinned cfg) /\ d = device_new /\ exists hs, response w = Ret (200, hs).
Proof.
  intros Hv. unfold dial_one. destruct (tls w cfg SNI) as [c|k|] eqn:Ht; [|done..]. cbn [under mbind res_bind].
  destruct (h2_handshake w); [|done..]. cbn [under mbind res_bind]. destruct (ready w); [|done..]. cbn [under mbind res_bind].
  destruct (send_request w); [|done]. cbn [negb bail_if mbind res_bind]. destruct (response w) as [[st hs]|k|]; [|done..]. cbn [under mbind res_bind].
  destruct (Z.eqb_spec st 200) as [->|]; [|done]. cbn [negb bail_if mbind res_bind]. intros [= <- <- _].
  split_and!; [|done|eauto]. apply LinkFacts.verify_pin. by eapply Hv.
Qed.

(** The sender's task dies while the queue is full: the next poll reports it. *)
Example h2_device_dies :
  let '(d, g) := run [Send [69]; Offer [70]; Ends Sender TaskErr] in
  (poll_next d).1 = Ready (Some (Err Other)) /\ (poll_next (poll_next d).2).1 = Ready (Some (Ok [70])) /\ (poll_ready (poll_next d).2).1 = Ready (Some BrokenPipe).
Proof. vm_compute. done. Qed.
End H2DevFacts.
