(* ===== verification/NetOutlet.v ===== *)
(** * IP outlets over the virtual network stack

    The set-up of the stack ([Net::new_inner] of [src/src/netstack.rs],
    [net_config] of [src/src/outbound/ip.rs] and the [build_net_config] of
    [src/src/outbound/wireguard.rs] and [src/src/outbound/masque/h2_outbound.rs]),
    dialling through it with both address families racing, and the datagram
    channel of the WireGuard outlet.  The outlets are given as values of the
    [Outbound] interface, with the law the protocol servers rely on. *)
From S2P Require Import Prelude RustStr NetAddr Conn Outbound Dataplane Tunnel Netstack Config Handshake Registration.

(** ** The stack's configuration *)
Module NetSetup.
Record BufferSize := mk_buffers {
  tcp_rx_size : Z; tcp_tx_size : Z; udp_rx_size : Z; udp_tx_size : Z; udp_rx_meta_size : Z; udp_tx_meta_size : Z
}.
Definition buffer_default : BufferSize := mk_buffers 8192 8192 8192 8192 32 32.

Record NetConfig := mk_net_config { ip_addrs : list (IpAddr * Z); gateways : list IpAddr; buffer_size : BufferSize }.

(** [net_config] *)
Definition net_config (addresses : list (IpAddr * Z)) : NetConfig :=
  mk_net_config addresses (map fst addresses)
    (mk_buffers (256 * 1024) (256 * 1024) (udp_rx_size buffer_default) (udp_tx_size buffer_default)
       (udp_rx_meta_size buffer_default) (udp_tx_meta_size buffer_default)).

(** [build_net_config] of the WireGuard outlet. *)
Definition wg_net_config (c : WgConf.WgConfig) : NetConfig :=
  net_config [(V4 (WgConf.address_v4 c), 32); (V6 (WgConf.address_v6 c), 128)].

(** [build_net_config] of the MASQUE H2 outlet. *)
Inductive addr_error := BadV4 | BadV6 | NoAddress.
Definition h2_net_config (r : MasqueReg.Registration) : res addr_error NetConfig :=
  v4 ← (if bytes_eqb (trim (MasqueReg.assigned_ipv4 r)) [] then Ok []
        else ip ← ok_or (parse_ipv4 (MasqueReg.assigned_ipv4 r)) BadV4; Ok [(V4 ip, 32)]);
  v6 ← (if bytes_eqb (trim (MasqueReg.assigned_ipv6 r)) [] then Ok []
        else ip ← ok_or (parse_ipv6 (MasqueReg.assigned_ipv6 r)) BadV6; Ok [(V6 ip, 128)]);
  match v4 ++ v6 with [] => Err NoAddress | addrs => Ok (net_config addrs) end.

(** ** [Net::new_inner] *)
Section setup.
(** smoltcp's limits on interface addresses and routes. *)
Context (max_addrs max_routes : nat).

Record iface := mk_iface { addrs : list (IpAddr * Z); source_v4 : option IpAddr; source_v6 : option IpAddr; routes : list IpAddr }.

(** The closure of [update_ip_addrs]: a full list drops the address. *)
Definition add_addr (i : iface) (cidr : IpAddr * Z) : iface :=
  let v4 := match cidr.1, source_v4 i with V4 _, None => Some cidr.1 | _, s => s end in
  let v6 := match cidr.1, source_v6 i with V6 _, None => Some cidr.1 | _, s => s end in
  mk_iface (if (length (addrs i) <? max_addrs)%nat then addrs i ++ [cidr] else addrs i) v4 v6 (routes i).

(** [add_default_ipv4_route] and [add_default_ipv6_route]: the default route of
    the family is replaced; [None]: the table is full. *)
Definition same_family (a b : IpAddr) : bool := match a, b with V4 _, V4 _ | V6 _, V6 _ => true | _, _ => false end.
Definition add_default_route (gateway : IpAddr) (i : iface) : option iface :=
  let rest := List.filter (fun r => negb (same_family gateway r)) (routes i) in
  if (length rest <? max_routes)%nat then Some (mk_iface (addrs i) (source_v4 i) (source_v6 i) (rest ++ [gateway])) else None.

Fixpoint add_routes (gws : list IpAddr) (i : iface) : option iface :=
  match gws with [] => Some i | g :: gws => i ← add_default_route g i; add_routes gws i end.

Definition new_inner (c : NetConfig) : res ErrorKind iface :=
  _ ← bail_if (bool_decide (ip_addrs c = [])) InvalidInput;
  let i := fold_left add_addr (ip_addrs c) (mk_iface [] None None []) in
  _ ← bail_if (negb (length (addrs i) =? length (ip_addrs c))%nat) InvalidInput;
  ok_or (add_routes (gateways c) i) InvalidInput.
End setup.
End NetSetup.

(** ** Dialling *)
Module IpOutlet.
Import IpDial.

(** One address family of a name: the resolver's answer ([None]: it never comes)
    and the order in which its attempts complete. *)
Record family := mk_family { answered : option (bytes + list IpAddr); dials : list nat }.

Definition stream_result : Type := (Connected * SocketAddr) + ErrorKind.

(** The future of a family; [None]: it never completes. *)
Definition family_result (connect : SocketAddr -> out ErrorKind Connected) (port : Z) (f : family) : option stream_result :=
  match answered f with
  | None => None
  | Some (inl _) => Some (inr Other)
  | Some (inr ips) =>
      match connect_first connect (dials f) (map (fun ip => socket_addr_new ip port) ips) with
      | Dialled s t => Some (inl (s, t))
      | DialFailed _ => Some (inr NotConnected)
      | DialPending => None
      end
  end.

(** The loop over the completed families, in their order; [stalled]: another one
    never completes, and the budget runs out. *)
Fixpoint first_family (stalled : bool) (done_ : list stream_result) : out ErrorKind (Connected * SocketAddr) :=
  match done_ with
  | [] => if stalled then Fail TimedOut else Fail NotConnected
  | inl c :: _ => Ret c
  | inr _ :: done_ => first_family stalled done_
  end.

(** The outcomes a call of [connect_tcp] meets: which family completes first, and
    whether the budget runs out before. *)
Record dial_world := mk_dial { a : family; aaaa : family; a_first : bool; expired : bool }.

Definition connect_tcp (connect : SocketAddr -> out ErrorKind Connected) (w : dial_world) (host : Host) (port : Z) : out ErrorKind Connected :=
  let r :=
    if expired w then Fail TimedOut
    else match host with
         | Ip ip =>
             let target := socket_addr_new ip port in
             match connect target with Ret s => Ret (s, target) | Fail k => Fail k | Hang => Fail TimedOut end
         | Domain _ =>
             let ra := family_result connect port (a w) in
             let r6 := family_result connect port (aaaa w) in
             let stalled := match ra, r6 with Some _, Some _ => false | _, _ => true end in
             first_family stalled (omap id (if a_first w then [ra; r6] else [r6; ra]))
         end in
  match r with
  | Ret (s, target) => Ret (mk_connected (cn_stream s) (Some (str_bytes "target=" ++ fmt_socket_addr target)))
  | Fail k => Fail k
  | Hang => Hang
  end.

(** *** The WireGuard outlet's UDP *)
Definition unspecified (target : SocketAddr) : SocketAddr :=
  if is_ipv4 target then SockV4 [0; 0; 0; 0] 0 else SockV6 (replicate 16 0) 0 0.

(** [connect_udp]; [udp_bind] gives the socket, or an error. *)
Definition connect_udp (udp_bind : SocketAddr -> res ErrorKind Z) (lookup_a lookup_aaaa : bytes + list IpAddr) (host : Host) (port : Z)
    : out ErrorKind Datagram :=
  match resolve_targets host port lookup_a lookup_aaaa with
  | Ok (target :: _) =>
      match udp_bind (unspecified target) with
      | Ok sock => Ret (mk_datagram sock target)
      | _ => Fail Other
      end
  | _ => Fail AddrNotAvailable
  end.

(** [WgDatagram::recv] on the datagrams arriving at its socket: the first one from
    the target, and the rest; [None]: none of them. *)
Fixpoint datagram_recv (target : SocketAddr) (incoming : list (bytes * SocketAddr)) : option (bytes * list (bytes * SocketAddr)) :=
  match incoming with
  | [] => None
  | (d, from) :: rest => if bool_decide (from = target) then Some (d, rest) else datagram_recv target rest
  end.
(** Receiving again and again. *)
Fixpoint datagram_stream (fuel : nat) (target : SocketAddr) (incoming : list (bytes * SocketAddr)) : list bytes :=
  match fuel with
  | O => []
  | S f => match datagram_recv target incoming with Some (d, rest) => d :: datagram_stream f target rest | None => [] end
  end.

(** *** The outlets *)
Definition wg_outbound (connect : SocketAddr -> out ErrorKind Connected) (w : dial_world) (udp_bind : SocketAddr -> res ErrorKind Z)
    (lookup_a lookup_aaaa : bytes + list IpAddr) : Outbound :=
  mk_outbound (str_bytes "WireGuard") true (connect_tcp connect w) (connect_udp udp_bind lookup_a lookup_aaaa).
Definition masque_h2_outbound (connect : SocketAddr -> out ErrorKind Connected) (w : dial_world) : Outbound :=
  mk_outbound (str_bytes "MASQUE-H2") false (connect_tcp connect w) connect_udp_default.

#[export] Instance wg_lawful connect w udp_bind la laaaa : LawfulOutbound (wg_outbound connect w udp_bind la laaaa).
Proof. done. Qed.
#[export] Instance masque_h2_lawful connect w : LawfulOutbound (masque_h2_outbound connect w).
Proof. done. Qed.
End IpOutlet.

Module NetOutletFacts.
Import NetSetup IpDial IpOutlet.

(** ** The stack *)
Section stack.
Context (max_addrs max_routes : nat).

Definition first_of (f : IpAddr) (l : list IpAddr) : option IpAddr := List.find (same_family f) l.
Definition some_v4 : IpAddr := V4 [].
Definition some_v6 : IpAddr := V6 [].

Lemma add_addrs_spec l i : (length (addrs i) + length l <= max_addrs)%nat ->
  fold_left (add_addr max_addrs) l i =
  mk_iface (addrs i ++ l)
    (match source_v4 i with Some x => Some x | None => first_of some_v4 (map fst l) end)
    (match source_v6 i with Some x => Some x | None => first_of some_v6 (map fst l) end) (routes i).
Proof.
  revert i. induction l as [|[ip n] l IH]; intros i Hl; cbn [fold_left length] in *.
  - rewrite app_nil_r. destruct i as [l' [] [] r]; done.
  - assert (Hc : (length (addrs i) <? max_addrs)%nat = true) by (apply Nat.ltb_lt; lia).
    rewrite IH by (unfold add_addr; rewrite Hc; cbn [addrs]; rewrite length_app; cbn [length]; lia).
    unfold add_addr. rewrite Hc. cbn [addrs source_v4 source_v6 routes fst map]. rewrite <-app_assoc. destruct ip, (source_v4 i), (source_v6 i); done.
Qed.

Lemma add_addrs_length l i : (length (addrs (fold_left (add_addr max_addrs) l i)) <= Nat.max max_addrs (length (addrs i)))%nat.
Proof.
  revert i. induction l as [|c l IH]; intros i; cbn [fold_left]; [lia|]. etransitivity; [apply IH|]. unfold add_addr. cbn [addrs].
  destruct (Nat.ltb_spec (length (addrs i)) max_addrs); rewrite ?length_app; cbn; lia.
Qed.

(** At most one default route per family. *)
Definition routes_ok (l : list IpAddr) : Prop := forall f, (length (List.filter (same_family f) l) <= 1)%nat.

Lemma family_dec f r : same_family f r = false -> forall x, same_family f x = negb (same_family r x).
Proof. destruct f, r; try done; by intros _ []. Qed.
Lemma family_trans f r x : same_family f r = true -> same_family f x = same_family r x.
Proof. by destruct f, r, x. Qed.

Lemma add_route_spec g i : (2 <= max_routes)%nat -> routes_ok (routes i) ->
  exists i', add_default_route max_routes g i = Some i' /\ addrs i' = addrs i /\ source_v4 i' = source_v4 i /\ source_v6 i' = source_v6 i /\
    routes_ok (routes i') /\ g ∈ routes i' /\ forall r, r ∈ routes i -> same_family g r = false -> r ∈ routes i'.
Proof.
  intros Hm Hr. set (rest := List.filter (fun r => negb (same_family g r)) (routes i)).
  assert (Hrest : (length rest <= 1)%nat).
  { destruct g as [o|o].
    - specialize (Hr some_v6). unfold rest. by replace (List.filter _ (routes i)) with (List.filter (same_family some_v6) (routes i)) by (apply filter_ext; by intros []).
    - specialize (Hr some_v4). unfold rest. by replace (List.filter _ (routes i)) with (List.filter (same_family some_v4) (routes i)) by (apply filter_ext; by intros []). }
  unfold add_default_route. fold rest. rewrite (proj2 (Nat.ltb_lt _ _)) by lia. eexists. split; [done|]. cbn [addrs source_v4 source_v6 routes].
  split_and!; try done.
  - intros f. rewrite List.filter_app, length_app. cbn [List.filter]. destruct (same_family f g) eqn:Hf.
    + replace (List.filter (same_family f) rest) with (@nil IpAddr); [cbn; lia|]. unfold rest. clear -Hf.
      induction (routes i) as [|r l IH]; [done|]. cbn [List.filter]. destruct (same_family g r) eqn:Hg; cbn [negb]; [done|].
      cbn [List.filter]. by rewrite (family_trans f g r Hf), Hg.
    + cbn [length]. pose proof (filter_length_le (same_family f) rest). lia.
  - apply elem_of_app. right. by constructor.
  - intros r Hin Hg. apply elem_of_app. left. apply list_elem_of_In, filter_In. split; [by apply list_elem_of_In|by rewrite Hg].
Qed.

Lemma add_routes_spec gws i : (2 <= max_routes)%nat -> routes_ok (routes i) ->
  exists i', add_routes max_routes gws i = Some i' /\ addrs i' = addrs i /\ source_v4 i' = source_v4 i /\ source_v6 i' = source_v6 i /\
    routes_ok (routes i') /\ (forall f, (exists g, g ∈ gws ++ routes i /\ same_family f g = true) -> exists r, r ∈ routes i' /\ same_family f r = true).
Proof.
  intros Hm. revert i. induction gws as [|g gws IH]; intros i Hr; cbn [add_routes]; [by exists i; split_and!|].
  destruct (add_route_spec g i Hm Hr) as (i1 & -> & Ha & H4 & H6 & Hr1 & Hg & Hk). cbn [mbind option_bind].
  destruct (IH i1 Hr1) as (i2 & -> & Ha2 & H42 & H62 & Hr2 & Hf2). exists i2. split_and!; try congruence; try done.
  intros f (x & Hx & Hfx). apply Hf2. apply elem_of_app in Hx as [[->|Hx]%elem_of_cons|Hx].
  - exists g. split; [apply elem_of_app; by right|done].
  - exists x. split; [apply elem_of_app; by left|done].
  - destruct (same_family g x) eqn:Hgx.
    + exists g. split; [apply elem_of_app; by right|]. revert Hfx Hgx. by destruct f, g, x.
    + exists x. split; [apply elem_of_app; right; by apply Hk|done].
Qed.
End stack.

(** The virtual stack comes up exactly when it can: with room for two routes,
    a list of interface addresses is accepted if and only if it is not empty and
    within smoltcp's limit; the interface then has all of them, each family's
    source is its first address and has a default route, and packets for a
    destination find a source exactly when its family was configured. *)
Theorem stack_setup max_addrs max_routes l : (2 <= max_routes)%nat ->
  (is_ok (new_inner max_addrs max_routes (net_config l)) = true <-> (1 <= length l <= max_addrs)%nat) /\
  forall i, new_inner max_addrs max_routes (net_config l) = Ok i ->
    addrs i = l /\
    (forall ip n, (ip, n) ∈ l -> exists r, r ∈ routes i /\ same_family ip r = true) /\
    forall target, Ports.source_for (source_v4 i) (source_v6 i) target =
      match first_of (sa_ip target) (map fst l) with Some ip => Ok ip | None => Err AddrNotAvailable end.
Proof.
  intros Hm. unfold new_inner. cbn [ip_addrs gateways net_config]. unfold bail_if.
  destruct (decide (l = [])) as [->|Hne]; [rewrite bool_decide_eq_true_2 by done; cbn; split; [split; [done|lia]|done]|].
  rewrite bool_decide_eq_false_2 by done. cbn [mbind res_bind]. cbv zeta. set (i0 := mk_iface [] None None []).
  destruct (Nat.le_gt_cases (length l) max_addrs) as [Hl|Hl].
  - rewrite (add_addrs_spec max_addrs l i0) by (cbn; lia). cbn [addrs source_v4 source_v6 routes i0 app]. rewrite Nat.eqb_refl. cbn [negb mbind res_bind].
    match goal with |- context [add_routes max_routes (map fst l) ?x] => destruct (add_routes_spec max_routes (map fst l) x Hm) as (i & -> & Ha & H4 & H6 & _ & Hf) end;
      [intros f; cbn; lia|]. cbn [ok_or is_ok]. split.
    + split; [|done]. intros _. destruct l; [done|cbn in *; lia].
    + intros i' [= <-]. split_and!; [done| |].
      * intros ip n Hin. apply Hf. exists ip. split; [|by destruct ip]. apply elem_of_app. left. apply list_elem_of_fmap. by exists (ip, n).
      * intros target. unfold Ports.source_for. rewrite H4, H6. cbn. by destruct target.
  - pose proof (add_addrs_length max_addrs l i0) as Hle. cbn in Hle.
    assert (Hneq : (length (addrs (fold_left (add_addr max_addrs) l i0)) =? length l)%nat = false) by (apply Nat.eqb_neq; lia).
    rewrite Hneq. cbn [negb mbind res_bind is_ok]. split; [|done]. split; [done|lia].
Qed.

(** The WireGuard outlet's two addresses, at smoltcp's default limits. *)
Lemma stack_setup_witness :
  exists i, new_inner 2 2 (wg_net_config WgConfFacts.sample_config) = Ok i /\
    Ports.source_for (source_v4 i) (source_v6 i) (SockV4 [1; 1; 1; 1] 53) = Ok (V4 [10; 0; 0; 2]).
Proof.
  eexists. split; [vm_compute; reflexivity|].
  destruct (stack_setup 2 2 [(V4 [10; 0; 0; 2], 32); (V6 (253 :: replicate 14 0 ++ [2]), 128)] ltac:(lia)) as [_ H].
  destruct (H _ ltac:(vm_compute; reflexivity)) as (_ & _ & Hs). rewrite Hs. reflexivity.
Defined.

(** A repeated address is accepted. *)
Lemma duplicate_address_accepted : is_ok (new_inner 2 2 (net_config [(V4 [10; 0; 0; 2], 32); (V4 [10; 0; 0; 2], 32)])) = true.
Proof. reflexivity. Qed.

(** ** Dialling *)
Section dial.
Context (connect : SocketAddr -> out ErrorKind Connected) (port : Z).

(** The addresses of a family. *)
Definition family_ips (f : family) : list IpAddr := match answered f with Some (inr l) => l | _ => [] end.

Lemma family_result_ok f s t : family_result connect port f = Some (inl (s, t)) -> (length (family_ips f) <= length (dials f))%nat ->
  connect t = Ret s /\ exists ip, ip ∈ family_ips f /\ t = socket_addr_new ip port.
Proof.
  unfold family_result, family_ips. destruct (answered f) as [[e|ips]|]; [done| |done]. intros Hr Hl.
  pose proof (connect_first_tries connect (dials f) (map (fun ip => socket_addr_new ip port) ips)) as H.
  destruct (connect_first _ _ _) as [s' t'|es|]; [|done..]. injection Hr as -> ->.
  destruct H as [Hc Hin]; [by rewrite length_map|]. split; [done|]. apply list_elem_of_fmap in Hin as (ip & -> & Hip). by exists ip.
Qed.

(** A family with a working address dials it. *)
Lemma family_works f ip s : (length (family_ips f) <= length (dials f))%nat -> ip ∈ family_ips f ->
  connect (socket_addr_new ip port) = Ret s -> exists c, family_result connect port f = Some (inl c).
Proof.
  unfold family_result, family_ips. destruct (answered f) as [[e|ips]|]; [by intros _ ?%not_elem_of_nil| |by intros _ ?%not_elem_of_nil].
  intros Hl Hin Hc. pose proof (connect_first_tries connect (dials f) (map (fun ip => socket_addr_new ip port) ips)) as H.
  destruct (connect_first _ _ _) as [s' t'|es|]; [by eexists| |].
  - destruct H as [Hp He]; [by rewrite length_map|]. exfalso.
    assert (Hm : socket_addr_new ip port ∈ map fst es) by (rewrite Hp; apply list_elem_of_fmap; by exists ip).
    apply list_elem_of_fmap in Hm as ([t k] & Ht & Hk). cbn in Ht. subst t. apply He in Hk. unfold attempt in Hk. by rewrite Hc in Hk.
  - exfalso. apply H. by rewrite length_map.
Qed.

Lemma first_family_ok stalled l c : first_family stalled l = Ret c -> inl c ∈ l.
Proof.
  induction l as [|[x|k] l IH]; cbn; [by destruct stalled| |]; [intros [= <-]; by constructor|]. intros H. constructor. by apply IH.
Qed.
Lemma first_family_live stalled l c : inl c ∈ l -> exists c', first_family stalled l = Ret c'.
Proof.
  induction l as [|[x|k] l IH]; cbn [first_family]; [by intros ?%not_elem_of_nil|by eexists|]. intros [?|H]%elem_of_cons; [done|by apply IH].
Qed.
End dial.

(** Dialling through the tunnel.  Enough completions given, a stream is returned
    only for an address the call was for (the literal address, or one the
    resolver gave for the name) on which connecting succeeded, and its note names
    that address; and it is returned whenever the budget has not run out and
    either family has an address that works, even if the other family's lookup
    never answers or fails. *)
Theorem ip_connect_tcp connect w host port :
  (length (family_ips (a w)) <= length (dials (a w)))%nat -> (length (family_ips (aaaa w)) <= length (dials (aaaa w)))%nat ->
  let ips := match host with Ip ip => [ip] | Domain _ => family_ips (a w) ++ family_ips (aaaa w) end in
  (forall c, connect_tcp connect w host port = Ret c -> exists ip s, ip ∈ ips /\ connect (socket_addr_new ip port) = Ret s /\
     c = mk_connected (cn_stream s) (Some (str_bytes "target=" ++ fmt_socket_addr (socket_addr_new ip port)))) /\
  (expired w = false -> forall ip s, ip ∈ ips -> connect (socket_addr_new ip port) = Ret s -> exists c, connect_tcp connect w host port = Ret c) /\
  connect_tcp connect w host port <> Hang.
Proof.
  intros Ha H6. cbn zeta. unfold connect_tcp. destruct (expired w); [by split_and!|]. destruct host as [name|ip].
  - set (l := omap id _). assert (Hl : forall r, r ∈ l <-> Some r = family_result connect port (a w) \/ Some r = family_result connect port (aaaa w)).
    { intros r. unfold l. rewrite list_elem_of_omap. split.
      - intros (x & Hx & He). cbn in He. subst x. destruct (a_first w); (apply elem_of_cons in Hx as [Hx|Hx]; [auto|apply list_elem_of_singleton in Hx; auto]).
      - intros Hr. exists (Some r). split; [|done]. destruct (a_first w); destruct Hr as [->| ->]; repeat constructor. }
    match goal with |- context [first_family ?st l] => set (stalled := st) end. split_and!.
    + intros c. destruct (first_family stalled l) as [[s t]|k|] eqn:Hf; [|done..]. intros [= <-]. apply first_family_ok, Hl in Hf as [Hf|Hf];
        apply eq_sym, family_result_ok in Hf as (Hc & ip & Hip & ->); try done; exists ip, s; (split_and!; [apply elem_of_app; auto|done|done]).
    + intros _ ip s Hip Hc. assert (Hlive : exists c, inl c ∈ l).
      { apply elem_of_app in Hip as [Hip|Hip].
        - destruct (family_works connect port (a w) ip s Ha Hip Hc) as [c Hw]. exists c. apply Hl. by left.
        - destruct (family_works connect port (aaaa w) ip s H6 Hip Hc) as [c Hw]. exists c. apply Hl. by right. }
      destruct Hlive as [c Hin]. destruct (first_family_live stalled l c Hin) as [[s' t'] ->]. by eexists.
    + clear Hl. induction l as [|[[s t]|k] l IH]; cbn; [by destruct stalled|done|done].
  - split_and!.
    + intros c. destruct (connect (socket_addr_new ip port)) as [s|k|] eqn:Hc; [|done..]. intros [= <-]. exists ip, s. split_and!; [by constructor|done|done].
    + intros _ ip' s ->%list_elem_of_singleton ->. by eexists.
    + by destruct (connect (socket_addr_new ip port)).
Qed.

(** Only IPv6 works and the A lookup never answers. *)
Lemma ip_connect_tcp_witness :
  let connect := fun t => if is_ipv4 t then Fail ConnectionRefused else Ret (mk_connected 7 None) in
  let w := mk_dial (mk_family None []) (mk_family (Some (inr [V6 (replicate 15 0 ++ [1])])) [0%nat]) true false in
  connect_tcp connect w (Domain (str_bytes "example.org")) 443 = Ret (mk_connected 7 (Some (str_bytes "target=[::1]:443"))) /\
  exists c, connect_tcp connect w (Domain (str_bytes "example.org")) 443 = Ret c.
Proof.
  intros connect w. split; [vm_compute; reflexivity|].
  destruct (ip_connect_tcp connect w (Domain (str_bytes "example.org")) 443) as (_ & H & _); [cbn; lia|cbn; lia|].
  apply (H eq_refl (V6 (replicate 15 0 ++ [1])) (mk_connected 7 None)); [cbn; by constructor|reflexivity].
Defined.

(** ** Datagrams *)
(** The WireGuard datagram channel hands up exactly the target's datagrams. *)
Lemma datagram_stream_filter fuel target incoming : (length incoming <= fuel)%nat ->
  datagram_stream fuel target incoming = map fst (List.filter (fun x => bool_decide (x.2 = target)) incoming).
Proof.
  assert (Hr : forall l, match datagram_recv target l with
    | Some (d, rest) => (length rest < length l)%nat /\
        map fst (List.filter (fun x => bool_decide (x.2 = target)) l) = d :: map fst (List.filter (fun x => bool_decide (x.2 = target)) rest)
    | None => List.filter (fun x => bool_decide (x.2 = target)) l = []
    end).
  { induction l as [|[d from] l IH]; cbn [datagram_recv]; [done|]. cbn [List.filter snd]. destruct (bool_decide (from = target)); [cbn; split; [lia|done]|].
    destruct (datagram_recv target l) as [[x rest]|]; [|done]. destruct IH. cbn. split; [lia|done]. }
  revert incoming. induction fuel as [|f IH]; intros incoming Hl; cbn [datagram_stream].
  { destruct incoming; [done|cbn in Hl; lia]. }
  specialize (Hr incoming). destruct (datagram_recv target incoming) as [[d rest]|]; [|by rewrite Hr]. destruct Hr as [Hlt ->]. f_equal. apply IH. lia.
Qed.
End NetOutletFacts.
