(* ===== verification/Timing.v ===== *)
(** * Time budgets ([src/src/outbound/masque/mod.rs], [.../doh.rs], [src/src/outbound/ip.rs], [src/src/dns.rs],
      [src/src/outbound/https.rs], [src/src/appconfig.rs])

    The dials of the outlets with the time every await takes, in milliseconds: nested
    [tokio::time::timeout]s, the staggered attempts on the addresses of a name, and
    the probe around them.  What an operation of another party does is given as the
    time it takes and its result, or that it never ends.  The order of attempts is
    related to the untimed race of [Outbound]. *)
From S2P Require Import Prelude NetAddr Conn Outbound Dns Config MasqueOutlet.

(** ** Runs *)
Module Timing.
Inductive run (A : Type) := At (t : Z) (a : A) | Never.
Arguments At {A} t a.
Arguments Never {A}.

Definition delay {A} (t : Z) (r : run A) : run A := match r with At u a => At (t + u) a | Never => Never end.

(** An await followed by [?]: the rest runs from there. *)
Definition after {E A B} (r : run (res E A)) (f : A -> run (res E B)) : run (res E B) :=
  match r with
  | At t (Ok a) => delay t (f a)
  | At t (Err e) => At t (Err e)
  | At t Panic => At t Panic
  | Never => Never
  end.

(** [tokio::time::timeout]: the future is polled before the timer. *)
Definition timeout {A} (d : Z) (r : run A) : Z * option A :=
  match r with At t a => if t <=? d then (t, Some a) else (d, None) | Never => (d, None) end.

Definition map_run {A B} (f : A -> B) (r : run A) : run B := match r with At t a => At t (f a) | Never => Never end.

(** [futures::future::select_ok]: the first success, else the last error. *)
Definition first_ok {E A} (r s : run (res E A)) : run (res E A) :=
  match r, s with
  | At t (Ok _), At u (Ok _) => if t <=? u then r else s
  | At _ (Ok _), _ => r
  | _, At _ (Ok _) => s
  | At t _, At u _ => if t <=? u then s else r
  | _, _ => Never
  end.
Definition select_ok {E A} (r : run (res E A)) (rs : list (run (res E A))) : run (res E A) := fold_left first_ok rs r.

(** A [for] loop that returns the first success and remembers the last error. *)
Fixpoint try_each {E A B} (f : A -> run (res E B)) (l : list A) (last : res E B) : run (res E B) :=
  match l with
  | [] => At 0 last
  | a :: l =>
      match f a with
      | At t (Ok b) => At t (Ok b)
      | At t r => delay t (try_each f l r)
      | Never => Never
      end
  end.

(** Time does not run backwards. *)
Definition forward {A} (r : run A) : bool := match r with At t _ => 0 <=? t | Never => true end.
(** The run ends within [d]. *)
Definition within {A} (d : Z) (r : run A) : Prop := exists t a, r = At t a /\ 0 <= t <= d.
End Timing.

(** ** Dialling through MASQUE *)
Module MasqueTime.
Import Timing.

Definition DIAL_TIMEOUT : Z := 8000.
Definition EXCHANGE_TIMEOUT : Z := 15000.
Definition OPEN_TIMEOUT : Z := 10000.
Definition CONTROL_STREAM_TIMEOUT : Z := 10000.
Definition CONNECT_TIMEOUT : Z := 53000.
Definition QUERY_TIMEOUT : Z := 8000.

Inductive stage := OpenBi | Dial | Control | Exchange | Tls | Send | Flush | Read.
Inductive error := TimedOutAt (s : stage) | FailedAt (s : stage) | NotRefreshed | BadTlsConfig | NoEdges | NothingToTry | Exhausted.

(** An operation under a timeout of its own; [None]: it fails. *)
Definition staged {A} (d : Z) (s : stage) (r : run (option A)) : run (res error A) :=
  let '(t, x) := timeout d r in
  At t (match x with Some (Some a) => Ok a | Some None => Err (FailedAt s) | None => Err (TimedOutAt s) end).

(** What one call of [Masque::open] meets: whether the link is found closed, opening a
    stream on it and whether it is closed afterwards; waiting for another caller's
    reconnection and whether that replaced the link; credentials and TLS; the edges
    ([None]: the dial cannot be started); the control stream; opening on the new link. *)
Record link_world := mk_link_world {
  closed_now : bool; bi : run (option unit); closed_after : bool;
  lock_wait : run unit; replaced : bool; refreshed : bool; config_ok : bool;
  edges : list (option (run (option unit))); control : run (option unit); fresh_bi : run (option unit)
}.

(** [dial_one], [connect] *)
Definition dial_one (e : option (run (option unit))) : run (res error unit) :=
  match e with Some connecting => staged DIAL_TIMEOUT Dial connecting | None => At 0 (Err (FailedAt Dial)) end.
Definition connect (edges : list (option (run (option unit)))) (control : run (option unit)) : run (res error unit) :=
  match edges with
  | [] => At 0 (Err NoEdges)
  | e :: es => after (select_ok (dial_one e) (map dial_one es)) (fun _ => staged CONTROL_STREAM_TIMEOUT Control control)
  end.

(** [open_bi_bounded], [open] *)
Definition open_bi_bounded : run (option unit) -> run (res error unit) := staged OPEN_TIMEOUT OpenBi.
Definition reopen (w : link_world) : run (res error unit) :=
  match lock_wait w with
  | Never => Never
  | At t _ => delay t (after
      (if replaced w then At 0 (Ok tt)
       else if negb (refreshed w) then At 0 (Err NotRefreshed)
       else if negb (config_ok w) then At 0 (Err BadTlsConfig)
       else connect (edges w) (control w))
      (fun _ => open_bi_bounded (fresh_bi w)))
  end.
Definition open (w : link_world) : run (res error unit) :=
  if closed_now w then reopen w
  else match open_bi_bounded (bi w) with
       | At t (Ok _) => At t (Ok tt)
       | At t r => if closed_after w then delay t (reopen w) else At t r
       | Never => Never
       end.

(** A tunnel stream: its CONNECT exchange and, for a query, TLS, the request and the
    answer in it. *)
Record leg := mk_leg {
  link : link_world; exchange : run (option unit);
  tls : run (option unit); send : run (option unit); flush : run (option unit); answer : run (option IpAddr)
}.

(** [connect_stream], [doh_query_via] with [resolve_over] *)
Definition connect_stream (l : leg) : run (res error unit) :=
  after (open (link l)) (fun _ => staged EXCHANGE_TIMEOUT Exchange (exchange l)).
Definition resolve_over (l : leg) : run (res error IpAddr) :=
  after (staged QUERY_TIMEOUT Tls (tls l)) (fun _ =>
  after (staged QUERY_TIMEOUT Send (send l)) (fun _ =>
  after (staged QUERY_TIMEOUT Flush (flush l)) (fun _ =>
  staged QUERY_TIMEOUT Read (answer l)))).
Definition doh_query_via (l : leg) : run (res error IpAddr) := after (connect_stream l) (fun _ => resolve_over l).

(** What a dial meets: the cached address, the queries by record type and resolver,
    and the stream to the target. *)
Record dial := mk_dial { cached : option IpAddr; query : Dns.RecordType -> bytes -> leg; target : leg }.

Definition resolve_domain (w : dial) : run (res error IpAddr) :=
  match cached w with
  | Some ip => At 0 (Ok ip)
  | None => try_each (fun rt => try_each (fun a => doh_query_via (query w rt a)) MasqueOutlet.DOH_ADDRS (Err NothingToTry))
              [Dns.A; Dns.Aaaa] (Err NothingToTry)
  end.

Definition dial_inner (w : dial) (host : Host) : run (res error unit) :=
  match host with
  | Domain _ => after (resolve_domain w) (fun _ => connect_stream (target w))
  | Ip _ => connect_stream (target w)
  end.
Definition connect_tcp (w : dial) (host : Host) : run (res error unit) :=
  let '(t, r) := timeout CONNECT_TIMEOUT (dial_inner w host) in At t (match r with Some r => r | None => Err Exhausted end).

(** Nothing in the world takes negative time. *)
Definition link_forward (w : link_world) : bool :=
  forward (bi w) && forward (lock_wait w) && forallb (fun e => match e with Some r => forward r | None => true end) (edges w) &&
  forward (control w) && forward (fresh_bi w).
Definition leg_forward (l : leg) : bool :=
  link_forward (link l) && forward (exchange l) && forward (tls l) && forward (send l) && forward (flush l) && forward (answer l).
Definition dial_forward (w : dial) : Prop := (forall rt a, leg_forward (query w rt a) = true) /\ leg_forward (target w) = true.
End MasqueTime.

(** ** Dialling the addresses of a name *)
Module IpTime.
Import Timing IpDial.

Definition DNS_TIMEOUT : Z := 5000.
Definition CONNECT_TIMEOUT : Z := 10000.
Definition HAPPY_EYEBALLS_DELAY : Z := 250.
Definition AAAA_WINDOW : Z := 50.

Definition outcome : Type := Connected + ErrorKind.

(** An attempt that has been started: when it ends, and how. *)
Record flight := mk_flight { ends : Z; to : SocketAddr; got : outcome }.

Section dial.
(** [Net::tcp_connect] on each address. *)
Context (connect : SocketAddr -> run outcome).

(** One attempt of [connect_first], from the time it is taken into the window. *)
Definition start (index : nat) (now : Z) (target : SocketAddr) : flight :=
  let now := if (index =? 0)%nat then now else now + HAPPY_EYEBALLS_DELAY in
  let '(t, r) := timeout CONNECT_TIMEOUT (connect target) in
  mk_flight (now + t) target (match r with Some r => r | None => inr TimedOut end).

(** [buffer_unordered(2)]: the attempt that ends first makes room for the next. *)
Fixpoint race (index : nat) (now : Z) (inflight : option flight) (queue : list SocketAddr) : Z * option (Connected * SocketAddr) :=
  match queue, inflight with
  | [], None => (now, None)
  | [], Some f => (ends f, match got f with inl s => Some (s, to f) | inr _ => None end)
  | t :: queue, None => race (S index) now (Some (start index now t)) queue
  | t :: queue, Some g =>
      let f := start index now t in
      let '(first, second) := if ends g <=? ends f then (g, f) else (f, g) in
      match got first with
      | inl s => (ends first, Some (s, to first))
      | inr _ => race (S index) (ends first) (Some second) queue
      end
  end.

(** The future of an address family: [resolve] under its budget, the window for AAAA
    answers, and the race. *)
Definition family (a_record : bool) (port : Z) (resolved : run (bytes + list IpAddr)) : Z * option (Connected * SocketAddr) :=
  match timeout DNS_TIMEOUT resolved with
  | (t, Some (inr ips)) =>
      let t := if a_record && negb (bool_decide (ips = [])) then t + AAAA_WINDOW else t in
      race 0 t None (interleave_addresses (map (fun ip => socket_addr_new ip port) ips))
  | (t, _) => (t, None)
  end.

(** [connect_tcp]; both families run at once. *)
Definition families (a aaaa : Z * option (Connected * SocketAddr)) : Z * option (Connected * SocketAddr) :=
  match a.2, aaaa.2 with
  | Some _, Some _ => if a.1 <=? aaaa.1 then a else aaaa
  | Some _, None => a
  | None, Some _ => aaaa
  | None, None => (Z.max a.1 aaaa.1, None)
  end.

Definition budget (host : Host) : Z :=
  match host with Ip _ => CONNECT_TIMEOUT | Domain _ => DNS_TIMEOUT + CONNECT_TIMEOUT end.

Definition connect_tcp (a aaaa : run (bytes + list IpAddr)) (host : Host) (port : Z) : run (res ErrorKind (Connected * SocketAddr)) :=
  let inner :=
    match host with
    | Ip ip => let target := socket_addr_new ip port in
               map_run (fun r => match r with inl s => Ok (s, target) | inr k => Err k end) (connect target)
    | Domain _ =>
        let '(t, r) := families (family true port a) (family false port aaaa) in
        At t (match r with Some c => Ok c | None => Err NotConnected end)
    end in
  let '(t, r) := timeout (budget host) inner in At t (match r with Some r => r | None => Err TimedOut end).

(** What the untimed race of [Outbound] sees of an address. *)
Definition untimed (target : SocketAddr) : out ErrorKind Connected :=
  match (timeout CONNECT_TIMEOUT (connect target)).2 with Some (inl s) => Ret s | Some (inr k) => Fail k | None => Hang end.
End dial.
End IpTime.

(** ** The probe around a dial *)
Module ProbeTime.
Import Timing.

Inductive error := Connecting | TimedOut | Failed.

(** [https::get]: the dial, then TLS and the exchange ([rest]), under one budget. *)
Definition get {E C} (budget : Z) (dial : run (res E C)) (rest : run (option bytes)) : run (res error bytes) :=
  let '(t, r) := timeout budget
    (after (map_run (fun r => match r with Ok c => Ok c | Err _ => Err Connecting | Panic => Panic end) dial)
       (fun _ => map_run (fun r => match r with Some b => Ok b | None => Err Failed end) rest)) in
  At t (match r with Some r => r | None => Err TimedOut end).

(** The configured budget of a health probe, in milliseconds. *)
Definition probe_budget (c : App.AppConfig) : Z := App.healthcheck_probe_timeout c * 1000.
End ProbeTime.

Module TimingFacts.
Import Timing.

(** ** Ends of composed runs *)
Lemma within_weaken {A} d e (r : run A) : within d r -> d <= e -> within e r.
Proof. intros (t & a & -> & Ht) He. exists t, a. split; [done|lia]. Qed.
Lemma within_at {A} d t (a : A) : 0 <= t <= d -> within d (At t a).
Proof. intros Ht. by exists t, a. Qed.
Lemma within_delay {A} d e t (r : run A) : 0 <= t <= e -> within d r -> within (e + d) (delay t r).
Proof. intros Ht (u & a & -> & Hu). apply within_at. lia. Qed.
Lemma within_after {E A B} d e (r : run (res E A)) (f : A -> run (res E B)) :
  within d r -> 0 <= e -> (forall a, within e (f a)) -> within (d + e) (after r f).
Proof.
  intros (t & a & -> & Ht) He Hf. destruct a as [a|k|]; cbn; [by apply within_delay|apply within_at; lia|apply within_at; lia].
Qed.
Lemma timeout_bound {A} d (r : run A) : 0 <= d -> forward r = true -> 0 <= (timeout d r).1 <= d.
Proof. intros Hd Hf. destruct r as [t a|]; cbn in *; zbool; [|lia]. destruct (Z.leb_spec t d); cbn; lia. Qed.
Lemma timeout_in_time {A} d t (a : A) : t <= d -> timeout d (At t a) = (t, Some a).
Proof. intros Ht. cbn. by rewrite (proj2 (Z.leb_le t d)). Qed.
Lemma first_ok_within {E A} d (r s : run (res E A)) : within d r -> within d s -> within d (first_ok r s).
Proof.
  intros (t & a & -> & Ht) (u & b & -> & Hu). destruct a, b; cbn; try destruct (Z.leb_spec t u); apply within_at; lia.
Qed.
Lemma select_ok_within {E A} d (rs : list (run (res E A))) r : within d r -> Forall (within d) rs -> within d (select_ok r rs).
Proof.
  unfold select_ok. intros Hr Hs. revert r Hr. induction Hs as [|s rs Hs _ IH]; intros r Hr; [done|]. cbn [fold_left]. apply IH.
  by apply first_ok_within.
Qed.
End TimingFacts.

(** ** The budget of a MASQUE dial *)
Module MasqueTimeFacts.
Import Timing TimingFacts MasqueTime.

Lemma staged_within {A} d s (r : run (option A)) : 0 <= d -> forward r = true -> within d (staged d s r).
Proof. intros Hd Hf. pose proof (timeout_bound d r Hd Hf) as Ht. unfold staged. destruct (timeout d r). by apply within_at. Qed.

Lemma connect_within es c : forallb (fun e => match e with Some r => forward r | None => true end) es = true -> forward c = true ->
  within (DIAL_TIMEOUT + CONTROL_STREAM_TIMEOUT) (connect es c).
Proof.
  intros He Hc. destruct es as [|e es]; [by apply within_at|].
  assert (Hd : Forall (within DIAL_TIMEOUT) (map dial_one (e :: es))).
  { apply Forall_fmap, Forall_forall. intros x Hx. rewrite forallb_forall in He. specialize (He x (proj1 (list_elem_of_In _ _) Hx)).
    destruct x as [r|]; cbn; [by apply staged_within|by apply within_at]. }
  cbn [map] in Hd. apply Forall_cons in Hd as [H1 H2]. apply within_after; [by apply select_ok_within|done|].
  intros _. by apply staged_within.
Qed.

(** Without waiting for another caller, [open] takes at most a stream that does not
    open, a reconnection and another stream. *)
Lemma reopen_within w : link_forward w = true -> lock_wait w = At 0 tt ->
  within (DIAL_TIMEOUT + CONTROL_STREAM_TIMEOUT + OPEN_TIMEOUT) (reopen w).
Proof.
  unfold link_forward. intros Hw Hl. zbool. unfold reopen. rewrite Hl.
  apply (within_delay (DIAL_TIMEOUT + CONTROL_STREAM_TIMEOUT + OPEN_TIMEOUT) 0); [lia|].
  apply within_after; [|done|intros _; by apply staged_within].
  destruct (replaced w), (refreshed w), (config_ok w); cbn [negb]; try (by apply within_at). by apply connect_within.
Qed.
Lemma open_within w : link_forward w = true -> lock_wait w = At 0 tt ->
  within (OPEN_TIMEOUT + (DIAL_TIMEOUT + CONTROL_STREAM_TIMEOUT + OPEN_TIMEOUT)) (open w).
Proof.
  intros Hw Hl. pose proof (reopen_within w Hw Hl) as Hr. unfold open. destruct (closed_now w); [by eapply within_weaken|].
  assert (Hb : within OPEN_TIMEOUT (open_bi_bounded (bi w))) by (unfold link_forward in Hw; zbool; by apply staged_within).
  destruct Hb as (t & a & -> & Ht).
  assert (Ha : within (OPEN_TIMEOUT + (DIAL_TIMEOUT + CONTROL_STREAM_TIMEOUT + OPEN_TIMEOUT)) (At t a))
    by (apply within_at; unfold OPEN_TIMEOUT, DIAL_TIMEOUT, CONTROL_STREAM_TIMEOUT in *; lia).
  destruct a as [[]| |]; [done| |]; (destruct (closed_after w); [by apply within_delay|done]).
Qed.
Lemma connect_stream_within l : leg_forward l = true -> lock_wait (link l) = At 0 tt -> within CONNECT_TIMEOUT (connect_stream l).
Proof.
  unfold leg_forward. intros Hl Hw. zbool. change CONNECT_TIMEOUT with
    (OPEN_TIMEOUT + (DIAL_TIMEOUT + CONTROL_STREAM_TIMEOUT + OPEN_TIMEOUT) + EXCHANGE_TIMEOUT).
  apply within_after; [by apply open_within|done|]. intros _. by apply staged_within.
Qed.

Lemma forward_within {A} d (r : run A) : within d r -> forward r = true.
Proof. intros (t & a & -> & Ht). cbn. lia. Qed.
Lemma forward_delay {A} t (r : run A) : 0 <= t -> forward r = true -> forward (delay t r) = true.
Proof. destruct r; cbn; intros; zbool; lia. Qed.
Lemma forward_after {E A B} (r : run (res E A)) (f : A -> run (res E B)) :
  forward r = true -> (forall a, forward (f a) = true) -> forward (after r f) = true.
Proof. intros Hr Hf. destruct r as [t [a| |]|]; cbn in *; try done. zbool. by apply forward_delay. Qed.
Lemma forward_staged {A} d s (r : run (option A)) : 0 <= d -> forward r = true -> forward (staged d s r) = true.
Proof. intros Hd Hf. by eapply forward_within, staged_within. Qed.
Lemma forward_try_each {E A B} (f : A -> run (res E B)) l last : (forall a, forward (f a) = true) -> forward (try_each f l last) = true.
Proof.
  intros Hf. revert last. induction l as [|a l IH]; intros last; [done|]. cbn. specialize (Hf a).
  destruct (f a) as [t [b| |]|]; cbn in Hf |- *; zbool; try lia; by apply forward_delay.
Qed.
Lemma forward_open w : link_forward w = true -> forward (open w) = true.
Proof.
  unfold link_forward. intros Hw. zbool. assert (Hr : forward (reopen w) = true).
  { unfold reopen. destruct (lock_wait w) as [t []|]; [|done]. cbn in *; zbool. apply forward_delay; [done|].
    apply forward_after; [|intros _; by apply forward_staged].
    destruct (replaced w), (refreshed w), (config_ok w); try done. by eapply forward_within, connect_within. }
  unfold open. destruct (closed_now w); [done|]. assert (Hb : forward (open_bi_bounded (bi w)) = true) by by apply forward_staged.
  destruct (open_bi_bounded (bi w)) as [t [[]| |]|]; cbn in *; zbool; try done; try lia;
    (destruct (closed_after w); [by apply forward_delay|cbn; lia]).
Qed.
Lemma forward_dial w host : dial_forward w -> forward (dial_inner w host) = true.
Proof.
  assert (Hc : forall l, leg_forward l = true -> forward (connect_stream l) = true).
  { unfold leg_forward. intros l Hl. zbool. apply forward_after; [by apply forward_open|intros _; by apply forward_staged]. }
  intros [Hq Ht]. destruct host; cbn; [|by apply Hc]. apply forward_after; [|intros _; by apply Hc]. unfold resolve_domain.
  destruct (cached w); [done|]. apply forward_try_each. intros rt. apply forward_try_each. intros a.
  apply forward_after; [by apply Hc|]. intros _. specialize (Hq rt a). unfold leg_forward in Hq. zbool.
  repeat (apply forward_after; [by apply forward_staged|intros _]). by apply forward_staged.
Qed.

(** Only the overall budget reports [Exhausted]. *)
Definition own {A} (r : run (res error A)) : Prop := forall t, r <> At t (Err Exhausted).
Lemma own_delay {A} t (r : run (res error A)) : own r -> own (delay t r).
Proof. intros Hr u. destruct r as [v b|]; cbn; [|done]. intros [= _ ->]. by destruct (Hr v). Qed.
Lemma own_after {A B} (r : run (res error A)) (f : A -> run (res error B)) : own r -> (forall a, own (f a)) -> own (after r f).
Proof.
  intros Hr Hf. destruct r as [t [a|e|]|]; cbn; try done; [by apply own_delay|]. intros u [= -> ->]. by destruct (Hr u).
Qed.
Lemma own_staged {A} d s (r : run (option A)) : own (staged d s r).
Proof. intros t. unfold staged. destruct (timeout d r) as [u [[]|]]; done. Qed.
Lemma own_connect es c : own (connect es c).
Proof.
  destruct es as [|e es]; [done|]. apply own_after; [|intros _; apply own_staged].
  assert (Hd : forall x, own (dial_one x)) by (intros [r|]; [apply own_staged|done]).
  unfold select_ok. generalize (Hd e). generalize (dial_one e). induction es as [|x es IH]; intros r Hr; [done|]. cbn [map fold_left].
  apply IH. intros u. specialize (Hd x). destruct r as [t [| |]|], (dial_one x) as [v [| |]|]; cbn;
    repeat case_match; try done; intros [= -> ->]; first [by destruct (Hr u)|by destruct (Hd u)].
Qed.
Lemma never_exhausted l t : connect_stream l <> At t (Err Exhausted).
Proof.
  revert t. apply own_after; [|intros _; apply own_staged].
  assert (Hr : own (reopen (link l))).
  { unfold reopen. destruct (lock_wait (link l)) as [v []|]; [|done]. apply own_delay, own_after; [|intros _; apply own_staged].
    destruct (replaced (link l)), (refreshed (link l)), (config_ok (link l)); try done. apply own_connect. }
  unfold open. destruct (closed_now (link l)); [done|]. pose proof (own_staged OPEN_TIMEOUT OpenBi (bi (link l))) as Hb.
  unfold open_bi_bounded. destruct (staged _ _ _) as [t [[]|e|]|]; try done; destruct (closed_after (link l)); try done; by apply own_delay.
Qed.

(** A resolver whose tunnel stream is never accepted costs its exchange. *)
Lemma dead_resolver w o r1 r2 t2 ip : MasqueOutlet.DOH_ADDRS = [r1; r2] -> cached w = None ->
  open (link (query w Dns.A r1)) = At o (Ok tt) -> forward (exchange (query w Dns.A r1)) = true ->
  (forall t, exchange (query w Dns.A r1) <> At t (Some tt)) -> doh_query_via (query w Dns.A r2) = At t2 (Ok ip) ->
  exists t, resolve_domain w = At t (Ok ip) /\ t <= o + EXCHANGE_TIMEOUT + t2.
Proof.
  intros Hr Hc Ho Hf Hx Hq. unfold resolve_domain. rewrite Hc, Hr. cbn [try_each]. rewrite Hq.
  pose proof (timeout_bound EXCHANGE_TIMEOUT _ ltac:(done) Hf) as Hb.
  assert (He : exists t k, staged EXCHANGE_TIMEOUT Exchange (exchange (query w Dns.A r1)) = At t (Err k) /\ t <= EXCHANGE_TIMEOUT).
  { unfold staged. destruct (timeout EXCHANGE_TIMEOUT (exchange (query w Dns.A r1))) as [t [[[]|]|]] eqn:Ht; try (eexists _, _; split; [done|cbn in Hb; lia]).
    destruct (exchange (query w Dns.A r1)) as [u x|]; cbn in Ht; [|done]. destruct (Z.leb_spec u EXCHANGE_TIMEOUT); [|done].
    injection Ht as -> ->. by destruct (Hx t). }
  destruct He as (t & k & He & Hle). unfold doh_query_via at 1, connect_stream. rewrite Ho. cbn [after]. rewrite He. cbn.
  eexists. split; [done|]. lia.
Qed.

Lemma dial_within w host : dial_forward w -> within CONNECT_TIMEOUT (connect_tcp w host).
Proof.
  intros Hf. pose proof (timeout_bound CONNECT_TIMEOUT _ ltac:(done) (forward_dial w host Hf)) as Ht. unfold connect_tcp.
  destruct (timeout _ _). by apply within_at.
Qed.

Lemma exhausted_at w ip t : connect_tcp w (Ip ip) = At t (Err Exhausted) -> t = CONNECT_TIMEOUT.
Proof.
  unfold connect_tcp, dial_inner. pose proof (never_exhausted (target w)) as Hn. destruct (connect_stream (target w)) as [u r|]; cbn [timeout]; [|by intros [= <-]].
  destruct (u <=? CONNECT_TIMEOUT); [|by intros [= <-]]. intros [= -> ->]. by destruct (Hn t).
Qed.

(** C25. The stages of a MASQUE dial and its budget of 53 seconds.  Every dial returns
    within 53 seconds.  For an address as target, the budget cuts a dial short, at 53
    seconds and not before, only where the dial had to wait for another caller's
    reconnection; without that wait every stage ends by its own deadline and reports
    its own error, even when the link dies while a stream is opened on it and has to
    be replaced.  And for a name, a first resolver that never accepts its tunnel
    stream costs at most 15 seconds: if the second resolver and the target then take
    no longer than the remaining 38, the dial succeeds. *)
Theorem masque_budget w host : dial_forward w ->
  within 53000 (connect_tcp w host) /\
  (forall ip t, host = Ip ip -> connect_tcp w host = At t (Err Exhausted) ->
     t = 53000 /\ (lock_wait (link (target w)) = Never \/ exists u, 0 < u /\ lock_wait (link (target w)) = At u tt)) /\
  (forall d o t2 ip t3, host = Domain d -> cached w = None ->
     let first := query w Dns.A (str_bytes "162.159.36.1:443") in
     let second := query w Dns.A (str_bytes "162.159.46.1:443") in
     open (link first) = At o (Ok tt) -> (forall t, exchange first <> At t (Some tt)) ->
     doh_query_via second = At t2 (Ok ip) -> connect_stream (target w) = At t3 (Ok tt) ->
     o + t2 + t3 <= 38000 -> exists t, connect_tcp w host = At t (Ok tt) /\ t <= o + 15000 + t2 + t3).
Proof.
  intros Hf. split_and!.
  - by apply dial_within.
  - intros ip t -> He. split; [by eapply exhausted_at|]. destruct Hf as [_ Hf]. destruct (lock_wait (link (target w))) as [u []|] eqn:Hl; [right|by left].
    exists u. split; [|done]. assert (Hu : 0 <= u) by (unfold leg_forward, link_forward in Hf; rewrite Hl in Hf; zbool; cbn in *; zbool; lia).
    destruct (decide (u = 0)) as [->|]; [exfalso|lia]. destruct (connect_stream_within _ Hf Hl) as (v & r & Hr & Hv).
    revert He. unfold connect_tcp, dial_inner. rewrite Hr, timeout_in_time by lia. intros [= _ ->]. revert Hr. apply never_exhausted.
  - intros d o t2 ip t3 -> Hc first second Ho Hx Hq Ht Hle. assert (Hfx : forward (exchange first) = true).
    { destruct Hf as [Hf _]. specialize (Hf Dns.A (str_bytes "162.159.36.1:443")). unfold leg_forward in Hf. by zbool. }
    destruct (dead_resolver w o _ _ t2 ip eq_refl Hc Ho Hfx Hx Hq) as (t & Hres & Hb).
    unfold connect_tcp, dial_inner. rewrite Hres. cbn [after]. rewrite Ht. cbn [delay].
    unfold EXCHANGE_TIMEOUT in *. rewrite timeout_in_time by (unfold CONNECT_TIMEOUT; lia). eexists. split; [done|lia].
Qed.

(** A link that dies while a stream is opened on it, one of two edges answering late;
    a live link with a dead first resolver. *)
Definition dying_link : link_world :=
  mk_link_world false Never true (At 0 tt) false true true [Some Never; Some (At 8000 (Some tt))] (At 10000 (Some tt)) (At 10000 (Some tt)).
Definition live_link : link_world :=
  mk_link_world false (At 20 (Some tt)) false (At 0 tt) false true true [] Never Never.
Definition live_leg (exchange : run (option unit)) : leg :=
  mk_leg live_link exchange (At 60 (Some tt)) (At 1 (Some tt)) (At 1 (Some tt)) (At 30 (Some (V4 [93; 184; 216; 34]))).
Definition slow_dial : dial :=
  mk_dial None (fun _ a => live_leg (if bool_decide (a = str_bytes "162.159.36.1:443") then Never else At 40 (Some tt)))
    (mk_leg dying_link Never Never Never Never Never).
Definition dead_first : dial := mk_dial (cached slow_dial) (query slow_dial) (live_leg (At 300 (Some tt))).

Lemma slow_forward : dial_forward slow_dial.
Proof. split; [|reflexivity]. intros rt a. cbn. destruct (bool_decide _); reflexivity. Qed.
Lemma dead_forward : dial_forward dead_first.
Proof. split; [|reflexivity]. intros rt a. cbn. destruct (bool_decide _); reflexivity. Qed.

(** The dying link takes the whole budget, and the exchange still gives its own error. *)
Example slow_dial_edge : connect_tcp slow_dial (Ip (V4 [1; 1; 1; 1])) = At 53000 (Err (TimedOutAt Exchange)).
Proof. vm_compute. reflexivity. Qed.

(** Behind another caller's reconnection the same dial is cut by the budget. *)
Definition contended : dial :=
  mk_dial None (query slow_dial)
    (mk_leg (mk_link_world false Never true (At 18000 tt) true true true [] Never (At 9000 (Some tt))) (At 14900 (Some tt)) Never Never Never Never).
Definition contended_longer : dial :=
  mk_dial None (query slow_dial)
    (mk_leg (mk_link_world false Never true (At 18000 tt) false true true [Some (At 7000 (Some tt))] (At 9000 (Some tt)) (At 9000 (Some tt)))
       (At 14900 (Some tt)) Never Never Never Never).
Example contended_dial : connect_tcp contended (Ip (V4 [1; 1; 1; 1])) = At 51900 (Ok tt) /\
  connect_tcp contended_longer (Ip (V4 [1; 1; 1; 1])) = At 53000 (Err Exhausted).
Proof. split; vm_compute; reflexivity. Qed.
Lemma contended_forward : dial_forward contended_longer.
Proof. split; [|reflexivity]. intros rt a. cbn. destruct (bool_decide _); reflexivity. Qed.

Lemma masque_budget_witness :
  within 53000 (connect_tcp slow_dial (Ip (V4 [1; 1; 1; 1]))) /\
  (exists u, 0 < u /\ lock_wait (link (target contended_longer)) = At u tt) /\
  exists t, connect_tcp dead_first (Domain (str_bytes "example.org")) = At t (Ok tt) /\ t <= 20 + 15000 + 152 + 320.
Proof.
  split; [exact (proj1 (masque_budget slow_dial _ slow_forward))|]. split.
  - destruct (proj1 (proj2 (masque_budget contended_longer (Ip (V4 [1; 1; 1; 1])) contended_forward)) (V4 [1; 1; 1; 1]) 53000 eq_refl
      ltac:(vm_compute; reflexivity)) as [_ [H|H]]; [discriminate H|exact H].
  - refine (proj2 (proj2 (masque_budget dead_first (Domain (str_bytes "example.org")) dead_forward)) (str_bytes "example.org") 20
      152 (V4 [93; 184; 216; 34]) 320 eq_refl eq_refl _ _ _ _ _);
      first [vm_compute; reflexivity | intros t; vm_compute; discriminate | vm_compute; discriminate].
Defined.

(** A resolver that is slow at every stage can use up the budget of a name. *)
Example slow_resolver : connect_tcp
    (mk_dial None (fun _ _ => mk_leg (mk_link_world false (At 9000 (Some tt)) false Never false true true [] Never Never)
       (At 14000 (Some tt)) (At 7900 (Some tt)) (At 7900 (Some tt)) (At 7900 (Some tt)) (At 7900 (Some (V4 [])))) (live_leg (At 1 (Some tt))))
    (Domain []) = At 53000 (Err Exhausted).
Proof. vm_compute. reflexivity. Qed.
End MasqueTimeFacts.

(** ** Dialling the addresses of a name in time *)
Module IpTimeFacts.
Import Timing TimingFacts IpDial IpTime.

Section facts.
Context (connect : SocketAddr -> run outcome).

(** The slot of an attempt is free again after this time. *)
Definition SLOT : Z := CONNECT_TIMEOUT + HAPPY_EYEBALLS_DELAY.

Lemma start_to i now t : to (start connect i now t) = t.
Proof. unfold start. by destruct (timeout _ _). Qed.
Lemma start_got i now t : got (start connect i now t) = attempt (untimed connect) t.
Proof. unfold start, attempt, untimed. by destruct (timeout _ _) as [u [[]|]]. Qed.
Lemma start_ends i now t : forward (connect t) = true -> now <= ends (start connect i now t) <= now + SLOT.
Proof.
  intros Hf. pose proof (timeout_bound CONNECT_TIMEOUT _ ltac:(done) Hf) as Ht. unfold start, SLOT. destruct (timeout _ _) as [u r]. cbn in *.
  unfold HAPPY_EYEBALLS_DELAY. destruct (i =? 0)%nat; lia.
Qed.
Lemma start_good i now t c s : connect t = At c (inl s) -> c <= CONNECT_TIMEOUT ->
  got (start connect i now t) = inl s /\ ends (start connect i now t) <= now + HAPPY_EYEBALLS_DELAY + c.
Proof.
  intros Hc Hle. unfold start. rewrite Hc, timeout_in_time by done. cbn. split; [done|]. unfold HAPPY_EYEBALLS_DELAY.
  destruct (i =? 0)%nat; lia.
Qed.

(** A running attempt that will succeed bounds the race. *)
Lemma race_good i now g s queue : got g = inl s -> exists x, (race connect i now (Some g) queue).2 = Some x /\ (race connect i now (Some g) queue).1 <= ends g.
Proof.
  revert i now. induction queue as [|t queue IH]; intros i now Hg; cbn [race]; [rewrite Hg; by eexists|].
  destruct (Z.leb_spec (ends g) (ends (start connect i now t))).
  - rewrite Hg. by eexists.
  - destruct (got (start connect i now t)); [eexists; split; [done|cbn; lia]|]. by apply IH.
Qed.

(** The address at position [k] is started by the time the slots before it are over. *)
Lemma race_reaches base k i now g queue t c s : Forall (fun t => forward (connect t) = true) queue -> queue !! k = Some t ->
  connect t = At c (inl s) -> c <= CONNECT_TIMEOUT -> now <= base + SLOT * (Z.of_nat i / 2) -> ends g <= base + SLOT * ((Z.of_nat i + 1) / 2) ->
  exists x, (race connect i now (Some g) queue).2 = Some x /\
    (race connect i now (Some g) queue).1 <= base + SLOT * ((Z.of_nat i + Z.of_nat k) / 2) + HAPPY_EYEBALLS_DELAY + c.
Proof.
  revert i now g queue. induction k as [|k IH]; intros i now g [|t' queue] Hf Hk Hc Hle Hn Hg; try done; cbn [race];
    apply Forall_cons in Hf as [Hf' Hf]; cbn in Hk.
  - injection Hk as ->. destruct (start_good i now t c s Hc Hle) as [Hgot Hends]. rewrite Z.add_0_r.
    destruct (Z.leb_spec (ends g) (ends (start connect i now t))).
    + destruct (got g); [eexists; split; [done|cbn; lia]|].
      destruct (race_good (S i) (ends g) _ s queue Hgot) as (x & Hx & Hb). exists x. split; [done|lia].
    + rewrite Hgot. eexists. split; [done|cbn; lia].
  - assert (Hc0 : 0 <= c). { apply list_elem_of_lookup_2 in Hk. rewrite Forall_forall in Hf. specialize (Hf _ Hk). rewrite Hc in Hf. cbn in Hf. lia. }
    pose proof (start_ends i now t' Hf') as Hs. set (f := start connect i now t') in *.
    assert (Hstep : forall a b, ends a <= base + SLOT * ((Z.of_nat i + 1) / 2) -> ends b <= base + SLOT * ((Z.of_nat i + 2) / 2) ->
      exists x, (match got a with inl s => (ends a, Some (s, to a)) | inr _ => race connect (S i) (ends a) (Some b) queue end).2 = Some x /\
        (match got a with inl s => (ends a, Some (s, to a)) | inr _ => race connect (S i) (ends a) (Some b) queue end).1
          <= base + SLOT * ((Z.of_nat i + Z.of_nat (S k)) / 2) + HAPPY_EYEBALLS_DELAY + c).
    { intros a b Ha Hb. unfold SLOT, CONNECT_TIMEOUT, HAPPY_EYEBALLS_DELAY in *.
      destruct (got a); [eexists; split; [done|cbn; Z.div_mod_to_equations; lia]|].
      destruct (IH (S i) (ends a) b queue Hf Hk Hc Hle) as (x & Hx & Hxb); [Z.div_mod_to_equations; lia|Z.div_mod_to_equations; lia|].
      exists x. split; [done|]. replace (Z.of_nat i + Z.of_nat (S k)) with (Z.of_nat (S i) + Z.of_nat k) by lia. done. }
    assert (Hse : ends f <= base + SLOT * ((Z.of_nat i + 2) / 2)) by (unfold SLOT, CONNECT_TIMEOUT, HAPPY_EYEBALLS_DELAY in *; Z.div_mod_to_equations; lia).
    assert (Hge : ends g <= base + SLOT * ((Z.of_nat i + 2) / 2)) by (unfold SLOT, CONNECT_TIMEOUT, HAPPY_EYEBALLS_DELAY in *; Z.div_mod_to_equations; lia).
    destruct (Z.leb_spec (ends g) (ends f)); apply Hstep; (done || lia).
Qed.

Lemma race_in_time base k queue t c s : Forall (fun t => forward (connect t) = true) queue -> queue !! k = Some t ->
  connect t = At c (inl s) -> c <= CONNECT_TIMEOUT ->
  exists x, (race connect 0 base None queue).2 = Some x /\
    (race connect 0 base None queue).1 <= base + SLOT * (Z.of_nat k / 2) + HAPPY_EYEBALLS_DELAY + c.
Proof.
  intros Hf Hk Hc Hle. destruct queue as [|t0 queue]; [done|]. apply Forall_cons in Hf as [Hf0 Hf]. cbn [race]. destruct k as [|k].
  - injection Hk as ->. destruct (start_good 0 base t c s Hc Hle) as [Hgot Hends]. destruct (race_good 1 base _ s queue Hgot) as (x & Hx & Hb).
    exists x. split; [done|]. change (Z.of_nat 0 / 2) with 0. lia.
  - pose proof (start_ends 0 base t0 Hf0) as Hs. change ((t0 :: queue) !! S k) with (queue !! k) in Hk.
    destruct (race_reaches base k 1 base (start connect 0 base t0) queue t c s Hf Hk Hc Hle) as (x & Hx & Hb);
      [change (Z.of_nat 1 / 2) with 0; lia|change ((Z.of_nat 1 + 1) / 2) with 1; lia|].
    exists x. split; [done|]. by replace (Z.of_nat (S k)) with (Z.of_nat 1 + Z.of_nat k) by lia.
Qed.

Lemma race_forward i now g queue : Forall (fun t => forward (connect t) = true) queue -> 0 <= now ->
  match g with Some f => 0 <= ends f | None => True end -> 0 <= (race connect i now g queue).1.
Proof.
  revert i now g. induction queue as [|t queue IH]; intros i now [g|] Hf Hn Hg; try done; apply Forall_cons in Hf as [Ht Hf];
    pose proof (start_ends i now t Ht) as Hs; cbn [race]; [|by apply IH; [| |lia]].
  destruct (Z.leb_spec (ends g) (ends (start connect i now t))).
  - destruct (got g); [done|]. apply IH; [done..|lia].
  - destruct (got _); [cbn; lia|]. apply IH; [done|lia|done].
Qed.

(** ** The order of the timed race is one of the orders of the untimed one *)
Lemma dial_loop_take order t queue errors :
  dial_loop (untimed connect) order (t :: queue) [] errors = dial_loop (untimed connect) order queue [t] errors.
Proof. by destruct order. Qed.
Lemma dial_loop_window order i t u queue errors : (i < 2)%nat ->
  dial_loop (untimed connect) (i :: order) (u :: queue) [t] errors =
  let '(first, second) := if (i =? 0)%nat then (t, u) else (u, t) in
  match attempt (untimed connect) first with
  | inl s => Dialled s first
  | inr k => dial_loop (untimed connect) order queue [second] (errors ++ [(first, k)])
  end.
Proof.
  intros Hi. assert (Hr : refill queue [t; u] = (queue, [t; u])) by by destruct queue. cbn -[Nat.modulo]. rewrite Hr.
  destruct i as [|[|i]]; [..|lia]; cbn; by destruct (attempt _ _).
Qed.

Definition targets_of (g : option flight) : list SocketAddr := match g with Some f => [to f] | None => [] end.
Definition true_flight (g : option flight) : Prop :=
  match g with Some f => got f = attempt (untimed connect) (to f) | None => True end.
Definition race_result (r : option (Connected * SocketAddr)) (d : dial_result) : Prop :=
  match r with Some (s, t) => d = Dialled s t | None => exists es, d = DialFailed es end.

Lemma race_order i now g queue : true_flight g -> exists order, forall errors,
  race_result (race connect i now g queue).2 (dial_loop (untimed connect) order queue (targets_of g) errors).
Proof.
  revert i now g. induction queue as [|t queue IH]; intros i now [g|] Hg; cbn [race].
  - exists [0%nat]. intros errors. cbn in *. rewrite <-Hg. destruct (got g); [done|]. by eexists.
  - exists []. intros errors. by eexists.
  - assert (Ht : true_flight (Some (start connect i now t))) by (cbn; by rewrite start_got, start_to).
    set (f := start connect i now t) in *. assert (Hto : to f = t) by apply start_to.
    destruct (Z.leb_spec (ends g) (ends f)).
    + destruct (IH (S i) (ends g) (Some f) Ht) as [order Ho]. exists (0%nat :: order). intros errors. cbn [targets_of] in *.
      rewrite dial_loop_window by lia. cbn in Hg |- *. rewrite <-Hg. destruct (got g); [done|]. rewrite <-Hto at 1. apply Ho.
    + destruct (IH (S i) (ends f) (Some g) Hg) as [order Ho]. exists (1%nat :: order). intros errors. cbn [targets_of] in *.
      rewrite dial_loop_window by lia. cbn in Ht |- *. rewrite Hto in Ht. rewrite <-Ht. destruct (got f); [cbn; by rewrite Hto|]. apply Ho.
  - destruct (IH (S i) now (Some (start connect i now t))) as [order Ho]; [cbn; by rewrite start_got, start_to|].
    exists order. intros errors. specialize (Ho errors). cbn [targets_of] in *. rewrite start_to in Ho. by rewrite dial_loop_take.
Qed.

(** ** A family, and both *)
Definition addresses (port : Z) (ips : list IpAddr) : list SocketAddr := map (fun ip => socket_addr_new ip port) ips.

Context (Hf : forall t, forward (connect t) = true).

Lemma family_forward b port r : forward r = true -> 0 <= (family connect b port r).1.
Proof.
  intros Hr. pose proof (timeout_bound DNS_TIMEOUT r ltac:(done) Hr) as Ht. unfold family. destruct (timeout _ _) as [t [[m|ips]|]]; cbn in *; try lia.
  apply race_forward; [by apply Forall_forall|unfold AAAA_WINDOW; destruct (_ && _); lia|done].
Qed.

Lemma family_in_time b port t ips k u c s : t <= DNS_TIMEOUT -> interleave_addresses (addresses port ips) !! k = Some u ->
  connect u = At c (inl s) -> c <= CONNECT_TIMEOUT ->
  exists x, (family connect b port (At t (inr ips))).2 = Some x /\
    (family connect b port (At t (inr ips))).1 <= t + AAAA_WINDOW + SLOT * (Z.of_nat k / 2) + HAPPY_EYEBALLS_DELAY + c.
Proof.
  intros Ht Hk Hc Hle. unfold family. rewrite timeout_in_time by done. cbn. fold (addresses port ips).
  match goal with |- context [race connect 0 ?n None _] => set (now := n) end.
  assert (Hn : now <= t + AAAA_WINDOW) by (unfold now, AAAA_WINDOW; destruct (_ && _); lia).
  destruct (race_in_time now k _ u c s (proj2 (Forall_forall _ _) (fun t _ => Hf t)) Hk Hc Hle) as (x & Hx & Hb).
  exists x. split; [done|lia].
Qed.

(** The addresses a family dials: those of an answer that came in time. *)
Definition answer_in_time (r : run (bytes + list IpAddr)) : list IpAddr :=
  match (timeout DNS_TIMEOUT r).2 with Some (inr ips) => ips | _ => [] end.

Lemma family_refines b port r : exists order,
  race_result (family connect b port r).2 (connect_first (untimed connect) order (addresses port (answer_in_time r))).
Proof.
  unfold family, answer_in_time. destruct (timeout _ _) as [t [[m|ips]|]]; [by exists []; eexists| |by exists []; eexists].
  destruct (race_order 0 (if b && negb (bool_decide (ips = [])) then t + AAAA_WINDOW else t) None (interleave_addresses (addresses port ips)) I)
    as [order Ho]. exists order. apply Ho.
Qed.
Lemma family_sound b port r s t : (family connect b port r).2 = Some (s, t) ->
  untimed connect t = Ret s /\ t ∈ addresses port (answer_in_time r).
Proof.
  destruct (family_refines b port r) as [order Ho]. intros Hr. rewrite Hr in Ho. cbn in Ho. unfold connect_first in Ho.
  pose proof (dial_loop_spec (untimed connect) order (interleave_addresses (addresses port (answer_in_time r))) [] []
    (addresses port (answer_in_time r))) as Hs. rewrite Ho in Hs. apply Hs; [by intros ?? ?%elem_of_nil|]. cbn. rewrite app_nil_r.
  unfold interleave_addresses. by rewrite interleave_perm, filter_split_perm.
Qed.

Lemma families_either (a aaaa : Z * option (Connected * SocketAddr)) x T :
  (a.2 = Some x /\ a.1 <= T) \/ (aaaa.2 = Some x /\ aaaa.1 <= T) -> exists y, (families a aaaa).2 = Some y /\ (families a aaaa).1 <= T.
Proof.
  destruct a as [ta [ra|]], aaaa as [t6 [r6|]]; unfold families; cbn; intros [[? ?]|[? ?]]; try done;
    try (destruct (Z.leb_spec ta t6)); eexists; (split; [done|cbn; lia]).
Qed.
End facts.

Lemma dial_within_budget connect a aaaa host port :
  (forall t, forward (connect t) = true) -> forward a = true -> forward aaaa = true ->
  within (budget host) (connect_tcp connect a aaaa host port).
Proof.
  intros Hf Ha H6. unfold connect_tcp. destruct (timeout _ _) as [t r] eqn:Ht. apply within_at. change t with (t, r).1. rewrite <-Ht.
  apply timeout_bound; [by destruct host|]. destruct host as [d|ip].
  - pose proof (family_forward connect Hf true port a Ha). pose proof (family_forward connect Hf false port aaaa H6).
    destruct (families _ _) as [u x] eqn:Hu. cbn. change u with (u, x).1. rewrite <-Hu. unfold families. repeat case_match; cbn; lia.
  - specialize (Hf (socket_addr_new ip port)). by destruct (connect _).
Qed.

(** C26. Dialling over the tunnel's IP stack in time.  A dial returns within its budget
    (10 seconds for an address, 15 for a name), and a stream it returns belongs to an
    address of the target on which connecting succeeded in time; each family's
    staggered attempts are a run of the untimed dialling race.  A name is reached
    whenever one of its families is: if a family's answer comes within [t] and the
    address at position [k] of its dialling order connects within [c], the dial
    succeeds [SLOT * (k/2)] and the staggering delays later at the latest, provided
    that is within the budget, whatever the other addresses and the other family do. *)
Theorem ip_dial_in_time connect a aaaa host port :
  (forall t, forward (connect t) = true) -> forward a = true -> forward aaaa = true ->
  within (budget host) (connect_tcp connect a aaaa host port) /\
  (forall T s t, connect_tcp connect a aaaa host port = At T (Ok (s, t)) -> untimed connect t = Ret s /\
     match host with Ip ip => t = socket_addr_new ip port
     | Domain _ => t ∈ addresses port (answer_in_time a ++ answer_in_time aaaa) end) /\
  (forall b r, exists order, race_result (family connect b port r).2 (connect_first (untimed connect) order (addresses port (answer_in_time r)))) /\
  (forall d t ips k u c s, host = Domain d -> a = At t (inr ips) \/ aaaa = At t (inr ips) -> t <= DNS_TIMEOUT ->
     interleave_addresses (addresses port ips) !! k = Some u -> connect u = At c (inl s) -> c <= CONNECT_TIMEOUT ->
     let latest := t + AAAA_WINDOW + SLOT * (Z.of_nat k / 2) + HAPPY_EYEBALLS_DELAY + c in
     latest <= budget host -> exists T x, connect_tcp connect a aaaa host port = At T (Ok x) /\ T <= latest).
Proof.
  intros Hf Ha H6. split_and!.
  - by apply dial_within_budget.
  - intros T s t. unfold connect_tcp. destruct host as [d|ip].
    + destruct (families _ _) as [u x] eqn:Hu. unfold timeout. destruct (u <=? budget (Domain d)); [|done].
      destruct x as [[s' t']|]; intros [= _ -> ->].
      assert (Hor : (family connect true port a).2 = Some (s, t) \/ (family connect false port aaaa).2 = Some (s, t)).
      { revert Hu. unfold families. destruct (family connect true port a) as [? []], (family connect false port aaaa) as [? []]; cbn;
          try destruct (_ <=? _); intros [= <- <-]; auto. }
      unfold addresses. rewrite map_app. destruct Hor as [Hor|Hor]; apply (family_sound connect) in Hor as [Hs Ht];
        (split; [done|unfold addresses in Ht; set_solver]).
    + unfold untimed. cbn [budget]. destruct (connect (socket_addr_new ip port)) as [u [s'|k]|] eqn:Hc; cbn; try done;
        (destruct (Z.leb_spec u CONNECT_TIMEOUT); [|done]); [|done]. intros [= _ -> <-]. by rewrite Hc, timeout_in_time.
  - intros b r. apply family_refines.
  - intros d t ips k u c s -> Hr Ht Hk Hc Hle latest Hb.
    assert (Hx : exists y, (families (family connect true port a) (family connect false port aaaa)).2 = Some y /\
      (families (family connect true port a) (family connect false port aaaa)).1 <= latest).
    { destruct Hr as [->| ->].
      - destruct (family_in_time connect Hf true port t ips k u c s Ht Hk Hc Hle) as (x & Hx & Hxb). eapply families_either. left. by split.
      - destruct (family_in_time connect Hf false port t ips k u c s Ht Hk Hc Hle) as (x & Hx & Hxb). eapply families_either. right. by split. }
    destruct Hx as (y & Hy & Hyb). unfold connect_tcp. destruct (families _ _) as [T r]. cbn in Hy, Hyb. subst r.
    rewrite timeout_in_time by lia. eauto.
Qed.

(** A name whose first address and whose AAAA query hang. *)
Definition sample_connect (t : SocketAddr) : run outcome :=
  if bool_decide (t = SockV4 [10; 0; 0; 2] 443) then At 120 (inl (mk_connected 7 None)) else Never.

Lemma ip_dial_in_time_witness :
  connect_tcp sample_connect (At 30 (inr [V4 [10; 0; 0; 1]; V4 [10; 0; 0; 2]])) Never (Domain (str_bytes "example.org")) 443
    = At 450 (Ok (mk_connected 7 None, SockV4 [10; 0; 0; 2] 443)) /\
  exists T x, connect_tcp sample_connect (At 30 (inr [V4 [10; 0; 0; 1]; V4 [10; 0; 0; 2]])) Never (Domain (str_bytes "example.org")) 443 = At T (Ok x)
    /\ T <= 450.
Proof.
  split; [vm_compute; reflexivity|].
  refine (proj2 (proj2 (proj2 (ip_dial_in_time sample_connect (At 30 (inr [V4 [10; 0; 0; 1]; V4 [10; 0; 0; 2]])) Never
    (Domain (str_bytes "example.org")) 443 _ _ _))) (str_bytes "example.org") 30 [V4 [10; 0; 0; 1]; V4 [10; 0; 0; 2]] 1%nat
    (SockV4 [10; 0; 0; 2] 443) 120 (mk_connected 7 None) eq_refl (or_introl eq_refl) _ _ _ _ _);
    first [intros t; unfold sample_connect; destruct (bool_decide _); reflexivity | vm_compute; reflexivity | vm_compute; discriminate].
Defined.
End IpTimeFacts.

(** ** The probe's budget covers every dial *)
Module ProbeTimeFacts.
Import Timing TimingFacts ProbeTime.

(** A probe of budget [b] sees the end of the dial, and what follows within ten
    seconds of it. *)
Definition covered {E C} (b : Z) (dial : run (res E C)) : Prop :=
  match dial with
  | At t (Ok _) => forall u x, u <= 10000 -> get b dial (At u x) = At (t + u) (match x with Some body => Ok body | None => Err Failed end)
  | At t (Err _) => forall rest, get b dial rest = At t (Err Connecting)
  | At t Panic => forall rest, get b dial rest = At t Panic
  | Never => False
  end.

Lemma covered_within {E C} b d (dial : run (res E C)) : within d dial -> d + 10000 <= b -> covered b dial.
Proof.
  intros (t & r & -> & Ht) Hb. destruct r as [c|e|]; cbn [covered]; [intros u x Hu|intros rest..]; unfold get; cbn [map_run after delay];
    rewrite timeout_in_time by lia; done.
Qed.

(** C27. The health probe's default budget covers the bounded dials of every outlet it
    is used on: with at least 63 seconds, a probe never times out during a dial
    through MASQUE or through the tunnel's IP stack; a failed dial is reported as
    such when it fails, and after a successful one there are always ten seconds
    left for TLS and the response. *)
Theorem probe_covers_dials config : 63 <= App.healthcheck_probe_timeout config ->
  (forall w host, MasqueTime.dial_forward w -> covered (probe_budget config) (MasqueTime.connect_tcp w host)) /\
  (forall connect a aaaa host port, (forall t, forward (connect t) = true) -> forward a = true -> forward aaaa = true ->
     covered (probe_budget config) (IpTime.connect_tcp connect a aaaa host port)).
Proof.
  intros Hc. unfold probe_budget. split.
  - intros w host Hw. apply (covered_within _ MasqueTime.CONNECT_TIMEOUT); [|unfold MasqueTime.CONNECT_TIMEOUT; lia].
    by apply MasqueTimeFacts.dial_within.
  - intros connect a aaaa host port Hf Ha H6. apply (covered_within _ (IpTime.budget host)); [by apply IpTimeFacts.dial_within_budget|].
    unfold IpTime.budget, IpTime.DNS_TIMEOUT, IpTime.CONNECT_TIMEOUT; destruct host; lia.
Qed.

Lemma probe_covers_dials_witness :
  63 <= App.healthcheck_probe_timeout (App.from_env (fun _ => None)) /\
  forall rest, get (probe_budget (App.from_env (fun _ => None))) (MasqueTime.connect_tcp MasqueTimeFacts.slow_dial (Ip (V4 [1; 1; 1; 1]))) rest
    = At 53000 (Err Connecting).
Proof.
  assert (Hd : 63 <= App.healthcheck_probe_timeout (App.from_env (fun _ => None))) by (vm_compute; discriminate).
  split; [exact Hd|]. pose proof (proj1 (probe_covers_dials _ Hd) MasqueTimeFacts.slow_dial (Ip (V4 [1; 1; 1; 1])) MasqueTimeFacts.slow_forward) as Hp.
  rewrite MasqueTimeFacts.slow_dial_edge in Hp |- *. exact Hp.
Defined.
End ProbeTimeFacts.
