(* ===== verification/Outlets.v ===== *)
(** * Bringing an IP outlet up

    [WgTunnel::connect] ([src/src/tunnel.rs]), [WgOutbound::establish]
    ([src/src/outbound/wireguard.rs]), [MasqueH2::new]
    ([src/src/outbound/masque/h2_outbound.rs]) and the diagnostic of
    [src/src/bin/handshake_probe.rs]: the tunnel, the handshake or the H2 stream,
    and then the network stack, from whose running state ([NetLife]) every socket
    of the outlet comes. *)
From S2P Require Import Prelude RustStr Fs NetAddr Conn Outbound Dataplane Tunnel Netstack NetLife Config Handshake Registration.
From S2P Require Import Masque MasqueLink H2 H2Dev NetOutlet.

Module Outlets.
Import WgConf App NetSetup.

(** ** [WgTunnel::connect] *)
Inductive connect_error := NoTunn | BindFailed (e : ErrorKind) | UdpConnectFailed (e : ErrorKind).

(** boringtun's constructor (keys, keepalive, index), the draw of the index, and
    the outer socket. *)
Record tunnel_world {N : Tunn} := mk_tunnel_world {
  tunn_new : bytes -> bytes -> Z -> Z -> option tunn; index_draw : Z;
  udp_bind : SocketAddr -> res ErrorKind Tunnel.Sock; udp_connect : SocketAddr -> res ErrorKind unit
}.
Arguments tunnel_world : clear implicits.

Definition KEEPALIVE : Z := 5.
Definition TUNNEL_MTU : Z := 1330.
Definition outer_bind_addr (endpoint : SocketAddr) : SocketAddr :=
  if is_ipv4 endpoint then SockV4 [0; 0; 0; 0] 0 else SockV6 (replicate 16 0) 0 0.

Definition tunnel_connect {N : Tunn} (w : tunnel_world N) (c : WgConfig) : res connect_error Tunnel.WgTunnel :=
  let peer_index := gen_range 1 16777215 (index_draw w) in
  tunn ← ok_or (tunn_new w (private_key c) (peer_public_key c) KEEPALIVE peer_index) NoTunn;
  sock ← map_err BindFailed (udp_bind w (outer_bind_addr (endpoint c)));
  _ ← map_err UdpConnectFailed (udp_connect w (endpoint c));
  Ok (Tunnel.mk_tunnel tunn sock (reserved c) Dataplane.new Tunnel.tracker_default [] []).

Section outlets.
Context {M : NetLife.Smol} (max_addrs max_routes : nat).

(** [Net::new_inner]: the interface, then the running stack over a device of this MTU. *)
Definition start_net (config : NetConfig) (mtu : Z) (observer : option Dataplane.ObserverInner) : res ErrorKind NetLife.net :=
  i ← new_inner max_addrs max_routes config;
  Ok (NetLife.net_new (NetSetup.source_v4 i) (NetSetup.source_v6 i) mtu observer).

(** ** [WgOutbound::establish] *)
Inductive establish_error := TunnelError (e : connect_error) | HandshakeError (e : Handshake.hs_error) | StackError (e : ErrorKind).

Record handshake_world := mk_handshake { rng : Handshake.decoy_rng; started : Z; turns : list Handshake.turn }.

Definition establish {N : Tunn} (w : tunnel_world N) (h : handshake_world) (c : WgConfig) (trick : Trick) (timeout : Z)
    : poll (res establish_error (Tunnel.WgTunnel * NetLife.net)) :=
  match tunnel_connect w c with
  | Ok tunnel =>
      match Handshake.handshake trick (rng h) (started h) timeout (turns h) tunnel with
      | (Ready (Ok _), tunnel) =>
          match start_net (wg_net_config c) TUNNEL_MTU (Some (Tunnel.observer tunnel)) with
          | Ok n => Ready (Ok (tunnel, n))
          | Err e => Ready (Err (StackError e))
          | Panic => Ready Panic
          end
      | (Ready (Err e), _) => Ready (Err (HandshakeError e))
      | (Ready Panic, _) => Ready Panic
      | (Pending, _) => Pending
      end
  | Err e => Ready (Err (TunnelError e))
  | Panic => Ready Panic
  end.

(** ** [MasqueH2::new] *)
Inductive h2_outlet_error := AddressError (e : addr_error) | EdgeError (e : Edge.edge_error) | NoDevice (r : H2.h2_connect) | H2StackError (e : ErrorKind).

Definition masque_h2_new {X : X509} {R : Edge.Rustls} (creds : MasqueReg.RegCredentials) (upstream : Outbound) (w : SocketAddr -> H2Dev.dial_world)
    : res h2_outlet_error (SocketAddr * NetLife.net) :=
  config ← map_err AddressError (h2_net_config (MasqueReg.registration creds));
  reached ← map_err EdgeError (H2Dev.connect_device creds upstream w);
  match reached with
  | H2.Connected_to addr => n ← map_err H2StackError (start_net config H2.PACKET_MTU None); Ok (addr, n)
  | other => Err (NoDevice other)
  end.
End outlets.

(** ** [handshake_probe] *)
Inductive probe_error := ProbeUsage | BadTrick | ConfError (e : conf_error) | ProbeTunnel (e : connect_error) | ProbeHandshake (e : Handshake.hs_error) | NoLocalAddr.

(** 20 seconds, in nanoseconds. *)
Definition PROBE_TIMEOUT : Z := 20000000000.

Definition parse_trick (arg : bytes) : option Trick :=
  if bytes_eqb arg (str_bytes "none") then Some TrickNone
  else if bytes_eqb arg (str_bytes "t1") then Some T1
  else if bytes_eqb arg (str_bytes "t2") then Some T2
  else None.

(** The program, on its arguments and the contents of files; [local_ok]: the local
    address can be read. *)
Definition handshake_probe {B : Base64} {N : Tunn} (lookup_host : bytes -> option (list SocketAddr)) (w : tunnel_world N) (h : handshake_world)
    (local_ok : bool) (args : list bytes) (s : fs) : poll (res probe_error unit) :=
  match args with
  | [_; conf_path; trick] =>
      match parse_trick trick with
      | None => Ready (Err BadTrick)
      | Some trick =>
          match parse_wg_conf lookup_host (s !! conf_path) with
          | Ok config =>
              match tunnel_connect w config with
              | Ok tunnel =>
                  match Handshake.handshake trick (rng h) (started h) PROBE_TIMEOUT (turns h) tunnel with
                  | (Ready (Ok _), _) => Ready (if local_ok then Ok tt else Err NoLocalAddr)
                  | (Ready (Err e), _) => Ready (Err (ProbeHandshake e))
                  | (Ready Panic, _) => Ready Panic
                  | (Pending, _) => Pending
                  end
              | Err e => Ready (Err (ProbeTunnel e))
              | Panic => Ready Panic
              end
          | Err e => Ready (Err (ConfError e))
          | Panic => Ready Panic
          end
      end
  | _ => Ready (Err ProbeUsage)
  end.
End Outlets.

Module OutletsFacts.
Import WgConf App NetSetup NetLife NetLifeFacts Outlets.

(** The stack of a list of addresses, whatever happens on it afterwards. *)
Section stack.
Context {M : Smol} {L : SmolLaws M}.

(** Every endpoint of the stack is one of the configured addresses, and a target is
    served exactly when its family is configured. *)
Definition serves (l : list IpAddr) (n : net) : Prop :=
  (forall h x a p, socks n !! h = Some x -> bound x = Some (a, p) -> a ∈ l) /\
  (forall target, Ports.source_for (NetLife.source_v4 n) (NetLife.source_v6 n) target =
     match NetOutletFacts.first_of (sa_ip target) l with Some ip => Ok ip | None => Err AddrNotAvailable end).

Lemma first_of_elem f l a : NetOutletFacts.first_of f l = Some a -> a ∈ l.
Proof. unfold NetOutletFacts.first_of. intros [H _]%List.find_some. by apply list_elem_of_In. Qed.

Lemma start_net_serves max_addrs max_routes l mtu o n es n' : (2 <= max_routes)%nat ->
  start_net max_addrs max_routes (net_config l) mtu o = Ok n -> run es n = Some n' -> serves (map fst l) n' /\ NetLife.mtu n' = mtu.
Proof.
  intros Hm. unfold start_net. destruct (new_inner _ _ _) as [i|e|] eqn:Hn; cbn; [|done..]. intros [= <-] Hr.
  destruct (NetOutletFacts.stack_setup max_addrs max_routes l Hm) as [_ Hs]. destruct (Hs i Hn) as (_ & _ & Hsrc).
  set (n0 := net_new _ _ _ _) in Hr. assert (O0 : own_addresses n0) by (intros h x a p; cbn; by rewrite lookup_empty).
  destruct (net_run_own es n0 n' (wf_new _ _ _ _) O0 Hr) as [Hset Hown].
  unfold settings in Hset. cbn in Hset. injection Hset as H4 H6 Hmtu. split; [|done]. split.
  - intros h x a p Hx Hb. pose proof (Hown h x a p Hx Hb) as Ho. rewrite H4, H6 in Ho.
    assert (Hf : forall f, Ports.source_for (NetSetup.source_v4 i) (NetSetup.source_v6 i) f = Ok a -> a ∈ map fst l).
    { intros f Hf. rewrite Hsrc in Hf. destruct (NetOutletFacts.first_of _ _) eqn:He; [|done]. injection Hf as ->. by eapply first_of_elem. }
    destruct Ho as [Ho|Ho]; [apply (Hf (SockV4 [] 0))|apply (Hf (SockV6 [] 0 0))]; unfold Ports.source_for; cbn; by rewrite Ho.
  - intros target. rewrite H4, H6. apply Hsrc.
Qed.
End stack.

(** C16. A WireGuard outlet comes up whole or not at all: it is handed out only when
    the outer socket was connected to the configured endpoint and boringtun has
    completed a handshake; from then on, whatever its callers, the reactor and the
    stop do, every socket of its stack is bound to one of the two configured
    tunnel addresses, targets of both families are served, each from the address
    of its family, and datagrams are limited by the tunnel's MTU. *)
Theorem wireguard_outlet_up {M : Smol} {L : SmolLaws M} {N : Tunn} {LN : TunnLaws N} max_addrs max_routes w h c trick timeout tunnel n es n' :
  (2 <= max_routes)%nat -> establish max_addrs max_routes w h c trick timeout = Ready (Ok (tunnel, n)) -> run es n = Some n' ->
  udp_connect w (endpoint c) = Ok tt /\ Handshake.shaken tunnel = true /\
  (forall i x a p, socks n' !! i = Some x -> bound x = Some (a, p) -> a = V4 (address_v4 c) \/ a = V6 (address_v6 c)) /\
  (forall target, Ports.source_for (NetLife.source_v4 n') (NetLife.source_v6 n') target =
     Ok (if is_ipv4 target then V4 (address_v4 c) else V6 (address_v6 c))) /\
  NetLife.mtu n' = TUNNEL_MTU.
Proof.
  intros Hm. unfold establish, tunnel_connect. destruct (tunn_new w _ _ _ _) as [t|]; cbn [ok_or mbind res_bind]; [|done].
  destruct (udp_bind w _) as [k|e|]; cbn [map_err mbind res_bind]; [|done..]. destruct (udp_connect w (endpoint c)) as [[]|e|]; cbn [map_err mbind res_bind]; [|done..].
  destruct (Handshake.handshake _ _ _ _ _ _) as [[[[]|e|]|] tun] eqn:Hh; [|done..].
  destruct (start_net _ _ _ _ _) as [n0|e|] eqn:Hn; [|done..]. intros [= -> ->] Hr. split; [done|].
  split; [by eapply HandshakeFacts.handshake_shaken|].
  destruct (start_net_serves _ _ _ _ _ _ es n' Hm Hn Hr) as [[H1 H2] H3]. split_and!; [|intros target; rewrite H2; by destruct target|done].
  intros i x a p Hx Hb. pose proof (H1 i x a p Hx Hb) as Ha. cbn in Ha. set_solver.
Qed.

(** The MASQUE-H2 outlet: the same for the addresses of the registration; a family
    that was not assigned is refused. *)
Theorem masque_h2_up {M : Smol} {L : SmolLaws M} {X : X509} {R : Edge.Rustls} max_addrs max_routes creds upstream w addr n es n' :
  (2 <= max_routes)%nat -> masque_h2_new max_addrs max_routes creds upstream w = Ok (addr, n) -> run es n = Some n' ->
  exists l, h2_net_config (MasqueReg.registration creds) = Ok (net_config l) /\ l <> [] /\ serves (map fst l) n' /\ NetLife.mtu n' = H2.PACKET_MTU.
Proof.
  intros Hm. unfold masque_h2_new. destruct (h2_net_config _) as [config|e|] eqn:Hc; cbn [map_err mbind res_bind]; [|done..].
  destruct (H2Dev.connect_device _ _ _) as [r|e|]; cbn [map_err mbind res_bind]; [|done..]. destruct r; try done.
  destruct (start_net _ _ _ _ _) as [n0|e|] eqn:Hn; cbn [map_err mbind res_bind]; [|done..]. intros [= <- <-] Hr.
  assert (Hl : exists l, config = net_config l /\ l <> []).
  { unfold h2_net_config in Hc. destruct (if bytes_eqb (trim (MasqueReg.assigned_ipv4 _)) [] then _ else _) as [v4|e|]; cbn [mbind res_bind] in Hc; [|done..].
    destruct (if bytes_eqb (trim (MasqueReg.assigned_ipv6 _)) [] then _ else _) as [v6|e|]; cbn [mbind res_bind] in Hc; [|done..].
    destruct (v4 ++ v6) as [|x l]; [done|]. injection Hc as <-. by exists (x :: l). }
  destruct Hl as (l & -> & Hne). exists l. split; [done|]. split; [done|]. by eapply start_net_serves.
Qed.

(** An outlet on which a connection is opened and the device then fails. *)
Definition sample_tunnel : tunnel_world HandshakeFacts.shaker :=
  @mk_tunnel_world HandshakeFacts.shaker (fun _ _ _ _ => Some false) 5
    (fun _ => Ok (Tunnel.mk_sock (repeat Tunnel.Sent 40) [] [] [])) (fun _ => Ok tt).
Definition sample_handshake : handshake_world := mk_handshake HandshakeFacts.rng0 0 HandshakeFacts.turns.

Definition is_Some_b {A} (o : option A) : bool := match o with Some _ => true | None => false end.

Lemma wireguard_outlet_up_witness :
  match establish (M:=toy_smol) 2 2 sample_tunnel sample_handshake WgConfFacts.sample_config T2 5000 with
  | Ready (Ok (_, n)) =>
      match run [EConnect 0 0 toy_target; EPoll 0; EEnd None; ETaskStop; EStopAll] n with
      | Some n' => forall target, Ports.source_for (NetLife.source_v4 n') (NetLife.source_v6 n') target =
          Ok (if is_ipv4 target then V4 [10; 0; 0; 2] else V6 (253 :: replicate 14 0 ++ [2]))
      | None => False
      end
  | _ => False
  end.
Proof.
  assert (HL : TunnLaws HandshakeFacts.shaker) by (by constructor). pose proof toy_laws as HM.
  assert (Hv : match establish (M:=toy_smol) 2 2 sample_tunnel sample_handshake WgConfFacts.sample_config T2 5000 with
    | Ready (Ok (_, n)) => is_Some_b (run [EConnect 0 0 toy_target; EPoll 0; EEnd None; ETaskStop; EStopAll] n) | _ => false end = true)
    by (vm_compute; reflexivity).
  destruct (establish (M:=toy_smol) 2 2 sample_tunnel sample_handshake WgConfFacts.sample_config T2 5000) as [[[tunnel n]|e|]|] eqn:He;
    [|discriminate Hv..].
  destruct (run [EConnect 0 0 toy_target; EPoll 0; EEnd None; ETaskStop; EStopAll] n) as [n'|] eqn:Hr; [|discriminate Hv].
  exact (proj1 (proj2 (proj2 (proj2 (wireguard_outlet_up (L:=HM) (LN:=HL) 2 2 sample_tunnel sample_handshake WgConfFacts.sample_config T2 5000
    tunnel n _ n' (le_n 2) He Hr))))).
Defined.

(** The diagnostic, on a configuration the program wrote itself. *)
Example handshake_probe_runs :
  handshake_probe (B:=WgConfFacts.letters) (fun _ => None) sample_tunnel sample_handshake true
    [[]; [47]; str_bytes "t2"] {[ [47] := wg_conf_text (B:=WgConfFacts.letters) WgConfFacts.sample_config ]} = Ready (Ok tt).
Proof. vm_compute. reflexivity. Qed.
End OutletsFacts.
