(* ===== verification/Psiphon.v ===== *)
(** * The Psiphon hop: [src/src/outbound/psiphon/server_list.rs] and
    [src/src/outbound/psiphon/mod.rs]

    The signed server list, the choice of SSH candidates, host-key checking, and
    the byte stream bridged over an SSH channel.  Decompression, JSON, SHA-256,
    RSA and the SSH client are third party: a class, or outcomes of the calls. *)
From S2P Require Import Prelude RustStr NetAddr Outbound Config.

Module ServerList.
Record ServerEntry := mk_entry {
  ip_address : bytes; ssh_port : Z; ssh_username : bytes; ssh_password : bytes; ssh_host_key : bytes;
  capabilities : list bytes; region : bytes
}.
Record AuthenticatedPackage := mk_package { data : bytes; signing_public_key_digest : bytes; signature : bytes }.

Definition MAX_PACKAGE_BYTES : Z := 64 * 1024 * 1024.
(** The contents of [signing_key.txt]. *)
Definition SIGNING_PUBLIC_KEY : bytes := str_bytes "MIICIDANBgkqhkiG9w0BAQEFAAOCAg0AMIICCAKCAgEAt7Ls+/39r+T6zNW7GiVpJfzq/xvL9SBH5rIFnk0RXYEYavax3WS6HOD35eTAqn8AniOwiH+DOkvgSKF2caqk/y1dfq47Pdymtwzp9ikpB1C5OfAysXzBiwVJlCdajBKvBZDerV1cMvRzCKvKwRmvDmHgphQQ7WfXIGbRbmmk6opMBh3roE42KcotLFtqp0RRwLtcBRNtCdsrVsjiI1Lqz/lH+T61sGjSjQ3CHMuZYSQJZo/KrvzgQXpkaCTdbObxHqb6/+i1qaVOfEsvjoiyzTxJADvSytVtcTjijhPEV6XskJVHE1Zgl+7rATr/pDQkw6DPCNBS1+Y6fy7GstZALQXwEDN/qhQI9kWkHijT8ns+i1vGg00Mk/6J75arLhqcodWsdeG/M/moWgqQAnlZAGVtJI1OgeF5fsPpXu4kctOfuZlGjVZXQNW34aOzm8r8S0eVZitPlbhcPiR4gT/aSMz/wd8lZlzZYsje/Jr8u/YtlwjjreZrGRmG8KMOzukV3lLmMppXFMvl4bxv6YFEmIuTsOhbLTwFgh7KYNjodLj/LsqRVfwz31PgWQFTEPICV7GCvgVlPRxnofqKSjgTWI4mxDhBpVcATvaoBl1L/6WLbFvBsoAUBItWwctO2xalKxF5szhGm8lccoc5MZr8kfE0uxMgsxz4er68iCID+rsCAQM=" ++ [10].
End ServerList.

Class PackageCodec := {
  (** the first [n] decompressed bytes, or a decompression error *)
  inflate : bytes -> Z -> option bytes;
  package_from_json : bytes -> option ServerList.AuthenticatedPackage;
  entry_from_json : bytes -> option ServerList.ServerEntry;
  sha256 : bytes -> bytes;
  rsa_key : Type;
  from_public_key_der : bytes -> option rsa_key;
  (** PKCS#1 v1.5 over a SHA-256 digest *)
  rsa_verify : rsa_key -> bytes -> bytes -> bool
}.

Module Servers.
Import ServerList.

Inductive list_error :=
| DownloadFailed | InflateFailed | TooLarge | BadPackage | BadDigest | DigestMismatch | BadKey | BadSignature | Unverified.

(** *** [hex::decode] *)
Definition hex_val (c : Z) : option Z :=
  if is_digit c then Some (c - 48)
  else if (97 <=? c) && (c <=? 102) then Some (c - 87)
  else if (65 <=? c) && (c <=? 70) then Some (c - 55)
  else None.
Fixpoint hex_decode (s : bytes) : option bytes :=
  match s with
  | [] => Some []
  | a :: b :: s => x ← hex_val a; y ← hex_val b; r ← hex_decode s; Some (x * 16 + y :: r)
  | [_] => None
  end.

(** [bytes.splitn(n, ' ')], and its fifth part. *)
Fixpoint splitn (n : nat) (c : Z) (s : bytes) : list bytes :=
  match n with
  | O => []
  | S O => [s]
  | S n => match split_once c s with Some (h, t) => h :: splitn n c t | None => [s] end
  end.

Section list.
Context {B : Base64} {K : PackageCodec}.

(** One line of the signed data. *)
Definition line_entry (country line : bytes) : option ServerEntry :=
  raw ← hex_decode line;
  json ← splitn 5 32 raw !! 4%nat;
  entry ← entry_from_json json;
  if eq_ignore_ascii_case (region entry) country && bool_decide (is_Some (parse_ip (ip_address entry))) then Some entry else None.

Fixpoint collect (country : bytes) (ls : list bytes) (entries : list ServerEntry) : list ServerEntry :=
  match ls with
  | [] => entries
  | l :: ls =>
      if bytes_eqb l [] then collect country ls entries
      else match line_entry country l with
           | Some e => collect country ls (entries ++ [e])
           | None => collect country ls entries
           end
  end.

Definition decode (compressed country : bytes) : res list_error (list ServerEntry) :=
  decoded ← ok_or (inflate compressed (MAX_PACKAGE_BYTES + 1)) InflateFailed;
  _ ← bail_if (MAX_PACKAGE_BYTES <? zlen decoded) TooLarge;
  package ← ok_or (package_from_json decoded) BadPackage;
  let signing_key := trim SIGNING_PUBLIC_KEY in
  digest ← ok_or (b64_decode (signing_public_key_digest package)) BadDigest;
  _ ← bail_if (negb (bytes_eqb digest (sha256 signing_key))) DigestMismatch;
  key_der ← ok_or (b64_decode signing_key) BadKey;
  key ← ok_or (from_public_key_der key_der) BadKey;
  sig ← ok_or (b64_decode (signature package)) BadSignature;
  _ ← bail_if (negb (rsa_verify key (sha256 (data package)) sig)) Unverified;
  Ok (collect country (lines (data package)) []).

(** [fetch]: the response of the download; [None] when there is none. *)
Definition fetch (response : option (Z * option bytes * list Https.frame)) (country : bytes) : res list_error (list ServerEntry) :=
  match response with
  | None => Err DownloadFailed
  | Some (status, content_length, frames) =>
      compressed ← map_err (fun _ => DownloadFailed) (Https.get_response MAX_PACKAGE_BYTES status content_length frames);
      decode compressed country
  end.

(** [Psiphon::candidates] *)
Definition is_ssh (e : ServerEntry) : bool :=
  negb (ssh_port e =? 0) && existsb (fun c => bytes_eqb c (str_bytes "SSH")) (capabilities e).
Definition candidates (response : option (Z * option bytes * list Https.frame)) (country : bytes) : res list_error (list ServerEntry) :=
  entries ← fetch response country;
  Ok (List.filter is_ssh entries).

(** *** [connect_entry] *)
Inductive connect_error := BadAddress | TcpFailed | BadHostKey | HostKeyMismatch | AuthFailed | HandshakeFailed.

(** What a connection meets: the TCP outlet, the key the server presents (the
    client asks for a decision on it before anything else), whether the password
    is accepted, and the answer to the handshake request. *)
Record ssh_world := mk_ssh {
  tcp : IpAddr -> Z -> bool; server_key : bytes; auth_ok : bool; handshake_json : option bool
}.

(** The decision of the event task. *)
Definition accept_key (expected key : bytes) : bool := bytes_eqb key expected.

Definition connect_entry (w : ssh_world) (e : ServerEntry) : res connect_error (IpAddr * Z) :=
  ip ← ok_or (parse_ip (ip_address e)) BadAddress;
  _ ← bail_if (negb (tcp w ip (ssh_port e))) TcpFailed;
  expected ← ok_or (b64_decode (ssh_host_key e)) BadHostKey;
  _ ← bail_if (negb (accept_key expected (server_key w))) HostKeyMismatch;
  _ ← bail_if (negb (auth_ok w)) AuthFailed;
  match handshake_json w with
  | Some true => Ok (ip, ssh_port e)
  | _ => Err HandshakeFailed
  end.
End list.

(** *** [normalize_country] *)
Definition COUNTRIES : list bytes :=
  map str_bytes ["AT"; "AU"; "BE"; "BG"; "CA"; "CH"; "CZ"; "DE"; "DK"; "EE"; "ES"; "FI"; "FR"; "GB"; "HR"; "HU"; "IE"; "IN";
    "IT"; "JP"; "LV"; "NL"; "NO"; "PL"; "PT"; "RO"; "RS"; "SE"; "SG"; "SK"; "US"]%string.
Definition normalize_country (raw : bytes) : option bytes :=
  let country := to_ascii_uppercase (trim raw) in
  if bool_decide (country ∈ COUNTRIES) then Some country else None.

(** [validate_psiphon_config] of the supervisor: [None] is the error. *)
Definition validate_psiphon_config (raw : bytes) : option (option bytes) :=
  match trim raw with
  | [] => Some None
  | country => Some <$> normalize_country country
  end.
End Servers.

Module ServersFacts.
Import ServerList Servers.

Section facts.
Context {B : Base64} {K : PackageCodec}.

(** The entries of the signed text: bad lines are skipped, the others kept in order. *)
Definition entries_of (country text : bytes) : list ServerEntry :=
  omap (line_entry country) (List.filter (fun l => negb (bytes_eqb l [])) (lines text)).

Lemma collect_spec country ls acc :
  collect country ls acc = acc ++ omap (line_entry country) (List.filter (fun l => negb (bytes_eqb l [])) ls).
Proof.
  revert acc. induction ls as [|l ls IH]; intros acc; cbn [collect List.filter]; [by rewrite app_nil_r|].
  destruct (bytes_eqb l []); cbn [negb]; [apply IH|]. cbn [omap list_omap]. destruct (line_entry country l) as [e|]; rewrite IH; [|done].
  by rewrite <-app_assoc.
Qed.

(** A line that is kept. *)
Lemma line_entry_ok country l e : line_entry country l = Some e ->
  eq_ignore_ascii_case (region e) country = true /\ is_Some (parse_ip (ip_address e)).
Proof.
  unfold line_entry. destruct (hex_decode l) as [raw|]; [|done]. cbn [mbind option_bind]. destruct (splitn 5 32 raw !! 4%nat) as [json|]; [|done]. cbn [mbind option_bind].
  destruct (entry_from_json json) as [e'|]; [|done]. cbn [mbind option_bind]. destruct (_ && _) eqn:Hb; [|done]. intros [= <-].
  apply andb_true_iff in Hb as [H1 H2]. by apply bool_decide_eq_true_1 in H2.
Qed.

Lemma decode_ok compressed country es : decode compressed country = Ok es ->
  exists decoded pkg der key sig, inflate compressed (MAX_PACKAGE_BYTES + 1) = Some decoded /\ zlen decoded <= MAX_PACKAGE_BYTES /\
    package_from_json decoded = Some pkg /\ b64_decode (trim SIGNING_PUBLIC_KEY) = Some der /\ from_public_key_der der = Some key /\
    b64_decode (signature pkg) = Some sig /\ rsa_verify key (sha256 (data pkg)) sig = true /\ es = entries_of country (data pkg).
Proof.
  unfold decode. destruct (inflate _ _) as [d|]; [|done]. cbn [ok_or mbind res_bind]. unfold bail_if. destruct (Z.ltb_spec MAX_PACKAGE_BYTES (zlen d)); [done|].
  cbn [mbind res_bind]. destruct (package_from_json d) as [pkg|] eqn:Hp; [|done]. cbn [ok_or mbind res_bind]. cbv zeta.
  destruct (b64_decode (signing_public_key_digest pkg)) as [dg|]; [|done]. cbn [ok_or mbind res_bind]. destruct (negb _); [done|]. cbn [mbind res_bind].
  destruct (b64_decode (trim SIGNING_PUBLIC_KEY)) as [der|]; [|done]. cbn [ok_or mbind res_bind].
  destruct (from_public_key_der der) as [key|] eqn:Hk; [|done]. cbn [ok_or mbind res_bind].
  destruct (b64_decode (signature pkg)) as [sig|] eqn:Hs; [|done]. cbn [ok_or mbind res_bind].
  destruct (rsa_verify key _ sig) eqn:Hv; [|done]. cbn [negb mbind res_bind]. intros [= <-].
  exists d, pkg, der, key, sig. split_and!; try done. apply collect_spec.
Qed.
End facts.

(** C19. Psiphon servers come from the signed list.  Whatever the download returned,
    the candidates are the entries of a text whose signature verifies under the
    built-in key, in their order, malformed lines skipped: those in the country,
    with an address, an SSH port and the SSH capability.  A connection to one of
    them succeeds only with the host key the list gives for it. *)
Theorem candidates_authentic {B : Base64} {K : PackageCodec} response country es : candidates response country = Ok es ->
  (exists decoded pkg der key sig, zlen decoded <= MAX_PACKAGE_BYTES /\ package_from_json decoded = Some pkg /\
     b64_decode (trim SIGNING_PUBLIC_KEY) = Some der /\ from_public_key_der der = Some key /\
     b64_decode (signature pkg) = Some sig /\ rsa_verify key (sha256 (data pkg)) sig = true /\
     es = List.filter is_ssh (entries_of country (data pkg))) /\
  Forall (fun e => ssh_port e <> 0 /\ str_bytes "SSH" ∈ capabilities e /\ eq_ignore_ascii_case (region e) country = true /\
     is_Some (parse_ip (ip_address e)) /\
     forall w ip port, connect_entry w e = Ok (ip, port) ->
       b64_decode (ssh_host_key e) = Some (server_key w) /\ parse_ip (ip_address e) = Some ip /\ tcp w ip (ssh_port e) = true) es.
Proof.
  unfold candidates, fetch. destruct response as [[[st len] frames]|]; [|done].
  destruct (Https.get_response _ _ _ _) as [compressed|x|]; [|done..]. cbn [map_err mbind res_bind].
  destruct (decode compressed country) as [es0|x|] eqn:Hd; [|done..]. cbn [mbind res_bind]. intros [= <-].
  apply decode_ok in Hd as (decoded & pkg & der & key & sig & _ & Hl & Hp & Hb & Hk & Hs & Hv & ->).
  split; [by exists decoded, pkg, der, key, sig|]. apply Forall_forall. intros e He%list_elem_of_In.
  apply filter_In in He as [Hin Hssh]. apply list_elem_of_In in Hin. apply list_elem_of_omap in Hin as (l & _ & Hle). apply line_entry_ok in Hle as [Hr Hi].
  unfold is_ssh in Hssh. apply andb_true_iff in Hssh as [Hport Hcap]. apply negb_true_iff, Z.eqb_neq in Hport.
  apply existsb_exists in Hcap as (c & Hc & Hcs). apply bool_decide_eq_true_1 in Hcs as ->. apply list_elem_of_In in Hc.
  split_and!; try done. intros w ip port. unfold connect_entry, bail_if, accept_key. destruct (parse_ip _) as [ip'|]; [|done]. cbn [ok_or mbind res_bind].
  destruct (tcp w ip' (ssh_port e)) eqn:Ht; [|done]. cbn [negb mbind res_bind]. destruct (b64_decode (ssh_host_key e)) as [k|]; [|done]. cbn [ok_or mbind res_bind].
  destruct (bytes_eqb (server_key w) k) eqn:Hkey; [|done]. apply bool_decide_eq_true_1 in Hkey as ->. cbn [negb mbind res_bind].
  destruct (auth_ok w); [|done]. cbn [negb mbind res_bind]. destruct (handshake_json w) as [[]|]; [|done..]. by intros [= <- <-].
Qed.

(** A toy service: one server in Japan, one malformed line before it. *)
Definition tokyo : ServerEntry :=
  mk_entry (str_bytes "192.0.2.7") 22 [117] [112] (b64_encode (Base64:=WgConfFacts.letters) [5; 6]) [str_bytes "SSH"] (str_bytes "jp").
#[export] Instance toy_package : PackageCodec := {
  inflate b n := Some (if zlen b <=? n then b else take (Z.to_nat n) b);
  package_from_json b := Some (mk_package b [] []);
  entry_from_json b := if bytes_eqb b [88] then Some tokyo else None;
  sha256 _ := [];
  rsa_key := unit;
  from_public_key_der _ := Some tt;
  rsa_verify _ _ _ := true
}.
Definition toy_list : bytes := str_bytes "zz" ++ [10] ++ str_bytes "612062206320642058" ++ [10].

Lemma candidates_authentic_witness :
  let es := candidates (B:=WgConfFacts.letters) (Some (200, None, [Https.Data toy_list])) (str_bytes "JP") in
  es = Ok [tokyo] /\
  forall w ip port, connect_entry (B:=WgConfFacts.letters) w tokyo = Ok (ip, port) -> server_key w = [5; 6].
Proof.
  intros es. assert (He : es = Ok [tokyo]) by (vm_compute; reflexivity). split; [exact He|]. intros w ip port Hc.
  destruct (candidates_authentic (B:=WgConfFacts.letters) _ _ _ He) as [_ Hf]. apply Forall_inv in Hf as (_ & _ & _ & _ & Hf).
  destruct (Hf w ip port Hc) as [Hk _]. change (Some [5; 6] = Some (server_key w)) in Hk. congruence.
Defined.
End ServersFacts.

(** ** The bridged stream *)
Module Bridge.
Definition CAPACITY : Z := 65536.
Definition CHUNK : nat := Z.to_nat 16384.

Inductive chan_event := ChanData (d : bytes) | ChanEof | ChanOther | ChanClosed.

(** The task of [connect_tcp] and the stream's own fields.  [writing] is what the
    receiving half has yet to put into the duplex pipe; [rx] and [tx] are the
    results of the two halves; [task] is the finished task's result. *)
Record stream := mk_stream {
  writing : bytes; pipe : bytes; pipe_closed : bool; received_eof : bool; rx_done : bool;
  upload : bytes; upload_closed : bool; tx_done : bool; sent : list bytes; sent_eof : bool;
  task : option (res ErrorKind unit); task_taken : bool; closed : bool
}.
Definition stream_new : stream := mk_stream [] [] false false false [] false false [] false None false false.

(** The task has ended: the channel is closed and the bridge's ends are dropped. *)
Definition finish (r : res ErrorKind unit) (s : stream) : stream :=
  mk_stream [] (pipe s) true (received_eof s) (rx_done s) (upload s) (upload_closed s) (tx_done s) (sent s) (sent_eof s)
    (Some r) (task_taken s) true.
(** [try_join!]: done when both halves are. *)
Definition join_halves (s : stream) : stream := if rx_done s && tx_done s then finish (Ok tt) s else s.

Definition running (s : stream) : bool := match task s with None => true | Some _ => false end.

(** The receiving half gets an event, between writes. *)
Definition on_event (e : chan_event) (s : stream) : stream :=
  if running s && negb (rx_done s) && bytes_eqb (writing s) [] then
    match e with
    | ChanData d =>
        mk_stream d (pipe s) (pipe_closed s) (received_eof s) false (upload s) (upload_closed s) (tx_done s) (sent s) (sent_eof s)
          None (task_taken s) (closed s)
    | ChanEof =>
        join_halves (mk_stream [] (pipe s) true true true (upload s) (upload_closed s) (tx_done s) (sent s) (sent_eof s)
          None (task_taken s) (closed s))
    | ChanOther => s
    | ChanClosed => finish (Err UnexpectedEof) s
    end
  else s.

(** [write_all] makes progress: as much as the pipe has room for. *)
Definition on_write_progress (s : stream) : stream :=
  if running s then
    let n := Z.to_nat (CAPACITY - zlen (pipe s)) in
    mk_stream (drop n (writing s)) (pipe s ++ take n (writing s)) (pipe_closed s) (received_eof s) (rx_done s)
      (upload s) (upload_closed s) (tx_done s) (sent s) (sent_eof s) (task s) (task_taken s) (closed s)
  else s.

(** The sending half: a chunk of the upload, or its end; [ok] says whether the
    channel takes it. *)
Definition on_send (ok : bool) (s : stream) : stream :=
  if running s && negb (tx_done s) then
    match upload s with
    | [] =>
        if upload_closed s then
          if ok then
            join_halves (mk_stream (writing s) (pipe s) (pipe_closed s) (received_eof s) (rx_done s) [] true true (sent s) true
              None (task_taken s) (closed s))
          else finish (Err Other) s
        else s
    | up =>
        if ok then
          mk_stream (writing s) (pipe s) (pipe_closed s) (received_eof s) (rx_done s) (drop CHUNK up) (upload_closed s) false
            (sent s ++ [take CHUNK up]) (sent_eof s) None (task_taken s) (closed s)
        else finish (Err Other) s
    end
  else s.

(** [poll_read] of the duplex pipe, then of the stream; [room]: free bytes of the
    caller's buffer. *)
Definition duplex_read (room : nat) (s : stream) : poll bytes :=
  match pipe s with
  | [] => if pipe_closed s then Ready [] else Pending
  | p => Ready (take room p)
  end.
Definition poll_read (room : nat) (s : stream) : poll (res ErrorKind bytes) * stream :=
  match duplex_read room s with
  | Pending => (Pending, s)
  | Ready [] =>
      if (room =? 0)%nat then (Ready (Ok []), s)
      else if received_eof s then (Ready (Ok []), s)
      else if task_taken s then (Ready (Ok []), s)
      else match task s with
           | None => (Pending, s)
           | Some r =>
               (Ready (match r with Ok _ => Ok [] | Err e => Err e | Panic => Err Other end),
                mk_stream (writing s) (pipe s) (pipe_closed s) (received_eof s) (rx_done s) (upload s) (upload_closed s) (tx_done s)
                  (sent s) (sent_eof s) (task s) true (closed s))
           end
  | Ready d =>
      (Ready (Ok d),
       mk_stream (writing s) (drop room (pipe s)) (pipe_closed s) (received_eof s) (rx_done s) (upload s) (upload_closed s) (tx_done s)
         (sent s) (sent_eof s) (task s) (task_taken s) (closed s))
  end.

(** [poll_write] and [poll_shutdown] pass to the pipe. *)
Definition poll_write (buf : bytes) (s : stream) : poll (res ErrorKind Z) * stream :=
  if negb (running s) || tx_done s || upload_closed s then (Ready (Err BrokenPipe), s)
  else
    let n := Z.to_nat (CAPACITY - zlen (upload s)) in
    if (n =? 0)%nat then (Pending, s)
    else
      let d := take n buf in
      (Ready (Ok (zlen d)),
       mk_stream (writing s) (pipe s) (pipe_closed s) (received_eof s) (rx_done s) (upload s ++ d) (upload_closed s) (tx_done s)
         (sent s) (sent_eof s) (task s) (task_taken s) (closed s)).
Definition poll_shutdown (s : stream) : stream :=
  mk_stream (writing s) (pipe s) (pipe_closed s) (received_eof s) (rx_done s) (upload s) true (tx_done s)
    (sent s) (sent_eof s) (task s) (task_taken s) (closed s).
End Bridge.

Module BridgeFacts.
Import Bridge.

(** ** Every interleaving *)
Inductive op := Event (e : chan_event) | Progress | SendChunk (ok : bool) | Read (room : nat) | Write (buf : bytes) | Shutdown.

(** What crossed the ends of the stream: the data taken from the channel, the
    bytes read by the proxy, the bytes the proxy wrote, and whether a read failed. *)
Record log := mk_log { accepted : bytes; delivered : bytes; written : bytes; failed : bool }.
Definition log_new : log := mk_log [] [] [] false.

Definition takes_event (s : stream) : bool := running s && negb (rx_done s) && bytes_eqb (writing s) [].

Definition step (o : op) (x : stream * log) : stream * log :=
  let '(s, g) := x in
  match o with
  | Event e =>
      (on_event e s, match e with ChanData d => if takes_event s then mk_log (accepted g ++ d) (delivered g) (written g) (failed g) else g | _ => g end)
  | Progress => (on_write_progress s, g)
  | SendChunk ok => (on_send ok s, g)
  | Read room =>
      let '(r, s) := poll_read room s in
      (s, match r with
          | Ready (Ok d) => mk_log (accepted g) (delivered g ++ d) (written g) (failed g)
          | Ready _ => mk_log (accepted g) (delivered g) (written g) true
          | Pending => g
          end)
  | Write buf =>
      let '(r, s) := poll_write buf s in
      (s, match r with Ready (Ok n) => mk_log (accepted g) (delivered g) (written g ++ take (Z.to_nat n) buf) (failed g) | _ => g end)
  | Shutdown => (poll_shutdown s, g)
  end.
Definition run (ops : list op) : stream * log := fold_left (fun x o => step o x) ops (stream_new, log_new).

(** The download side. *)
Definition down_ok (s : stream) (g : log) : Prop :=
  (exists lost, accepted g = delivered g ++ pipe s ++ writing s ++ lost /\ (running s = true \/ received_eof s = true -> lost = [])) /\
  (received_eof s = true -> rx_done s = true /\ writing s = []) /\ (rx_done s = true -> received_eof s = true) /\
  (running s = false -> writing s = []) /\
  (pipe_closed s = true <-> received_eof s = true \/ running s = false) /\
  (task s = Some (Ok tt) -> received_eof s = true) /\ task s <> Some Panic /\
  (task_taken s = true -> failed g = true /\ running s = false) /\
  zlen (pipe s) <= CAPACITY.
(** The upload side. *)
Definition up_ok (s : stream) (g : log) : Prop :=
  written g = concat (sent s) ++ upload s /\ (tx_done s = true <-> sent_eof s = true) /\
  (sent_eof s = true -> upload s = [] /\ upload_closed s = true) /\ zlen (upload s) <= CAPACITY.
Definition inv (x : stream * log) : Prop := down_ok x.1 x.2 /\ up_ok x.1 x.2.

(** Ending the task drops what was still being written. *)
Lemma finish_inv r s g : inv (s, g) -> running s = true -> r <> Panic -> (r = Ok tt -> received_eof s = true) -> inv (finish r s, g).
Proof.
  intros [((lost & Ha & Hl) & H1 & H2 & H3 & H4 & H5 & H6 & H7 & H8) Hu] Hr Hp Ho. split; [|exact Hu]. unfold down_ok. cbn in *. split_and!.
  - exists (writing s ++ lost). cbn. split; [done|]. intros [?|He]; [done|]. destruct (H1 He) as [_ ->]. by rewrite Hl by auto.
  - intros He. by destruct (H1 He).
  - exact H2.
  - done.
  - split; [by right|done].
  - intros [= ->]. by apply Ho.
  - congruence.
  - intros Ht. by destruct (H7 Ht).
  - exact H8.
Qed.

Lemma join_inv s g : inv (s, g) -> running s = true -> inv (join_halves s, g).
Proof.
  intros Hi Hr. unfold join_halves. destruct (rx_done s) eqn:Hx; cbn [andb]; [|done]. destruct (tx_done s); [|done].
  pose proof Hi as [(_ & _ & H2 & _) _]. apply finish_inv; try done. intros _. by apply H2.
Qed.

Ltac open_inv H := destruct H as [((lost & Ha & Hl) & H1 & H2 & H3 & H4 & H5 & H6 & H7 & H8) (U1 & U2 & U3 & U4)]; cbn [fst snd] in *.

Lemma event_inv e s g : inv (s, g) -> inv (step (Event e) (s, g)).
Proof.
  intros Hi. cbn [step]. unfold on_event, takes_event. destruct (running s) eqn:Hr; cbn [andb]; [|by destruct e].
  destruct (rx_done s) eqn:Hx; cbn [negb andb]; [by destruct e|].
  unfold bytes_eqb. destruct (decide (writing s = [])) as [Hw|Hw]; [rewrite bool_decide_eq_true_2 by done|rewrite bool_decide_eq_false_2 by done; by destruct e].
  pose proof Hi as Hi2. cbn [inv fst snd] in Hi2. destruct e as [d| | |].
  - open_inv Hi2. assert (Ht : task s = None) by (unfold running in Hr; by destruct (task s)). split.
    + unfold down_ok, running in *. cbn in *. split_and!; try done.
      * exists []. rewrite Ha, Hw, Hl by auto. split; [|done]. by rewrite !app_nil_r, <-?app_assoc.
      * intros He. destruct (H1 He). congruence.
      * rewrite H4, Ht. done.
      * intros Hk. destruct (H7 Hk). congruence.
    + exact (conj U1 (conj U2 (conj U3 U4))).
  - apply join_inv; [|done]. open_inv Hi2. split; [|done]. unfold down_ok, running. cbn. split_and!; try done.
    + exists []. rewrite Ha, Hw, Hl by auto. by rewrite !app_nil_r.
    + split; [by left|done].
    + intros Hk. destruct (H7 Hk). congruence.
  - done.
  - apply finish_inv; done.
Qed.

Lemma progress_inv s g : inv (s, g) -> inv (step Progress (s, g)).
Proof.
  intros Hi. cbn [step]. unfold on_write_progress. destruct (running s) eqn:Hr; [|done]. open_inv Hi. cbn [fst snd] in *. split; [|done].
  unfold down_ok, running in *. cbn. split_and!; try done.
  - exists lost. rewrite Ha. split; [|done]. by rewrite <-!app_assoc, (app_assoc (take _ _)), take_drop.
  - intros He. destruct (H1 He) as [? ->]. by rewrite drop_nil.
  - intros Hf. destruct (task s); discriminate.
  - unfold zlen in *. rewrite length_app, length_take. lia.
Qed.

Lemma send_inv ok s g : inv (s, g) -> inv (step (SendChunk ok) (s, g)).
Proof.
  intros Hi. cbn [step]. unfold on_send. destruct (running s) eqn:Hr; cbn [andb]; [|done]. destruct (tx_done s) eqn:Ht; cbn [negb]; [done|].
  assert (Hn : task s = None) by (unfold running in Hr; by destruct (task s)).
  assert (Hf : inv (finish (Err Other) s, g)) by (by apply finish_inv). destruct (upload s) as [|b up] eqn:Hu.
  - destruct (upload_closed s) eqn:Hc; [|done]. destruct ok; [|done]. apply join_inv; [|done]. open_inv Hi. cbn [fst snd] in *.
    split; [unfold down_ok, running in *; rewrite Hn in *; cbn in *; split_and!; eauto|]. unfold up_ok in *. cbn. rewrite Hu in *. by split_and!.
  - destruct ok; [|done]. open_inv Hi. cbn [fst snd] in *. split; [unfold down_ok, running in *; rewrite Hn in *; cbn in *; split_and!; eauto|].
    unfold up_ok in *. cbn. rewrite Hu in *. split_and!.
    + rewrite U1, concat_app. cbn [concat]. by rewrite app_nil_r, <-app_assoc, take_drop.
    + by rewrite <-Ht.
    + intros He. destruct (U3 He). done.
    + unfold zlen in *. rewrite length_drop. lia.
Qed.

Lemma read_inv room s g : inv (s, g) -> inv (step (Read room) (s, g)).
Proof.
  intros Hi. cbn [step]. unfold poll_read, duplex_read. pose proof Hi as Hi2. open_inv Hi2. cbn [fst snd] in *.
  assert (Hsame : inv (s, mk_log (accepted g) (delivered g ++ []) (written g) (failed g))).
  { rewrite app_nil_r. split; [|done]. exact (proj1 Hi). }
  destruct (pipe s) as [|b p] eqn:Hp.
  - destruct (pipe_closed s) eqn:Hc; [|done]. destruct (room =? 0)%nat; [exact Hsame|]. destruct (received_eof s) eqn:He; [exact Hsame|].
    destruct (task_taken s) eqn:Htk; [exact Hsame|]. destruct (task s) as [r|] eqn:Ht; [|done].
    destruct r as [[]|e|]; [by specialize (H5 eq_refl)| |done]. split; [|done]. unfold down_ok, running in *. cbn. rewrite ?Hp, ?Ht, ?He, ?Hc in *. cbn in *.
    split_and!; try done. by exists lost.
  - destruct (take room (b :: p)) as [|c d] eqn:Htk.
    { destruct room; [|discriminate]. exact Hsame. }
    split; [|done]. rewrite <-Htk. unfold down_ok, running in *. cbn [pipe writing received_eof rx_done pipe_closed task task_taken accepted delivered failed fst snd].
    split_and!; try done.
    + exists lost. split; [|done]. rewrite Ha. by rewrite <-!app_assoc, (app_assoc (take _ _)), take_drop.
    + unfold zlen in *. rewrite length_drop. lia.
Qed.

Lemma write_inv buf s g : inv (s, g) -> inv (step (Write buf) (s, g)).
Proof.
  intros Hi. cbn [step]. unfold poll_write. destruct (running s) eqn:Hr; cbn [negb orb]; [|done]. destruct (tx_done s) eqn:Ht; cbn [orb]; [done|].
  destruct (upload_closed s) eqn:Hc; [done|]. destruct (_ =? 0)%nat; [done|]. open_inv Hi. cbn [fst snd] in *.
  split; [exact (conj (ex_intro _ lost (conj Ha Hl)) (conj H1 (conj H2 (conj H3 (conj H4 (conj H5 (conj H6 (conj H7 H8))))))))|].
  unfold up_ok in *. cbn. split_and!.
  - by rewrite U1, take_zlen_take, <-app_assoc.
  - by rewrite <-Ht.
  - intros He. destruct (U3 He). congruence.
  - unfold zlen in *. rewrite length_app, length_take. lia.
Qed.

Lemma step_inv o x : inv x -> inv (step o x).
Proof.
  destruct x as [s g]. destruct o; [apply event_inv|apply progress_inv|apply send_inv|apply read_inv|apply write_inv|].
  intros [Hd (U1 & U2 & U3 & U4)]. split; [exact Hd|]. unfold up_ok. cbn. split_and!; try done. intros He. by destruct (U3 He).
Qed.

Lemma run_inv ops : inv (run ops).
Proof.
  unfold run. assert (H0 : inv (stream_new, log_new)).
  { split; [|done]. unfold down_ok. cbn. split_and!; try done. { by exists []. } by split; [|intros []]. }
  revert H0. generalize (stream_new, log_new). induction ops as [|o ops IH]; intros x Hx; [done|]. cbn [fold_left]. by apply IH, step_inv.
Qed.

(** C18. The bridged stream tells the truth about its end.  Under every interleaving
    of channel events, partial writes, uploads and reads: the proxy reads, in
    order, a prefix of the channel's data, and the channel is sent a prefix of
    what the proxy wrote; both buffers stay within 64 KiB.  Until a read has
    failed, an empty read is returned only after the channel's EOF and once every
    byte before it has been delivered; a channel that broke instead makes the next
    read fail with that error once the pipe is drained.  The channel's own EOF is
    sent only after all that was written. *)
Theorem bridge_truthful ops : let '(s, g) := run ops in
  delivered g `prefix_of` accepted g /\ concat (sent s) `prefix_of` written g /\
  zlen (pipe s) <= CAPACITY /\ zlen (upload s) <= CAPACITY /\
  (forall room s', (0 < room)%nat -> failed g = false -> poll_read room s = (Ready (Ok []), s') ->
     received_eof s = true /\ delivered g = accepted g) /\
  (forall room e, (0 < room)%nat -> task s = Some (Err e) -> received_eof s = false -> failed g = false -> pipe s = [] ->
     (poll_read room s).1 = Ready (Err e)) /\
  (sent_eof s = true -> concat (sent s) = written g).
Proof.
  pose proof (run_inv ops) as Hi. destruct (run ops) as [s g]. open_inv Hi. split_and!; [| |done|done| | |].
  - rewrite Ha. by eexists.
  - rewrite U1. by eexists.
  - intros room s' Hroom Hfail. unfold poll_read, duplex_read. destruct (pipe s) as [|b p] eqn:Hp.
    + destruct (pipe_closed s); [|done]. destruct (Nat.eqb_spec room 0); [lia|]. destruct (received_eof s) eqn:He.
      * intros _. split; [done|]. destruct (H1 eq_refl) as [_ Hw]. by rewrite Ha, Hw, Hl, !app_nil_r by auto.
      * destruct (task_taken s); [destruct (H7 eq_refl); congruence|]. destruct (task s) as [[[]|e|]|]; try done. by specialize (H5 eq_refl).
    + by destruct room; [lia|].
  - intros room e Hroom Ht He Hfail Hp. unfold poll_read, duplex_read. rewrite Hp.
    rewrite (proj2 H4) by (right; unfold running; by rewrite Ht).
    destruct (Nat.eqb_spec room 0); [lia|]. rewrite He. destruct (task_taken s); [destruct (H7 eq_refl); congruence|]. by rewrite Ht.
  - intros He. destruct (U3 He) as [Hu _]. by rewrite U1, Hu, app_nil_r.
Qed.

(** Data, then a channel that breaks: the data is read, then the error. *)
Example bridge_breaks :
  let '(s, g) := run [Event (ChanData [1; 2]); Progress; Event ChanClosed; Read 8] in
  delivered g = [1; 2] /\ (poll_read 8 s).1 = Ready (Err UnexpectedEof) /\ (poll_read 8 (poll_read 8 s).2).1 = Ready (Ok []).
Proof. vm_compute. done. Qed.
End BridgeFacts.

(** ** Opening channels ([Psiphon::connect_tcp] and [PendingOpen])

    The session is shared by every stream of the outlet.  makiko cannot cancel the
    opening of one channel: a confirmation that nobody waits for would leave a
    channel without an owner, so the guard of an abandoned opening disconnects the
    session. *)
Module Opening.
(** makiko's [put_u32] and [put_str]. *)
Definition put_u32 (v : Z) : bytes := to_be 4 v.
Definition put_str (s : bytes) : bytes := put_u32 (zlen s) ++ s.

(** The payload of a [direct-tcpip] request. *)
Definition host_text (h : Host) : bytes := match h with Domain s => s | Ip ip => fmt_ip ip end.
Definition payload (host : Host) (port : Z) : bytes :=
  put_str (host_text host) ++ put_u32 port ++ put_str (str_bytes "127.0.0.1") ++ put_u32 0.

(** A call of [connect_tcp]: waiting for the confirmation; confirmed, its future not
    polled again yet; returned with the stream or an error; dropped before that. *)
Inductive opening := Asked | Confirmed | Refused | Returned (r : res ErrorKind bytes) | Abandoned.
(** The session, its channels as both ends know them, and the calls. *)
Record session := mk_session { connected : bool; channels : gset nat; openings : gmap nat opening; streams : gset nat }.
Definition session_new : session := mk_session true ∅ ∅ ∅.

Definition set_opening (id : nat) (o : opening) (s : session) : session :=
  mk_session (connected s) (channels s) (<[id := o]> (openings s)) (streams s).
(** [Client::disconnect]: every channel of the session is gone. *)
Definition disconnect (s : session) : session := mk_session false ∅ (openings s) (streams s).

Inductive event :=
| Ask (id : nat)            (** [open_channel] is sent *)
| Confirm (id : nat)        (** the server's answers *)
| Refuse (id : nat)
| Lost                      (** the connection below ends *)
| Poll (id : nat)           (** the future is polled with an answer at hand *)
| Timeout (id : nat)        (** 30 seconds without one *)
| Cancel (id : nat)         (** the future is dropped *)
| DropStream (id : nat).    (** [PsiphonStream::drop] *)

(** [PsiphonStream::drop] closes the channel. *)
Definition drop_stream (id : nat) (s : session) : session :=
  mk_session (connected s) (channels s ∖ {[id]}) (openings s) (streams s ∖ {[id]}).

(** The note on the returned stream. *)
Definition note_of (country : bytes) : bytes := str_bytes "country=" ++ country.

Definition apply (country : bytes) (e : event) (s : session) : option session :=
  match e with
  | Ask id => match openings s !! id with
              | None => Some (if connected s then set_opening id Asked s else set_opening id (Returned (Err Other)) s)
              | Some _ => None
              end
  | Confirm id =>
      match openings s !! id with
      | Some Asked => if connected s then Some (mk_session true ({[id]} ∪ channels s) (<[id := Confirmed]> (openings s)) (streams s)) else None
      | _ => None
      end
  | Refuse id => match openings s !! id with Some Asked => Some (set_opening id Refused s) | _ => None end
  | Lost => Some (disconnect s)
  | Poll id =>
      match openings s !! id with
      | Some Confirmed => Some (mk_session (connected s) (channels s) (<[id := Returned (Ok (note_of country))]> (openings s)) ({[id]} ∪ streams s))
      | Some Refused => Some (set_opening id (Returned (Err Other)) s)
      | Some Asked => if connected s then None else Some (set_opening id (Returned (Err Other)) s)
      | _ => None
      end
  | Timeout id =>
      match openings s !! id with
      | Some Asked => Some (disconnect (set_opening id (Returned (Err TimedOut)) s))
      | _ => None
      end
  | Cancel id =>
      match openings s !! id with
      | Some (Asked | Confirmed | Refused) => Some (disconnect (set_opening id Abandoned s))
      | _ => None
      end
  | DropStream id =>
      if bool_decide (id ∈ streams s)
      then Some (drop_stream id s)
      else None
  end.

Fixpoint run (country : bytes) (es : list event) (s : session) : option session :=
  match es with [] => Some s | e :: es => s ← apply country e s; run country es s end.

(** *** The payload reads back *)
(** A reader of SSH strings and integers, as a server has it. *)
Definition get_u32 (b : bytes) : option (Z * bytes) := if zlen b <? 4 then None else Some (be_val (take 4 b), drop 4 b).
Definition get_str (b : bytes) : option (bytes * bytes) :=
  '(n, b) ← get_u32 b; if zlen b <? n then None else Some (take (Z.to_nat n) b, drop (Z.to_nat n) b).
Definition read_payload (b : bytes) : option (bytes * Z * bytes * Z) :=
  '(host, b) ← get_str b; '(port, b) ← get_u32 b; '(orig, b) ← get_str b; '(oport, b) ← get_u32 b;
  match b with [] => Some (host, port, orig, oport) | _ => None end.

Lemma get_put_u32 v rest : u32 v -> get_u32 (put_u32 v ++ rest) = Some (v, rest).
Proof.
  intros Hv. unfold get_u32, put_u32. assert (Hl : length (to_be 4 v) = 4%nat) by apply to_be_length.
  rewrite zlen_app. assert (zlen (to_be 4 v) = 4) by (unfold zlen; lia). pose proof (zlen_nonneg rest). zfalse.
  rewrite take_app_length', drop_app_length' by done. f_equal. f_equal. apply be_val_to_be. unfold u32, U32_MAX in Hv. lia.
Qed.

Lemma get_put_str t rest : zlen t <= U32_MAX -> get_str (put_str t ++ rest) = Some (t, rest).
Proof.
  intros Ht. unfold get_str, put_str. rewrite <-app_assoc, get_put_u32 by (split; [apply zlen_nonneg|done]). cbn [mbind option_bind].
  rewrite zlen_app. pose proof (zlen_nonneg rest). zfalse. unfold zlen. rewrite Nat2Z.id, take_app_length, drop_app_length. done.
Qed.

(** The server reads the very target that was asked for. *)
Theorem payload_roundtrip host port : zlen (host_text host) <= U32_MAX -> u16 port ->
  read_payload (payload host port) = Some (host_text host, port, str_bytes "127.0.0.1", 0).
Proof.
  intros Hh Hp. unfold read_payload, payload. rewrite get_put_str by done. cbn [mbind option_bind].
  rewrite get_put_u32 by (unfold u16, u32, U16_MAX, U32_MAX in *; lia). cbn [mbind option_bind].
  rewrite get_put_str by (vm_compute; discriminate). cbn [mbind option_bind].
  rewrite <-(app_nil_r (put_u32 0)), get_put_u32 by (vm_compute; split; discriminate). done.
Qed.

Lemma payload_roundtrip_witness :
  read_payload (payload (Domain (str_bytes "a.example")) 443) = Some (str_bytes "a.example", 443, str_bytes "127.0.0.1", 0).
Proof. apply (payload_roundtrip (Domain (str_bytes "a.example")) 443); vm_compute; [discriminate|split; discriminate]. Defined.

(** *** No channel without an owner *)
Definition owned (s : session) : Prop :=
  (connected s = false -> channels s = ∅) /\
  (forall id, id ∈ channels s -> openings s !! id = Some Confirmed \/ id ∈ streams s) /\
  (forall id, id ∈ streams s -> exists r, openings s !! id = Some (Returned (Ok r))).

Lemma apply_owned country e s s' : owned s -> apply country e s = Some s' -> owned s'.
Proof.
  intros (H0 & H1 & H2) H. unfold owned.
  assert (Hset : forall id o, openings s !! id <> Some Confirmed -> (forall r, openings s !! id <> Some (Returned (Ok r))) ->
    (forall x, x ∈ channels s -> <[id := o]> (openings s) !! x = Some Confirmed \/ x ∈ streams s) /\
    (forall x, x ∈ streams s -> exists r, <[id := o]> (openings s) !! x = Some (Returned (Ok r)))).
  { intros id o Hc Hr. split; intros x Hx.
    - destruct (H1 x Hx) as [Hx'|?]; [|by right]. left. rewrite lookup_insert_ne; [done|]. by intros <-.
    - destruct (H2 x Hx) as [r Hx']. exists r. rewrite lookup_insert_ne; [done|]. intros <-. by eapply Hr. }
  destruct e as [id|id|id| |id|id|id|id]; cbn [apply] in H.
  - destruct (openings s !! id) eqn:Ho; [done|]. destruct (Hset id Asked) as [A1 A2]; [by rewrite Ho..|].
    destruct (Hset id (Returned (Err Other))) as [B1 B2]; [by rewrite Ho..|].
    destruct (connected s) eqn:Hc; injection H as <-; (split_and!; [cbn; by rewrite ?Hc|done|done]).
  - destruct (openings s !! id) as [[]|] eqn:Ho; try done. destruct (connected s) eqn:Hc; [|done]. injection H as <-.
    destruct (Hset id Confirmed) as [A1 A2]; [by rewrite Ho..|]. split_and!; [done| |exact A2]. cbn. intros x [Hx%elem_of_singleton|Hx]%elem_of_union.
    + subst x. left. by rewrite lookup_insert_eq.
    + by apply A1.
  - destruct (openings s !! id) as [[]|] eqn:Ho; try done. injection H as <-. destruct (Hset id Refused) as [A1 A2]; [by rewrite Ho..|]. by split_and!.
  - injection H as <-. split_and!; [done|by intros x Hx|done].
  - destruct (openings s !! id) as [[| | |r|]|] eqn:Ho; try done.
    + destruct (connected s) eqn:Hc; [done|]. injection H as <-. destruct (Hset id (Returned (Err Other))) as [A1 A2]; [by rewrite Ho..|].
      split_and!; [intros _; by apply H0|done|done].
    + injection H as <-. split_and!; [done| |]; cbn.
      * intros x Hx. destruct (decide (x = id)) as [->|Hn]; [right; set_solver|]. rewrite lookup_insert_ne by done. destruct (H1 x Hx); [by left|right; set_solver].
      * intros x [Hx%elem_of_singleton|Hx]%elem_of_union; [subst x; exists (note_of country); by rewrite lookup_insert_eq|].
        destruct (H2 x Hx) as [r Hr]. exists r. rewrite lookup_insert_ne; [done|]. intros <-. congruence.
    + injection H as <-. destruct (Hset id (Returned (Err Other))) as [A1 A2]; [by rewrite Ho..|]. by split_and!.
  - destruct (openings s !! id) as [[]|] eqn:Ho; try done. injection H as <-.
    destruct (Hset id (Returned (Err TimedOut))) as [A1 A2]; [by rewrite Ho..|]. split_and!; [done|by intros x Hx|exact A2].
  - destruct (openings s !! id) as [[]|] eqn:Ho; try done; injection H as <-; (split_and!; [done|by intros x Hx|]); cbn; intros x Hx;
      destruct (H2 x Hx) as [r Hr]; exists r; (rewrite lookup_insert_ne; [done|]); intros <-; congruence.
  - case_bool_decide; [|done]. injection H as <-. split_and!; cbn.
    + intros Hc. rewrite (H0 Hc). set_solver.
    + intros x Hx. destruct (H1 x) as [?|?]; [set_solver|by left|right; set_solver].
    + intros x Hx. apply H2. set_solver.
Qed.

(** A call that was given up. *)
Definition given_up (o : opening) : bool := match o with Abandoned | Returned (Err TimedOut) => true | _ => false end.
Definition ended_by_guard (s : session) : Prop := forall id o, openings s !! id = Some o -> given_up o = true -> connected s = false.

Lemma insert_guard s id o : ended_by_guard s -> given_up o = false -> forall x p, <[id := o]> (openings s) !! x = Some p -> given_up p = true -> connected s = false.
Proof. intros G Ho x p [[<- <-]|[_ Hx]]%lookup_insert_Some Hg; [congruence|by eapply G]. Qed.

Lemma apply_guard country e s s' : ended_by_guard s -> apply country e s = Some s' -> ended_by_guard s'.
Proof.
  intros G H. destruct e as [id|id|id| |id|id|id|id]; cbn [apply] in H.
  - destruct (openings s !! id); [done|]. destruct (connected s) eqn:Hc; injection H as <-; intros x p; refine (insert_guard s id _ G _ x p); reflexivity.
  - destruct (openings s !! id) as [[]|]; try done. destruct (connected s) eqn:Hc; [|done]. injection H as <-. intros x p Hx Hg. cbn in *.
    rewrite <-Hc. exact (insert_guard s id Confirmed G eq_refl x p Hx Hg).
  - destruct (openings s !! id) as [[]|]; try done. injection H as <-. intros x p; refine (insert_guard s id _ G _ x p); reflexivity.
  - by injection H as <-.
  - destruct (openings s !! id) as [[| | |r|]|]; try done; [destruct (connected s) eqn:Hc; [done|]| |]; injection H as <-; intros x p; refine (insert_guard s id _ G _ x p); reflexivity.
  - destruct (openings s !! id) as [[]|]; try done. by injection H as <-.
  - destruct (openings s !! id) as [[]|]; try done; by injection H as <-.
  - case_bool_decide; [|done]. by injection H as <-.
Qed.

Lemma opening_run_inv country es s0 s : owned s0 -> ended_by_guard s0 -> run country es s0 = Some s -> owned s /\ ended_by_guard s.
Proof.
  revert s0. induction es as [|e es IH]; intros s0 K G; cbn; [by intros [= <-]|]. destruct (apply country e s0) as [s1|] eqn:He; [|done]. cbn.
  apply IH; [by eapply apply_owned|by eapply apply_guard].
Qed.

(** No SSH channel is left without an owner: however the server's answers, the
    time-outs and cancellations of the callers and the drops of streams interleave,
    every channel of a live session belongs to a call that has yet to be polled
    or to a stream in use; abandoning an opening, confirmed or not, ends the session. *)
Theorem channels_owned country es s : run country es session_new = Some s ->
  (forall id, id ∈ channels s -> connected s = true /\ (openings s !! id = Some Confirmed \/ id ∈ streams s)) /\
  (forall id o, openings s !! id = Some o -> given_up o = true -> connected s = false).
Proof.
  intros Hr. destruct (opening_run_inv country es session_new s) as [(K0 & K1 & _) A]; [split_and!; cbn; set_solver|by intros id o|done|].
  split; [|exact A]. intros id Hid. split; [|by apply K1]. destruct (connected s); [done|]. rewrite K0 in Hid by done. set_solver.
Qed.

(** A stream in use, and a second opening that is confirmed and then cancelled. *)
Lemma channels_owned_witness : match run (str_bytes "JP") [Ask 0; Confirm 0; Poll 0; Ask 1; Confirm 1; Cancel 1] session_new with
  | Some s => streams s = {[0%nat]} /\ channels s = ∅ /\ connected s = false
  | None => False
  end.
Proof.
  destruct (run (str_bytes "JP") [Ask 0; Confirm 0; Poll 0; Ask 1; Confirm 1; Cancel 1] session_new) as [s|] eqn:Hr; [|vm_compute in Hr; discriminate Hr].
  destruct (channels_owned (str_bytes "JP") _ s Hr) as [_ H]. pose proof (H 1%nat Abandoned) as Hc. injection Hr as <-.
  split; [vm_compute; reflexivity|]. split; [vm_compute; reflexivity|]. apply Hc; vm_compute; reflexivity.
Defined.
End Opening.
