(* ===== verification/Supervisor.v ===== *)
(** * Choosing, publishing and rebuilding the outlet ([src/src/supervisor.rs])

    Startup probing, the MASQUE/WireGuard/regional preparation, the watch over a
    published outlet and the recovery loop with its back-off.  What the network
    answers (handshakes, probe bodies, time-outs) is the input of each round; the
    endpoint history, the heartbeat and the configuration snapshot live in the
    file system. *)
From S2P Require Import Prelude RustStr Fs Health NetAddr Outbound Mixed Config Registration Endpoint Psiphon.

Module Supervisor.
Import WgConf App Store Candidates.

(** An established outlet, by its identity. *)
Abbreviation outlet := Z.

(** *** [parse_listen_mode] *)
Inductive listen_error := BadAddress (value : bytes) | NoAddress.

Fixpoint parse_addrs (values : list bytes) : res listen_error (list SocketAddr) :=
  match values with
  | [] => Ok []
  | v :: values =>
      a ← ok_or (parse_socket_addr v) (BadAddress v);
      rest ← parse_addrs values;
      Ok (a :: rest)
  end.

Definition parse_listen_mode (raw : bytes) (port : Z) : res listen_error Mixed.ListenMode :=
  if eq_ignore_ascii_case (trim raw) (str_bytes "auto") then Ok (Mixed.Auto port)
  else
    let values := List.filter (fun v => negb (bytes_eqb v [])) (map trim (split_on 44 raw)) in
    addrs ← parse_addrs values;
    match addrs with [] => Err NoAddress | _ => Ok (Mixed.Explicit addrs) end.

(** *** [wait_for_warp]: the probes that complete within the start-up budget, and
    the error of the last one when none succeeds. *)
Fixpoint wait_for_warp (fetches : list (res bytes bytes)) (last : option Probe.ProbeError)
    : res (option Probe.ProbeError) Probe.ProbeOutcome :=
  match fetches with
  | [] => Err last
  | f :: fetches =>
      match Probe.probe_outbound f with
      | Ok outcome => Ok outcome
      | Err e => wait_for_warp fetches (Some e)
      | Panic => Panic
      end
  end.

Record SelectedWarp := mk_selected { sel_outlet : outlet; wg_endpoint : option bytes }.

(** *** Fallible steps over the files

    [x?; k] in the functions below: an error ends the function, a panic unwinds
    through it.  What an error says only goes to the log. *)
Definition quiet {E A} (r : res E A) : res unit A := map_err (fun _ => tt) r.
Definition and_then {A A' : Type} (x : res unit A * fs) (k : A -> fs -> res unit A' * fs) : res unit A' * fs :=
  match x with (Ok a, s) => k a s | (Err e, s) => (Err e, s) | (Panic, s) => (Panic, s) end.

(** An attempt to establish an outlet and its probes. *)
Record attempt := mk_attempt { establish : res unit outlet; fetches : list (res bytes bytes) }.
Definition try_attempt (a : attempt) : res unit outlet :=
  o ← establish a;
  _ ← quiet (wait_for_warp (fetches a) None);
  Ok o.

Section worlds.
Context {P : P256}.

(** What the preparation of the base outlet meets. *)
Record base_world := mk_base {
  mq : MasqueRegister.world; mq_now : Z;           (** getting the MASQUE credentials *)
  masque_attempt : MasqueReg.RegCredentials -> attempt;
  keys : Teams.keygen; client : bool; teams : list Teams.exchange; (** registering an account *)
  load_env : Store.env;                (** loading the endpoint history *)
  wg_attempt : bytes -> WgConfig -> attempt;
  conf_faults : bytes -> fs_faults; conf_rnd : bytes -> Z;
  op_env : bytes -> Store.env          (** recording the outcome of an endpoint *)
}.

Section base.
Context {B : Base64} {C : StateCodec} {AC : AccountCodec} {RC : RegCodec}.
Context (public_of : bytes -> bytes) (lookup_host : bytes -> option (list SocketAddr)) (config : AppConfig).

(** [ensure_account]: the saved account, else a registration (one whose script
    ends before it does is an error here). *)
Definition ensure_account (w : base_world) (s : fs) : res unit WgAccount * fs :=
  match s !! account_json config with
  | Some _ => (ok_or (Teams.load (account_json config) s) tt, s)
  | None =>
      if bytes_eqb (trim (teams_token config)) [] then (Err tt, s)
      else
        let registrar := Teams.mk_registrar (teams_token config) (account_json config) (register_retries config)
                           (register_retry_delay config * Teams.SEC) in
        match Teams.register public_of registrar (keys w) (client w) (teams w) s with
        | (Some r, _, s) => (quiet r, s)
        | (None, _, s) => (Err tt, s)
        end
  end.

Definition try_masque (w : base_world) (s : fs) : res unit outlet * fs :=
  let '(creds, _, s) := MasqueRegister.ensure_masque_credentials (mq w) (mq_now w) (reg_json config) s in
  and_then (quiet creds, s) (fun creds s => (try_attempt (masque_attempt w creds), s)).

(** [try_wg_candidate]: only an outlet that passed the probe has its configuration
    written. *)
Definition try_wg_candidate (w : base_world) (acc : WgAccount) (endpoint : bytes) (s : fs) : res unit outlet * fs :=
  and_then (quiet (build_wg_config lookup_host acc (Some endpoint)), s) (fun cfg s =>
  and_then (try_attempt (wg_attempt w endpoint cfg), s) (fun o s =>
  let '(r, s) := write_wg_conf (conf_faults w endpoint) (conf_rnd w endpoint) cfg (wg_conf config) s in
  and_then (quiet r, s) (fun _ s => (Ok o, s)))).

(** The loop of [prepare_wireguard]; a history that cannot be saved ends it. *)
Fixpoint try_candidates (w : base_world) (acc : WgAccount) (cands : list bytes) (store : JsonFileEndpointStore) (s : fs)
    : res unit SelectedWarp * JsonFileEndpointStore * fs :=
  match cands with
  | [] => (Err tt, store, s)
  | ep :: cands =>
      match try_wg_candidate w acc ep s with
      | (Ok o, s) =>
          let '(r, store, s) := record_success (op_env w ep) ep store s in
          (_ ← quiet r; Ok (mk_selected o (Some ep)), store, s)
      | (Err _, s) =>
          match mark_cooldown (op_env w ep) ep (startup_endpoint_cooldown config) store s with
          | (Ok _, store, s) => try_candidates w acc cands store s
          | (Err _, store, s) => (Err tt, store, s)
          | (Panic, store, s) => (Panic, store, s)
          end
      | (Panic, s) => (Panic, store, s)
      end
  end.

Definition prepare_wireguard (w : base_world) (s : fs) : res unit SelectedWarp * fs :=
  and_then (ensure_account w s) (fun acc s =>
  let '(store, s) := load (load_env w) (endpoint_state_file config) s in
  and_then (quiet store, s) (fun store s =>
  let cands := plan_candidates (now_unix (load_env w)) (candidate_pool (endpoint_candidates config)) store in
  let '(r, _, s) := try_candidates w acc cands store s in (r, s))).

Definition prepare_base (w : base_world) (s : fs) : res unit SelectedWarp * fs :=
  if enable_masque config then
    match try_masque w s with
    | (Ok o, s) => (Ok (mk_selected o None), s)
    | (Err _, s) => prepare_wireguard w s
    | (Panic, s) => (Panic, s)
    end
  else prepare_wireguard w s.
End base.

(** *** [prepare_region] *)
Record CachedCandidates := mk_cache { entries : list ServerList.ServerEntry; fetched : Z; preferred : option nat }.

(** What the path through one server meets: whether SSH is up within its 20 s, the
    SSH connection, MASQUE over it, the probes. *)
Record entry_world := mk_entry_world {
  ssh_in_time : bool; ssh : Servers.ssh_world; h2 : res unit outlet; h2_fetches : list (res bytes bytes)
}.
Definition entry_attempt {B : Base64} (w : entry_world) (e : ServerList.ServerEntry) : attempt :=
  mk_attempt (if ssh_in_time w then (_ ← quiet (Servers.connect_entry (ssh w) e); h2 w) else Err tt) (h2_fetches w).

(** What the preparation meets: the credentials, the response to the download of
    the list, the shuffle, the paths by entry index, the time in seconds. *)
Record region_world := mk_region {
  region_mq : MasqueRegister.world; region_now : Z;
  list_response : option (Z * option bytes * list Https.frame); shuffle : list nat -> list nat;
  entry_at : MasqueReg.RegCredentials -> nat -> entry_world; now_secs : Z
}.

Fixpoint position (x : nat) (l : list nat) : option nat :=
  match l with
  | [] => None
  | y :: l => if (x =? y)%nat then Some O else S <$> position x l
  end.
(** [order.swap(0, index)] *)
Definition swap0 (i : nat) (l : list nat) : list nat :=
  match l !! 0%nat, l !! i with
  | Some a, Some b => <[i := a]> (<[0%nat := b]> l)
  | _, _ => l
  end.
Definition region_order (p : option nat) (l : list nat) : list nat :=
  match p with
  | Some x => match position x l with Some i => swap0 i l | None => l end
  | None => l
  end.

(** The loop over the chosen indices; [cache.entries[entry_index]] panics out of range. *)
Fixpoint try_entries {B : Base64} (w : region_world) (creds : MasqueReg.RegCredentials) (es : list ServerList.ServerEntry) (l : list nat)
    : res unit (nat * outlet) :=
  match l with
  | [] => Err tt
  | i :: l =>
      match es !! i with
      | Some e =>
          match try_attempt (entry_attempt (entry_at w creds i) e) with
          | Ok o => Ok (i, o)
          | Err _ => try_entries w creds es l
          | Panic => Panic
          end
      | None => Panic
      end
  end.

(** The cached candidates while they are less than a day old, else a new list; a
    list that cannot be fetched leaves the cache as it is. *)
Definition refresh {B : Base64} {K : PackageCodec} (country : bytes) (w : region_world) (cache : option CachedCandidates) : res unit CachedCandidates :=
  match cache with
  | Some c =>
      if 86400 <=? saturating_sub (now_secs w) (fetched c)
      then es ← quiet (Servers.candidates (list_response w) country); Ok (mk_cache es (now_secs w) None)
      else Ok c
  | None => es ← quiet (Servers.candidates (list_response w) country); Ok (mk_cache es (now_secs w) None)
  end.

Definition prepare_region {B : Base64} {K : PackageCodec} {RC : RegCodec} (config : AppConfig) (country : bytes) (w : region_world)
    (cache : option CachedCandidates) (s : fs) : res unit outlet * option CachedCandidates * fs :=
  let '(creds, _, s) := MasqueRegister.ensure_masque_credentials (region_mq w) (region_now w) (reg_json config) s in
  match creds with
  | Ok creds =>
      match refresh country w cache with
      | Ok c =>
          match try_entries w creds (entries c) (take 8 (region_order (preferred c) (shuffle w (seq 0 (length (entries c)))))) with
          | Ok (i, o) => (Ok o, Some (mk_cache (entries c) (fetched c) (Some i)), s)
          | Err _ => (Err tt, None, s)
          | Panic => (Panic, None, s)
          end
      | Err _ => (Err tt, cache, s)
      | Panic => (Panic, cache, s)
      end
  | Err _ => (Err tt, cache, s)
  | Panic => (Panic, cache, s)
  end.

(** *** [watch_outbound] *)
Inductive watch_event := Terminated (reason : bytes) | Probed (fetch : res bytes bytes) (hb : fs_faults * Z * Z).

(** Whether the watch has ended, and the heartbeats it left. *)
Fixpoint watch_outbound (recovery : Recovery.ThresholdRecovery) (evs : list watch_event) (s : fs) : res Empty_set bool * fs :=
  match evs with
  | [] => (Ok false, s)
  | Terminated _ :: _ => (Ok true, s)
  | Probed f (faults, rnd, now) :: evs =>
      match Probe.probe_outbound f with
      | Ok _ => watch_outbound (Recovery.on_success recovery) evs (Heartbeat.record_success faults rnd now s)
      | Err _ =>
          match Recovery.on_failure recovery with
          | (Recovery.RequestExit, _) => (Ok true, s)
          | (Recovery.Continue, recovery) => watch_outbound recovery evs s
          end
      | Panic => (Panic, s)
      end
  end.

(** *** [recover_outbound] *)
Record round := mk_round {
  base : base_world; region : region_world;
  timed_out : option fs;               (** the 120 s budget ran out, leaving these files *)
  hb_start : fs_faults * Z; hb_ready : fs_faults * Z * Z; hb_end : fs_faults * Z;
  watch : list watch_event;
  cool_load : Store.env; cool_mark : Store.env;
  jitter : Z
}.
Record sup := mk_sup { published : option outlet; failures : Z; cache : option CachedCandidates; files : fs }.
Inductive action := Publish (o : outlet) | Withdraw | Sleep (ms : Z).
Inductive round_end := NextRound | StillWatching | FatalHeartbeat | Panicked.

Section recover.
Context {B : Base64} {C : StateCodec} {AC : AccountCodec} {RC : RegCodec} {K : PackageCodec}.
Context (public_of : bytes -> bytes) (lookup_host : bytes -> option (list SocketAddr)) (config : AppConfig) (country : option bytes).

Definition prepare (w : round) (c : option CachedCandidates) (s : fs) : res unit (SelectedWarp * outlet) * option CachedCandidates * fs :=
  match timed_out w with
  | Some s => (Err tt, None, s)
  | None =>
      match prepare_base public_of lookup_host config (base w) s with
      | (Ok sel, s) =>
          match country with
          | None => (Ok (sel, sel_outlet sel), c, s)
          | Some country =>
              let '(o, c, s) := prepare_region config country (region w) c s in
              (o ← o; Ok (sel, o), c, s)
          end
      | (Err _, s) => (Err tt, c, s)
      | (Panic, s) => (Panic, c, s)
      end
  end.

(** The wait between rounds: uniform between one second and the ceiling. *)
Definition backoff (failures jitter : Z) : Z :=
  let ceiling := Z.shiftl 1 (Z.min failures 5) in
  gen_range 1000 (ceiling * 1000) jitter.

Definition WG_HEALTH_FAILURE_THRESHOLD : Z := 1.
Definition failure_threshold (sel : SelectedWarp) : Z :=
  match country, wg_endpoint sel with
  | None, Some _ => WG_HEALTH_FAILURE_THRESHOLD
  | _, _ => healthcheck_failure_threshold config
  end.

(** A failed endpoint cools down; errors are only logged. *)
Definition cool_endpoint (w : round) (sel : SelectedWarp) (s : fs) : res unit unit * fs :=
  match country, wg_endpoint sel with
  | None, Some ep =>
      let '(r, s) :=
        (let '(store, s) := load (cool_load w) (endpoint_state_file config) s in
         and_then (quiet store, s) (fun store s =>
         let '(r, _, s) := mark_cooldown (cool_mark w) ep (startup_endpoint_cooldown config) store s in (quiet r, s))) in
      (match r with Panic => Panic | _ => Ok tt end, s)
  | _, _ => (Ok tt, s)
  end.

Definition pause (w : round) (st : sup) : round_end * sup * list action :=
  let failures := u32_saturating_add (failures st) 1 in
  (NextRound, mk_sup (published st) failures (cache st) (files st), [Sleep (backoff failures (jitter w))]).

(** The branch of a successful preparation: publish, watch, withdraw. *)
Definition serve_outlet (w : round) (sel : SelectedWarp) (o : outlet) (c : option CachedCandidates) (s : fs) : round_end * sup * list action :=
  let '(faults, rnd, now) := hb_ready w in
  let s := Heartbeat.record_success faults rnd now s in
  let '(ended, s) := watch_outbound (Recovery.new (failure_threshold sel)) (watch w) s in
  match ended with
  | Ok false => (StillWatching, mk_sup (Some o) 0 c s, [Publish o])
  | Ok true =>
      match Heartbeat.invalidate (hb_end w).1 (hb_end w).2 s with
      | (Ok _, s) =>
          match cool_endpoint w sel s with
          | (Panic, s) => (Panicked, mk_sup None 0 c s, [Publish o; Withdraw])
          | (_, s) =>
              let '(r, st, acts) := pause w (mk_sup None 0 c s) in
              (r, st, Publish o :: Withdraw :: acts)
          end
      | (Err _, s) => (FatalHeartbeat, mk_sup None 0 c s, [Publish o; Withdraw])
      | (Panic, s) => (Panicked, mk_sup None 0 c s, [Publish o; Withdraw])
      end
  | Err e => match e with end
  | Panic => (Panicked, mk_sup (Some o) 0 c s, [Publish o])
  end.

Definition recover_round (w : round) (st : sup) : round_end * sup * list action :=
  match Heartbeat.invalidate (hb_start w).1 (hb_start w).2 (files st) with
  | (Ok _, s) =>
      match prepare w (cache st) s with
      | (Ok (sel, o), c, s) => serve_outlet w sel o c s
      | (Err _, c, s) => pause w (mk_sup (published st) (failures st) c s)
      | (Panic, c, s) => (Panicked, mk_sup (published st) (failures st) c s, [])
      end
  | (Err _, s) => (FatalHeartbeat, mk_sup (published st) (failures st) (cache st) s, [])
  | (Panic, s) => (Panicked, mk_sup (published st) (failures st) (cache st) s, [])
  end.

Fixpoint recover_outbound (ws : list round) (st : sup) : round_end * sup * list action :=
  match ws with
  | [] => (NextRound, st, [])
  | w :: ws =>
      match recover_round w st with
      | (NextRound, st, acts) => let '(r, st, more) := recover_outbound ws st in (r, st, acts ++ more)
      | other => other
      end
  end.
End recover.
End worlds.
End Supervisor.

(** ** What is published has been verified *)
Module SupervisorFacts.
Import WgConf App Store Candidates Supervisor.

(** An attempt whose outlet answered a trace request with a WARP marker. *)
Definition passed (a : attempt) (o : outlet) : Prop :=
  establish a = Ok o /\ exists f outcome, f ∈ fetches a /\ Probe.probe_outbound f = Ok outcome.

Lemma wait_for_warp_ok fs last outcome : wait_for_warp fs last = Ok outcome ->
  exists f, f ∈ fs /\ Probe.probe_outbound f = Ok outcome.
Proof.
  revert last. induction fs as [|f fs IH]; intros last; cbn [wait_for_warp]; [done|].
  destruct (Probe.probe_outbound f) as [x|e|] eqn:Hp; [|intros (g & Hg & Ho)%IH|done].
  - intros [= <-]. exists f. split; [constructor|done].
  - exists g. split; [by constructor|done].
Qed.

Lemma and_then_ok {A A' : Type} (x : res unit A * fs) (k : A -> fs -> res unit A' * fs) b s' :
  and_then x k = (Ok b, s') -> exists a s, x = (Ok a, s) /\ k a s = (Ok b, s').
Proof. destruct x as [[a|e|] s]; [|done..]. intros H. by exists a, s. Qed.
Lemma quiet_ok {E A} (r : res E A) a : quiet r = Ok a -> r = Ok a.
Proof. destruct r; cbn; [by intros [= ->]|done..]. Qed.

Lemma try_attempt_passed a o : try_attempt a = Ok o -> passed a o.
Proof.
  unfold try_attempt. destruct (establish a) as [o'|e|] eqn:He; [|done..]. cbn [mbind res_bind].
  destruct (wait_for_warp (fetches a) None) as [x|e|] eqn:Hw; [|done..]. intros [= <-].
  apply wait_for_warp_ok in Hw as (f & Hf & Ho). split; [done|]. eauto.
Qed.

Section facts.
Context {P : P256} {B : Base64} {C : StateCodec} {AC : AccountCodec} {RC : RegCodec}.
Context (public_of : bytes -> bytes) (lookup_host : bytes -> option (list SocketAddr)) (config : AppConfig).

(** *** WireGuard candidates *)
(** The endpoint, its configuration and its outlet, as an attempt verified them. *)
Definition candidate_passed (w : base_world) (acc : WgAccount) (ep : bytes) (cfg : WgConfig) (o : outlet) : Prop :=
  build_wg_config lookup_host acc (Some ep) = Ok cfg /\ passed (wg_attempt w ep cfg) o.

Lemma try_wg_candidate_some w acc ep s o s' : try_wg_candidate lookup_host config w acc ep s = (Ok o, s') ->
  exists cfg, candidate_passed w acc ep cfg o /\ s' = <[wg_conf config := wg_conf_text cfg]> s.
Proof.
  unfold try_wg_candidate. intros (cfg & s1 & [Hb <-]%pair_equal_spec & H)%and_then_ok. apply quiet_ok in Hb.
  apply and_then_ok in H as (o' & s2 & [Ht <-]%pair_equal_spec & H). unfold write_wg_conf in H.
  destruct (write_private _ _ _ _ _) as [[[]|e|] s3] eqn:Hw; [|done..]. injection H as <- <-.
  apply write_private_ok in Hw as [_ ->]. exists cfg. split; [|done]. split; [done|by apply try_attempt_passed].
Qed.

Lemma record_success_writes e ep st s st' s' : record_success e ep st s = (Ok tt, st', s') ->
  last_good_endpoint (state st') = ep /\ s' = <[path st := to_json (state st')]> s.
Proof.
  unfold record_success. set (st1 := mk_store _ _). destruct (save e st1 s) as [r s1] eqn:Hs. intros [= -> <- <-].
  split; [done|]. by apply EndpointFacts.save_writes in Hs.
Qed.

Lemma mark_cooldown_path e ep secs st s : path (mark_cooldown e ep secs st s).1.2 = path st.
Proof. unfold mark_cooldown. by destruct (save _ _ s). Qed.

Lemma try_candidates_some w acc cands store s sel store' s' :
  try_candidates lookup_host config w acc cands store s = (Ok sel, store', s') ->
  exists ep cfg s1, ep ∈ cands /\ wg_endpoint sel = Some ep /\ candidate_passed w acc ep cfg (sel_outlet sel) /\
    last_good_endpoint (state store') = ep /\
    s' = <[path store := to_json (state store')]> (<[wg_conf config := wg_conf_text cfg]> s1).
Proof.
  revert store s. induction cands as [|ep cands IH]; intros store s; cbn [try_candidates]; [done|].
  destruct (try_wg_candidate _ _ _ _ ep s) as [[o|e|] s1] eqn:Ht; [| |done].
  - destruct (record_success _ _ _ _) as [[[[]|e|] st] s2] eqn:Hr; [|done..]. intros [= <- <- <-].
    apply record_success_writes in Hr as [Hl ->]. apply try_wg_candidate_some in Ht as (cfg & Hc & ->).
    exists ep, cfg, s. split_and!; [constructor|done|done|done|done].
  - pose proof (mark_cooldown_path (op_env w ep) ep (startup_endpoint_cooldown config) store s1) as Hp.
    destruct (mark_cooldown _ _ _ _ _) as [[[[]|e'|] st] s2]; [|done..]. cbn in Hp.
    intros (ep' & cfg & s3 & Hin & H)%IH. rewrite Hp in H. exists ep', cfg, s3. split; [by constructor|done].
Qed.

(** How a WireGuard outlet comes out of its preparation. *)
Lemma prepare_wireguard_ok w s sel s' : prepare_wireguard public_of lookup_host config w s = (Ok sel, s') ->
  exists acc s0 store s1 store', ensure_account public_of config w s = (Ok acc, s0) /\
    load (load_env w) (endpoint_state_file config) s0 = (Ok store, s1) /\
    try_candidates lookup_host config w acc
      (plan_candidates (now_unix (load_env w)) (candidate_pool (endpoint_candidates config)) store) store s1 = (Ok sel, store', s').
Proof.
  unfold prepare_wireguard. intros (acc & s0 & Ha & H)%and_then_ok. destruct (load _ _ s0) as [r s1] eqn:Hl.
  apply and_then_ok in H as (store & s2 & [Hq ->]%pair_equal_spec & H). apply quiet_ok in Hq as ->.
  destruct (try_candidates _ _ _ _ _ _ _) as [[r' store'] s3] eqn:Ht. injection H as -> ->. by exists acc, s0, store, s2, store'.
Qed.

Lemma load_path e p s st s' : load e p s = (Ok st, s') -> path st = p.
Proof.
  unfold load, prune_cooldowns. destruct (s !! p); [destruct (read_fails e); [done|]|];
    (destruct (_ || _); [destruct (save e _ s) as [[]]|]); by intros [= <- <-].
Qed.
End facts.

(** C12. A WireGuard outlet that is chosen has been verified and recorded: it belongs
    to an endpoint of the candidate pool whose configuration was established and
    passed the WARP probe; the configuration snapshot on disk is that
    configuration, and the endpoint history on disk names the endpoint as the last
    good one. *)
Theorem wireguard_prepared {P : P256} {B : Base64} {C : StateCodec} {AC : AccountCodec} public_of lookup_host config w s sel s' :
  wg_conf config <> endpoint_state_file config ->
  prepare_wireguard public_of lookup_host config w s = (Ok sel, s') ->
  exists acc ep cfg st, (ensure_account public_of config w s).1 = Ok acc /\ wg_endpoint sel = Some ep /\
    ep ∈ candidate_pool (endpoint_candidates config) /\ candidate_passed lookup_host w acc ep cfg (sel_outlet sel) /\
    s' !! wg_conf config = Some (wg_conf_text cfg) /\
    s' !! endpoint_state_file config = Some (to_json st) /\ last_good_endpoint st = ep.
Proof.
  intros Hne (acc & s0 & store & s1 & store' & Ha & Hl & Ht)%prepare_wireguard_ok. apply load_path in Hl.
  apply try_candidates_some in Ht as (ep & cfg & s3 & Hin & He & Hc & Hg & ->). rewrite Hl.
  exists acc, ep, cfg, (state store'). split_and!; [by rewrite Ha|done| |done| |by rewrite lookup_insert_eq|done].
  - by apply EndpointFacts.plan_elem in Hin.
  - rewrite lookup_insert_ne, lookup_insert_eq by done. done.
Qed.

#[local] Existing Instances WgConfFacts.letters EndpointFacts.positive_codec TeamsFacts.account_codec
  MasqueRegisterFacts.reg_codec MasqueRegisterFacts.toy_p256.

(** The second built-in endpoint works, the first does not; the account is on disk. *)
Definition sample_account : WgAccount :=
  mk_account (b64_encode (replicate 32 1)) [] [mk_peer (b64_encode (replicate 32 2)) []] (str_bytes "10.0.0.2/32") (str_bytes "fd00::2").
Definition sample_env : AppConfig := from_env (fun _ => None).
Definition sample_files : fs := {[ account_json sample_env := account_to_json sample_account ]}.
Definition trace_body : bytes := str_bytes "warp=on" ++ [10].
Definition sample_base : base_world :=
  {| mq := MasqueRegisterFacts.sample_world; mq_now := 50; masque_attempt := fun _ => mk_attempt (Err tt) [];
     keys := Teams.mk_keygen [1] (fun _ => 0) (fun _ => 0); client := true; teams := [];
     load_env := Store.mk_env 100 false false no_faults 1;
     wg_attempt := fun ep _ => mk_attempt (if bytes_eqb ep (str_bytes "162.159.193.9:500") then Ok 9 else Err tt) [Ok trace_body];
     conf_faults := fun _ => no_faults; conf_rnd := fun _ => 2; op_env := fun _ => Store.mk_env 101 false false no_faults 3 |}.

Lemma wireguard_prepared_witness :
  match prepare_wireguard (fun b => b) (fun _ => None) sample_env sample_base sample_files with
  | (Ok sel, s') =>
      sel = mk_selected 9 (Some (str_bytes "162.159.193.9:500")) /\ exists cfg, s' !! wg_conf sample_env = Some (wg_conf_text cfg)
  | _ => False
  end.
Proof.
  assert (Hv : (prepare_wireguard (fun b => b) (fun _ => None) sample_env sample_base sample_files).1 =
    Ok (mk_selected 9 (Some (str_bytes "162.159.193.9:500")))) by (vm_compute; reflexivity).
  destruct (prepare_wireguard _ _ sample_env sample_base sample_files) as [r s'] eqn:Hp. cbn [fst] in Hv. subst r.
  destruct (wireguard_prepared (fun b => b) (fun _ => None) sample_env sample_base sample_files _ s'
    ltac:(vm_compute; congruence) Hp) as (acc & ep & cfg & st & _ & _ & _ & _ & Hc & _).
  split; [reflexivity|]. exists cfg. exact Hc.
Defined.

(** ** The life of the published outlet, abstractly *)
(** The service is down, with a count of failed rounds, or up with an outlet. *)
Inductive service := Down (failed : Z) | Up (o : outlet).

Section service.
Context (verified : outlet -> Prop).

(** Only a verified outlet is published, and only when none is; an outlet is
    withdrawn before anything else happens; the waits grow with the failures. *)
Inductive service_step : service -> action -> service -> Prop :=
| step_publish n o : verified o -> service_step (Down n) (Publish o) (Up o)
| step_withdraw o : service_step (Up o) Withdraw (Down 0)
| step_sleep n ms : 1000 <= ms <= 2 ^ Z.min (u32_saturating_add n 1) 5 * 1000 ->
    service_step (Down n) (Sleep ms) (Down (u32_saturating_add n 1)).

Inductive service_run : service -> list action -> service -> Prop :=
| run_nil x : service_run x [] x
| run_cons x a y acts z : service_step x a y -> service_run y acts z -> service_run x (a :: acts) z.

Lemma service_run_app x acts y more z : service_run x acts y -> service_run y more z -> service_run x (acts ++ more) z.
Proof. induction 1; [done|]. intros. econstructor; eauto. Qed.
End service.

Lemma service_run_mono (P Q : outlet -> Prop) x acts y : (forall o, P o -> Q o) -> service_run P x acts y -> service_run Q x acts y.
Proof.
  intros H. induction 1 as [|x a y acts z Hs _ IH]; [constructor|]. econstructor; [|exact IH]. destruct Hs; constructor; auto.
Qed.

(** The supervisor's state as the abstract service sees it. *)
Definition abstracts (st : sup) (x : service) : Prop :=
  match x with Down n => published st = None /\ failures st = n | Up o => published st = Some o end.

Section refines.
Context {P : P256} {B : Base64} {C : StateCodec} {AC : AccountCodec} {RC : RegCodec} {K : PackageCodec}.
Context (public_of : bytes -> bytes) (lookup_host : bytes -> option (list SocketAddr)) (config : AppConfig) (country : option bytes).
Context (rounds : list round).

(** The candidates of a list that one of the rounds downloaded and verified. *)
Definition listed (country : bytes) (es : list ServerList.ServerEntry) : Prop :=
  exists w, w ∈ rounds /\ Servers.candidates (list_response (region w)) country = Ok es.
Definition cache_listed (c : option CachedCandidates) : Prop :=
  forall cc code, c = Some cc -> country = Some code -> listed code (entries cc).

(** The attempts a round may publish from: when a country is selected, those over
    an SSH connection to a server of its signed list, else the MASQUE and
    WireGuard ones. *)
Definition round_attempt (w : round) (a : attempt) : Prop :=
  match country with
  | Some code => exists creds i es e, listed code es /\ es !! i = Some e /\
      is_ok (Servers.connect_entry (ssh (entry_at (region w) creds i)) e) = true /\ a = entry_attempt (entry_at (region w) creds i) e
  | None => (exists creds, a = masque_attempt (base w) creds) \/ exists ep cfg, a = wg_attempt (base w) ep cfg
  end.
Definition verified_in (w : round) (o : outlet) : Prop := exists a, round_attempt w a /\ passed a o.

Lemma prepare_base_verified w s sel s' : prepare_base public_of lookup_host config w s = (Ok sel, s') ->
  exists a, ((exists creds, a = masque_attempt w creds) \/ exists ep cfg, a = wg_attempt w ep cfg) /\ passed a (sel_outlet sel).
Proof.
  assert (Hwg : forall s2, prepare_wireguard public_of lookup_host config w s2 = (Ok sel, s') ->
    exists a, ((exists creds, a = masque_attempt w creds) \/ exists ep cfg, a = wg_attempt w ep cfg) /\ passed a (sel_outlet sel)).
  { intros s2 (acc & s0 & store & s1 & store' & _ & _ & Ht)%prepare_wireguard_ok.
    apply try_candidates_some in Ht as (ep & cfg & s3 & _ & _ & [_ Hp] & _). exists (wg_attempt w ep cfg). eauto. }
  unfold prepare_base. destruct (enable_masque config); [|apply Hwg].
  destruct (try_masque _ w s) as [[o|e|] s1] eqn:Ht; [|apply Hwg|done]. intros [= <- <-]. unfold try_masque in Ht.
  destruct (MasqueRegister.ensure_masque_credentials _ _ _ s) as [[r reqs] s2].
  apply and_then_ok in Ht as (creds & s3 & _ & [Ht _]%pair_equal_spec). exists (masque_attempt w creds).
  split; [left; by exists creds|by apply try_attempt_passed].
Qed.

Lemma try_entries_passed w creds es l i o : try_entries w creds es l = Ok (i, o) ->
  exists e, es !! i = Some e /\ is_ok (Servers.connect_entry (ssh (entry_at w creds i)) e) = true /\ passed (entry_attempt (entry_at w creds i) e) o.
Proof.
  induction l as [|j l IH]; cbn [try_entries]; [done|]. destruct (es !! j) as [e|] eqn:He; [|done].
  destruct (try_attempt _) as [o'|x|] eqn:Ht; [|done..]. intros [= <- <-]. apply try_attempt_passed in Ht. exists e. split_and!; [done| |done].
  destruct Ht as [Hest _]. unfold entry_attempt in Hest. cbn [establish] in Hest. destruct (ssh_in_time _); [|done].
  by destruct (Servers.connect_entry _ e).
Qed.

Lemma refresh_listed w code c cc : w ∈ rounds -> country = Some code -> cache_listed c ->
  refresh code (region w) c = Ok cc -> listed code (entries cc).
Proof.
  intros Hw Hcode Hc.
  assert (Hnew : (es ← quiet (Servers.candidates (list_response (region w)) code); Ok (mk_cache es (now_secs (region w)) None)) = Ok cc ->
    listed code (entries cc)).
  { destruct (Servers.candidates _ _) as [es|e|] eqn:He; [|done..]. intros [= <-]. by exists w. }
  unfold refresh. destruct c as [c|]; [|done]. destruct (86400 <=? _); [done|]. intros [= <-]. by eapply Hc.
Qed.

(** What [prepare] gives is verified, and the cache it leaves is listed. *)
Lemma prepare_verified w c s : w ∈ rounds -> cache_listed c ->
  let '(r, c', _) := prepare public_of lookup_host config country w c s in
  cache_listed c' /\ forall sel o, r = Ok (sel, o) -> verified_in w o.
Proof.
  intros Hw Hc. unfold prepare, verified_in, round_attempt. destruct (timed_out w); [done|].
  destruct (prepare_base _ _ _ _ s) as [[sel'|e|] s1] eqn:Hb; [|done..].
  destruct country as [code|] eqn:Hcode; [|split; [done|intros sel o [= <- <-]; by apply prepare_base_verified in Hb]].
  unfold prepare_region. destruct (MasqueRegister.ensure_masque_credentials _ _ _ s1) as [[[creds|e|] reqs] s2]; [|done..].
  destruct (refresh _ _ _) as [cc|e|] eqn:Hr; [|done..]. apply (refresh_listed w code c cc Hw Hcode) in Hr; [|done].
  destruct (try_entries _ _ _ _) as [[i o']|e|] eqn:Ht; [|done..]. split.
  - intros cc' code' [= <-] Hcode'. rewrite Hcode in Hcode'. injection Hcode' as <-. exact Hr.
  - intros sel o [= <- <-]. apply try_entries_passed in Ht as (e & He & Hs & Hp). eexists. split; [|exact Hp]. by exists creds, i, (entries cc), e.
Qed.

Lemma backoff_range n j : 1 <= n -> 1000 <= backoff n j <= 2 ^ Z.min n 5 * 1000.
Proof.
  intros Hn. unfold backoff. rewrite Z.shiftl_1_l. assert (1 <= 2 ^ Z.min n 5) by (pose proof (Z.pow_pos_nonneg 2 (Z.min n 5)); lia).
  apply gen_range_in. lia.
Qed.

Lemma pause_refines w st : published st = None -> 0 <= failures st ->
  let '(r, st', acts) := pause w st in
  r = NextRound /\ service_run (verified_in w) (Down (failures st)) acts (Down (failures st')) /\
  published st' = None /\ 0 <= failures st' /\ cache st' = cache st.
Proof.
  intros Hp Hf. cbn. assert (1 <= u32_saturating_add (failures st) 1) by (unfold u32_saturating_add, U32_MAX; lia).
  split_and!; [done| |done|lia|done]. econstructor; [|constructor]. constructor. by apply backoff_range.
Qed.

(** An outlet that is served is published, watched and withdrawn. *)
Lemma serve_refines w sel o c s n : verified_in w o -> cache_listed c ->
  let '(r, st', acts) := serve_outlet config country w sel o c s in
  exists x, service_run (verified_in w) (Down n) acts x /\ abstracts st' x /\
    (r = NextRound -> cache_listed (cache st') /\ published st' = None /\ 0 <= failures st').
Proof.
  intros Hv Hc. unfold serve_outlet. destruct (hb_ready w) as [[ft rn] nw]. destruct (watch_outbound _ _ _) as [[[]|[]|] s3];
    [|by (exists (Up o); split_and!; [econstructor; [by constructor|constructor]|done|done])..].
  assert (Hdown : forall s4 r, r <> NextRound -> exists x, service_run (verified_in w) (Down n) [Publish o; Withdraw] x /\
    abstracts (mk_sup None 0 c s4) x /\ (r = NextRound -> cache_listed c /\ None = None (A:=outlet) /\ 0 <= 0)).
  { intros s4 r Hr. exists (Down 0). split_and!; [econstructor; [by constructor|]; econstructor; [constructor|constructor]|done|done]. }
  destruct (Heartbeat.invalidate _ _ s3) as [[[]|e|] s4]; [|by apply (Hdown s4)..].
  destruct (cool_endpoint _ _ _ _ s4) as [[[]|e|] s5]; [| |by apply (Hdown s5)];
    (pose proof (pause_refines w (mk_sup None 0 c s5) eq_refl ltac:(cbn; lia)) as Hpa;
     destruct (pause w _) as [[r st'] acts]; destruct Hpa as (-> & Hr & H1 & H2 & H3); cbn [failures cache] in Hr, H3;
     exists (Down (failures st')); rewrite H3; split_and!; [|done|done]; econstructor; [by constructor|]; econstructor; [constructor|done]).
Qed.

(** One round is a run of the abstract service. *)
Lemma round_refines w st : w ∈ rounds -> cache_listed (cache st) -> published st = None -> 0 <= failures st ->
  let '(r, st', acts) := recover_round public_of lookup_host config country w st in
  exists x, service_run (verified_in w) (Down (failures st)) acts x /\ abstracts st' x /\
    (r = NextRound -> cache_listed (cache st') /\ published st' = None /\ 0 <= failures st').
Proof.
  intros Hw Hc Hp Hf. unfold recover_round. destruct (Heartbeat.invalidate _ _ _) as [[[]|e|] s1];
    [|exists (Down (failures st)); split_and!; [constructor|done|done]..].
  pose proof (prepare_verified w (cache st) s1 Hw Hc) as Hpr.
  destruct (prepare _ _ _ _ w (cache st) s1) as [[[[sel o]|e|] c] s2]; destruct Hpr as [Hc' Hv].
  - apply serve_refines; [by eapply Hv|done].
  - pose proof (pause_refines w (mk_sup (published st) (failures st) c s2) Hp Hf) as Hpa.
    destruct (pause w _) as [[r st'] acts]. destruct Hpa as (-> & Hr & H1 & H2 & H3). exists (Down (failures st')). rewrite H3. done.
  - exists (Down (failures st)). split_and!; [constructor|done|done].
Qed.

(** The loop is a run of the abstract service. *)
Lemma recover_from ws st : ws ⊆ rounds -> cache_listed (cache st) -> published st = None -> 0 <= failures st ->
  let '(_, st', acts) := recover_outbound public_of lookup_host config country ws st in
  exists x, service_run (fun o => exists w, w ∈ ws /\ verified_in w o) (Down (failures st)) acts x /\ abstracts st' x.
Proof.
  revert st. induction ws as [|w ws IH]; intros st Hws Hc Hp Hf; cbn [recover_outbound].
  { exists (Down (failures st)). split; [constructor|done]. }
  pose proof (round_refines w st ltac:(apply Hws; left) Hc Hp Hf) as Hr.
  destruct (recover_round _ _ _ _ w st) as [[r st1] acts]. destruct Hr as (x & Hrun & Habs & Hnext).
  assert (Hhead : service_run (fun o => exists w', w' ∈ w :: ws /\ verified_in w' o) (Down (failures st)) acts x).
  { eapply service_run_mono; [|exact Hrun]. intros o Ho. exists w. split; [constructor|done]. }
  destruct r; [|by exists x..]. destruct (Hnext eq_refl) as (Hc1 & Hp1 & Hf1).
  specialize (IH st1 ltac:(intros y Hy; apply Hws; by right) Hc1 Hp1 Hf1).
  destruct (recover_outbound _ _ _ _ ws st1) as [[r2 st2] more]. destruct IH as (y & Hrun2 & Habs2). exists y. split; [|done].
  eapply service_run_app; [exact Hhead|]. destruct x as [n|o]; [|cbn in Habs; congruence]. destruct Habs as [_ <-].
  eapply service_run_mono; [|exact Hrun2]. intros o (w' & Hw & Ho). exists w'. split; [by constructor|done].
Qed.
End refines.

Lemma recover_service_run {P : P256} {B : Base64} {C : StateCodec} {AC : AccountCodec} {RC : RegCodec} {K : PackageCodec}
    public_of lookup_host config country ws st :
  published st = None -> cache st = None -> 0 <= failures st ->
  let '(_, st', acts) := recover_outbound public_of lookup_host config country ws st in
  exists x, service_run (fun o => exists w, w ∈ ws /\ verified_in country ws w o) (Down (failures st)) acts x /\ abstracts st' x.
Proof. intros Hp Hc Hf. apply recover_from; [done| |done|done]. rewrite Hc. by intros ??. Qed.

(** *** The loop never panics

    Whatever the network and the files hold, nothing on the way of a round panics
    unless a call it is given does: the shuffle must only reorder, and
    establishing and fetching must return. *)
Definition shuffles {P : P256} (w : region_world) : Prop := forall l, shuffle w l ≡ₚ l.
Definition calm_attempt (a : attempt) : Prop := no_panic (establish a) /\ Forall no_panic (fetches a).
Record calm {P : P256} (w : round) : Prop := mk_calm {
  calm_shuffle : shuffles (region w);
  calm_masque creds : calm_attempt (masque_attempt (base w) creds);
  calm_wg ep cfg : calm_attempt (wg_attempt (base w) ep cfg);
  calm_entry creds i : no_panic (h2 (entry_at (region w) creds i)) /\ Forall no_panic (h2_fetches (entry_at (region w) creds i));
  calm_watch f hb : Probed f hb ∈ watch w -> no_panic f
}.

Lemma quiet_no_panic {E A} (r : res E A) : no_panic r -> no_panic (quiet r).
Proof. by destruct r. Qed.
Lemma and_then_no_panic {A A' : Type} (x : res unit A * fs) (k : A -> fs -> res unit A' * fs) :
  no_panic x.1 -> (forall a s, no_panic (k a s).1) -> no_panic (and_then x k).1.
Proof. destruct x as [[a|e|] s]; cbn; intros H1 H2; [apply H2|done|done]. Qed.

Lemma write_private_no_panic f rnd path contents s : no_panic (write_private f rnd path contents s).1.
Proof. pose proof (write_private_spec f rnd path contents s) as H. by destruct (write_private _ _ _ _ _) as [[]]. Qed.
Lemma save_no_panic {C : StateCodec} e st s : no_panic (Store.save e st s).1.
Proof.
  unfold Store.save. destruct (mkdir_fails e); [done|].
  pose proof (write_private_no_panic (Store.faults e) (Store.rnd e) (path st) (to_json (state st)) s) as H.
  by destruct (write_private _ _ _ _ _) as [[]].
Qed.
Lemma load_no_panic {C : StateCodec} e p s : no_panic (load e p s).1.
Proof.
  unfold load, prune_cooldowns. destruct (s !! p); [destruct (read_fails e); [done|]|]; cbv zeta;
    (destruct (_ || _); [|done]); match goal with |- context [Store.save e ?st s] => pose proof (save_no_panic e st s) as H; by destruct (Store.save e st s) as [[]] end.
Qed.
Lemma record_success_no_panic {C : StateCodec} e ep st s : no_panic (record_success e ep st s).1.1.
Proof. unfold record_success. match goal with |- context [Store.save e ?st s] => pose proof (save_no_panic e st s) as H; by destruct (Store.save e st s) end. Qed.
Lemma mark_cooldown_no_panic {C : StateCodec} e ep secs st s : no_panic (mark_cooldown e ep secs st s).1.1.
Proof. unfold mark_cooldown. match goal with |- context [Store.save e ?st s] => pose proof (save_no_panic e st s) as H; by destruct (Store.save e st s) end. Qed.
Lemma invalidate_no_panic f rnd s : no_panic (Heartbeat.invalidate f rnd s).1.
Proof. apply write_private_no_panic. Qed.

Lemma probe_no_panic f : no_panic f -> no_panic (Probe.probe_outbound f).
Proof.
  intros Hf. unfold Probe.probe_outbound. destruct f as [raw|e|]; [|done..]. cbn [map_err mbind res_bind].
  destruct (from_utf8 raw) as [body|]; [|done]. cbn. unfold Probe.parse_trace. by repeat case_match.
Qed.
Lemma wait_no_panic fs last : Forall no_panic fs -> no_panic (wait_for_warp fs last).
Proof.
  intros Hf. revert last. induction Hf as [|f fs Hf _ IH]; intros last; cbn [wait_for_warp]; [done|].
  pose proof (probe_no_panic f Hf) as Hp. by destruct (Probe.probe_outbound f).
Qed.
Lemma attempt_no_panic a : calm_attempt a -> no_panic (try_attempt a).
Proof.
  intros [He Hf]. unfold try_attempt. destruct (establish a); [|done..]. cbn [mbind res_bind].
  pose proof (wait_no_panic (fetches a) None Hf). by destruct (wait_for_warp _ _).
Qed.

(** Registrations and configurations. *)
Lemma answer_no_panic r : no_panic (MasqueRegister.answer r).
Proof. unfold MasqueRegister.answer. destruct r as [m|st h [t|]]; [done| |done]. cbn. by destruct (is_success st). Qed.
Lemma build_credentials_no_panic {P : P256} {B : Base64} reg k now : no_panic (MasqueRegister.build_credentials reg k now).
Proof.
  unfold MasqueRegister.build_credentials, MasqueRegister.build_client_cert. destruct (to_pkcs8_der k) as [d|]; [|done]. cbn.
  destruct (self_signed _ _ _ _ _); [|done]. cbn. destruct (MasqueReg.peer_public_key reg); [done|]. by destruct (b64_decode _).
Qed.
Lemma register_no_panic {P : P256} {B : Base64} {RC : RegCodec} i r1 r2 : no_panic (MasqueRegister.register i r1 r2).1.
Proof.
  unfold MasqueRegister.register. destruct (MasqueRegister.client i); [|done]. cbn [negb]. pose proof (answer_no_panic r1) as H1. destruct (MasqueRegister.answer r1) as [b1|e|]; [|done..].
  cbn [mbind res_bind]. destruct (result_from_json b1) as [step1|]; [|done]. cbn [ok_or]. destruct (public_key_der _) as [spki|]; [|done]. cbn [fst].
  pose proof (answer_no_panic r2) as H2. destruct (MasqueRegister.answer r2) as [b2|e|]; [|done..]. cbn [mbind res_bind].
  destruct (result_from_json b2) as [step2|]; [|done]. cbn [ok_or mbind res_bind]. unfold MasqueRegister.pkcs8_der.
  destruct (to_pkcs8_der _) as [d|]; [|done]. cbn [ok_or mbind res_bind]. apply bind_no_panic.
  - unfold MasqueRegister.fill_config, MasqueRegister.edge_key. cbv zeta.
    destruct (MasqueReg.config step2) as [cfg|]; [|done]. destruct (MasqueReg.peers cfg) as [|peer ps]; [done|].
    destruct (MasqueReg.public_key peer); [done|]. by destruct (pem_to_der _).
  - intros reg _. apply build_credentials_no_panic.
Qed.
Lemma load_creds_no_panic {P : P256} {B : Base64} {RC : RegCodec} now path s : no_panic (MasqueRegister.load now path s).
Proof.
  unfold MasqueRegister.load. destruct (s !! path) as [d|]; [|done]. cbn [ok_or mbind res_bind]. destruct (reg_from_json d) as [reg|]; [|done]. cbn [ok_or mbind res_bind].
  destruct (b64_decode _) as [k|]; [|done]. cbn [ok_or mbind res_bind]. destruct (from_pkcs8_der k); [|done]. apply build_credentials_no_panic.
Qed.
Lemma ensure_creds_no_panic {P : P256} {B : Base64} {RC : RegCodec} w now path s :
  no_panic (MasqueRegister.ensure_masque_credentials w now path s).1.1.
Proof.
  unfold MasqueRegister.ensure_masque_credentials. destruct (s !! path); [apply load_creds_no_panic|].
  pose proof (register_no_panic (MasqueRegister.input w) (MasqueRegister.reply1 w) (MasqueRegister.reply2 w)) as Hr.
  destruct (MasqueRegister.register _ _ _) as [[creds|e|] reqs]; [|done..]. unfold MasqueRegister.save.
  match goal with |- context [write_private ?f ?r ?p ?c s] => pose proof (write_private_no_panic f r p c s) as Hw; destruct (write_private f r p c s) as [[]] end;
    [apply load_creds_no_panic|done..].
Qed.
Lemma teams_loop_no_panic {B : Base64} {AC : AccountCodec} public_of c raw k n xs s :
  (Teams.register_loop public_of c raw k n xs s).1.1 <> Some Panic.
Proof.
  revert n. induction xs as [|x xs IH]; intros n; cbn [Teams.register_loop]; [done|]. destruct (Teams.outcome _) as [[st ra] text].
  destruct (_ && _).
  - destruct (account_from_json text) as [a|]; [|done]. unfold Teams.save.
    match goal with |- context [write_private ?f ?r ?p ?c s] => pose proof (write_private_no_panic f r p c s) as Hw; by destruct (write_private f r p c s) as [[]] end.
  - destruct (_ && _); [done|]. destruct (_ <=? n); [done|]. specialize (IH (n + 1)). by destruct (Teams.register_loop _ _ _ _ _ xs s) as [[r evs] s'].
Qed.
Lemma parse_token_no_panic t : no_panic (parse_token t).
Proof. unfold parse_token. by repeat case_match. Qed.
Lemma build_wg_config_no_panic {B : Base64} lookup_host acc ep : no_panic (build_wg_config lookup_host acc ep).
Proof.
  assert (Hk : forall b, no_panic (decode_key b)) by (intros b; unfold decode_key; by repeat case_match).
  unfold build_wg_config. np. apply bind_no_panic; [unfold parse_endpoint; by repeat case_match|]. intros a _. np.
  apply bind_no_panic; [apply Hk|]. intros k1 _. apply bind_no_panic; [apply Hk|]. done.
Qed.

Section no_panic.
Context {P : P256} {B : Base64} {C : StateCodec} {AC : AccountCodec} {RC : RegCodec}.
Context (public_of : bytes -> bytes) (lookup_host : bytes -> option (list SocketAddr)) (config : AppConfig).

Lemma ensure_account_no_panic w s : no_panic (ensure_account public_of config w s).1.
Proof.
  unfold ensure_account. destruct (s !! _); [by destruct (Teams.load _ _)|]. destruct (bytes_eqb _ _); [done|]. unfold Teams.register.
  pose proof (parse_token_no_panic (Teams.token (Teams.mk_registrar (teams_token config) (account_json config) (register_retries config) (register_retry_delay config * Teams.SEC)))) as Ht.
  destruct (parse_token _) as [raw|e|]; [|done..]. destruct (client w); [|done].
  match goal with |- context [Teams.register_loop ?a ?b ?c ?d ?e ?f s] => pose proof (teams_loop_no_panic a b c d e f s) as Hl;
    destruct (Teams.register_loop a b c d e f s) as [[[r|] evs] s'] end; [|done]. cbn in Hl. apply quiet_no_panic. by intros ->.
Qed.

Lemma try_wg_candidate_no_panic w acc ep s : (forall ep cfg, calm_attempt (wg_attempt w ep cfg)) -> no_panic (try_wg_candidate lookup_host config w acc ep s).1.
Proof.
  intros Hc. unfold try_wg_candidate. apply and_then_no_panic; [apply quiet_no_panic, build_wg_config_no_panic|]. intros cfg s1.
  apply and_then_no_panic; [by apply attempt_no_panic|]. intros o s2. unfold write_wg_conf.
  match goal with |- context [write_private ?f ?r ?p ?c s2] => pose proof (write_private_no_panic f r p c s2) as Hw; by destruct (write_private f r p c s2) as [[]] end.
Qed.

Lemma try_candidates_no_panic w acc cands store s : (forall ep cfg, calm_attempt (wg_attempt w ep cfg)) ->
  no_panic (try_candidates lookup_host config w acc cands store s).1.1.
Proof.
  intros Hc. revert store s. induction cands as [|ep cands IH]; intros store s; cbn [try_candidates]; [done|].
  pose proof (try_wg_candidate_no_panic w acc ep s Hc) as Ht. destruct (try_wg_candidate _ _ _ _ _ _) as [[o|e|] s1]; [| |done].
  - pose proof (record_success_no_panic (op_env w ep) ep store s1) as Hr. by destruct (record_success _ _ _ _) as [[[]]].
  - pose proof (mark_cooldown_no_panic (op_env w ep) ep (startup_endpoint_cooldown config) store s1) as Hm.
    destruct (mark_cooldown _ _ _ _ _) as [[[[]|e'|] st] s2]; [apply IH|done|done].
Qed.

Lemma prepare_wireguard_no_panic w s : (forall ep cfg, calm_attempt (wg_attempt w ep cfg)) -> no_panic (prepare_wireguard public_of lookup_host config w s).1.
Proof.
  intros Hc. unfold prepare_wireguard. apply and_then_no_panic; [apply ensure_account_no_panic|]. intros acc s1.
  pose proof (load_no_panic (load_env w) (endpoint_state_file config) s1) as Hl. destruct (load _ _ s1) as [r s2].
  apply and_then_no_panic; [by apply quiet_no_panic|]. intros store s3.
  match goal with |- context [try_candidates ?a ?b ?c ?d ?e ?f ?g] => pose proof (try_candidates_no_panic c d e f g Hc) as Ht;
    by destruct (try_candidates a b c d e f g) as [[r' st] s4] end.
Qed.

Lemma prepare_base_no_panic w s : (forall creds, calm_attempt (masque_attempt w creds)) -> (forall ep cfg, calm_attempt (wg_attempt w ep cfg)) ->
  no_panic (prepare_base public_of lookup_host config w s).1.
Proof.
  intros Hm Hc. unfold prepare_base. destruct (enable_masque config); [|by apply prepare_wireguard_no_panic].
  assert (Ht : no_panic (try_masque config w s).1).
  { unfold try_masque. pose proof (ensure_creds_no_panic (mq w) (mq_now w) (reg_json config) s) as He.
    destruct (MasqueRegister.ensure_masque_credentials _ _ _ s) as [[r reqs] s1]. apply and_then_no_panic; [by apply quiet_no_panic|].
    intros creds s2. by apply attempt_no_panic. }
  destruct (try_masque config w s) as [[o|e|] s1]; [done|by apply prepare_wireguard_no_panic|done].
Qed.
End no_panic.

(** The region. *)
Lemma candidates_no_panic {B : Base64} {K : PackageCodec} response country : no_panic (Servers.candidates response country).
Proof.
  unfold Servers.candidates. apply bind_no_panic; [|done]. unfold Servers.fetch. destruct response as [[[st len] frames]|]; [|done].
  apply bind_no_panic.
  - apply map_err_no_panic. unfold Https.get_response. cbv zeta. assert (Hb : forall b fs, no_panic (Https.read_body ServerList.MAX_PACKAGE_BYTES b fs)).
    { intros b fs. revert b. induction fs as [|[d| |k] fs IH]; intros b; cbn [Https.read_body]; [done| |apply IH|done]. destruct (_ <? _); [done|apply IH]. }
    repeat case_match; try done; apply Hb.
  - intros c _. unfold Servers.decode. np.
Qed.
Lemma connect_entry_no_panic {B : Base64} w e : no_panic (Servers.connect_entry w e).
Proof. unfold Servers.connect_entry. np. by repeat case_match. Qed.

Lemma region_order_sub p l x : x ∈ region_order p l -> x ∈ l.
Proof.
  unfold region_order. destruct p as [y|]; [|done]. destruct (position y l) as [i|]; [|done]. unfold swap0.
  destruct (l !! 0%nat) as [a|] eqn:Ha; [|done]. destruct (l !! i) as [b|] eqn:Hb; [|done].
  intros (k & Hk)%list_elem_of_lookup. apply list_lookup_insert_Some in Hk as [(_ & <- & _)|[_ Hk]]; [by eapply list_elem_of_lookup_2|].
  apply list_lookup_insert_Some in Hk as [(_ & <- & _)|[_ Hk]]; by eapply list_elem_of_lookup_2.
Qed.

Lemma try_entries_no_panic {P : P256} {B : Base64} w creds es l :
  (forall i, no_panic (h2 (entry_at w creds i)) /\ Forall no_panic (h2_fetches (entry_at w creds i))) ->
  (forall i, i ∈ l -> (i < length es)%nat) -> no_panic (try_entries w creds es l).
Proof.
  intros Hc. induction l as [|i l IH]; intros Hl; cbn [try_entries]; [done|].
  destruct (lookup_lt_is_Some_2 es i) as [e ->]; [apply Hl; left|].
  assert (Ha : no_panic (try_attempt (entry_attempt (entry_at w creds i) e))).
  { apply attempt_no_panic. destruct (Hc i) as [Hh Hf]. split; [|exact Hf]. unfold entry_attempt. cbn [establish].
    destruct (ssh_in_time _); [|done]. pose proof (connect_entry_no_panic (ssh (entry_at w creds i)) e). by destruct (Servers.connect_entry _ e). }
  destruct (try_attempt _); [done| |done]. apply IH. intros k Hk. apply Hl. by right.
Qed.

Lemma prepare_region_no_panic {P : P256} {B : Base64} {K : PackageCodec} {RC : RegCodec} config code w c s : shuffles w ->
  (forall creds i, no_panic (h2 (entry_at w creds i)) /\ Forall no_panic (h2_fetches (entry_at w creds i))) ->
  no_panic (prepare_region config code w c s).1.1.
Proof.
  intros Hs He. unfold prepare_region. pose proof (ensure_creds_no_panic (region_mq w) (region_now w) (reg_json config) s) as Hn.
  destruct (MasqueRegister.ensure_masque_credentials _ _ _ s) as [[[creds|e|] reqs] s1]; [|done..].
  assert (Hr : no_panic (refresh code w c)).
  { assert (H : no_panic (es ← quiet (Servers.candidates (list_response w) code); Ok (mk_cache es (now_secs w) None))).
    { apply bind_no_panic; [apply quiet_no_panic, candidates_no_panic|done]. }
    unfold refresh. destruct c as [c|]; [|done]. by destruct (86400 <=? _). }
  destruct (refresh _ _ _) as [cc|e|]; [|done..]. set (l := take 8 _).
  pose proof (try_entries_no_panic w creds (entries cc) l (He creds)) as H. destruct (try_entries _ _ _ _) as [[i o]|e|]; [done..|]. exfalso. apply H; [|done].
  intros i Hi. apply elem_of_take in Hi as (k & Hk & _). apply list_elem_of_lookup_2, region_order_sub in Hk. rewrite (Hs _) in Hk.
  apply elem_of_seq in Hk. lia.
Qed.

Lemma watch_no_panic recovery evs s : (forall f hb, Probed f hb ∈ evs -> no_panic f) -> no_panic (watch_outbound recovery evs s).1.
Proof.
  revert recovery s. induction evs as [|[r|f [[ft rn] nw]] evs IH]; intros recovery s Hf; cbn [watch_outbound]; [done..|].
  pose proof (probe_no_panic f ltac:(eapply Hf; left)) as Hp.
  assert (Hf' : forall f hb, Probed f hb ∈ evs -> no_panic f) by (intros g hb Hg; eapply Hf; right; exact Hg).
  destruct (Probe.probe_outbound f); [by apply IH| |done]. destruct (Recovery.on_failure recovery) as [[] r']; [by apply IH|done].
Qed.

Lemma recover_round_no_panic {P : P256} {B : Base64} {C : StateCodec} {AC : AccountCodec} {RC : RegCodec} {K : PackageCodec}
    public_of lookup_host config country w st : calm w ->
  (recover_round public_of lookup_host config country w st).1.1 <> Panicked.
Proof.
  intros [Hs Hm Hg He Hw]. unfold recover_round. pose proof (invalidate_no_panic (hb_start w).1 (hb_start w).2 (files st)) as Hi.
  destruct (Heartbeat.invalidate _ _ _) as [[[]|e|] s1]; [|done..]. unfold prepare. destruct (timed_out w); [done|].
  pose proof (prepare_base_no_panic public_of lookup_host config (base w) s1 Hm Hg) as Hb.
  destruct (prepare_base _ _ _ _ _) as [[sel|e|] s2]; [|done..].
  assert (Hup : forall o c s3, (serve_outlet config country w sel o c s3).1.1 <> Panicked).
  { intros o c s3. unfold serve_outlet. destruct (hb_ready w) as [[ft rn] nw]. cbv zeta.
    match goal with |- context [watch_outbound ?a ?b ?c] => pose proof (watch_no_panic a b c Hw) as Hn; destruct (watch_outbound a b c) as [[[]|[]|] s4] end; [|done|done].
    pose proof (invalidate_no_panic (hb_end w).1 (hb_end w).2 s4) as Hi2. destruct (Heartbeat.invalidate _ _ s4) as [[[]|e|] s5]; [|done..].
    assert (Hc : no_panic (cool_endpoint config country w sel s5).1).
    { unfold cool_endpoint. destruct country, (wg_endpoint sel) as [ep|]; try done.
      pose proof (load_no_panic (cool_load w) (endpoint_state_file config) s5) as Hl. destruct (load _ _ s5) as [[store|e|] s6]; [|done..]. cbn [quiet map_err and_then].
      pose proof (mark_cooldown_no_panic (cool_mark w) ep (startup_endpoint_cooldown config) store s6) as Hk.
      by destruct (mark_cooldown _ _ _ _ _) as [[[]]]. }
    by destruct (cool_endpoint _ _ _ _ _) as [[]]. }
  destruct country as [code|]; [|apply Hup].
  pose proof (prepare_region_no_panic config code (region w) (cache st) s2 Hs He) as Hr.
  destruct (prepare_region _ _ _ _ _) as [[[o|e|] c] s3]; [apply Hup|done|done].
Qed.

(** C2. The recovery loop refines the abstract service: whatever the rounds meet
    (probes, time-outs, faults), its actions are a run in which an outlet is
    published only after a WARP probe of that very outlet succeeded in one of the
    rounds (when a country is selected, an outlet over an SSH connection to a server
    of that country's signed list, downloaded in one of the rounds), is withdrawn
    before the next preparation begins, and every wait is at least one second and
    at most two to the power of the failure count, 32 seconds at most; the loop's
    published outlet is the abstract one. *)
Theorem recover_refines {P : P256} {B : Base64} {C : StateCodec} {AC : AccountCodec} {RC : RegCodec} {K : PackageCodec}
    public_of lookup_host config country ws st :
  published st = None -> cache st = None -> 0 <= failures st ->
  let '(_, st', acts) := recover_outbound public_of lookup_host config country ws st in
  exists x, service_run (fun o => exists w, w ∈ ws /\ verified_in country ws w o) (Down (failures st)) acts x /\ abstracts st' x.
Proof. apply recover_service_run. Qed.

#[local] Existing Instance ServersFacts.toy_package.

(** A MASQUE outlet that is verified and lost; with a country selected, the outlet
    is one over the server in Tokyo. *)
Definition tokyo_ssh : Servers.ssh_world := Servers.mk_ssh (fun _ _ => true) [5; 6] true (Some true).
Definition sample_round : round :=
  {| base := mk_base MasqueRegisterFacts.sample_world 50 (fun _ => mk_attempt (Ok 5) [Ok trace_body])
               (Teams.mk_keygen [1] (fun _ => 0) (fun _ => 0)) true [] (Store.mk_env 0 false false no_faults 1)
               (fun _ _ => mk_attempt (Err tt) []) (fun _ => no_faults) (fun _ => 1) (fun _ => Store.mk_env 0 false false no_faults 1);
     region := mk_region MasqueRegisterFacts.sample_world 50 (Some (200, None, [Https.Data ServersFacts.toy_list])) (fun l => l)
                 (fun _ _ => mk_entry_world true tokyo_ssh (Ok 6) [Ok trace_body]) 0;
     timed_out := None; hb_start := (no_faults, 1); hb_ready := (no_faults, 2, 100); hb_end := (no_faults, 3);
     watch := [Probed (Ok trace_body) (no_faults, 4, 110); Terminated []];
     cool_load := Store.mk_env 0 false false no_faults 1; cool_mark := Store.mk_env 0 false false no_faults 1; jitter := 77 |}.

Lemma recover_refines_witness :
  let run := recover_outbound (fun b => b) (fun _ => None) sample_env (Some (str_bytes "JP")) [sample_round] (mk_sup None 0 None ∅) in
  run.2 = [Publish 6; Withdraw; Sleep 1077] /\
  exists x, service_run (fun o => exists w, w ∈ [sample_round] /\ verified_in (Some (str_bytes "JP")) [sample_round] w o)
    (Down 0) [Publish 6; Withdraw; Sleep 1077] x.
Proof.
  intros run. assert (Ha : run.2 = [Publish 6; Withdraw; Sleep 1077]) by (vm_compute; reflexivity). split; [exact Ha|].
  pose proof (recover_refines (fun b => b) (fun _ => None) sample_env (Some (str_bytes "JP"))
    [sample_round] (mk_sup None 0 None ∅) eq_refl eq_refl ltac:(cbn; lia)) as H.
  fold run in H. destruct run as [[r st] acts]. cbn [snd] in Ha. subst acts. destruct H as (x & Hx & _). exists x. exact Hx.
Defined.
End SupervisorFacts.
