(* ===== verification/Service.v ===== *)
(** * The running service ([src/src/supervisor.rs], [src/src/mixed.rs], [src/src/bin/warp-socks.rs])

    [Supervisor::run] puts the listener and the recovery loop side by side: they
    share the watch channel with the published outlet, and a signal ends both.  The
    connection tasks are a state machine interleaved with the actions of the
    recovery loop; the set-up, the ways the service ends and the commands of the
    binary are functions around it. *)
From S2P Require Import Prelude RustStr Fs Health NetAddr Mixed Config Registration Endpoint Psiphon Supervisor.

(** ** Connections and the published outlet *)
Module Service.
Import WgConf App Store Supervisor.

(** A connection task: it looks for an outlet, and has found none at version
    [seen] of the channel; it serves its client through the outlet it saw; it
    answers that none is ready. *)
Inductive phase := WaitReady (seen : option Z) | Serving (o : outlet) (seen : Z) | Refusing (seen : Z).

Record service := mk_service {
  outbound : option outlet; version : Z;   (** the watch channel *)
  listener : Mixed.server; tasks : list phase;
  handed : list (SocketAddr * outlet)      (** every client given to an outlet so far *)
}.

(** [run_service] starts without an outlet, [mixed::serve] with a fixed one. *)
Definition service_new (o : option outlet) : service := mk_service o 0 Mixed.serve_start [] [].

Definition with_task (i : nat) (p : phase) (given : list (SocketAddr * outlet)) (s : service) : service :=
  mk_service (outbound s) (version s) (listener s) (<[i := p]> (tasks s)) (handed s ++ given).
Definition send_replace (o : option outlet) (s : service) : service :=
  mk_service o (version s + 1) (listener s) (tasks s) (handed s).
Definition leave (i : nat) (s : service) : service :=
  mk_service (outbound s) (version s) (Mixed.accept_step (Mixed.Joined i) (listener s)).2 (delete i (tasks s)) (handed s).

(** [RunningProxy::drop]: the listener task is aborted, and with the task sets it
    owns every connection task. *)
Definition drop_proxy (s : service) : service := Nat.iter (length (tasks s)) (leave 0) s.

Inductive event :=
| Recover (a : action)                     (** the next action of the recovery loop *)
| Client (lan_only : bool) (peer : SocketAddr)
| AcceptFails (k : ErrorKind)
| Look (i : nat)                           (** [borrow_and_update], at first and after a change *)
| Expire (i : nat)                         (** [RECOVERY_WAIT] is over and the channel has not changed *)
| Ends (i : nat)                           (** [dispatch] is over *)
| Released (i : nat).                      (** [state.changed()]: the channel has moved *)

(** One event; [None]: it cannot happen in this state. *)
Definition apply (e : event) (s : service) : option service :=
  match e with
  | Recover (Publish o) => Some (send_replace (Some o) s)
  | Recover Withdraw => Some (send_replace None s)
  | Recover (Sleep _) => Some s
  | Client lan_only peer =>
      let '(r, l) := Mixed.accept_step (Mixed.Accepted lan_only peer) (listener s) in
      Some (mk_service (outbound s) (version s) l
              (match r with Mixed.Spawned => tasks s ++ [WaitReady None] | _ => tasks s end) (handed s))
  | AcceptFails k => Some (mk_service (outbound s) (version s) (Mixed.accept_step (Mixed.AcceptError k) (listener s)).2 (tasks s) (handed s))
  | Look i =>
      match tasks s !! i, Mixed.connections (listener s) !! i with
      | Some (WaitReady seen), Some (peer, _) =>
          if bool_decide (seen = Some (version s)) then None
          else match outbound s with
               | Some o => Some (with_task i (Serving o (version s)) [(peer, o)] s)
               | None => Some (with_task i (WaitReady (Some (version s))) [] s)
               end
      | _, _ => None
      end
  | Expire i =>
      match tasks s !! i with
      | Some (WaitReady (Some v)) => if v =? version s then Some (with_task i (Refusing v) [] s) else None
      | _ => None
      end
  | Ends i => match tasks s !! i with Some (Serving _ _) | Some (Refusing _) => Some (leave i s) | _ => None end
  | Released i =>
      match tasks s !! i with
      | Some (Serving _ v) | Some (Refusing v) => if v =? version s then None else Some (leave i s)
      | _ => None
      end
  end.

Fixpoint run_events (es : list event) (s : service) : option service :=
  match es with [] => Some s | e :: es => s ← apply e s; run_events es s end.

(** The actions of the recovery loop among the events. *)
Definition recovery_of (e : event) : option action := match e with Recover a => Some a | _ => None end.

(** ** How the service ends *)
Inductive listener_error := EarlyExit | EarlyError (e : Mixed.serve_error) | TaskAborted.
Inductive run_error :=
| BadListen (e : listen_error) | BadCountry | HeartbeatReset (e : fs_error) | StateDir (e : ErrorKind)
| SignalHandler (e : ErrorKind) | ListenerStopped (e : listener_error) | HeartbeatLost.

(** [listener_result] *)
Definition listener_result (r : Mixed.joined (res Mixed.serve_error unit)) : listener_error :=
  match r with
  | Mixed.Finished (Ok _) => EarlyExit
  | Mixed.Finished (Err e) => EarlyError e
  | Mixed.Finished Panic | Mixed.TaskPanicked => TaskAborted
  end.

(** [startup_probe_error]: the last probe's error, or that none was finished. *)
Inductive startup_error := ProbeFailed (e : Probe.ProbeError) | NoProbeFinished.
Definition startup_probe_error (last : option Probe.ProbeError) : startup_error :=
  match last with Some e => ProbeFailed e | None => NoProbeFinished end.

(** [shutdown_signal]: the handlers are installed in this order; then any signal. *)
Inductive signal := Terminate | Interrupt | Hangup.
Definition shutdown_signal (install : signal -> res ErrorKind unit) (received : list signal) : poll (res ErrorKind unit) :=
  match (_ ← install Terminate; _ ← install Interrupt; install Hangup) with
  | Ok _ => match received with [] => Pending | _ => Ready (Ok tt) end
  | Err e => Ready (Err e)
  | Panic => Ready Panic
  end.

Section run.
Context {P : P256} {B : Base64} {C : StateCodec} {AC : AccountCodec} {RC : RegCodec} {K : PackageCodec}.
Context (public_of : bytes -> bytes) (lookup_host : bytes -> option (list SocketAddr)) (config : AppConfig).

(** What the process meets: the heartbeat's file system, the state directory, the
    operating system's sockets, the listener task, the rounds of the recovery
    loop, the signals; and which branch a select takes when both are ready. *)
Record world := mk_world {
  hb_reset : fs_faults * Z; mkdir : res ErrorKind unit;
  os : SocketAddr -> option bool -> res ErrorKind unit;
  listener_ends : option (Mixed.joined (res ErrorKind unit)); listener_panics : bool;
  rounds : list round;
  install : signal -> res ErrorKind unit; received : list signal;
  left_first : bool
}.

(** [tokio::select!] of two branches. *)
Definition select {A} (left_first : bool) (a b : poll A) : poll A :=
  match a, b with
  | Ready x, Ready y => Ready (if left_first then x else y)
  | Ready x, Pending => Ready x
  | Pending, b => b
  end.

(** [run_service] *)
Definition serve_task (w : world) (mode : Mixed.ListenMode) : poll (Mixed.joined (res Mixed.serve_error unit)) :=
  if listener_panics w then Ready Mixed.TaskPanicked
  else match Mixed.serve_managed (os w) mode (listener_ends w) with Ready r => Ready (Mixed.Finished r) | Pending => Pending end.

Definition recovery_result (country : option bytes) (ws : list round) (s : fs) : poll (res run_error unit) :=
  match recover_outbound public_of lookup_host config country ws (mk_sup None 0 None s) with
  | (FatalHeartbeat, _, _) => Ready (Err HeartbeatLost)
  | (Panicked, _, _) => Ready Panic
  | (_, _, _) => Pending
  end.

Definition run_service (w : world) (mode : Mixed.ListenMode) (country : option bytes) (s : fs) : poll (res run_error unit) :=
  select (left_first w)
    (match serve_task w mode with Ready r => Ready (Err (ListenerStopped (listener_result r))) | Pending => Pending end)
    (recovery_result country (rounds w) s).

(** [Supervisor::run] *)
Definition run_setup (w : world) (s : fs) : res run_error (Mixed.ListenMode * option bytes) * fs :=
  match parse_listen_mode (listen_addrs config) (listen_port config) with
  | Ok mode =>
      match Servers.validate_psiphon_config (psiphon_country config) with
      | Some country =>
          match Heartbeat.invalidate (hb_reset w).1 (hb_reset w).2 s with
          | (Ok _, s) => (match mkdir w with Ok _ => Ok (mode, country) | Err e => Err (StateDir e) | Panic => Panic end, s)
          | (Err e, s) => (Err (HeartbeatReset e), s)
          | (Panic, s) => (Panic, s)
          end
      | None => (Err BadCountry, s)
      end
  | Err e => (Err (BadListen e), s)
  | Panic => (Panic, s)
  end.

Definition run (w : world) (s : fs) : poll (res run_error unit) :=
  match run_setup w s with
  | (Ok (mode, country), s) =>
      select (left_first w) (run_service w mode country s)
        (match shutdown_signal (install w) (received w) with
         | Ready (Err e) => Ready (Err (SignalHandler e))
         | Ready (Ok _) => Ready (Ok tt)
         | Ready Panic => Ready Panic
         | Pending => Pending
         end)
  | (Err e, _) => Ready (Err e)
  | (Panic, _) => Ready Panic
  end.

(** ** The binary *)
(** [run_healthcheck]: the exit code. *)
Definition run_healthcheck (now : Z) (s : fs) : Z :=
  match Heartbeat.heartbeat_max_age (E:=Heartbeat.unhealthy) (healthcheck_interval config) (healthcheck_probe_timeout config)
          (healthcheck_failure_threshold config) with
  | Ok max_age => match Heartbeat.check max_age now s with Ok _ => 0 | Err _ => 1 | Panic => 101 end
  | Err _ => 1
  | Panic => 101
  end.

(** [main]: the exit code of the process, 1 for an error and 101 for a panic. *)
Definition exit_code {E} (r : res E unit) : Z := match r with Ok _ => 0 | Err _ => 1 | Panic => 101 end.
Definition main (args : list bytes) (w : world) (reg : MasqueRegister.world) (now : Z) (s : fs) : poll Z :=
  match MasqueRegister.main_command args with
  | MasqueRegister.Serve => match run w s with Ready r => Ready (exit_code r) | Pending => Pending end
  | MasqueRegister.Register rest => Ready (exit_code (MasqueRegister.run_register reg rest s).1.1)
  | MasqueRegister.Healthcheck => Ready (run_healthcheck now s)
  | MasqueRegister.Unknown _ => Ready 1
  end.
End run.
End Service.

Module ServiceFacts.
Import WgConf App Store Supervisor SupervisorFacts Service.

(** *** Clients and outlets *)
(** What a task has seen agrees with the channel, as far as the channel has not
    moved since. *)
Definition task_ok (s : service) (p : phase) : Prop :=
  match p with
  | WaitReady None => True
  | WaitReady (Some v) | Refusing v => v <= version s /\ (v = version s -> outbound s = None)
  | Serving o v => v <= version s /\ (v = version s -> outbound s = Some o)
  end.

Record service_ok (published : outlet -> Prop) (s : service) : Prop := mk_service_ok {
  ok_listener : Mixed.server_ok (listener s);
  ok_length : length (tasks s) = length (Mixed.connections (listener s));
  ok_tasks : Forall (task_ok s) (tasks s);
  ok_outbound o : outbound s = Some o -> published o;
  ok_handed peer o : (peer, o) ∈ handed s -> published o
}.

(** The channel moves on: what was seen is older. *)
Lemma send_replace_ok V o s : (forall x, o = Some x -> V x) -> service_ok V s -> service_ok V (send_replace o s).
Proof.
  intros Ho [H1 H2 H3 H4 H5]. constructor; cbn; auto. eapply Forall_impl; [exact H3|]. intros [[v|]|x v|v]; cbn; [|done|..]; intros [Hv _]; split; lia.
Qed.

Lemma leave_ok V i s : is_Some (tasks s !! i) -> service_ok V s -> service_ok V (leave i s).
Proof.
  intros Hi [H1 H2 H3 H4 H5]. pose proof (Mixed.accept_step_ok (Mixed.Joined i) _ H1) as Hl.
  destruct (lookup_lt_is_Some_2 (Mixed.connections (listener s)) i) as [c Hc]; [rewrite <-H2; by apply lookup_lt_is_Some|].
  constructor; cbn [leave listener tasks outbound handed]; [done| |by apply Forall_delete|done|done].
  cbn. rewrite Hc. cbn. rewrite !length_delete by eauto. by rewrite H2.
Qed.

Lemma with_task_ok V i p g s : service_ok V s -> task_ok s p -> (forall peer o, (peer, o) ∈ g -> V o) -> service_ok V (with_task i p g s).
Proof.
  intros [H1 H2 H3 H4 H5] Hp Hg. constructor; cbn [with_task listener tasks outbound handed]; [done|by rewrite length_insert| |done|].
  - apply Forall_insert; [|exact Hp]. exact H3.
  - intros peer o [Ho|Ho]%elem_of_app; eauto.
Qed.

Definition publishes (V : outlet -> Prop) (e : event) : Prop := forall o, e = Recover (Publish o) -> V o.

Lemma service_step_ok V e s s' : service_ok V s -> publishes V e -> apply e s = Some s' -> service_ok V s'.
Proof.
  intros K HV H. destruct e as [a|lan peer|k|i|i|i|i]; cbn [apply] in H.
  - destruct a as [o| |ms]; injection H as <-; [apply send_replace_ok; [|done]; intros x [= <-]; by apply HV|by apply send_replace_ok|done].
  - destruct K as [H1 H2 H3 H4 H5]. destruct (Mixed.accept_step _ _) as [r l] eqn:Ha. injection H as <-.
    pose proof (Mixed.accept_step_ok (Mixed.Accepted lan peer) _ H1) as Hl. rewrite Ha in Hl. cbn in Ha, Hl.
    constructor; cbn; [done| | |done|done].
    + destruct (lan && _); [by injection Ha as <- <-|]. destruct (_ <? 1); injection Ha as <- <-; [done|]. cbn. rewrite !length_app. cbn. lia.
    + destruct r; try done. apply Forall_app. split; [done|]. by repeat constructor.
  - injection H as <-. by destruct K.
  - destruct (tasks s !! i) as [[seen| |]|] eqn:Ht; try done. destruct (Mixed.connections _ !! i) as [[peer lan]|]; [|done].
    case_bool_decide; [done|]. destruct (outbound s) as [o|] eqn:Ho; injection H as <-; (apply with_task_ok; [done| |]); try (cbn; split; [lia|done]).
    + intros p x Hx%list_elem_of_singleton. injection Hx as -> ->. by apply (ok_outbound _ _ K).
    + by intros p x Hx%elem_of_nil.
  - destruct (tasks s !! i) as [[[v|]| |]|] eqn:Ht; try done. destruct (Z.eqb_spec v (version s)) as [->|]; [|done]. injection H as <-.
    pose proof (proj1 (Forall_lookup _ _) (ok_tasks _ _ K) _ _ Ht) as Hk. apply with_task_ok; [done|done|]. by intros p x Hx%elem_of_nil.
  - destruct (tasks s !! i) as [[| |]|] eqn:Ht; try done; injection H as <-; apply leave_ok; eauto.
  - destruct (tasks s !! i) as [[|o v|v]|] eqn:Ht; try done; (destruct (v =? version s); [done|]); injection H as <-; apply leave_ok; eauto.
Qed.

Lemma service_run_ok V es s s' : service_ok V s -> Forall (publishes V) es -> run_events es s = Some s' -> service_ok V s'.
Proof.
  intros K Hes. revert s K. induction Hes as [|e es He _ IH]; intros s K; cbn; [by intros [= <-]|].
  destruct (apply e s) as [s1|] eqn:Ha; [|done]. cbn. by apply IH, (service_step_ok V e s).
Qed.

Lemma service_new_ok V : service_ok V (service_new None).
Proof. constructor; cbn; [by constructor|done|constructor|done|]. by intros p o Ho%elem_of_nil. Qed.

(** Dropping the proxy ends every connection and gives every permit back. *)
Theorem proxy_dropped es s : run_events es (service_new None) = Some s ->
  tasks (drop_proxy s) = [] /\ listener (drop_proxy s) = Mixed.serve_start.
Proof.
  intros Hr. assert (K : service_ok (fun _ => True) s)
    by (eapply service_run_ok; [apply service_new_ok| |exact Hr]; by apply Forall_forall).
  clear Hr. unfold drop_proxy. remember (length (tasks s)) as n eqn:Hn. revert s Hn K. induction n as [|n IH]; intros s Hn K.
  - destruct K as [[Hm _ _] H2 _ _ _]. cbn. destruct (tasks s); [|done]. split; [done|]. destruct (listener s) as [p l]. cbn in *.
    destruct l; [|done]. unfold zlen in Hm. cbn in Hm. unfold Mixed.serve_start. f_equal. lia.
  - rewrite Nat.iter_succ_r. destruct (tasks s) as [|t ts] eqn:Ht; [done|]. apply IH.
    + unfold leave. cbn [tasks]. rewrite Ht. cbn in *. lia.
    + apply leave_ok; [by rewrite Ht|done].
Qed.

(** The outlets a run of the abstract service publishes are verified. *)
Lemma service_run_verified V x acts y o : service_run V x acts y -> Publish o ∈ acts -> V o.
Proof.
  induction 1 as [|x a y acts z Hs _ IH]; [by intros Ho%elem_of_nil|]. intros [Ho|Ho]%elem_of_cons; [subst a; by inversion Hs|by apply IH].
Qed.

(** C3. Clients only ever meet verified outlets: however the connections of the
    listener interleave with the actions of the recovery loop, a client is handed
    only to an outlet that passed a WARP probe in one of its rounds; a task whose
    view of the channel is current serves exactly the published outlet, and is
    refused only while none is published; every other task has a stale view and
    may be released at once; and at most 64 clients are served. *)
Theorem clients_verified {P : P256} {B : Base64} {C : StateCodec} {AC : AccountCodec} {RC : RegCodec} {K : PackageCodec}
    public_of lookup_host config country ws st es s :
  published st = None -> cache st = None -> 0 <= failures st ->
  omap recovery_of es `prefix_of` (recover_outbound public_of lookup_host config country ws st).2 ->
  run_events es (service_new None) = Some s ->
  (forall peer o, (peer, o) ∈ handed s -> exists w, w ∈ ws /\ verified_in country ws w o) /\
  (forall i p, tasks s !! i = Some p ->
     match p with
     | Serving o v => if v =? version s then outbound s = Some o else is_Some (apply (Released i) s)
     | Refusing v => if v =? version s then outbound s = None else is_Some (apply (Released i) s)
     | WaitReady _ => is_Some (apply (Look i) s) \/ outbound s = None
     end) /\
  zlen (tasks s) <= 64.
Proof.
  intros Hp Hnone Hf Hpre Hr. pose proof (recover_service_run public_of lookup_host config country ws st Hp Hnone Hf) as Hrec.
  destruct (recover_outbound _ _ _ _ ws st) as [[r st'] acts]. destruct Hrec as (x & Hrun & _). cbn in Hpre.
  set (V := fun o => exists w, w ∈ ws /\ verified_in country ws w o) in *.
  assert (Ks : service_ok V s).
  { eapply service_run_ok; [apply service_new_ok| |exact Hr]. apply Forall_forall. intros e He o ->. eapply service_run_verified; [exact Hrun|].
    eapply elem_of_prefix; [|exact Hpre]. apply list_elem_of_omap. by exists (Recover (Publish o)). }
  destruct Ks as [H1 H2 H3 H4 H5]. split_and!; [exact H5| |].
  - intros i p Hi. pose proof (proj1 (Forall_lookup _ _) H3 _ _ Hi) as Hk. destruct p as [seen|o v|v]; cbn [apply]; rewrite Hi.
    + destruct (lookup_lt_is_Some_2 (Mixed.connections (listener s)) i) as [[peer lan] Hc]; [rewrite <-H2; by eapply lookup_lt_Some|].
      rewrite Hc. case_bool_decide as Hs; [right; subst seen; by apply Hk|left]. by destruct (outbound s).
    + destruct (Z.eqb_spec v (version s)); [by apply Hk|done].
    + destruct (Z.eqb_spec v (version s)); [by apply Hk|done].
  - destruct H1 as [Hm Hn _]. unfold zlen in *. unfold Mixed.MAX_CONNECTIONS in Hm. lia.
Qed.

(** *** Why the service ends *)
Section ends.
Context {P : P256} {B : Base64} {C : StateCodec} {AC : AccountCodec} {RC : RegCodec} {K : PackageCodec}.
Context (public_of : bytes -> bytes) (lookup_host : bytes -> option (list SocketAddr)) (config : AppConfig).

(** The heartbeat file could not be reset at the start or at the end of a round. *)
Definition reset_fails (w : round) : Prop :=
  exists s, is_ok (Heartbeat.invalidate (hb_start w).1 (hb_start w).2 s).1 = false \/ is_ok (Heartbeat.invalidate (hb_end w).1 (hb_end w).2 s).1 = false.

Lemma recover_round_fatal country w st st' acts :
  recover_round public_of lookup_host config country w st = (FatalHeartbeat, st', acts) -> reset_fails w.
Proof.
  unfold recover_round, reset_fails. destruct (Heartbeat.invalidate (hb_start w).1 (hb_start w).2 (files st)) as [x s1] eqn:H1.
  destruct x as [[]|e|]; [|intros _; exists (files st); left; by rewrite H1|done].
  destruct (prepare _ _ _ _ w (cache st) s1) as [[[[sel o]|e|] c] s2]; [|done..]. unfold serve_outlet.
  destruct (hb_ready w) as [[ft rn] nw]. destruct (watch_outbound _ _ _) as [[[]|[]|] s3]; [|done..].
  destruct (Heartbeat.invalidate _ _ s3) as [y s4] eqn:H2. destruct y as [[]|e|]; [|intros _; exists s3; right; by rewrite H2|done].
  by destruct (cool_endpoint _ _ _ _ s4) as [[]].
Qed.

Lemma recover_fatal country ws st st' acts :
  recover_outbound public_of lookup_host config country ws st = (FatalHeartbeat, st', acts) -> exists w, w ∈ ws /\ reset_fails w.
Proof.
  revert st st' acts. induction ws as [|w ws IH]; intros st st' acts; cbn [recover_outbound]; [done|].
  destruct (recover_round _ _ _ _ w st) as [[r st1] a1] eqn:Hr. destruct r.
  - destruct (recover_outbound _ _ _ _ ws st1) as [[r2 st2] more] eqn:Hs. intros [= -> <- <-].
    destruct (IH _ _ _ Hs) as (w' & Hw & Hf). exists w'. split; [by right|done].
  - done.
  - intros _. exists w. split; [left|by eapply recover_round_fatal].
  - done.
Qed.

Lemma recover_no_panic country ws st : Forall calm ws ->
  (recover_outbound public_of lookup_host config country ws st).1.1 <> Panicked.
Proof.
  intros Hws. revert st. induction Hws as [|w ws Hw _ IH]; intros st; cbn [recover_outbound]; [done|].
  pose proof (recover_round_no_panic public_of lookup_host config country w st Hw) as Hr.
  destruct (recover_round _ _ _ _ w st) as [[[] st1] a1]; [|done..].
  specialize (IH st1). by destruct (recover_outbound _ _ _ _ ws st1) as [[r2 st2] more].
Qed.

Lemma parse_listen_mode_no_panic raw port : no_panic (parse_listen_mode raw port).
Proof.
  unfold parse_listen_mode. destruct (eq_ignore_ascii_case _ _); [done|]. set (vs := List.filter _ _).
  assert (H : no_panic (parse_addrs vs)).
  { generalize vs. intros l. induction l as [|v l IH]; [done|]. cbn [parse_addrs]. destruct (parse_socket_addr v); [|done]. cbn.
    by destruct (parse_addrs l). }
  destruct (parse_addrs vs) as [[|a l]|e|]; done.
Qed.

Lemma select_ready {A} b (x y : poll A) r : select b x y = Ready r -> x = Ready r \/ y = Ready r.
Proof. destruct x as [x|], y as [y|]; cbn; [destruct b; intros [= <-]; auto|auto|auto|done]. Qed.

Lemma run_service_ends w mode country s r : run_service public_of lookup_host config w mode country s = Ready r ->
  (exists j, serve_task w mode = Ready j /\ r = Err (ListenerStopped (listener_result j))) \/
  (r = Err HeartbeatLost /\ exists x, x ∈ rounds w /\ reset_fails x) \/
  (r = Panic /\ ~ Forall calm (rounds w)).
Proof.
  unfold run_service. intros [H|H]%select_ready.
  - left. destruct (serve_task w mode) as [j|]; [|done]. injection H as <-. by exists j.
  - right. unfold recovery_result in H. destruct (recover_outbound _ _ _ _ _ _) as [[e st'] acts] eqn:Hr. destruct e; try done; injection H as <-.
    + left. split; [done|]. by eapply recover_fatal.
    + right. split; [done|]. intros Hx. apply (recover_no_panic country (rounds w) (mk_sup None 0 None s)) in Hx. by rewrite Hr in Hx.
Qed.
End ends.


(** *** The health check of the container *)
(** C17. The health check's window is exact and fits its type: for every interval
    and probe budget of up to 2^32 seconds together, the window is computed
    without overflow, is longer than a full run of failed probes, and the command
    exits with 0 exactly while the last recorded success is at most that old, and
    with 1 otherwise. *)
Theorem healthcheck_window config rnd t now s :
  0 <= healthcheck_interval config -> 1 <= healthcheck_probe_timeout config ->
  healthcheck_interval config + healthcheck_probe_timeout config <= 4294967296 ->
  1 <= healthcheck_failure_threshold config <= U32_MAX -> u64 t -> t <= now ->
  s !! temporary_path Heartbeat.HEARTBEAT_PATH rnd = None ->
  let round := healthcheck_interval config + healthcheck_probe_timeout config in
  let window := round * Z.min (healthcheck_failure_threshold config + 1) U32_MAX + 10 in
  window <= U64_MAX /\ round * healthcheck_failure_threshold config < window /\
  run_healthcheck config now (Heartbeat.record_success no_faults rnd t s) = if now - t <=? window then 0 else 1.
Proof.
  intros Hi Hp Hsum Ht Hu Hle Hn round window. assert (Hr : 1 <= round <= 4294967296) by (unfold round; lia).
  assert (Hw : window = round * Z.min (healthcheck_failure_threshold config + 1) U32_MAX + 10) by done. unfold U32_MAX in *.
  assert (Hb : window <= U64_MAX) by (unfold U64_MAX; nia). split_and!; [done|nia|].
  unfold run_healthcheck, Heartbeat.heartbeat_max_age, Heartbeat.duration, u32_saturating_add, U32_MAX. fold round. rewrite Z.min_comm. unfold U64_MAX in *.
  rewrite (proj2 (Z.leb_le round _)) by lia. cbn. rewrite (proj2 (Z.leb_le (round * _) _)) by lia. cbn. rewrite <-Hw.
  rewrite (proj2 (Z.leb_le window _)) by lia. rewrite Heartbeat.record_success_file by done.
  rewrite (Heartbeat.check_stamp t) by (done || apply lookup_insert_eq). unfold saturating_sub. rewrite Z.max_r by lia.
  destruct (Z.ltb_spec window (now - t)), (Z.leb_spec (now - t) window); done || lia.
Qed.

(** The window of the default settings. *)
Lemma healthcheck_window_witness :
  run_healthcheck sample_env 1392 (Heartbeat.record_success no_faults 7 1000 ∅) = 1 /\
  run_healthcheck sample_env 1302 (Heartbeat.record_success no_faults 7 1000 ∅) = 0.
Proof.
  split;
    [refine (proj2 (proj2 (healthcheck_window sample_env 7 1000 1392 ∅ _ _ _ _ _ _ _)))|
     refine (proj2 (proj2 (healthcheck_window sample_env 7 1000 1302 ∅ _ _ _ _ _ _ _)))];
    first [reflexivity | vm_compute; split; discriminate | vm_compute; discriminate].
Defined.

(** Beyond that the multiplication of the durations overflows, and the command panics. *)
Example healthcheck_overflow : run_healthcheck (from_env (fun _ => Some (str_bytes "4294967295"))) 1000 ∅ = 101.
Proof. vm_compute. reflexivity. Qed.

#[local] Existing Instances WgConfFacts.letters EndpointFacts.positive_codec TeamsFacts.account_codec
  MasqueRegisterFacts.reg_codec MasqueRegisterFacts.toy_p256 ServersFacts.toy_package.

(** A client that waits for the outlet, is served, and outlives it; one that comes
    after it and is refused. *)
Definition sample_peer : SocketAddr := SockV4 [192; 168; 1; 7] 40000.
Definition sample_events : list event :=
  [Client true sample_peer; Look 0; Recover (Publish 5); Look 0; Recover Withdraw; Client true sample_peer; Look 1; Expire 1; Recover (Sleep 1077)].

Lemma clients_verified_witness : match run_events sample_events (service_new None) with
  | Some s => tasks s = [Serving 5 1; Refusing 2] /\ handed s = [(sample_peer, 5)] /\
      (exists w, w ∈ [sample_round] /\ verified_in None [sample_round] w 5) /\ is_Some (apply (Released 0) s)
  | None => False
  end.
Proof.
  assert (Hv : (fun s => (tasks s, handed s, version s)) <$> run_events sample_events (service_new None) =
    Some ([Serving 5 1; Refusing 2], [(sample_peer, 5)], 2)) by (vm_compute; reflexivity).
  destruct (run_events sample_events (service_new None)) as [s|] eqn:Hr; [|discriminate Hv]. injection Hv as Ht Hh Hn.
  destruct (clients_verified (fun b => b) (fun _ => None) sample_env None [sample_round] (mk_sup None 0 None ∅) sample_events s)
    as (H1 & H2 & _); [reflexivity|reflexivity|cbn; lia|exists []; vm_compute; reflexivity|exact Hr|].
  split; [exact Ht|]. split; [exact Hh|]. split; [apply (H1 sample_peer 5); rewrite Hh; left|].
  specialize (H2 0%nat (Serving 5 1)). rewrite Ht, Hn in H2. exact (H2 eq_refl).
Defined.

Lemma proxy_dropped_witness : match run_events sample_events (service_new None) with
  | Some s => length (tasks s) = 2%nat /\ tasks (drop_proxy s) = []
  | None => False
  end.
Proof.
  assert (Hv : length ∘ tasks <$> run_events sample_events (service_new None) = Some 2%nat) by (vm_compute; reflexivity).
  destruct (run_events sample_events (service_new None)) as [s|] eqn:Hr; [|discriminate Hv]. injection Hv as Hv.
  split; [exact Hv|exact (proj1 (proxy_dropped sample_events s Hr))].
Defined.

(** A process that is told to stop while its first outlet is watched. *)
Definition sample_world : world :=
  mk_world (no_faults, 1) (Ok tt) (fun _ _ => Ok tt) None false [sample_round] (fun _ => Ok tt) [Terminate] true.

End ServiceFacts.
