(* ===== verification/TestKit.v ===== *)
(** * Running the repository's unit tests on the model

    The sources carry unit tests.  The files [Tests*] translate them one by one: a
    test is a definition with the test's name, in the option monad, [None] being a
    failed assertion or [unwrap]; the example beside it evaluates it on the model.
    This file has the assertions. *)
From S2P Require Import Prelude RustStr NetAddr.

Definition test : Type := option unit.
Definition assert (b : bool) : test := if b then Some tt else None.
Definition assert_eq {A} `{EqDecision A} (a b : A) : test := assert (bool_decide (a = b)).

(** [Result::unwrap], [unwrap_err], [is_err]; a panic fails the test. *)
Definition unwrap {E A} (r : res E A) : option A := match r with Ok a => Some a | _ => None end.
Definition unwrap_err {E A} (r : res E A) : option E := match r with Err e => Some e | _ => None end.
Definition is_err {E A} (r : res E A) : bool := match r with Err _ => true | _ => false end.

Fixpoint for_each {A} (l : list A) (f : A -> test) : test :=
  match l with [] => Some tt | a :: l => _ ← f a; for_each l f end.

(** [parse().unwrap()] of an address literal. *)
Definition sock (s : string) : option SocketAddr := parse_socket_addr (str_bytes s).
Definition ip (s : string) : option IpAddr := parse_ip (str_bytes s).

Definition ends_with (p s : bytes) : bool := bool_decide (drop (length s - length p) s = p).

(** [u8::from_str_radix] on pairs of hexadecimal digits. *)
Definition hex_digit (c : Z) : option Z :=
  if is_digit c then Some (c - 48) else if (97 <=? c) && (c <=? 102) then Some (c - 87) else None.
Fixpoint hex_pairs (s : bytes) : option bytes :=
  match s with
  | [] => Some []
  | h :: l :: s => h ← hex_digit h; l ← hex_digit l; r ← hex_pairs s; Some (16 * h + l :: r)
  | _ => None
  end.
Definition hex (s : string) : option bytes := hex_pairs (str_bytes s).

Ltac run_test := vm_compute; reflexivity.
