(* ===== verification/TestsWire.v ===== *)
(** * Unit tests of the codecs ([dns.rs], [socks5.rs], [outbound/masque/], [dataplane.rs])

    quinn's integers are those of RFC 9000; the packet views are those of RFC 791 and
    RFC 9293. *)
From S2P Require Import Prelude RustStr NetAddr Outbound Dns Doh Socks5 Huffman Varint Qpack Masque Dataplane TestKit.

Module DnsTests.
Import Dns.

Definition response (id flags : Z) (answers : bytes) (answer_count : Z) : bytes :=
  to_be 2 id ++ to_be 2 flags ++ to_be 2 0 ++ to_be 2 answer_count ++ to_be 2 0 ++ to_be 2 0 ++ answers.

Definition nodata_is_a_successful_empty_answer : test :=
  let packet := response 0x1234 0x8180 [] 0 in
  '(addrs, _) ← unwrap (parse_dns_response packet 0x1234 A);
  assert (bool_decide (addrs = [])).
Example nodata_passes : nodata_is_a_successful_empty_answer = Some tt.
Proof. run_test. Qed.

Definition nxdomain_is_reported_without_waiting_for_timeout : test :=
  let packet := response 0x1234 0x8183 [] 0 in
  error ← unwrap_err (parse_dns_response packet 0x1234 A);
  assert (match error with NxDomain => true | _ => false end).
Example nxdomain_passes : nxdomain_is_reported_without_waiting_for_timeout = Some tt.
Proof. run_test. Qed.

Definition parses_aaaa_answer : test :=
  let expected := concat (map (to_be 2) [0x2607; 0xf2d8; 1; 0x3c; 0; 0; 0; 4]) in
  let answer := [0; 0; 28; 0; 1] ++ to_be 4 300 ++ to_be 2 16 ++ expected in
  let packet := response 0x1234 0x8180 answer 1 in
  '(addrs, ttl) ← unwrap (parse_dns_response packet 0x1234 Aaaa);
  _ ← assert_eq addrs [V6 expected];
  assert_eq ttl 300.
Example parses_aaaa_passes : parses_aaaa_answer = Some tt.
Proof. run_test. Qed.

Definition query_rejects_invalid_labels : test :=
  _ ← assert (is_err (encode_dns_query 0 [] A));
  _ ← assert (is_err (encode_dns_query 0 (str_bytes "bad..example") A));
  assert (is_err (encode_dns_query 0 (replicate 64 97 ++ str_bytes ".example") A)).
Example query_rejects_passes : query_rejects_invalid_labels = Some tt.
Proof. run_test. Qed.
End DnsTests.

Module UdpHeaderTests.
Import Socks5.

Definition udp_headers_round_trip_ipv4_and_ipv6 : test :=
  a ← sock "192.0.2.1:53"; b ← sock "[2001:db8::1]:443";
  for_each [a; b] (fun addr =>
    let encoded := encode_udp_header addr in
    '(decoded, header_len) ← unwrap (decode_udp_header encoded);
    _ ← assert_eq header_len (zlen encoded);
    match decoded with Addr actual => assert_eq actual addr | Name _ _ => None end).
Example udp_headers_round_trip_passes : udp_headers_round_trip_ipv4_and_ipv6 = Some tt.
Proof. run_test. Qed.

Definition decodes_domain_udp_header : test :=
  let encoded := [0; 0; 0; 3; 11] ++ str_bytes "example.com" ++ to_be 2 53 in
  '(decoded, header_len) ← unwrap (decode_udp_header encoded);
  _ ← assert_eq header_len (zlen encoded);
  match decoded with
  | Name name port => _ ← assert_eq name (str_bytes "example.com"); assert_eq port 53
  | Addr _ => None
  end.
Example decodes_domain_passes : decodes_domain_udp_header = Some tt.
Proof. run_test. Qed.

Definition udp_source_must_match_control_ip_and_learned_port : test :=
  peer ← sock "192.0.2.10:40000"; first ← sock "192.0.2.10:50000";
  _ ← assert (udp_source_allowed peer None first);
  _ ← assert (udp_source_allowed peer (Some first) first);
  other_port ← sock "192.0.2.10:50001";
  _ ← assert (negb (udp_source_allowed peer (Some first) other_port));
  other_ip ← sock "192.0.2.11:50000";
  assert (negb (udp_source_allowed peer None other_ip)).
Example udp_source_passes : udp_source_must_match_control_ip_and_learned_port = Some tt.
Proof. run_test. Qed.
End UdpHeaderTests.

Module H3Tests.
Import Qpack.
#[local] Existing Instance Rfc9000.codec.

Definition encode_method_connect_is_indexed_static_15 : test :=
  let req := encode_connect_request (str_bytes "example.com:443") (str_bytes "tkn") in
  assert_eq (take 3 req) [0x00; 0x00; 0xCF].
Example encode_method_passes : encode_method_connect_is_indexed_static_15 = Some tt.
Proof. run_test. Qed.

Definition encode_authority_matches_rfc_b1_pattern : test :=
  let req := encode_connect_request (str_bytes "example.com:443") (str_bytes "x") in
  let auth_value := str_bytes "example.com:443" in
  let expect := [0x00; 0x00; 0xCF] ++ [0x50] ++ [zlen auth_value] ++ auth_value in
  assert_eq (take (length expect) req) expect.
Example encode_authority_passes : encode_authority_matches_rfc_b1_pattern = Some tt.
Proof. run_test. Qed.

(** [windows(2).position(..)], and what follows. *)
Fixpoint after_window (x y : Z) (s : bytes) : option bytes :=
  match s with
  | a :: ((c :: r) as t) => if (a =? x) && (c =? y) then Some r else after_window x y t
  | _ => None
  end.
Definition encode_authorization_uses_static_84_never_indexed : test :=
  let req := encode_connect_request (str_bytes "h:1") (str_bytes "abc") in
  rest ← after_window 0x7F 0x45 req;
  _ ← assert_eq (head rest) (Some 3);
  assert_eq (take 3 (drop 1 rest)) (str_bytes "abc").
Example encode_authorization_passes : encode_authorization_uses_static_84_never_indexed = Some tt.
Proof. run_test. Qed.

Definition headers_frame_wraps_with_type_1 : test :=
  let payload := [0x00; 0x00; 0xCF] in
  f ← unwrap (E:=unit) (headers_frame payload);
  _ ← assert_eq (f !! 0%nat) (Some 0x01);
  _ ← assert_eq (f !! 1%nat) (Some 3);
  assert_eq (drop 2 f) payload.
Example headers_frame_passes : headers_frame_wraps_with_type_1 = Some tt.
Proof. run_test. Qed.

Definition data_frame_wraps_with_type_0 : test :=
  let payload := [1; 2; 3] in
  f ← unwrap (E:=unit) (data_frame [] payload);
  _ ← assert_eq (f !! 0%nat) (Some 0x00);
  _ ← assert_eq (f !! 1%nat) (Some 3);
  assert_eq (drop 2 f) payload.
Example data_frame_passes : data_frame_wraps_with_type_0 = Some tt.
Proof. run_test. Qed.

Definition control_stream_prelude_is_settings : test :=
  p ← unwrap (E:=unit) control_stream_prelude;
  _ ← assert_eq (p !! 0%nat) (Some 0x00);
  _ ← assert_eq (p !! 1%nat) (Some 0x04);
  assert_eq (p !! 2%nat) (Some 0x00).
Example control_stream_passes : control_stream_prelude_is_settings = Some tt.
Proof. run_test. Qed.

Definition decode_status_200_indexed : test :=
  h ← unwrap (decode_headers [0x00; 0x00; 0xD9]); assert_eq (status h) 200.
Example decode_status_200_passes : decode_status_200_indexed = Some tt.
Proof. run_test. Qed.

Definition decode_status_404_indexed : test :=
  h ← unwrap (decode_headers [0x00; 0x00; 0xDB]); assert_eq (status h) 404.
Example decode_status_404_passes : decode_status_404_indexed = Some tt.
Proof. run_test. Qed.

(** A captured response. *)
Definition decode_headers_extracts_colo_from_real_response : test :=
  resp ← hex "0000d92f0324ab781d95ad49523a3f8508a57db6bf2f0224ab781d95ac43d07f83cf0fe72d24ab24a3a796640db6196429630000d32db446a42942d0000000000f";
  headers ← unwrap (decode_headers resp);
  _ ← assert_eq (status headers) 200;
  assert_eq (colo headers) (Some (str_bytes "LAX")).
Example decode_real_response_passes : decode_headers_extracts_colo_from_real_response = Some tt.
Proof. run_test. Qed.

Definition varint_roundtrip : test :=
  b ← unwrap (E:=unit) (varint_write [] 25);
  _ ← assert_eq (varint_read b) (Some (25, 1));
  b ← unwrap (E:=unit) (varint_write [] 15293);
  assert_eq (varint_read b) (Some (15293, 2)).
Example varint_roundtrip_passes : varint_roundtrip = Some tt.
Proof. run_test. Qed.

Definition connect_headers_frame_has_bounded_allocation : test :=
  _ ← assert_eq (match Masque.checked_headers_len Masque.MAX_HEADERS_FRAME_SIZE with inr n => Some n | inl _ => None end)
        (Some Masque.MAX_HEADERS_FRAME_SIZE);
  assert (match Masque.checked_headers_len (Masque.MAX_HEADERS_FRAME_SIZE + 1) with inl _ => true | inr _ => false end).
Example connect_headers_frame_passes : connect_headers_frame_has_bounded_allocation = Some tt.
Proof. run_test. Qed.

Definition http_request_has_matching_content_length : test :=
  let body := [1; 2; 3] in
  let req := Doh.build_http_request body in
  text ← from_utf8 req;
  _ ← assert (starts_with (str_bytes "POST /dns-query HTTP/1.1" ++ [13; 10]) text);
  _ ← assert (contains_str (str_bytes "content-length: 3" ++ [13; 10]) text);
  assert (ends_with body req).
Example http_request_passes : http_request_has_matching_content_length = Some tt.
Proof. run_test. Qed.
End H3Tests.

Module HuffmanTests.
Import Huffman.

Definition decodes_cf_warp_colo_name : test :=
  b ← hex "24ab781d95ac43d07f"; s ← unwrap (decode b); assert_eq s (str_bytes "cf-warp-colo").
Example decodes_colo_passes : decodes_cf_warp_colo_name = Some tt.
Proof. run_test. Qed.

Definition decodes_lax_value : test := b ← hex "cf0fe7"; s ← unwrap (decode b); assert_eq s (str_bytes "LAX").
Example decodes_lax_passes : decodes_lax_value = Some tt.
Proof. run_test. Qed.

Definition decodes_cf_warp_metal_name : test :=
  b ← hex "24ab781d95ad49523a3f"; s ← unwrap (decode b); assert_eq s (str_bytes "cf-warp-metal").
Example decodes_metal_passes : decodes_cf_warp_metal_name = Some tt.
Proof. run_test. Qed.

Definition rejects_eos_in_stream : test := assert (is_err (decode [255; 255; 255; 255])).
Example rejects_eos_passes : rejects_eos_in_stream = Some tt.
Proof. run_test. Qed.
End HuffmanTests.

Module DataplaneTests.
Import Dataplane.

(** The views smoltcp gives, by their RFCs: an IPv4 header of [IHL] words within
    its total length, a TCP header of [data offset] words. *)
Definition at_ (b : bytes) (i : nat) : Z := default 0 (b !! i).
Definition be (b : bytes) (i n : nat) : Z := be_val (take n (drop i b)).
Definition ipv4_view (b : bytes) : option IpView :=
  let header := 4 * Z.land (at_ b 0) 15 in
  let total := be b 2 2 in
  if (zlen b <? 20) || (header <? 20) || (total <? header) || (zlen b <? total) then None
  else Some (mk_ip (8 * Z.land (be b 6 2) 8191) (at_ b 9) (drop (Z.to_nat header) (take (Z.to_nat total) b))).
Definition tcp_view (b : bytes) : option TcpPacket :=
  let header := 4 * Z.shiftr (at_ b 12) 4 in
  let flag i := Z.testbit (at_ b 13) i in
  if (zlen b <? 20) || (header <? 20) || (zlen b <? header) then None
  else Some (mk_tcp (be b 0 2) (be b 2 2) (be b 4 4) (be b 8 4) (drop (Z.to_nat header) b)
               (flag 0) (flag 1) (flag 2) (flag 3) (flag 4) (flag 5) (flag 6) (flag 7)).
Definition rfc_wire : wire := mk_wire ipv4_view (fun _ => None) tcp_view.

(** [packet[i..].copy_from_slice(v)] *)
Definition write_at (i : nat) (v packet : bytes) : bytes := list_inserts i v packet.

Definition records_tcp_header_metadata_without_payload_storage : test :=
  let packet := replicate 43 0 in
  let packet := write_at 0 [0x45] packet in
  let packet := write_at 2 (to_be 2 43) packet in
  let packet := write_at 9 [6] packet in
  let packet := write_at 20 (to_be 2 12345) packet in
  let packet := write_at 22 (to_be 2 443) packet in
  let packet := write_at 24 (to_be 4 123) packet in
  let packet := write_at 28 (to_be 4 456) packet in
  let packet := write_at 32 [0x50] packet in
  let packet := write_at 33 [0x18] packet in
  let packet := write_at 40 (str_bytes "abc") packet in
  let observer := record_plaintext rfc_wire 0 Rx packet new in
  let snap := snapshot observer in
  _ ← assert_eq (snap plain_rx_packets) 1;
  _ ← assert_eq (snap (tcp_rx packets)) 1;
  _ ← assert_eq (snap (tcp_rx payload_bytes)) 3;
  _ ← assert_eq (snap (tcp_rx ack_packets)) 1;
  _ ← assert_eq (snap (tcp_rx ack_only_packets)) 0;
  assert (contains_str (str_bytes "12345>443,seq:123,ack:456,flags:PA,payload:3") (last_packet tcp_rx 0 observer)).
Example records_tcp_header_passes : records_tcp_header_metadata_without_payload_storage = Some tt.
Proof. run_test. Qed.

Definition ipv4_tcp_packet (source_port destination_port sequence acknowledgement flags : Z) (payload_len : nat) : bytes :=
  let packet := replicate (40 + payload_len) 0 in
  let total_len := zlen packet in
  write_at 33 [flags] (write_at 32 [0x50] (write_at 28 (to_be 4 acknowledgement) (write_at 24 (to_be 4 sequence)
    (write_at 22 (to_be 2 destination_port) (write_at 20 (to_be 2 source_port)
      (write_at 9 [6] (write_at 2 (to_be 2 total_len) (write_at 0 [0x45] packet)))))))).

Definition bulk_flow_tracks_only_matching_reverse_ack : test :=
  let rx := ipv4_tcp_packet 443 12345 100 200 0x18 1240 in
  let observer := record_plaintext rfc_wire 0 Rx rx new in
  let unrelated_ack := ipv4_tcp_packet 20000 443 300 400 0x10 0 in
  let observer := record_plaintext rfc_wire 0 Tx unrelated_ack observer in
  let matching_ack := ipv4_tcp_packet 12345 443 200 1340 0x10 0 in
  let observer := record_plaintext rfc_wire 0 Tx matching_ack observer in
  let summary := bulk_summary 0 observer in
  _ ← assert (contains_str (str_bytes "443>12345,rx_seq:100,rx_ack:200,rx_payload:1240") summary);
  assert (contains_str (str_bytes "ack:seq:200,ack:1340") summary).
Example bulk_flow_passes : bulk_flow_tracks_only_matching_reverse_ack = Some tt.
Proof. run_test. Qed.

Definition parses_cgroup_v2_cpu_stat : test :=
  let line s := str_bytes s ++ [10] in
  let snapshot := parse_cpu_stat (line "usage_usec 12000" ++ line "user_usec 9000" ++ line "system_usec 3000" ++
    line "nr_periods 20" ++ line "nr_throttled 3" ++ line "throttled_usec 4500") in
  _ ← assert_eq (usage_usec snapshot) 12000;
  _ ← assert_eq (nr_periods snapshot) 20;
  _ ← assert_eq (nr_throttled snapshot) 3;
  assert_eq (throttled_usec snapshot) 4500.
Example parses_cgroup_passes : parses_cgroup_v2_cpu_stat = Some tt.
Proof. run_test. Qed.
End DataplaneTests.
