(* ===== verification/TestsControl.v ===== *)
(** * Unit tests of the control plane ([supervisor.rs], [registration/teams.rs], [health/],
      [endpoint/], [mixed.rs], [tunnel.rs])

    base64 is that of [Rfc4648]; [tempdir()] is an empty file map; the
    clock does not move during a test. *)
From S2P Require Import Prelude RustStr Fs NetAddr Conn Health Mixed Config Rfc4648 Endpoint Tunnel Supervisor TestKit.


Module ListenTests.
Import Supervisor.

Definition parses_ipv4_and_ipv6_listeners : test :=
  mode ← unwrap (parse_listen_mode (str_bytes "127.0.0.1:1080, [2001:db8::10]:1080") 9999);
  match mode with
  | Mixed.Explicit [a; b] => _ ← assert (is_ipv4 a); assert (negb (is_ipv4 b))
  | _ => None
  end.
Example parses_listeners_passes : parses_ipv4_and_ipv6_listeners = Some tt.
Proof. run_test. Qed.

Definition rejects_empty_or_invalid_listener_config : test :=
  _ ← assert (is_err (parse_listen_mode (str_bytes " , ") 1080));
  assert (is_err (parse_listen_mode (str_bytes "192.0.2.10") 1080)).
Example rejects_listeners_passes : rejects_empty_or_invalid_listener_config = Some tt.
Proof. run_test. Qed.

Definition parses_auto_mode : test :=
  mode ← unwrap (parse_listen_mode (str_bytes "AUTO") 2080);
  match mode with Mixed.Auto port => assert_eq port 2080 | _ => None end.
Example parses_auto_passes : parses_auto_mode = Some tt.
Proof. run_test. Qed.

Definition auto_mode_accepts_only_local_and_lan_addresses : test :=
  _ ← for_each ["127.0.0.1"; "10.10.10.2"; "192.168.1.2"; "::1"; "fd00::2"; "fe80::2"]%string
        (fun addr => a ← ip addr; assert (Mixed.is_lan_address a));
  for_each ["1.1.1.1"; "8.8.8.8"; "2606:4700:4700::1111"]%string
    (fun addr => a ← ip addr; assert (negb (Mixed.is_lan_address a))).
Example auto_mode_passes : auto_mode_accepts_only_local_and_lan_addresses = Some tt.
Proof. run_test. Qed.

(** The option is set by the calls on the socket; here every call succeeds. *)
Definition only_v6 (calls : list Mixed.syscall) : option bool :=
  last (omap (fun c => match c with Mixed.SetOnlyV6 b => Some b | _ => None end) calls).
Definition auto_ipv6_listener_is_v6_only : test :=
  addr ← sock "[::]:0";
  _ ← unwrap (Mixed.listener_socket (fun _ => Ok tt) addr true);
  v ← only_v6 (Mixed.listener_calls addr true);
  assert v.
Example auto_ipv6_passes : auto_ipv6_listener_is_v6_only = Some tt.
Proof. run_test. Qed.
End ListenTests.

Module TeamsTests.
Import WgConf.
#[local] Existing Instance Rfc4648.standard.

Definition parse_token_accepts_only_raw_jwt : test :=
  let token s := parse_token (str_bytes s) in
  t ← unwrap (token "header.payload.signature"); _ ← assert_eq t (str_bytes "header.payload.signature");
  t ← unwrap (token "a-b.c_d.012"); _ ← assert_eq t (str_bytes "a-b.c_d.012");
  _ ← assert (is_err (token ""));
  _ ← assert (is_err (token " header.payload.signature "));
  _ ← assert (is_err (parse_token ([34] ++ str_bytes "header.payload.signature" ++ [34])));
  _ ← assert (is_err (token "plain-token"));
  _ ← assert (is_err (token "header.payload"));
  _ ← assert (is_err (token "header.payload.signature.extra"));
  assert (is_err (token "com.cloudflare.warp://register?token=header.payload.signature")).
Example parse_token_passes : parse_token_accepts_only_raw_jwt = Some tt.
Proof. run_test. Qed.

Definition reserved_bytes_from_client_id : test :=
  _ ← assert_eq (reserved_bytes (str_bytes "AQID")) (1, 2, 3);
  assert_eq (reserved_bytes []) (0, 0, 0).
Example reserved_bytes_passes : reserved_bytes_from_client_id = Some tt.
Proof. run_test. Qed.

Definition no_lookup (_ : bytes) : option (list SocketAddr) := None.
Definition build_wg_config_rejects_missing_fields : test :=
  let account := mk_account [] [] [] [] [] in
  assert (is_err (build_wg_config no_lookup account None)).
Example build_wg_config_passes : build_wg_config_rejects_missing_fields = Some tt.
Proof. run_test. Qed.

Definition write_wg_conf_uses_override_endpoint : test :=
  let account := mk_account (b64_encode (replicate 32 1)) []
    [mk_peer (b64_encode (replicate 32 2)) (str_bytes "default.example:2408")] (str_bytes "10.0.0.2") (str_bytes "fd00::2") in
  let path := str_bytes "/tmp/test/wg0.conf" in
  config ← unwrap (build_wg_config no_lookup account (Some (str_bytes "1.2.3.4:2408")));
  let '(written, files) := write_wg_conf no_faults 1 config path ∅ in
  _ ← unwrap written;
  text ← files !! path;
  _ ← assert (contains_str (str_bytes "Endpoint = 1.2.3.4:2408") text);
  _ ← assert (contains_str (str_bytes "Address = 10.0.0.2/32") text);
  _ ← assert (contains_str (str_bytes "Address = fd00::2/128") text);
  assert (contains_str (str_bytes "Reserved = 0,0,0") text).
Example write_wg_conf_passes : write_wg_conf_uses_override_endpoint = Some tt.
Proof. run_test. Qed.
End TeamsTests.

Module HealthTests.
Import Heartbeat Recovery.

Definition fresh_ok_heartbeat_passes : test := assert (is_ok (evaluate (str_bytes "1000" ++ [10]) 1010 30)).
Example fresh_heartbeat_passes : fresh_ok_heartbeat_passes = Some tt.
Proof. run_test. Qed.

Definition stale_heartbeat_fails : test :=
  err ← unwrap_err (evaluate (str_bytes "1000" ++ [10]) 1031 30);
  assert (match err with Expired _ => true | _ => false end).
Example stale_heartbeat_passes : stale_heartbeat_fails = Some tt.
Proof. run_test. Qed.

Definition malformed_content_fails : test := assert (is_err (evaluate (str_bytes "garbage") 1000 30)).
Example malformed_content_passes : malformed_content_fails = Some tt.
Proof. run_test. Qed.

Definition requests_exit_only_after_threshold_consecutive_failures : test :=
  let recovery := Recovery.new 3 in
  let '(a, recovery) := on_failure recovery in
  let '(b, recovery) := on_failure recovery in
  let '(c, _) := on_failure recovery in
  assert (match a, b, c with Continue, Continue, RequestExit => true | _, _, _ => false end).
Example requests_exit_passes : requests_exit_only_after_threshold_consecutive_failures = Some tt.
Proof. run_test. Qed.

Definition success_resets_failure_count : test :=
  let recovery := (on_failure (Recovery.new 2)).2 in
  let recovery := on_success recovery in
  let '(a, recovery) := on_failure recovery in
  _ ← assert (match a with Continue => true | _ => false end);
  assert_eq (consecutive_failures recovery) 1.
Example success_resets_passes : success_resets_failure_count = Some tt.
Proof. run_test. Qed.

Definition extracts_trace_fields : test :=
  let body := str_bytes "ip=1.2.3.4" ++ [10] ++ str_bytes "warp=on" ++ [10] ++ str_bytes "colo=ABC" ++ [10] in
  let field f := Probe.extract_trace_field body (str_bytes f) in
  _ ← assert_eq (field "ip"%string) (Some (str_bytes "1.2.3.4"));
  _ ← assert_eq (field "colo"%string) (Some (str_bytes "ABC"));
  assert_eq (field "missing"%string) None.
Example extracts_trace_passes : extracts_trace_fields = Some tt.
Proof. run_test. Qed.
End HealthTests.

Module EndpointTests.
Import Store Candidates.
#[local] Existing Instance EndpointFacts.positive_codec.

(** The environment of a test: nothing fails, and the clock stands at [now]. *)
Definition now : Z := 1700000000.
Definition env : Store.env := mk_env now false false no_faults 1.
Definition path : bytes := str_bytes "/tmp/test/endpoint-state.json".
Definition load_unwrap (files : fs) : option (JsonFileEndpointStore * fs) :=
  let '(r, files) := load env path files in store ← unwrap r; Some (store, files).
(** [store.op(..).unwrap()] *)
Definition done_ (x : res store_error unit * JsonFileEndpointStore * fs) : option (JsonFileEndpointStore * fs) :=
  let '(r, store, files) := x in _ ← unwrap r; Some (store, files).

Definition record_success_clears_cooldown_and_becomes_last_good : test :=
  let ep := str_bytes "1.1.1.1:2408" in
  '(store, files) ← load_unwrap ∅;
  '(store, files) ← done_ (mark_cooldown env ep 60 store files);
  _ ← assert (is_cooling_down now store ep);
  '(store, files) ← done_ (record_success env ep store files);
  _ ← assert (negb (is_cooling_down now store ep));
  assert_eq (last_good store) (Some ep).
Example record_success_passes : record_success_clears_cooldown_and_becomes_last_good = Some tt.
Proof. run_test. Qed.

Definition reloading_prunes_expired_cooldowns : test :=
  let ep := str_bytes "1.1.1.1:2408" in
  '(store, files) ← load_unwrap ∅;
  '(_, files) ← done_ (mark_cooldown env ep 0 store files);
  '(reloaded, _) ← load_unwrap files;
  assert (negb (is_cooling_down now reloaded ep)).
Example reloading_prunes_passes : reloading_prunes_expired_cooldowns = Some tt.
Proof. run_test. Qed.

Definition normalizes_host_port_and_defaults_port : test :=
  let norm s := normalize_endpoint (str_bytes s) in
  _ ← assert_eq (norm "1.1.1.1:2408"%string) (Some (str_bytes "1.1.1.1:2408"));
  _ ← assert_eq (norm "1.1.1.1"%string) (Some (str_bytes "1.1.1.1:2408"));
  _ ← assert_eq (norm "[2606:4700::1111]:2408"%string) (Some (str_bytes "[2606:4700::1111]:2408"));
  _ ← assert_eq (norm "  "%string) None;
  assert_eq (norm "host:0"%string) None.
Example normalizes_passes : normalizes_host_port_and_defaults_port = Some tt.
Proof. run_test. Qed.

Definition plan_candidates_puts_last_good_first_and_cooling_down_last : test :=
  let pool := candidate_pool (str_bytes "1.1.1.1:2408,2.2.2.2:2408,3.3.3.3:2408") in
  '(store, files) ← load_unwrap ∅;
  '(store, files) ← done_ (record_success env (str_bytes "3.3.3.3:2408") store files);
  '(store, _) ← done_ (mark_cooldown env (str_bytes "1.1.1.1:2408") 60 store files);
  assert_eq (plan_candidates now pool store) (map str_bytes ["3.3.3.3:2408"; "2.2.2.2:2408"; "1.1.1.1:2408"]%string).
Example plan_order_passes : plan_candidates_puts_last_good_first_and_cooling_down_last = Some tt.
Proof. run_test. Qed.

Definition plan_candidates_ignores_last_good_outside_current_pool : test :=
  let pool := candidate_pool (str_bytes "2.2.2.2:2408,3.3.3.3:2408") in
  '(store, files) ← load_unwrap ∅;
  '(store, _) ← done_ (record_success env (str_bytes "1.1.1.1:2408") store files);
  assert_eq (plan_candidates now pool store) (map str_bytes ["2.2.2.2:2408"; "3.3.3.3:2408"]%string).
Example plan_ignores_passes : plan_candidates_ignores_last_good_outside_current_pool = Some tt.
Proof. run_test. Qed.

Definition built_in_pool_has_address_and_port_diversity : test :=
  let pool := candidate_pool [] in
  let ports : gset bytes := list_to_set (map snd (omap (rsplit_once 58) pool)) in
  _ ← assert_eq ports (list_to_set (map str_bytes ["2408"; "500"; "1701"; "4500"]%string));
  assert (forallb (starts_with (str_bytes "162.159.193.")) pool).
Example built_in_pool_passes : built_in_pool_has_address_and_port_diversity = Some tt.
Proof. run_test. Qed.
End EndpointTests.

Module TunnelTests.
Import Tunnel.
#[local] Instance report_dec : EqDecision DecapErrorReport. Proof. solve_decision. Defined.

Definition seconds (n : Z) : Z := n * 1000000000.
Definition decap_error_reports_first_then_rate_limits : test :=
  let '(r, tracker) := observe tracker_default 0 in
  _ ← assert_eq r (Some (mk_decap_report 1 1));
  let '(r, tracker) := observe tracker (seconds 9) in
  _ ← assert_eq r None;
  let '(r, _) := observe tracker (seconds 10) in
  assert_eq r (Some (mk_decap_report 3 2)).
Example decap_error_reports_passes : decap_error_reports_first_then_rate_limits = Some tt.
Proof. run_test. Qed.

Definition decap_error_classes_are_stable : test :=
  _ ← assert_eq (decap_error_class NoCurrentSession) (str_bytes "session");
  _ ← assert_eq (decap_error_class DuplicateCounter) (str_bytes "replay");
  _ ← assert_eq (decap_error_class InvalidAeadTag) (str_bytes "authentication");
  _ ← assert_eq (decap_error_class UnderLoad) (str_bytes "resource");
  _ ← assert_eq (decap_error_class InvalidPacket) (str_bytes "malformed");
  _ ← assert (negb (decap_error_is_warning DuplicateCounter));
  assert (decap_error_is_warning InvalidAeadTag).
Example decap_error_classes_passes : decap_error_classes_are_stable = Some tt.
Proof. run_test. Qed.
End TunnelTests.
