(* ===== verification/TestsNet.v ===== *)
(** * Unit tests of the network stack and the dialling ([netstack.rs], [outbound/wireguard.rs],
      [outbound/ip.rs], [relay.rs])

    smoltcp's sockets are an instance that remembers the endpoints and refuses a
    remote port of zero, within its default limits of two addresses and two routes. *)
From S2P Require Import Prelude RustStr NetAddr Conn Outbound Config Netstack NetLife NetOutlet Outlets Timing Varint Masque MasqueLink TestKit.

Module NetstackTests.
Import NetSetup Ports Streams NetLife.

Definition smol_tcp_test : SmolTcp := {|
  tcp := tcp_socket * SocketAddr; Streams.state s := st s.1;
  may_recv s := negb (bool_decide (st s.1 = Closed)); can_recv s := negb (bool_decide (recv_queue s.1 = []));
  may_send s := bool_decide (st s.1 = Established); can_send s := bool_decide (st s.1 = Established);
  is_open s := negb (bool_decide (st s.1 = Closed));
  recv_slice n s := (Ok (take (Z.to_nat n) (recv_queue s.1)),
    (mk_tcp_socket (st s.1) (local s.1) (drop (Z.to_nat n) (recv_queue s.1)) (send_queue s.1), s.2));
  send_slice bs s := (Ok (zlen bs), (mk_tcp_socket (st s.1) (local s.1) (recv_queue s.1) (send_queue s.1 ++ bs), s.2));
  send_queue_len s := zlen (send_queue s.1);
  close s := (mk_tcp_socket FinWait1 (local s.1) (recv_queue s.1) (send_queue s.1), s.2)
|}.
#[local] Instance smol_test : Smol := {|
  smol_tcp := smol_tcp_test;
  tcp_open a p r := if sa_port r =? 0 then None else Some ((mk_tcp_socket SynSent (Some (a, p)) [] [], r) : @tcp smol_tcp_test);
  tcp_abort s := (mk_tcp_socket Closed (local s.1) (recv_queue s.1) (send_queue s.1), s.2);
  tcp_view s := s.1;
  udp := option IpAddr * Z;
  udp_open a p := Some (Some a, p);
  udp_close _ := (None, 0);
  udp_view u := u;
  udp_capacity _ := 8192;
  udp_send _ _ u := (if bool_decide (u = (None, 0)) then @UdpFail unit else UdpOk _ tt, u);
  udp_recv _ u := (@UdpWait _, u)
|}.

(** *** The device of the flush test *)
Record CloseTrackingDevice := mk_tracking { sent : Z; closed : Z }.
#[local] Instance tracking_device : AsyncDevice CloseTrackingDevice := {
  dev_poll_next d := (Pending, d);
  dev_poll_ready d := (Ready None, d);
  dev_start_send _ d := (None, mk_tracking (sent d + 1) (closed d));
  dev_poll_flush d := (Ready None, d)
}.
Definition flushing_finite_packet_batch_does_not_close_device : test :=
  let '(r, _, device) := Reactor.poll_send_packets [[1]; [2]] (mk_tracking 0 0) in
  _ ← assert (match r with Ready None => true | _ => false end);
  _ ← assert_eq (sent device) 2;
  assert_eq (closed device) 0.
Example flushing_passes : flushing_finite_packet_batch_does_not_close_device = Some tt.
Proof. run_test. Qed.

Definition dual_stack_net : option net :=
  v6 ← ip "2001:db8::2";
  unwrap (Outlets.start_net 2 2 (mk_net_config [(V4 [172; 16; 0; 2], 32); (v6, 128)] [V4 [172; 16; 0; 2]; v6] buffer_default) 1330 None).

(** [net.udp_bind(..).await] on a fresh handle. *)
Definition bind (h : nat) (addr : string) (n : net) : option (res ErrorKind SocketAddr * net) :=
  a ← TestKit.sock addr; Some (udp_bind h a n).
Definition bind_unwrap (h : nat) (addr : string) (n : net) : option (SocketAddr * net) :=
  '(r, n) ← bind h addr n; a ← unwrap r; Some (a, n).

Definition udp_addr (n : net) (h : nat) : option (option IpAddr) :=
  match socks n !! h with Some (UdpSock u) => Some (udp_view u).1 | _ => None end.
Definition udp_bind_selects_source_address_by_family : test :=
  net ← dual_stack_net;
  '(_, net) ← bind_unwrap 0 "0.0.0.0:0" net;
  '(_, net) ← bind_unwrap 1 "[::]:0" net;
  a ← udp_addr net 0; _ ← assert_eq a (source_v4 net);
  b ← udp_addr net 1; assert_eq b (source_v6 net).
Example udp_bind_selects_passes : udp_bind_selects_source_address_by_family = Some tt.
Proof. run_test. Qed.

(** The first poll of the future of [tcp_connect]. *)
Definition poll_connect (id h : nat) (target : SocketAddr) : list event := [EConnect id h target; EPoll id; EPoll id].
Definition is_pending (n : net) (id : nat) : bool :=
  match calls n !! id with Some c => match at_phase c with Parked => true | _ => false end | None => false end.
Definition local_of (target : SocketAddr) (n : net) : option (IpAddr * Z) :=
  head (omap (fun e => match e.2 with
    | TcpSock s => if bool_decide (s.2 = target) then local s.1 else None
    | UdpSock _ => None
    end) (map_to_list (socks n))).
Definition no_sockets (n : net) : bool := match map_to_list (socks n) with [] => true | _ => false end.

Definition tcp_connect_selects_source_address_by_family : test :=
  net ← dual_stack_net;
  t4 ← TestKit.sock "192.0.2.1:443"; t6 ← TestKit.sock "[2001:db8::1]:443"; s6 ← ip "2001:db8::2";
  for_each [(t4, V4 [172; 16; 0; 2]); (t6, s6)] (fun '(target, expected) =>
    net ← run (poll_connect 0 0 target) net;
    _ ← assert (is_pending net 0);
    _ ← assert_eq (fst <$> local_of target net) (Some expected);
    net ← run [ECancel 0] net;
    assert (no_sockets net)).
Example tcp_connect_selects_passes : tcp_connect_selects_source_address_by_family = Some tt.
Proof. run_test. Qed.

(** The result a call has returned. *)
Definition returned (n : net) (id : nat) : option (res ErrorKind answer) :=
  c ← calls n !! id; match at_phase c with Returned r => Some r | _ => None end.
Definition failed_tcp_connect_does_not_leave_a_socket : test :=
  net ← dual_stack_net;
  target ← TestKit.sock "192.0.2.1:0";
  net ← run [EConnect 0 0 target] net;
  r ← returned net 0; error ← unwrap_err r;
  _ ← assert_eq error Other;
  assert (no_sockets net).
Example failed_tcp_connect_passes : failed_tcp_connect_does_not_leave_a_socket = Some tt.
Proof. run_test. Qed.

Definition dropping_udp_socket_releases_its_port : test :=
  net ← dual_stack_net;
  '(local, net) ← bind_unwrap 0 "0.0.0.0:0" net;
  let port := sa_port local in
  _ ← assert (port_in_use (table_of net) Udp Ipv4 port);
  net ← run [EDrop 0] net;
  assert (negb (port_in_use (table_of net) Udp Ipv4 port)).
Example dropping_udp_socket_passes : dropping_udp_socket_releases_its_port = Some tt.
Proof. run_test. Qed.

Definition source_selection_rejects_unconfigured_family : test :=
  net ← unwrap (Outlets.start_net 2 2 (mk_net_config [(V4 [192; 0; 2; 2], 32)] [] buffer_default) 0 None);
  target ← TestKit.sock "[2001:db8::1]:443";
  error ← unwrap_err (source_for (source_v4 net) (source_v6 net) target);
  assert_eq error AddrNotAvailable.
Example source_selection_passes : source_selection_rejects_unconfigured_family = Some tt.
Proof. run_test. Qed.

(** [alive]: a weak reference to the reactor can be upgraded. *)
Definition dropping_net_keeps_reactor_alive_while_socket_exists : test :=
  net ← dual_stack_net;
  '(_, net) ← bind_unwrap 0 "0.0.0.0:0" net;
  net ← run [EDropNet] net;
  _ ← assert (alive net);
  _ ← assert (negb (is_stopped (stopped net)));
  net ← run [EDrop 0] net;
  assert (negb (alive net)).
Example dropping_net_passes : dropping_net_keeps_reactor_alive_while_socket_exists = Some tt.
Proof. run_test. Qed.

Definition shutdown_stops_existing_sockets : test :=
  net ← dual_stack_net;
  '(_, net) ← bind_unwrap 0 "0.0.0.0:0" net;
  net ← run [EShutdown; EStopAll] net;
  _ ← assert (is_stopped (stopped net));
  target ← TestKit.sock "192.0.2.1:53";
  net ← run [ECall 0 0 (SendTo [1] target); EPoll 0] net;
  r ← returned net 0; error ← unwrap_err r;
  assert_eq error ConnectionAborted.
Example shutdown_stops_passes : shutdown_stops_existing_sockets = Some tt.
Proof. run_test. Qed.

Definition udp_ports_are_unique_within_an_address_family : test :=
  net ← dual_stack_net;
  '(_, net) ← bind_unwrap 0 "0.0.0.0:15000" net;
  '(r, net) ← bind 1 "0.0.0.0:15000" net;
  conflict ← unwrap_err r; _ ← assert_eq conflict AddrInUse;
  '(v6, net) ← bind_unwrap 2 "[::]:15000" net;
  _ ← assert_eq (sa_port v6) 15000;
  net ← run [EDrop 0] net;
  '(r, _) ← bind 3 "0.0.0.0:15000" net;
  assert (is_ok r).
Example udp_ports_unique_passes : udp_ports_are_unique_within_an_address_family = Some tt.
Proof. run_test. Qed.

Definition tcp_and_udp_can_reuse_the_same_port : test :=
  net ← dual_stack_net;
  target ← TestKit.sock "192.0.2.1:443";
  net ← run (poll_connect 0 0 target) net;
  _ ← assert (is_pending net 0);
  port ← snd <$> local_of target net;
  let '(r, _) := udp_bind 1 (SockV4 [0; 0; 0; 0] port) net in
  udp ← unwrap r;
  assert_eq (sa_port udp) port.
Example tcp_and_udp_passes : tcp_and_udp_can_reuse_the_same_port = Some tt.
Proof. run_test. Qed.

Definition ephemeral_port_selection_wraps_and_reports_exhaustion : test :=
  let '(r, next) := select_port EPHEMERAL_PORT_LAST 0 (fun _ => false) in
  last ← unwrap r;
  let '(r, next) := select_port next 0 (fun port => port =? last) in
  first ← unwrap r;
  _ ← assert_eq last EPHEMERAL_PORT_LAST;
  _ ← assert_eq first EPHEMERAL_PORT_FIRST;
  let used port := (port =? last) || ((EPHEMERAL_PORT_FIRST <=? port) && (port <=? EPHEMERAL_PORT_LAST)) in
  exhausted ← unwrap_err (select_port next 0 used).1;
  assert_eq exhausted AddrNotAvailable.
Example ephemeral_port_passes : ephemeral_port_selection_wraps_and_reports_exhaustion = Some tt.
Proof. run_test. Qed.
End NetstackTests.

Module DialTests.
Import WgConf NetSetup IpDial Timing.

Definition config : option WgConfig :=
  endpoint ← TestKit.sock "192.0.2.1:2408"; v6 ← parse_ipv6 (str_bytes "2001:db8::2");
  Some (mk_config (replicate 32 1) (replicate 32 2) endpoint (0, 0, 0) [172; 16; 0; 2] v6).
Definition net_config_contains_dual_stack_addresses_and_routes : test :=
  c ← config;
  let net := wg_net_config c in
  v6 ← ip "2001:db8::2";
  let v4 := V4 [172; 16; 0; 2] in
  _ ← assert_eq (ip_addrs net) [(v4, 32); (v6, 128)];
  assert_eq (gateways net) [v4; v6].
Example net_config_passes : net_config_contains_dual_stack_addresses_and_routes = Some tt.
Proof. run_test. Qed.

Definition v6_addr (n : Z) : SocketAddr := socket_addr_new (V6 (concat (map (to_be 2) [0x2001; 0xdb8; 0; 0; 0; 0; 0; n]))) 443.
Definition happy_eyeballs_interleaves_ipv4_and_ipv6 : test :=
  let v4a := SockV4 [192; 0; 2; 1] 443 in let v4b := SockV4 [192; 0; 2; 2] 443 in
  assert_eq (interleave_addresses [v4a; v4b; v6_addr 1; v6_addr 2]) [v4a; v6_addr 1; v4b; v6_addr 2].
Example happy_eyeballs_interleaves_passes : happy_eyeballs_interleaves_ipv4_and_ipv6 = Some tt.
Proof. run_test. Qed.

(** The test's connector, with its delays in milliseconds. *)
Definition happy_eyeballs_uses_ipv6_when_ipv4_stalls : test :=
  let v4 := SockV4 [192; 0; 2; 1] 443 in let v6 := v6_addr 1 in
  let connect target : Timing.run IpTime.outcome :=
    if is_ipv4 target then At 2000 (inr TimedOut) else At 0 (inl (mk_connected (sa_port target) None)) in
  let '(elapsed, r) := IpTime.race connect 0 0 None (interleave_addresses [v4; v6]) in
  '(_, selected) ← r;
  _ ← assert_eq selected v6;
  assert (elapsed <? 1000).
Example happy_eyeballs_stalls_passes : happy_eyeballs_uses_ipv6_when_ipv4_stalls = Some tt.
Proof. run_test. Qed.

(** The client is gone, the other side silent. *)
Definition client_close_does_not_wait_forever_for_remote : test :=
  let c := fresh [] Conn.Closed (mk_script [] Silent [(0, ReadEnd ToOutlet); (0, Flushed ToOutlet); (0, OutletShut None); (10, Tick)]) in
  assert (match (Relay.copy_with_drain 10 c).1 with Hang => false | _ => true end).
Example client_close_passes : client_close_does_not_wait_forever_for_remote = Some tt.
Proof. run_test. Qed.
End DialTests.

Module PumpTests.
Import Masque Framed.

(** A pump that waits for the edge, and the stream over it. *)
Definition dropping_framed_stream_aborts_its_pump : test :=
  let s := wrap_data_framing (V:=Rfc9000.codec) (fun _ => 1) (mk_rs [] Silent) in
  _ ← assert (running s);
  assert (negb (running (drop_stream s))).
Example dropping_framed_stream_passes : dropping_framed_stream_aborts_its_pump = Some tt.
Proof. run_test. Qed.
End PumpTests.
