(* ===== verification/TestsAssoc.v ===== *)
(** * Unit tests of UDP ASSOCIATE ([socks5.rs])

    The outlets of the tests and the schedules their runtime gives: a worker
    establishes its channel, sends what is queued, receives the echo and hands it
    over; the timers of the tests are the events of their expiry. *)
From S2P Require Import Prelude RustStr NetAddr Conn Outbound Socks5 TestKit.

Module AssocTests.
Import Socks5 Assoc.

Definition no_tcp (_ : Host) (_ : Z) : out ErrorKind Connected := Fail Unsupported.
(** [EchoOutbound]: a channel to any address. *)
Definition EchoOutbound : Outbound :=
  mk_outbound (str_bytes "Echo") true no_tcp
    (fun host port => match host with Ip ip => Ret (mk_datagram 0 (socket_addr_new ip port)) | Domain _ => Fail InvalidInput end).
(** [PendingOutbound]: the channel to [pending_ip] (to every address: [None]) never comes. *)
Definition PendingOutbound (pending_ip : option IpAddr) : Outbound :=
  mk_outbound (str_bytes "Pending") true no_tcp
    (fun host port => match host with
     | Ip ip => if match pending_ip with None => true | Some p => bool_decide (p = ip) end then Hang
                else Ret (mk_datagram 0 (socket_addr_new ip port))
     | Domain _ => Fail InvalidInput
     end).

Definition egress_new : state := new UDP_QUEUE_BYTES UDP_WORKERS.
Definition send_to (target : SocketAddrOrName) (payload : string) (st : state) : state := send target (str_bytes payload) false false st.

(** Worker [i] runs: its next datagram is sent and comes back. *)
Definition worker_runs (outbound : Outbound) (i : nat) (evs : list event) (st : state) : state :=
  fold_left (fun st ev => worker_step outbound i ev st) evs st.
Definition echo (outbound : Outbound) (i : nat) (st : state) : state :=
  let st := worker_runs outbound i [WEstablish i; WTake i; WSent i true] st in
  match last (sent st) with
  | Some (_, payload) => worker_runs outbound i [WRecv i payload; WDeliver i] st
  | None => st
  end.
(** [egress.recv().await], and the permit of the reply dropped. *)
Definition recv (st : state) : option (UdpReply * state) :=
  match replies st with [] => None | r :: _ => Some (r, reply_recv st) end.
(** Every worker calls [connect_udp] once. *)
Definition connects (st : state) : Z := zlen (workers st).
Definition running (w : worker) : bool := match w_state w with Ended => false | _ => true end.
Definition addr (s : string) : option SocketAddrOrName := a ← sock s; Some (Addr a).

Definition udp_association_routes_multiple_ipv4_and_ipv6_targets : test :=
  t4 ← addr "192.0.2.1:53"; t6 ← addr "[2001:db8::1]:53";
  let egress := send_to t6 "v6" (send_to t4 "v4" egress_new) in
  let egress := echo EchoOutbound 1 (echo EchoOutbound 0 egress) in
  '(a, egress) ← recv egress; '(b, egress) ← recv egress;
  let replies : gmap SocketAddr bytes := <[r_from b := r_payload b]> (<[r_from a := r_payload a]> ∅) in
  a4 ← sock "192.0.2.1:53"; a6 ← sock "[2001:db8::1]:53";
  _ ← assert_eq (replies !! a4) (Some (str_bytes "v4"));
  _ ← assert_eq (replies !! a6) (Some (str_bytes "v6"));
  _ ← assert_eq (connects egress) 2;
  let egress := echo EchoOutbound 0 (send_to t4 "again" egress) in
  '(reply, egress) ← recv egress;
  _ ← assert_eq (r_payload reply) (str_bytes "again");
  assert_eq (connects egress) 2.
Example udp_association_routes_passes : udp_association_routes_multiple_ipv4_and_ipv6_targets = Some tt.
Proof. run_test. Qed.

(** A route whose channel is open, and another worker that has ended. *)
Definition completed_worker_cannot_remove_current_route : test :=
  target ← addr "192.0.2.1:53";
  let egress := set_workers egress_new [mk_worker target Establishing []; mk_worker target Ended []] in
  let egress := prune (set_routes egress {[target := 0%nat]}) in
  assert (bool_decide (is_Some (routes egress !! target))).
Example completed_worker_passes : completed_worker_cannot_remove_current_route = Some tt.
Proof. run_test. Qed.

Definition slow_target_establishment_does_not_block_fast_target : test :=
  slow_ip ← ip "192.0.2.1";
  let outbound := PendingOutbound (Some slow_ip) in
  fast ← addr "192.0.2.2:53";
  let egress := send_to fast "fast" (send_to (Addr (socket_addr_new slow_ip 53)) "slow" egress_new) in
  let egress := echo outbound 1 egress in
  '(reply, _) ← recv egress;
  from ← sock "192.0.2.2:53";
  _ ← assert_eq (r_from reply) from;
  assert_eq (r_payload reply) (str_bytes "fast").
Example slow_target_passes : slow_target_establishment_does_not_block_fast_target = Some tt.
Proof. run_test. Qed.

Definition establishment_timeout_releases_route_for_retry : test :=
  let outbound := PendingOutbound None in
  target ← addr "192.0.2.1:53";
  let egress := send_to target "first" egress_new in
  let egress := prune (worker_step outbound 0 (WEstablish 0) egress) in
  _ ← assert (bool_decide (routes egress = ∅));
  _ ← assert_eq (map running (workers egress)) [false];
  let egress := send_to target "retry" egress in
  assert_eq (connects egress) 2.
Example establishment_timeout_passes : establishment_timeout_releases_route_for_retry = Some tt.
Proof. run_test. Qed.

Definition target_limit_rejects_sixty_fifth_route : test :=
  host ← ip "192.0.2.1";
  let target offset := Addr (socket_addr_new host (10000 + Z.of_nat offset)) in
  let egress := fold_left (fun st offset => send_to (target offset) "packet" st)
    (seq 0 (S MAX_UDP_TARGETS_PER_ASSOCIATION)) egress_new in
  let rejected := target MAX_UDP_TARGETS_PER_ASSOCIATION in
  _ ← assert (size (routes egress) =? MAX_UDP_TARGETS_PER_ASSOCIATION)%nat;
  _ ← assert (length (List.filter running (workers egress)) =? MAX_UDP_TARGETS_PER_ASSOCIATION)%nat;
  assert (bool_decide (routes egress !! rejected = None)).
Example target_limit_passes : target_limit_rejects_sixty_fifth_route = Some tt.
Proof. run_test. Qed.

Definition idle_target_is_released_and_reestablished : test :=
  target ← addr "192.0.2.1:53";
  let egress := echo EchoOutbound 0 (send_to target "first" egress_new) in
  '(_, egress) ← recv egress;
  let egress := prune (worker_step EchoOutbound 0 (WIdle 0) egress) in
  _ ← assert (bool_decide (routes egress = ∅));
  let egress := echo EchoOutbound 1 (send_to target "second" egress) in
  '(reply, egress) ← recv egress;
  _ ← assert_eq (r_payload reply) (str_bytes "second");
  assert_eq (connects egress) 2.
Example idle_target_passes : idle_target_is_released_and_reestablished = Some tt.
Proof. run_test. Qed.

Definition dropping_association_cancels_pending_workers : test :=
  target ← addr "192.0.2.1:53";
  let egress := send_to target "packet" egress_new in
  _ ← assert_eq (map running (workers egress)) [true];
  assert_eq (map running (workers (teardown egress))) [false].
Example dropping_association_passes : dropping_association_cancels_pending_workers = Some tt.
Proof. run_test. Qed.
End AssocTests.
